(** * cloudvolume.mesh: a shallow embedding of the Mesh class and its codecs

    The development follows src/cloudvolume/mesh.py.  NumPy arrays are
    modelled as a shape together with the row-major list of their
    elements; a [float32] element is kept as its 32-bit pattern and is
    given its IEEE-754 meaning by [f32_value]; a [uint32] element is an
    integer with the wrap-around written out.  Python exceptions are the
    [Raise] outcomes of a small error monad. *)

From Stdlib.Strings Require Import String Ascii Byte.
From Stdlib Require Import ZArith List Bool Lia.
From Stdlib Require Import Sorted Permutation.
From Stdlib Require Import SpecFloat.
From Stdlib Require DecimalString.
Import ListNotations.

Local Open Scope Z_scope.

(* ------------------------------------------------------------------ *)
(** ** Exceptions and the error monad *)

Inductive exn : Type :=
| NameError (name : string)
| TypeError
| ValueError
| IndexError
| AttributeError
| StructError
| MeshDecodeError (minimum_bytes actual_bytes : Z).

Inductive result (A : Type) : Type :=
| Ok (a : A)
| Raise (e : exn).

Arguments Ok {A} a.
Arguments Raise {A} e.

Definition bind {A B} (c : result A) (k : A -> result B) : result B :=
  match c with
  | Ok a => k a
  | Raise e => Raise e
  end.

Declare Scope py_scope.
Delimit Scope py_scope with py.
Notation "x <- c ;; k" := (bind c (fun x => k))
  (at level 61, c at next level, right associativity) : py_scope.
Notation "' pat <- c ;; k" := (bind c (fun x => match x with pat => k end))
  (at level 61, pat pattern, c at next level, right associativity) : py_scope.
Local Open Scope py_scope.

(** [mapM f l] runs [f] over [l] from the left and stops at the first
    exception. *)
Fixpoint mapM {A B} (f : A -> result B) (l : list A) : result (list B) :=
  match l with
  | [] => Ok []
  | x :: l' => y <- f x ;; ys <- mapM f l' ;; Ok (y :: ys)
  end.

(* ------------------------------------------------------------------ *)
(** ** Scalars *)

(** [np.uint32]: an integer in [0, 2^32); arithmetic wraps. *)
Notation uint32 := Z (only parsing).
Definition u32_mod : Z := 4294967296.
Definition wrap32 (z : Z) : uint32 := z mod u32_mod.
Definition is_u32 (z : Z) : Prop := 0 <= z < u32_mod.

(** [np.float32]: the 32-bit pattern (sign, 8 exponent bits, 23 fraction
    bits). *)
Notation float32 := Z (only parsing).

Definition f32_sign (b : float32) : bool := Z.testbit b 31.
Definition f32_expo (b : float32) : Z := Z.land (Z.shiftr b 23) 255.
Definition f32_frac (b : float32) : Z := Z.land b 8388607.

Definition f32_value (b : float32) : spec_float :=
  let s := f32_sign b in
  let e := f32_expo b in
  let m := f32_frac b in
  if e =? 255 then
    if m =? 0 then S754_infinity s else S754_nan
  else if e =? 0 then
    match m with
    | Zpos p => S754_finite s p (-149)
    | _ => S754_zero s
    end
  else
    match m + 8388608 with
    | Zpos p => S754_finite s p (e - 150)
    | _ => S754_nan
    end.

Arguments f32_value : simpl never.

Definition sf_is_nan (x : spec_float) : bool :=
  match x with S754_nan => true | _ => false end.

Definition f32_is_nan (b : float32) : bool := sf_is_nan (f32_value b).

(** Elementwise [==] and [<] of float arrays: IEEE comparisons, false as
    soon as one side is NaN. *)
Definition f32_eqb (a b : float32) : bool := SFeqb (f32_value a) (f32_value b).
Definition f32_ltb (a b : float32) : bool := SFltb (f32_value a) (f32_value b).

(** The order NumPy sorts floats by: the IEEE order, with NaN after every
    number and the NaNs tied. *)
Definition sf_sort_cmp (x y : spec_float) : comparison :=
  match SFcompare x y with
  | Some c => c
  | None =>
      if sf_is_nan x then (if sf_is_nan y then Eq else Gt) else Lt
  end.

Definition f32_sort_cmp (a b : float32) : comparison :=
  sf_sort_cmp (f32_value a) (f32_value b).

(* ------------------------------------------------------------------ *)
(** ** Arrays *)

Record ndarray (A : Type) : Type := NdArray {
  shape : list nat;
  data : list A
}.

Arguments NdArray {A} shape data.
Arguments shape {A} n.
Arguments data {A} n.

Definition numel (sh : list nat) : nat := fold_right Nat.mul 1%nat sh.

(** [a.size] and [a.ndim]. *)
Definition size {A} (a : ndarray A) : nat := numel (shape a).
Definition ndim {A} (a : ndarray A) : nat := length (shape a).

(** The representation invariant: as many elements as the shape says. *)
Definition array_wf {A} (a : ndarray A) : Prop :=
  length (data a) = numel (shape a).

(** [a.shape[0]]; indexing the empty shape tuple of a 0-d array raises. *)
Definition shape0 {A} (a : ndarray A) : result nat :=
  match shape a with
  | n :: _ => Ok n
  | [] => Raise IndexError
  end.

(** The blocks of an array along axis 0: [n] consecutive chunks of [w]
    elements. *)
Fixpoint chunks {A} (n w : nat) (l : list A) : list (list A) :=
  match n with
  | O => []
  | S n' => firstn w l :: chunks n' w (skipn w l)
  end.

Definition rows {A} (a : ndarray A) : list (list A) :=
  match shape a with
  | n :: rest => chunks n (numel rest) (data a)
  | [] => []
  end.

(** The array of shape [(len rs, *rest)] whose blocks are [rs]. *)
Definition of_rows {A} (rest : list nat) (rs : list (list A)) : ndarray A :=
  NdArray (length rs :: rest) (concat rs).

(** [np.array(a, dtype=...)] and [a.astype(...)]: same shape, every
    element converted. *)
Definition np_array {A B} (cast : A -> B) (a : ndarray A) : ndarray B :=
  NdArray (shape a) (map cast (data a)).

(** [np.array([], dtype=...)]: the empty Python list is a 1-d array of
    length 0. *)
Definition empty_list_array {A} : ndarray A := NdArray [0%nat] [].

(** An [N x 3] array. *)
Definition three_wide {A} (a : ndarray A) : bool :=
  match shape a with
  | [_; 3%nat] => true
  | _ => false
  end.

(** *** Broadcasting, for [np.all(a == b)] *)

Fixpoint pad_ones (k : nat) (sh : list nat) : list nat :=
  match k with
  | O => sh
  | S k' => 1%nat :: pad_ones k' sh
  end.

Definition pad_to (n : nat) (sh : list nat) : list nat :=
  pad_ones (n - length sh) sh.

(** Shapes of equal rank: each pair of extents must agree or one of them
    must be 1. *)
Fixpoint broadcast_dims (s1 s2 : list nat) : option (list nat) :=
  match s1, s2 with
  | [], [] => Some []
  | n1 :: r1, n2 :: r2 =>
      match broadcast_dims r1 r2 with
      | None => None
      | Some r =>
          if (n1 =? n2)%nat then Some (n1 :: r)
          else if (n1 =? 1)%nat then Some (n2 :: r)
          else if (n2 =? 1)%nat then Some (n1 :: r)
          else None
      end
  | _, _ => None
  end.

Definition broadcast_shapes (s1 s2 : list nat) : option (list nat) :=
  let n := Nat.max (length s1) (length s2) in
  broadcast_dims (pad_to n s1) (pad_to n s2).

(** The elements of an array of shape [src] seen through the broadcast
    shape [target] (same rank), in row-major order. *)
Fixpoint expand {A} (target src : list nat) (d : list A) : list A :=
  match target, src with
  | t :: ts, s :: ss =>
      if (s =? t)%nat then concat (map (expand ts ss) (chunks s (numel ss) d))
      else concat (repeat (expand ts ss d) t)
  | _, _ => d
  end.

Definition broadcast_to {A} (target : list nat) (a : ndarray A) : list A :=
  expand target (pad_to (length target) (shape a)) (data a).

Fixpoint forallb2 {A B} (f : A -> B -> bool) (l1 : list A) (l2 : list B) : bool :=
  match l1, l2 with
  | x :: l1', y :: l2' => f x y && forallb2 f l1' l2'
  | _, _ => true
  end.

(** [np.all(a == b)].  Shapes that do not broadcast make [==] raise
    (NumPy 1.25 and later; earlier releases warned and answered False). *)
Definition np_all_eq {A} (eqb : A -> A -> bool) (a b : ndarray A) : result bool :=
  match broadcast_shapes (shape a) (shape b) with
  | None => Raise ValueError
  | Some sh => Ok (forallb2 eqb (broadcast_to sh a) (broadcast_to sh b))
  end.

(* ------------------------------------------------------------------ *)
(** ** The Mesh class *)

(** [encoding_type]: unset, a tag, or (after [concatenate] of meshes that
    disagree) the list of the distinct tags. *)
Inductive encoding : Type :=
| EncNone
| EncTag (tag : string)
| EncList (tags : list (option string)).

Record Mesh : Type := mkMesh {
  vertices : ndarray float32;
  faces : ndarray uint32;
  normals : ndarray float32;
  segid : option Z;
  encoding_type : encoding;
  encoding_options : option string
}.

(** [Mesh.__init__].  Vertices and normals are copied into float32 arrays
    and faces are converted to uint32 (integers wrap); the shapes are those
    of the arguments.  Without normals the mesh gets an empty [0 x 3]
    array. *)
Definition Mesh_init (vertices : ndarray float32) (faces : ndarray Z)
    (normals : option (ndarray float32)) (segid : option Z)
    (encoding_type : encoding) (encoding_options : option string) : Mesh :=
  {| vertices := np_array (fun x => x) vertices;
     faces := np_array wrap32 faces;
     normals := match normals with
                | None => NdArray [0%nat; 3%nat] []
                | Some n => np_array (fun x => x) n
                end;
     segid := segid;
     encoding_type := encoding_type;
     encoding_options := encoding_options |}.

(** [Mesh.__len__]. *)
Definition Mesh_len (self : Mesh) : result nat := shape0 (vertices self).

(** [Mesh.empty]. *)
Definition Mesh_empty (self : Mesh) : bool :=
  (size (vertices self) =? 0)%nat || (size (faces self) =? 0)%nat.

(** [Mesh.__eq__].  Python's [x and y] evaluates [y] only when [x] is
    true. *)
Definition Mesh_eq (self other : Mesh) : result bool :=
  let no_self_normals := (size (normals self) =? 0)%nat in
  let no_other_normals := (size (normals other) =? 0)%nat in
  if negb (Bool.eqb no_self_normals no_other_normals) then Ok false
  else
    v <- np_all_eq f32_eqb (vertices self) (vertices other) ;;
    equality <- (if v then np_all_eq Z.eqb (faces self) (faces other)
                 else Ok false) ;;
    if no_self_normals then Ok equality
    else if equality then np_all_eq f32_eqb (normals self) (normals other)
    else Ok false.

(* ------------------------------------------------------------------ *)
(** ** np.unique along axis 0

    NumPy views every block along axis 0 as one record, sorts the
    records and starts a new group wherever a record differs ([!=]) from
    the one before it.  Records are paired with their original position.
    The sort is a stable merge sort when [return_index] is asked for.
    Without it the sort is NumPy's quicksort, which is not stable: the
    order in which it leaves records that compare equal (rows that differ
    in the sign of a zero, rows with NaN) is its own. *)

Section Unique.
Context {R : Type}.
Variable cmp : R -> R -> comparison.
Variable eqb : R -> R -> bool.

Fixpoint insert_sorted (x : nat * R) (l : list (nat * R)) : list (nat * R) :=
  match l with
  | [] => [x]
  | y :: l' =>
      match cmp (snd x) (snd y) with
      | Gt => y :: insert_sorted x l'
      | _ => x :: l
      end
  end.

Definition stable_sort (l : list (nat * R)) : list (nat * R) :=
  fold_right insert_sorted [] l.

Definition enumerate (rs : list R) : list (nat * R) :=
  combine (seq 0 (length rs)) rs.

Definition argsort (rs : list R) : list (nat * R) :=
  stable_sort (enumerate rs).

(** A group is its first record and the records that follow it. *)
Fixpoint group_runs (l : list (nat * R)) : list ((nat * R) * list (nat * R)) :=
  match l with
  | [] => []
  | x :: l' =>
      match group_runs l' with
      | (y, g) :: gs =>
          if eqb (snd y) (snd x) then (x, y :: g) :: gs
          else (x, []) :: (y, g) :: gs
      | [] => [(x, [])]
      end
  end.

Definition group_members (g : (nat * R) * list (nat * R)) : list (nat * R) :=
  fst g :: snd g.

Definition unique_groups (rs : list R) : list ((nat * R) * list (nat * R)) :=
  group_runs (argsort rs).

(** The unique records, [return_index], [return_counts]. *)
Definition unique_values (rs : list R) : list R :=
  map (fun g => snd (fst g)) (unique_groups rs).

Definition unique_index (rs : list R) : list nat :=
  map (fun g => fst (fst g)) (unique_groups rs).

Definition unique_counts (rs : list R) : list nat :=
  map (fun g => S (length (snd g))) (unique_groups rs).

(** [return_inverse]: for every original position, the number of the
    group its record went to. *)
Fixpoint group_of (i : nat) (gs : list ((nat * R) * list (nat * R))) : nat :=
  match gs with
  | [] => O
  | g :: gs' =>
      if existsb (fun p => (fst p =? i)%nat) (group_members g) then O
      else S (group_of i gs')
  end.

Definition unique_inverse (rs : list R) : list nat :=
  map (fun i => group_of i (unique_groups rs)) (seq 0 (length rs)).
End Unique.

(** The same outputs when the records are sorted by [quicksort], the
    sort that [np.unique] uses when [return_index] is not asked for:
    [quicksort rs] is [ar.argsort(kind='quicksort')], every position given
    with its record. *)
Section UniqueBy.
Context {R : Type}.
Variable quicksort : list R -> list (nat * R).
Variable eqb : R -> R -> bool.

Definition unique_groups_by (rs : list R) : list ((nat * R) * list (nat * R)) :=
  group_runs eqb (quicksort rs).

Definition unique_values_by (rs : list R) : list R :=
  map (fun g => snd (fst g)) (unique_groups_by rs).

Definition unique_counts_by (rs : list R) : list nat :=
  map (fun g => S (length (snd g))) (unique_groups_by rs).

Definition unique_inverse_by (rs : list R) : list nat :=
  map (fun i => group_of i (unique_groups_by rs)) (seq 0 (length rs)).
End UniqueBy.

(** Lexicographic comparison of records, field by field. *)
Fixpoint lex_cmp {A} (c : A -> A -> comparison) (r1 r2 : list A) : comparison :=
  match r1, r2 with
  | [], [] => Eq
  | [], _ :: _ => Lt
  | _ :: _, [] => Gt
  | x :: r1', y :: r2' =>
      match c x y with
      | Eq => lex_cmp c r1' r2'
      | o => o
      end
  end.

(** [==] of two records of the same layout: every field equal. *)
Fixpoint row_eqb {A} (e : A -> A -> bool) (r1 r2 : list A) : bool :=
  match r1, r2 with
  | [], [] => true
  | x :: r1', y :: r2' => e x y && row_eqb e r1' r2'
  | _, _ => false
  end.

Fixpoint shape_eqb (s1 s2 : list nat) : bool :=
  match s1, s2 with
  | [], [] => true
  | x :: s1', y :: s2' => (x =? y)%nat && shape_eqb s1' s2'
  | _, _ => false
  end.

(** [np.concatenate] along axis 0: at least one array, none 0-d, all of
    the same shape past axis 0. *)
Definition np_concatenate {A} (arrays : list (ndarray A)) : result (ndarray A) :=
  match arrays with
  | [] => Raise ValueError
  | a :: _ =>
      match shape a with
      | [] => Raise ValueError
      | _ :: rest =>
          if forallb (fun b => match shape b with
                               | [] => false
                               | _ :: rest' => shape_eqb rest rest'
                               end) arrays
          then Ok (NdArray
                     (fold_right Nat.add 0%nat
                        (map (fun b => hd 0%nat (shape b)) arrays) :: rest)
                     (concat (map data arrays)))
          else Raise ValueError
      end
  end.

(** [a.reshape(sh)]. *)
Definition reshape {A} (sh : list nat) (a : ndarray A) : result (ndarray A) :=
  if (numel sh =? size a)%nat then Ok (NdArray sh (data a))
  else Raise ValueError.

(* ------------------------------------------------------------------ *)
(** ** Mesh.concatenate *)

(** [np.cumsum] of a list of Python integers. *)
Fixpoint cumsum_from (acc : Z) (l : list Z) : list Z :=
  match l with
  | [] => []
  | x :: l' => (acc + x) :: cumsum_from (acc + x) l'
  end.

Definition np_cumsum (l : list Z) : list Z := cumsum_from 0 l.

(** [vertex_ct]: a uint32 array, 0 followed by the running vertex counts
    (stored into uint32, so reduced modulo 2^32). *)
Definition vertex_ct (lens : list nat) : list uint32 :=
  0 :: map wrap32 (np_cumsum (map Z.of_nat lens)).

(** [enumerate(meshes)]. *)
Definition py_enumerate {A} (l : list A) : list (nat * A) :=
  combine (seq 0 (length l)) l.

Definition hashable (e : encoding) : bool :=
  match e with EncList _ => false | _ => true end.

Definition enc_key (e : encoding) : option string :=
  match e with EncTag s => Some s | _ => None end.

Definition opt_string_eqb (a b : option string) : bool :=
  match a, b with
  | None, None => true
  | Some x, Some y => String.eqb x y
  | _, _ => false
  end.

(** The distinct values of a list in the order of their first
    occurrences: one of the orders a set of them may iterate in. *)
Fixpoint distinct (l : list (option string)) : list (option string) :=
  match l with
  | [] => []
  | x :: l' => x :: filter (fun y => negb (opt_string_eqb x y)) (distinct l')
  end.

Section Concatenate.
(** [list(set(xs))]: the distinct values of [xs], in the order the set
    iterates in.  Python leaves that order open: it follows the hashes of
    the values, and those of strings change from one run to the next. *)
Variable set_list : list (option string) -> list (option string).

Definition concat_encoding (meshes : list Mesh) : result encoding :=
  if forallb (fun m => hashable (encoding_type m)) meshes then
    match set_list (map (fun m => enc_key (encoding_type m)) meshes) with
    | [None] => Ok EncNone
    | [Some s] => Ok (EncTag s)
    | l => Ok (EncList l)
    end
  else Raise TypeError.

Definition Mesh_concatenate (meshes : list Mesh) : result Mesh :=
  lens <- mapM Mesh_len meshes ;;
  let ct := vertex_ct lens in
  vs <- np_concatenate (map vertices meshes) ;;
  fs <- np_concatenate
          (map (fun im => np_array (fun f => wrap32 (f + nth (fst im) ct 0))
                                   (faces (snd im)))
               (py_enumerate meshes)) ;;
  ns <- np_concatenate (map normals meshes) ;;
  enc <- concat_encoding meshes ;;
  Ok (Mesh_init vs fs (Some ns) None enc None).
End Concatenate.

(* ------------------------------------------------------------------ *)
(** ** Mesh.consolidate *)

(** [np.unique(a, axis=0)] needs an axis 0. *)
Definition axis0_rows {A} (a : ndarray A) : result (list (list A)) :=
  match shape a with
  | [] => Raise ValueError
  | _ => Ok (rows a)
  end.

(** [idx_representative[x]]. *)
Definition index_list {A} (l : list A) (i : Z) : result A :=
  if (i <? 0) || (Z.of_nat (length l) <=? i) then Raise IndexError
  else match nth_error l (Z.to_nat i) with
       | Some x => Ok x
       | None => Raise IndexError
       end.

Definition Mesh_consolidate (self : Mesh) : result Mesh :=
  if Mesh_empty self then
    Ok (Mesh_init empty_list_array empty_list_array None None EncNone None)
  else
    vrows <- axis0_rows (vertices self) ;;
    let eff_verts :=
      of_rows (tl (shape (vertices self)))
              (unique_values (lex_cmp f32_sort_cmp) (row_eqb f32_eqb) vrows) in
    let idx_representative :=
      unique_inverse (lex_cmp f32_sort_cmp) (row_eqb f32_eqb) vrows in
    mapped <- mapM (fun x => r <- index_list idx_representative x ;;
                             Ok (Z.of_nat r))
                   (data (faces self)) ;;
    let eff_faces0 := NdArray (shape (faces self)) mapped in
    frows <- axis0_rows eff_faces0 ;;
    let eff_faces :=
      of_rows (tl (shape (faces self)))
              (unique_values (lex_cmp Z.compare) (row_eqb Z.eqb) frows) in
    Ok (Mesh_init eff_verts eff_faces None (segid self)
                  (encoding_type self) (encoding_options self)).

(* ------------------------------------------------------------------ *)
(** ** The Precomputed binary codec

    The host is little-endian, as the format is: [struct]'s native order
    [=I], [frombuffer] and [tobytes] all lay a 32-bit word out lowest byte
    first. *)

Definition Z_of_byte (b : byte) : Z := Z.of_N (Byte.to_N b).

Definition byte_of_Z (z : Z) : byte :=
  match Byte.of_N (Z.to_N (z mod 256)) with
  | Some b => b
  | None => x00
  end.

Definition le32_bytes (w : Z) : list byte :=
  [byte_of_Z w; byte_of_Z (w / 256); byte_of_Z (w / 65536);
   byte_of_Z (w / 16777216)].

Definition le32_word (bs : list byte) : Z :=
  match bs with
  | [b0; b1; b2; b3] =>
      Z_of_byte b0 + 256 * Z_of_byte b1 + 65536 * Z_of_byte b2
      + 16777216 * Z_of_byte b3
  | _ => 0
  end.

(** [struct.unpack("=I", bs)[0]]. *)
Definition struct_unpack_I (bs : list byte) : result Z :=
  if (length bs =? 4)%nat then Ok (le32_word bs) else Raise StructError.

(** [np.frombuffer(binary, dtype=<4-byte type>, count=..., offset=...)]:
    a 1-d array of [count] words, or of all the words left when [count]
    is negative. *)
Definition np_frombuffer (binary : list byte) (count offset : Z) : result (ndarray Z) :=
  let ts := Z.of_nat (length binary) in
  if (offset <? 0) || (ts <? offset) then Raise ValueError
  else
    let s := ts - offset in
    let rest := skipn (Z.to_nat offset) binary in
    if count <? 0 then
      if s mod 4 =? 0 then
        let n := Z.to_nat (s / 4) in
        Ok (NdArray [n] (map le32_word (chunks n 4 rest)))
      else Raise ValueError
    else if s <? count * 4 then Raise ValueError
    else
      let n := Z.to_nat count in
      Ok (NdArray [n] (map le32_word (chunks n 4 rest))).

(** [a.tobytes('C')] of an array of 4-byte elements. *)
Definition tobytes (a : ndarray Z) : list byte := flat_map le32_bytes (data a).

(** [try: ... except ValueError: raise MeshDecodeError(...)] *)
Definition except_ValueError {A} (c : result A) (e : exn) : result A :=
  match c with
  | Raise ValueError => Raise e
  | r => r
  end.

Definition Mesh_from_precomputed (binary : list byte) : result Mesh :=
  num_vertices <- struct_unpack_I (firstn 4 binary) ;;
  '(vertices, faces) <-
     except_ValueError
       (vertices <- np_frombuffer binary (3 * num_vertices) 4 ;;
        faces <- np_frombuffer binary (-1) (4 + 12 * num_vertices) ;;
        Ok (vertices, faces))
       (MeshDecodeError (4 + 4 * num_vertices) (Z.of_nat (length binary))) ;;
  vertices <- reshape [Z.to_nat num_vertices; 3%nat] vertices ;;
  faces <- reshape [(size faces / 3)%nat; 3%nat] faces ;;
  Ok (Mesh_init vertices faces None None (EncTag "precomputed") None).

Definition Mesh_to_precomputed (self : Mesh) : result (list byte) :=
  n <- shape0 (vertices self) ;;
  Ok (le32_bytes (wrap32 (Z.of_nat n))
      ++ tobytes (vertices self) ++ tobytes (faces self)).

(* ------------------------------------------------------------------ *)
(** ** The OBJ text codec

    A text is a Python [str] whose characters are code points below 256,
    one character of the string each.  What [to_obj] produces is ASCII, so
    its UTF-8 encoding and the decoding in [from_obj] change nothing. *)

Local Open Scope string_scope.
Local Open Scope Z_scope.

Definition dec_string (n : Z) : string :=
  DecimalString.NilZero.string_of_uint (N.to_uint (Z.to_N n)).

(** Nearest integer to [n / d], ties to even ([d > 0], [n >= 0]). *)
Definition round_half_even (n d : Z) : Z :=
  let q := n / d in
  let r := n mod d in
  if (d <? 2 * r) || ((2 * r =? d) && Z.odd q) then q + 1 else q.

Definition drop_first (s : string) : string :=
  match s with
  | EmptyString => EmptyString
  | String _ r => r
  end.

(** ['{:.5f}'.format(x)] for a float32 [x]: the exact value, correctly
    rounded to five decimals. *)
Definition format_5f (b : float32) : string :=
  match f32_value b with
  | S754_nan => "nan"
  | S754_infinity s => if s then "-inf" else "inf"
  | S754_zero s => if s then "-0.00000" else "0.00000"
  | S754_finite s m e =>
      let n := Zpos m * 100000 * 2 ^ (Z.max e 0) in
      let d := 2 ^ (Z.max (- e) 0) in
      let q := round_half_even n d in
      ((if s then "-" else "")
         ++ dec_string (q / 100000) ++ "."
         ++ drop_first (dec_string (100000 + q mod 100000)))%string
  end.

Arguments dec_string : simpl never.
Arguments format_5f : simpl never.

Fixpoint join (sep : string) (l : list string) : string :=
  match l with
  | [] => ""
  | [x] => x
  | x :: l' => (x ++ sep ++ join sep l')%string
  end.

Definition newline : string := String (ascii_of_nat 10) EmptyString.

(** The line of one vertex, three fields formatted with [{:.5f}] from the
    unpacked row: the first three entries of the row are used; a shorter
    row raises IndexError. *)
Definition format_vertex (row : list float32) : result string :=
  match row with
  | x :: y :: z :: _ =>
      Ok ("v " ++ format_5f x ++ " " ++ format_5f y ++ " " ++ format_5f z)%string
  | _ => Raise IndexError
  end.

Definition format_face (row : list uint32) : result string :=
  match row with
  | a :: b :: c :: _ =>
      Ok ("f " ++ dec_string a ++ " " ++ dec_string b ++ " " ++ dec_string c)%string
  | _ => Raise IndexError
  end.

(** The rows a [for] loop over a 2-d array yields.  Rows of a 1-d array
    are scalars, which cannot be unpacked into [format]; 0-d arrays cannot be
    iterated; arrays of more dimensions are outside this model. *)
Definition iter_rows {A} (a : ndarray A) : result (list (list A)) :=
  match shape a with
  | [_; _] => Ok (rows a)
  | [_] => if (size a =? 0)%nat then Ok [] else Raise TypeError
  | _ => Raise TypeError
  end.

Definition Mesh_to_obj (self : Mesh) : result string :=
  vrows <- iter_rows (vertices self) ;;
  vlines <- mapM format_vertex vrows ;;
  frows <- iter_rows (np_array (fun f => wrap32 (f + 1)) (faces self)) ;;
  flines <- mapM format_face frows ;;
  Ok (join newline (vlines ++ flines)%list ++ newline)%string.

(** [text.split('\n')]. *)
Fixpoint split_lines_from (cur : string) (s : string) : list string :=
  match s with
  | EmptyString => [cur]
  | String c r =>
      if Ascii.eqb c (ascii_of_nat 10) then cur :: split_lines_from "" r
      else split_lines_from (cur ++ String c EmptyString)%string r
  end.

Definition split_lines (s : string) : list string := split_lines_from "" s.

(** The characters [str.strip] removes, those [str.isspace] holds for:
    below 256 these are the ASCII white space (9 to 13, 28 to 32), the next
    line control U+0085 and the no-break space U+00A0. *)
Definition is_space (c : ascii) : bool :=
  let n := nat_of_ascii c in
  ((9 <=? n) && (n <=? 13) || (28 <=? n) && (n <=? 32)
   || (n =? 133) || (n =? 160))%nat.

Fixpoint lstrip (s : string) : string :=
  match s with
  | String c r => if is_space c then lstrip r else s
  | EmptyString => EmptyString
  end.

Fixpoint rstrip (s : string) : string :=
  match s with
  | EmptyString => EmptyString
  | String c r =>
      match rstrip r with
      | EmptyString => if is_space c then EmptyString else String c EmptyString
      | r' => String c r'
      end
  end.

Definition strip (s : string) : string := rstrip (lstrip s).

Fixpoint contains_char (c : ascii) (s : string) : bool :=
  match s with
  | EmptyString => false
  | String d r => Ascii.eqb c d || contains_char c r
  end.

(** [int(s)] on a string of decimal digits. *)
Fixpoint int_digits (acc : Z) (s : string) : result Z :=
  match s with
  | EmptyString => Ok acc
  | String c r =>
      let n := nat_of_ascii c in
      if ((48 <=? n) && (n <=? 57))%nat
      then int_digits (10 * acc + Z.of_nat (n - 48)) r
      else Raise ValueError
  end.

Definition py_int (s : string) : result Z :=
  match s with
  | EmptyString => Raise ValueError
  | _ => int_digits 0 s
  end.

(** The names that the statements of mesh.py bind at module level: its
    five imports and its own definitions.  A global name is looked up when
    the expression that uses it is evaluated. *)
Definition mesh_module_names : list string :=
  ["copy"; "struct"; "np"; "MeshDecodeError"; "yellow"; "NOTICE";
   "deprecation_notice"; "dist_to_chunk"; "is_draco_chunk_aligned"; "Mesh"].

Definition lookup_global (name : string) : result unit :=
  if existsb (String.eqb name) mesh_module_names then Ok tt
  else Raise (NameError name).

Definition pattern_index : string := ("(\d+)/(\d*" ++ ")/(\d+)")%string.
Definition pattern_f_slash : string :=
  ("f\s+" ++ pattern_index ++ "\s+" ++ pattern_index ++ "\s+"
   ++ pattern_index)%string.
Definition pattern_f : string := "f\s+(\d+)\s+(\d+)\s+(\d+)".
Definition pattern_vn : string := "vn\s+([-\d\.]+)\s+([-\d\.]+)\s+([-\d\.]+)".
Definition pattern_v : string := "v\s+([-\d\.]+)\s+([-\d\.]+)\s+([-\d\.]+)".

Record obj_lists : Type := mkObjLists {
  obj_vertices : list (list float32);
  obj_faces : list (list Z);
  obj_normals : list (list float32)
}.

(** [np.array(list_of_triples, dtype=...)]: [n x 3], or the 1-d empty
    array when the list is empty. *)
Definition array_of_triples {A} (l : list (list A)) : ndarray A :=
  match l with
  | [] => empty_list_array
  | _ => of_rows [3%nat] l
  end.

Section FromObj.
(** The library functions [from_obj] calls: the regular expression
    matcher of the standard [re] module (the groups of the match at the
    start of the line, if there is one) and [float] followed by the
    conversion to float32. *)
Variable re_match : string -> string -> option (list string).
Variable parse_float32 : string -> result float32.

(** [re.match(pattern, line).groups()]: the name [re] is resolved first;
    no match gives [None], which has no [groups]. *)
Definition match_groups (pattern line : string) : result (list string) :=
  _ <- lookup_global "re" ;;
  match re_match pattern line with
  | Some groups => Ok groups
  | None => Raise AttributeError
  end.

Definition three_floats (groups : list string) : result (list float32) :=
  match groups with
  | [a; b; c] =>
      x <- parse_float32 a ;; y <- parse_float32 b ;; z <- parse_float32 c ;;
      Ok [x; y; z]
  | _ => Raise ValueError
  end.

(** One iteration of the loop over the lines. *)
Definition obj_line (acc : obj_lists) (raw : string) : result obj_lists :=
  let line := strip raw in
  match line with
  | EmptyString => Ok acc
  | String c rest =>
      if Ascii.eqb c "#" then Ok acc
      else if Ascii.eqb c "f" then
        vs <- (if contains_char "/" line then
                 groups <- match_groups pattern_f_slash line ;;
                 match groups with
                 | [v1; _; _; v2; _; _; v3; _; _] => Ok (v1, v2, v3)
                 | _ => Raise ValueError
                 end
               else
                 groups <- match_groups pattern_f line ;;
                 match groups with
                 | [v1; v2; v3] => Ok (v1, v2, v3)
                 | _ => Raise ValueError
                 end) ;;
        let '(v1, v2, v3) := vs in
        a <- py_int v1 ;; b <- py_int v2 ;; c <- py_int v3 ;;
        Ok (mkObjLists (obj_vertices acc) ((obj_faces acc ++ [[a; b; c]])%list)
                       (obj_normals acc))
      else if Ascii.eqb c "v" then
        match rest with
        | EmptyString => Raise IndexError
        | String c1 _ =>
            if Ascii.eqb c1 "t" then Ok acc
            else if Ascii.eqb c1 "n" then
              groups <- match_groups pattern_vn line ;;
              n <- three_floats groups ;;
              Ok (mkObjLists (obj_vertices acc) (obj_faces acc)
                             (obj_normals acc ++ [n])%list)
            else
              groups <- match_groups pattern_v line ;;
              v <- three_floats groups ;;
              Ok (mkObjLists (obj_vertices acc ++ [v])%list (obj_faces acc)
                             (obj_normals acc))
        end
      else Ok acc
  end.

Fixpoint obj_lines (acc : obj_lists) (lines : list string) : result obj_lists :=
  match lines with
  | [] => Ok acc
  | l :: ls => acc' <- obj_line acc l ;; obj_lines acc' ls
  end.

Definition Mesh_from_obj (text : string) : result Mesh :=
  acc <- obj_lines (mkObjLists [] [] []) (split_lines text) ;;
  let vertices := array_of_triples (obj_vertices acc) in
  let faces := np_array wrap32 (array_of_triples (obj_faces acc)) in
  let normals := array_of_triples (obj_normals acc) in
  Ok (Mesh_init vertices (np_array (fun f => f - 1) faces) (Some normals)
                None EncNone None).
End FromObj.

Local Close Scope string_scope.

(* ------------------------------------------------------------------ *)
(** ** Chunk alignment tests

    The vertices are a float32 array; the chunk size and the grid size
    are what the caller passes.  NumPy computes an operation in the wider
    of the dtypes of its two operands, float32 or float64, and rounds the
    result to that dtype.  An operand is given here by its dtype and its
    values; a value is a [spec_float] and is converted by [astype] to the
    dtype of the operation it enters.  The dtype of an operand is the one
    NumPy's promotion gives it against a float array:
    - a Python float or int counts as float32, whatever its precision, for
      it takes the dtype of the array it meets (NumPy 1 excepts an int
      that does not fit 16 bits and a float outside the range of float32:
      these count as float64);
    - a list or tuple of Python numbers and an array of float64 or of
      integers of 32 or 64 bits count as float64;
    - an array of float32, of float16 or of integers of at most 16 bits
      counts as float32. *)

Inductive dtype : Type := F32 | F64.

Definition dt_prec (dt : dtype) : Z := match dt with F32 => 24 | F64 => 53 end.
Definition dt_emax (dt : dtype) : Z := match dt with F32 => 128 | F64 => 1024 end.

(** [np.result_type] of two float dtypes. *)
Definition promote (a b : dtype) : dtype :=
  match a, b with
  | F32, F32 => F32
  | _, _ => F64
  end.

(** [x] converted to dtype [dt]: written with the digits of that dtype,
    rounded to nearest (ties to even) when it has too many. *)
Definition astype (dt : dtype) (x : spec_float) : spec_float :=
  match x with
  | S754_finite s m e =>
      binary_normalize (dt_prec dt) (dt_emax dt) (cond_Zopp s (Zpos m)) e s
  | _ => x
  end.

Definition sf_add (dt : dtype) (x y : spec_float) : spec_float :=
  SFadd (dt_prec dt) (dt_emax dt) x y.
Definition sf_sub (dt : dtype) (x y : spec_float) : spec_float :=
  SFsub (dt_prec dt) (dt_emax dt) x y.

(** A Python integer as a float32. *)
Definition sf_of_Z (z : Z) : spec_float := binary_normalize 24 128 z 0 false.

Definition sf_zero : spec_float := S754_zero false.

Definition sf_is_zero (x : spec_float) : bool :=
  match x with S754_zero _ => true | _ => false end.

Definition sf_signbit (x : spec_float) : bool :=
  match x with
  | S754_zero s | S754_infinity s | S754_finite s _ _ => s
  | S754_nan => false
  end.

(** C's [fmod]: the exact remainder of the division truncated towards
    zero, with the sign of the dividend. *)
Definition sf_fmod (dt : dtype) (x y : spec_float) : spec_float :=
  match x, y with
  | S754_nan, _ | _, S754_nan => S754_nan
  | S754_infinity _, _ => S754_nan
  | _, S754_zero _ => S754_nan
  | _, S754_infinity _ => x
  | S754_zero _, _ => x
  | S754_finite sx mx ex, S754_finite _ my ey =>
      let e := Z.min ex ey in
      let r := (Zpos mx * 2 ^ (ex - e)) mod (Zpos my * 2 ^ (ey - e)) in
      binary_normalize (dt_prec dt) (dt_emax dt) (cond_Zopp sx r) e sx
  end.

(** [np.mod] on two floats of dtype [dt]: [fmod] moved to the sign of the
    divisor. *)
Definition np_mod (dt : dtype) (a b : spec_float) : spec_float :=
  let md := sf_fmod dt a b in
  if sf_is_zero b then md
  else if sf_is_zero md then S754_zero (sf_signbit b)
  else if Bool.eqb (SFltb b sf_zero) (SFltb md sf_zero) then md
  else sf_add dt md b.

(** [np.minimum]: the first argument when it is a NaN or not above the
    second one. *)
Definition np_minimum (a b : spec_float) : spec_float :=
  if SFleb a b || sf_is_nan a then a else b.

(** [a < b] for [a] of dtype [da] and [b] of dtype [db]. *)
Definition np_less (da : dtype) (a : spec_float) (db : dtype) (b : spec_float)
    : bool :=
  let dt := promote da db in
  SFltb (astype dt a) (astype dt b).

(** [dist_to_chunk], on one coordinate [v] of dtype [dv] and the chunk
    size of its axis, of dtype [dc]; the result has dtype
    [promote dv dc]. *)
Definition dist_to_chunk (dv : dtype) (v : spec_float)
    (dc : dtype) (chunk_size : spec_float) : spec_float :=
  let dt := promote dv dc in
  let plus_one_dist := np_mod dt (astype dt v) (astype dt chunk_size) in
  let minus_one_dist := sf_sub dt (astype dt chunk_size) plus_one_dist in
  np_minimum plus_one_dist minus_one_dist.

(** The chunk size is a number or one number per axis, of a dtype. *)
Inductive chunk : Type :=
| ChunkScalar (dt : dtype) (c : spec_float)
| ChunkAxes (dt : dtype) (cs : list spec_float).

Definition chunk_dtype (c : chunk) : dtype :=
  match c with
  | ChunkScalar dt _ | ChunkAxes dt _ => dt
  end.

(** The chunk size broadcast against rows of [w] coordinates. *)
Definition broadcast_chunk (c : chunk) (w : nat) : result (list spec_float) :=
  match c with
  | ChunkScalar _ x => Ok (repeat x w)
  | ChunkAxes _ [x] => Ok (repeat x w)
  | ChunkAxes _ cs => if (length cs =? w)%nat then Ok cs else Raise ValueError
  end.

Fixpoint existsb2 {A B} (f : A -> B -> bool) (l1 : list A) (l2 : list B) : bool :=
  match l1, l2 with
  | x :: l1', y :: l2' => f x y || existsb2 f l1' l2'
  | _, _ => false
  end.

(** One coordinate of the draco test: [dc] is the dtype of the chunk
    size, [dg] the dtype of the grid size. *)
Definition draco_axis_aligned (dc dg : dtype) (draco_grid_size : spec_float)
    (v : float32) (chunk_size : spec_float) : bool :=
  let x := f32_value v in
  let dm := promote F32 dc in
  let ds := promote F32 dg in
  let du := promote ds dc in
  let d_me := dist_to_chunk F32 x dc chunk_size in
  let up := sf_add ds (astype ds x) (astype ds draco_grid_size) in
  let d_up := dist_to_chunk ds up dc chunk_size in
  let down := sf_sub ds (astype ds x) (astype ds draco_grid_size) in
  let d_down := dist_to_chunk ds down dc chunk_size in
  np_less dm d_me du d_down && np_less dm d_me du d_up
  && np_less dm d_me dg draco_grid_size.

(** [is_draco_chunk_aligned]: one boolean per row ([np.any(..., axis=1)]). *)
Definition is_draco_chunk_aligned (verts : list (list float32))
    (dc : dtype) (chunk_size : list spec_float)
    (dg : dtype) (draco_grid_size : spec_float) : list bool :=
  map (fun row =>
         existsb2 (draco_axis_aligned dc dg draco_grid_size) row chunk_size)
      verts.

(** The default grid size, the Python int 21. *)
Definition default_draco_grid_size : spec_float := sf_of_Z 21.

(** The standard test: [np.any(np.mod(vertices, chunk_size) == 0, axis=1)]. *)
Definition std_axis_aligned (dc : dtype) (v : float32) (chunk_size : spec_float)
    : bool :=
  let dt := promote F32 dc in
  SFeqb (np_mod dt (astype dt (f32_value v)) (astype dt chunk_size)) sf_zero.

Definition is_std_chunk_aligned (verts : list (list float32))
    (dc : dtype) (chunk_size : list spec_float) : list bool :=
  map (fun row => existsb2 (std_axis_aligned dc) row chunk_size) verts.

(* ------------------------------------------------------------------ *)
(** ** Mesh.deduplicate_chunk_boundaries

    [np.hstack] of the float32 vertices with the int64 column of indices
    is a float64 array.  Every float32 and every index below 2^53 is exact
    in float64 and converts back unchanged, so a row of that array is kept
    as its float32 coordinates together with the integer of the added
    column. *)

Notation vrow := (list Z * Z)%type (only parsing).

Definition vrow_cmp (r1 r2 : vrow) : comparison :=
  match lex_cmp f32_sort_cmp (fst r1) (fst r2) with
  | Eq => Z.compare (snd r1) (snd r2)
  | o => o
  end.

Definition vrow_eqb (r1 r2 : vrow) : bool :=
  row_eqb f32_eqb (fst r1) (fst r2) && (snd r1 =? snd r2).

(** The bit pattern of the float32 [-1.0]. *)
Definition f32_minus_one : float32 := 3212836864.

Fixpoint set_nth {A} (n : nat) (x : A) (l : list A) : list A :=
  match l, n with
  | [], _ => []
  | _ :: l', O => x :: l'
  | y :: l', S n' => y :: set_nth n' x l'
  end.

(** [row[3] = -1] on a row of [w] coordinates and the added column:
    column 3 is the added column when [w = 3]. *)
Definition set_column3 (r : vrow) : vrow :=
  if (length (fst r) =? 3)%nat then (fst r, -1)
  else (set_nth 3 f32_minus_one (fst r), snd r).

(** [only_double = np.where(counts == 2)[0]]. *)
Definition where_eq2 (counts : list nat) : list nat :=
  map fst (filter (fun ic => (snd ic =? 2)%nat)
                  (combine (seq 0 (length counts)) counts)).

(** [np.isin(unique_inverse, only_double)]. *)
Definition np_isin (xs ys : list nat) : list bool :=
  map (fun x => existsb (Nat.eqb x) ys) xs.

Fixpoint map2 {A B C} (f : A -> B -> C) (l1 : list A) (l2 : list B) : list C :=
  match l1, l2 with
  | x :: l1', y :: l2' => f x y :: map2 f l1' l2'
  | _, _ => []
  end.

(** [new_vertices]: every row gets its own index as added column, then
    the rows to merge get -1 in column 3. *)
Definition dedup_new_vertices (verts : list (list float32))
    (do_merge : list bool) : list vrow :=
  map2 (fun (r : vrow) (m : bool) => if m then set_column3 r else r)
       (combine verts (map Z.of_nat (seq 0 (length verts))))
       do_merge.

Section Deduplicate.
(** The two calls of [np.unique] ask for no [return_index]: the rows of
    the vertices, and later the rows that the faces select, are sorted by
    NumPy's quicksort. *)
Variable quicksort_rows : list (list float32) -> list (nat * list float32).
Variable quicksort_vrows : list vrow -> list (nat * vrow).

Definition dedup_is_doubled (verts : list (list float32)) : list bool :=
  let unique_inverse :=
    unique_inverse_by quicksort_rows (row_eqb f32_eqb) verts in
  let counts := unique_counts_by quicksort_rows (row_eqb f32_eqb) verts in
  let only_double := where_eq2 counts in
  np_isin unique_inverse only_double.

Definition dedup_do_merge (verts : list (list float32))
    (is_chunk_aligned : list bool) : list bool :=
  map2 andb (dedup_is_doubled verts) is_chunk_aligned.

Definition Mesh_deduplicate_chunk_boundaries (self : Mesh) (chunk_size : chunk)
    (is_draco : bool) (grid_dtype : dtype) (draco_grid_size : spec_float)
    : result Mesh :=
  match shape (vertices self) with
  | [_; w] =>
      let verts := rows (vertices self) in
      cs <- broadcast_chunk chunk_size w ;;
      let dc := chunk_dtype chunk_size in
      let is_chunk_aligned :=
        if is_draco
        then is_draco_chunk_aligned verts dc cs grid_dtype draco_grid_size
        else is_std_chunk_aligned verts dc cs in
      let do_merge := dedup_do_merge verts is_chunk_aligned in
      if (w <? 3)%nat then Raise IndexError
      else
        let new_vertices := dedup_new_vertices verts do_merge in
        selected <- mapM (index_list new_vertices) (data (faces self)) ;;
        let vertices := unique_values_by quicksort_vrows vrow_eqb selected in
        let newfaces := unique_inverse_by quicksort_vrows vrow_eqb selected in
        newfaces <- reshape [(length newfaces / 3)%nat; 3%nat]
                      (NdArray [length newfaces] (map Z.of_nat newfaces)) ;;
        Ok (Mesh_init (of_rows [3%nat] (map (fun r => firstn 3 (fst r)) vertices))
                      newfaces None (segid self) (encoding_type self)
                      (encoding_options self))
  | _ => Raise ValueError
  end.
End Deduplicate.

(* ------------------------------------------------------------------ *)
(** ** Vocabulary of the statements *)

(** What the proofs about [np.unique] ask of the order the records are
    sorted by and of their [==]: a total preorder, and an [==] that is a
    partial equivalence agreeing with the order on the records that equal
    themselves (those free of NaN). *)
Class SortOrder {A : Type} (cmp : A -> A -> comparison) (eqb : A -> A -> bool) : Prop := {
  cmp_antisym : forall x y, cmp y x = CompOpp (cmp x y);
  cmp_le_trans : forall x y z, cmp x y <> Gt -> cmp y z <> Gt -> cmp x z <> Gt;
  eqb_sym : forall x y, eqb x y = eqb y x;
  eqb_trans : forall x y z, eqb x y = true -> eqb y z = true -> eqb x z = true;
  eqb_cmp : forall x y, eqb x y = true -> cmp x y = Eq;
  cmp_eqb : forall x y, cmp x y = Eq -> eqb x x = true -> eqb x y = true
}.

(** A key whose lexicographic order is the order floats are sorted by. *)
Definition sf_key (x : spec_float) : list Z :=
  match x with
  | S754_nan => [3; 0; 0]
  | S754_infinity false => [2; 0; 0]
  | S754_infinity true => [-2; 0; 0]
  | S754_zero _ => [0; 0; 0]
  | S754_finite false m e => [1; e; Zpos m]
  | S754_finite true m e => [-1; - e; Zneg m]
  end.

(** No coordinate of the array is a NaN. *)
Definition no_nan (a : ndarray float32) : Prop :=
  Forall (fun x => f32_is_nan x = false) (data a).

(** The number of rows that [==] a given row. *)
Definition count_rows (r : list float32) (rs : list (list float32)) : nat :=
  length (filter (row_eqb f32_eqb r) rs).

(** The value of a finite float counted in units of 2^-1074, the step
    between the smallest float64 numbers: every finite float32 and float64
    number is a whole number of these units. *)
Definition sf_units (x : spec_float) : option Z :=
  match x with
  | S754_zero _ => Some 0
  | S754_finite s m e => Some (cond_Zopp s (Zpos m * 2 ^ (e + 1074)))
  | _ => None
  end.

(** [x] is a whole multiple of [c]: [x = k * c] for an integer [k]. *)
Definition exact_multiple (x c : spec_float) : Prop :=
  exists a b k, sf_units x = Some a /\ sf_units c = Some b /\ a = k * b.

(** A number of dtype [dt] that is finite and not zero. *)
Definition finite_nonzero (dt : dtype) (x : spec_float) : bool :=
  valid_binary (dt_prec dt) (dt_emax dt) x
  && match x with S754_finite _ _ _ => true | _ => false end.

(** The data model of the specification: [N x 3] vertices, [M x 3] faces
    holding uint32 values, [K x 3] normals. *)
Record mesh_ok (m : Mesh) : Prop := mkMeshOk {
  ok_vertices_shape : exists N, shape (vertices m) = [N; 3%nat];
  ok_faces_shape : exists M, shape (faces m) = [M; 3%nat];
  ok_normals_shape : exists K, shape (normals m) = [K; 3%nat];
  ok_vertices_wf : array_wf (vertices m);
  ok_faces_wf : array_wf (faces m);
  ok_normals_wf : array_wf (normals m);
  ok_faces_range : Forall is_u32 (data (faces m))
}.

Definition num_vertices (m : Mesh) : nat := length (rows (vertices m)).
Definition num_faces (m : Mesh) : nat := length (rows (faces m)).

(** What is known of [list(set(xs))]: it holds every value of [xs], and
    each once. *)
Definition set_iteration
    (set_list : list (option string) -> list (option string)) : Prop :=
  forall xs, NoDup (set_list xs) /\ forall x, In x (set_list xs) <-> In x xs.

(** The number of vertices of the meshes before the [i]-th one. *)
Definition vertices_before (meshes : list Mesh) (i : nat) : Z :=
  Z.of_nat (list_sum (map num_vertices (firstn i meshes))).

(** Every face id of the mesh is the index of one of its vertices. *)
Definition faces_valid (m : Mesh) : Prop :=
  Forall (fun f => 0 <= f < Z.of_nat (num_vertices m)) (data (faces m)).

(** Order and [==] of the records that [np.unique] carries with their
    original positions. *)
Definition rec_le {R} (cmp : R -> R -> comparison) (x y : nat * R) : Prop :=
  cmp (snd x) (snd y) <> Gt.

Definition rec_eqb {R} (eqb : R -> R -> bool) (x y : nat * R) : bool :=
  eqb (snd x) (snd y).

(** Two unique records are in order and differ. *)
Definition before {R} (cmp : R -> R -> comparison) (eqb : R -> R -> bool)
    (a b : R) : Prop :=
  cmp a b <> Gt /\ eqb a b = false.

(** The rows that [consolidate] computes for a non-empty mesh: the unique
    vertex rows, and the unique rows of the faces after every id is
    replaced by the position of its vertex among the unique ones. *)
Definition consolidated_vertices (m : Mesh) : list (list float32) :=
  unique_values (lex_cmp f32_sort_cmp) (row_eqb f32_eqb) (rows (vertices m)).

Definition representative (m : Mesh) (f : Z) : Z :=
  Z.of_nat (nth (Z.to_nat f)
                (unique_inverse (lex_cmp f32_sort_cmp) (row_eqb f32_eqb)
                                (rows (vertices m))) 0%nat).

Definition consolidated_faces (m : Mesh) : list (list Z) :=
  unique_values (lex_cmp Z.compare) (row_eqb Z.eqb)
                (rows (np_array (representative m) (faces m))).

(** What is known of the sort of [np.unique] when it is not the stable
    one: it puts the records in order, each with its position. *)
Definition sorts_records {R} (cmp : R -> R -> comparison)
    (quicksort : list R -> list (nat * R)) : Prop :=
  forall rs,
    Permutation (enumerate rs) (quicksort rs)
    /\ StronglySorted (rec_le cmp) (quicksort rs).

(** [is_chunk_aligned] as [deduplicate_chunk_boundaries] computes it. *)
Definition dedup_aligned (verts : list (list float32)) (dc : dtype)
    (cs : list spec_float) (is_draco : bool) (dg : dtype)
    (grid : spec_float) : list bool :=
  if is_draco then is_draco_chunk_aligned verts dc cs dg grid
  else is_std_chunk_aligned verts dc cs.

(** The 4-wide rows of [deduplicate_chunk_boundaries] for a given
    [is_chunk_aligned]: one per vertex, and the ones the faces select. *)
Definition dedup_rows
    (quicksort_rows : list (list float32) -> list (nat * list float32))
    (m : Mesh) (aligned : list bool) : list vrow :=
  let verts := rows (vertices m) in
  dedup_new_vertices verts (dedup_do_merge quicksort_rows verts aligned).

Definition dedup_referenced
    (quicksort_rows : list (list float32) -> list (nat * list float32))
    (m : Mesh) (aligned : list bool) : list vrow :=
  map (fun f => nth (Z.to_nat f) (dedup_rows quicksort_rows m aligned) ([], 0))
      (data (faces m)).

Definition dedup_kept
    (quicksort_rows : list (list float32) -> list (nat * list float32))
    (quicksort_vrows : list vrow -> list (nat * vrow))
    (m : Mesh) (aligned : list bool) : list vrow :=
  unique_values_by quicksort_vrows vrow_eqb
    (dedup_referenced quicksort_rows m aligned).

(** Two triangles, the second one the first one moved by 100 along x, so
    that they share the vertex (100, 0, 0); coordinates are the float32
    patterns of 0, 50, 100, 150, 200. *)
Definition tile1 : Mesh :=
  Mesh_init (NdArray [3%nat; 3%nat]
               [0; 0; 0; 1120403456; 0; 0; 1112014848; 1112014848; 0])
            (NdArray [1%nat; 3%nat] [0; 1; 2])
            None None EncNone None.

Definition tile2 : Mesh :=
  Mesh_init (NdArray [3%nat; 3%nat]
               [1120403456; 0; 0; 1128792064; 0; 0; 1125515264; 1112014848; 0])
            (NdArray [1%nat; 3%nat] [0; 1; 2])
            None None EncNone None.

Definition two_tiles : Mesh :=
  Mesh_init (NdArray [6%nat; 3%nat]
               [0; 0; 0; 1120403456; 0; 0; 1112014848; 1112014848; 0;
                1120403456; 0; 0; 1128792064; 0; 0; 1125515264; 1112014848; 0])
            (NdArray [2%nat; 3%nat] [0; 1; 2; 3; 4; 5])
            None None EncNone None.


(* ------------------------------------------------------------------ *)
(** ** Mesh.triangles *)

(** [a[i, j]]: the block of [a] at row [i] and column [j], a 0-d array
    when [a] is 2-d.  An array of fewer than two dimensions has too few
    axes for two indices. *)
Definition index2 {A} (a : ndarray A) (i j : nat) : result (ndarray A) :=
  match shape a with
  | n :: w :: s =>
      if (i <? n)%nat && (j <? w)%nat
      then Ok (NdArray s (firstn (numel s)
                            (skipn ((i * w + j) * numel s) (data a))))
      else Raise IndexError
  | _ => Raise IndexError
  end.

(** [a[idx]] for an unsigned integer [idx] or an array of them: the
    blocks of [a] along axis 0 that [idx] names, in the shape of [idx]. *)
Definition take_rows {A} (a : ndarray A) (idx : ndarray Z) : result (ndarray A) :=
  match shape a with
  | [] => Raise IndexError
  | _ :: rest =>
      blocks <- mapM (index_list (rows a)) (data idx) ;;
      Ok (NdArray (shape idx ++ rest)%list (concat blocks))
  end.

Fixpoint strip_ones (sh : list nat) : list nat :=
  match sh with
  | 1%nat :: sh' => strip_ones sh'
  | _ => sh
  end.

(** [tris[i, j, :] = value]: what is stored in the three cells.  Leading
    axes of length 1 do not count; a single element is repeated, three
    are copied, anything else does not broadcast. *)
Definition assign_row3 {A} (value : ndarray A) : result (list A) :=
  match strip_ones (shape value), data value with
  | [], [x] => Ok [x; x; x]
  | [3%nat], [x; y; z] => Ok [x; y; z]
  | _, _ => Raise ValueError
  end.

Definition Mesh_triangles (self : Mesh) : result (ndarray float32) :=
  Nf <- shape0 (faces self) ;;
  tris <- mapM (fun i =>
                  mapM (fun j =>
                          idx <- index2 (faces self) i j ;;
                          v <- take_rows (vertices self) idx ;;
                          assign_row3 v)
                       (seq 0 3))
               (seq 0 Nf) ;;
  Ok (NdArray [Nf; 3%nat; 3%nat] (concat (map (@concat float32) tris))).

(** The coordinates of the vertex a face id names. *)
Definition vertex_row (m : Mesh) (f : Z) : list float32 :=
  nth (Z.to_nat f) (rows (vertices m)) [].

(** Whether [deduplicate_chunk_boundaries] marks the vertex a face id
    names for merging ([do_merge]). *)
Definition dedup_merged
    (quicksort_rows : list (list float32) -> list (nat * list float32))
    (m : Mesh) (aligned : list bool) (f : Z) : bool :=
  nth (Z.to_nat f)
      (dedup_do_merge quicksort_rows (rows (vertices m)) aligned)
      false.

(** A float32 pattern that stands for a number: neither a NaN nor an
    infinity. *)
Definition f32_is_finite (b : float32) : bool :=
  match f32_value b with
  | S754_zero _ | S754_finite _ _ _ => true
  | _ => false
  end.

(** A chunk size on which [np.mod] gives no remainder: zero or NaN. *)
Definition sf_no_remainder (c : spec_float) : bool :=
  match c with
  | S754_zero _ | S754_nan => true
  | _ => false
  end.

(* ------------------------------------------------------------------ *)
(** ** Item access and the deprecation notice

    The rest of the module raises exceptions beside the ones above, and
    [deprecation_notice] works on the module-level dict [NOTICE] and
    prints: a call is a function of the state it runs in. *)

Local Open Scope string_scope.
Local Open Scope Z_scope.

Inductive error : Type :=
| Builtin (e : exn)
| KeyError (arg : string)
| AxisError
| MeshDecodeErrorText (message : string).

Inductive outcome (A : Type) : Type :=
| Returns (a : A)
| Raises (e : error).

Arguments Returns {A} a.
Arguments Raises {A} e.

Definition of_result {A} (r : result A) : outcome A :=
  match r with
  | Ok a => Returns a
  | Raise e => Raises (Builtin e)
  end.

Definition outcome_bind {A B} (c : outcome A) (k : A -> outcome B) : outcome B :=
  match c with
  | Returns a => k a
  | Raises e => Raises e
  end.

(** A Python dict with string keys: the keys in insertion order. *)
Definition dict (V : Type) : Type := list (string * V).

Fixpoint dict_get {V} (d : dict V) (k : string) : option V :=
  match d with
  | [] => None
  | (k', v) :: d' => if String.eqb k' k then Some v else dict_get d' k
  end.

Fixpoint dict_set {V} (d : dict V) (k : string) (v : V) : dict V :=
  match d with
  | [] => [(k, v)]
  | (k', v') :: d' =>
      if String.eqb k' k then (k', v) :: d' else (k', v') :: dict_set d' k v
  end.

(** The state: [NOTICE] and what has been printed, one entry per call of
    [print]. *)
Record world : Type := mkWorld {
  NOTICE : dict Z;
  stdout : list string
}.

Definition NOTICE_at_import : dict Z :=
  [("vertices", 0); ("num_vertices", 0); ("faces", 0)].

Definition world_at_import : world := mkWorld NOTICE_at_import [].

(** The text of the notice, the key filled in twice. *)
Definition notice_text (key : string) : string :=
  ("
  Deprecation Notice: Meshes, formerly dicts, are now PrecomputedMesh objects
  as of CloudVolume 0.51.0. 

  Please change mesh['" ++ key ++ "'] to mesh." ++ key ++ "
  ")%string.

(** What [mesh[key]] evaluates to. *)
Inductive item : Type :=
| ItemVertices (a : ndarray float32)
| ItemCount (n : nat)
| ItemFaces (a : ndarray uint32).

Section Notice.
(** [yellow] of cloudvolume.lib, which colours a text for the terminal. *)
Variable yellow : string -> string.

Definition deprecation_notice (key : string) (w : world) : outcome unit * world :=
  match dict_get (NOTICE w) key with
  | None => (Raises (KeyError key), w)
  | Some n =>
      if n <? 1 then
        let w1 := mkWorld (NOTICE w) (stdout w ++ [yellow (notice_text key)]) in
        (Returns tt, mkWorld (dict_set (NOTICE w1) key (n + 1)) (stdout w1))
      else (Returns tt, w)
  end.

(** [Mesh.__getitem__]. *)
Definition Mesh_getitem (self : Mesh) (key : string) (w : world)
    : outcome item * world :=
  let val :=
    if String.eqb key "vertices" then Returns (ItemVertices (vertices self))
    else if String.eqb key "num_vertices" then
      match Mesh_len self with
      | Ok n => Returns (ItemCount n)
      | Raise e => Raises (Builtin e)
      end
    else if String.eqb key "faces" then Returns (ItemFaces (faces self))
    else Raises (KeyError (key ++ " not found.")) in
  match val with
  | Raises e => (Raises e, w)
  | Returns v =>
      match deprecation_notice key w with
      | (Returns _, w') => (Returns v, w')
      | (Raises e, w') => (Raises e, w')
      end
  end.

(** A run of item accesses, each exception caught by the caller. *)
Definition getitem_run (self : Mesh) (keys : list string) (w : world) : world :=
  fold_left (fun w key => snd (Mesh_getitem self key w)) keys w.
End Notice.

(** The keys [mesh[key]] accepts on a mesh. *)
Definition item_key (self : Mesh) (key : string) : bool :=
  String.eqb key "vertices"
  || (String.eqb key "num_vertices"
      && match shape (vertices self) with [] => false | _ => true end)
  || String.eqb key "faces".

(** The values of a list, each at its first occurrence. *)
Fixpoint first_occurrences (l : list string) : list string :=
  match l with
  | [] => []
  | x :: l' => x :: filter (fun y => negb (String.eqb x y)) (first_occurrences l')
  end.

(** The lines [from_obj] passes over: blank lines, comments, texture
    coordinates, and lines that begin with anything but [f] and [v]. *)
Definition obj_line_skipped (raw : string) : bool :=
  match strip raw with
  | EmptyString => true
  | String c rest =>
      if Ascii.eqb c "#" then true
      else if Ascii.eqb c "f" then false
      else if Ascii.eqb c "v" then
        match rest with
        | String c1 _ => Ascii.eqb c1 "t"
        | EmptyString => false
        end
      else true
  end.

(** A text of ASCII characters only: as a [str] and as the [bytes] of its
    UTF-8 encoding it is the same sequence. *)
Definition is_ascii_text (text : string) : bool :=
  forallb (fun c => (nat_of_ascii c <? 128)%nat) (list_ascii_of_string text).

(** The line [to_obj] writes for a vertex row and for a face row. *)
Definition obj_vertex_line (row : list float32) : string :=
  ("v " ++ format_5f (nth 0 row 0) ++ " " ++ format_5f (nth 1 row 0) ++ " "
   ++ format_5f (nth 2 row 0))%string.

Definition obj_face_line (row : list uint32) : string :=
  ("f " ++ dec_string (wrap32 (nth 0 row 0 + 1)) ++ " "
   ++ dec_string (wrap32 (nth 1 row 0 + 1)) ++ " "
   ++ dec_string (wrap32 (nth 2 row 0 + 1)))%string.

(** The three keys of [NOTICE] hold 1 for the keys already noticed and 0
    for the others. *)
Definition notice_state (w : world) (seen : list string) : Prop :=
  forall k, dict_get (NOTICE w) k
            = if (String.eqb k "vertices" || String.eqb k "num_vertices"
                  || String.eqb k "faces")%bool
              then Some (if existsb (String.eqb k) seen then 1 else 0)
              else None.

(* ------------------------------------------------------------------ *)
(** ** The PLY writer *)

(** [np.insert(a, 0, v, axis=1)]: one more entry along axis 1, holding
    [v], in front of the others.  An array of fewer than two dimensions has
    no axis 1. *)
Definition np_insert_axis1 {A} (v : A) (a : ndarray A) : outcome (ndarray A) :=
  match shape a with
  | n :: k :: rest =>
      Returns (NdArray (n :: S k :: rest)
                 (concat (map (fun block => repeat v (numel rest) ++ block)%list
                              (chunks n (k * numel rest) (data a)))))
  | _ => Raises AxisError
  end.

(** The header, with the two counts written in decimal. *)
Definition ply_header (vertexct trianglect : nat) : string :=
  "ply
format binary_little_endian 1.0
element vertex " ++ dec_string (Z.of_nat vertexct) ++ "
property float x
property float y
property float z
element face " ++ dec_string (Z.of_nat trianglect) ++ "
property list int int vertex_indices
end_header
".

(** [Mesh.to_ply]: the header in UTF-8, the vertex array, then the faces
    with a 3 put in front of every row. *)
Definition Mesh_to_ply (self : Mesh) : outcome (list byte) :=
  outcome_bind (of_result (shape0 (vertices self))) (fun vertexct =>
  outcome_bind (of_result (shape0 (faces self))) (fun trianglect =>
  let plydata := list_byte_of_string (ply_header vertexct trianglect) in
  let plydata := (plydata ++ tobytes (vertices self))%list in
  outcome_bind (np_insert_axis1 3 (faces self)) (fun counted =>
  Returns (plydata ++ tobytes counted)%list))).

(** The record [to_ply] writes for one face. *)
Definition ply_face_record (row : list uint32) : list byte :=
  (le32_bytes 3 ++ flat_map le32_bytes row)%list.

(* ------------------------------------------------------------------ *)
(** ** The Draco adapter

    The decoder is DracoPy's: what it answers for a buffer is not part of
    this module.  It returns an object with the flat list of coordinates,
    the flat list of vertex ids and the encoding options, or raises.  The
    conversion of a Python float to float32 is NumPy's. *)

Module DracoPy.

Record mesh_object (pyfloat : Type) : Type := mkMeshObject {
  points : list pyfloat;
  faces : list Z;
  encoding_options : option string
}.

Arguments mkMeshObject {pyfloat}.
Arguments points {pyfloat}.
Arguments faces {pyfloat}.
Arguments encoding_options {pyfloat}.

End DracoPy.

Section FromDraco.
Variable pyfloat : Type.
Variable astype_float32 : pyfloat -> float32.
Variable decode_buffer_to_mesh :
  list byte -> outcome (DracoPy.mesh_object pyfloat).

(** [np.array(l)] of a flat list: a 1-d array. *)
Definition array_of_list {A} (l : list A) : ndarray A := NdArray [length l] l.

Definition Mesh_from_draco (binary : list byte) : outcome Mesh :=
  match decode_buffer_to_mesh binary with
  | Raises (Builtin ValueError) =>
      Raises (MeshDecodeErrorText "Not a valid draco mesh.")
  | Raises e => Raises e
  | Returns mesh_object =>
      let vertices :=
        np_array astype_float32 (array_of_list (DracoPy.points mesh_object)) in
      let faces :=
        np_array wrap32 (array_of_list (DracoPy.faces mesh_object)) in
      outcome_bind (of_result (shape0 vertices)) (fun Nv =>
      outcome_bind (of_result (shape0 faces)) (fun Nf =>
      if negb (Nv mod 3 =? 0)%nat then
        Raises (MeshDecodeErrorText
                  ("Mesh vertices not 3D. Cannot decode. Num. vertices: "
                   ++ dec_string (Z.of_nat Nv)))
      else if negb (Nf mod 3 =? 0)%nat then
        Raises (MeshDecodeErrorText
                  ("Faces are not sets of triples. Cannot decode. Num. faces: "
                   ++ dec_string (Z.of_nat Nf)))
      else
        outcome_bind (of_result (reshape [(Nv / 3)%nat; 3%nat] vertices))
          (fun vertices =>
        outcome_bind (of_result (reshape [(Nf / 3)%nat; 3%nat] faces))
          (fun faces =>
        Returns (Mesh_init vertices faces None None (EncTag "draco")
                   (DracoPy.encoding_options mesh_object))))))
  end.

End FromDraco.

Local Close Scope string_scope.
(* ================================================================== *)
(** * Properties *)

(* ------------------------------------------------------------------ *)
(** ** Lists, blocks and the error monad *)

Lemma length_chunks {A} (n w : nat) (l : list A) : length (chunks n w l) = n.
Proof.
  revert l; induction n as [|n IH]; intros l; simpl; [reflexivity|].
  now rewrite IH.
Qed.

Lemma concat_chunks {A} (n w : nat) (l : list A) :
  length l = (n * w)%nat -> concat (chunks n w l) = l.
Proof.
  revert l; induction n as [|n IH]; intros l Hl; simpl in *.
  - now destruct l.
  - rewrite IH.
    + apply firstn_skipn.
    + rewrite length_skipn. lia.
Qed.

Lemma chunks_concat {A} (w : nat) (rs : list (list A)) :
  Forall (fun r => length r = w) rs ->
  chunks (length rs) w (concat rs) = rs.
Proof.
  induction 1 as [|r rs Hr _ IH]; simpl; [reflexivity|].
  rewrite firstn_app, skipn_app, Hr, Nat.sub_diag.
  rewrite firstn_all2 by lia.
  rewrite skipn_all2 by lia.
  simpl. rewrite app_nil_r. now rewrite IH.
Qed.

Lemma chunks_row_length {A} (n w : nat) (l : list A) :
  length l = (n * w)%nat ->
  Forall (fun r => length r = w) (chunks n w l).
Proof.
  revert l; induction n as [|n IH]; intros l Hl; simpl in *; constructor.
  - rewrite length_firstn. lia.
  - apply IH. rewrite length_skipn. lia.
Qed.

Lemma length_concat_rows {A} (w : nat) (rs : list (list A)) :
  Forall (fun r => length r = w) rs ->
  length (concat rs) = (length rs * w)%nat.
Proof.
  induction 1 as [|r rs Hr _ IH]; simpl; [reflexivity|].
  rewrite length_app, IH, Hr. reflexivity.
Qed.

Lemma numel_3 : numel [3%nat] = 3%nat.
Proof. reflexivity. Qed.

(** An [n x w] array and the list of its rows determine each other. *)
Lemma rows_of_rows {A} (w : nat) (rs : list (list A)) :
  Forall (fun r => length r = w) rs ->
  rows (of_rows [w] rs) = rs.
Proof.
  intros H. unfold rows, of_rows; simpl.
  rewrite Nat.mul_1_r. now apply chunks_concat.
Qed.

Lemma of_rows_rows {A} (n w : nat) (a : ndarray A) :
  shape a = [n; w] -> array_wf a -> of_rows [w] (rows a) = a.
Proof.
  destruct a as [sh d]; unfold array_wf, rows, of_rows; simpl.
  intros -> Hwf; simpl in *. rewrite Nat.mul_1_r in *.
  rewrite length_chunks, concat_chunks by lia. reflexivity.
Qed.

Lemma rows_length {A} (n w : nat) (a : ndarray A) :
  shape a = [n; w] -> length (rows a) = n.
Proof. unfold rows; intros ->. apply length_chunks. Qed.

Lemma rows_width {A} (n w : nat) (a : ndarray A) :
  shape a = [n; w] -> array_wf a ->
  Forall (fun r => length r = w) (rows a).
Proof.
  unfold rows, array_wf; intros -> Hwf; simpl in *.
  rewrite Nat.mul_1_r in *. apply chunks_row_length. lia.
Qed.

Lemma mapM_ok {A B} (f : A -> result B) (g : A -> B) (l : list A) :
  (forall x, In x l -> f x = Ok (g x)) -> mapM f l = Ok (map g l).
Proof.
  induction l as [|x l IH]; intros H; simpl; [reflexivity|].
  rewrite (H x) by now left. simpl.
  rewrite IH by (intros; apply H; now right). reflexivity.
Qed.

Lemma forallb2_sym {A} (f : A -> A -> bool) (l1 l2 : list A) :
  (forall x y, f x y = f y x) -> forallb2 f l1 l2 = forallb2 f l2 l1.
Proof.
  intros Hf; revert l2; induction l1 as [|x l1 IH]; intros [|y l2]; simpl;
    try reflexivity.
  now rewrite Hf, IH.
Qed.

Lemma forallb2_refl {A} (f : A -> A -> bool) (l : list A) :
  Forall (fun x => f x x = true) l -> forallb2 f l l = true.
Proof.
  induction 1 as [|x l Hx _ IH]; simpl; [reflexivity|].
  now rewrite Hx, IH.
Qed.

(* ------------------------------------------------------------------ *)
(** ** Broadcasting *)

Lemma broadcast_dims_sym (s1 s2 : list nat) :
  broadcast_dims s1 s2 = broadcast_dims s2 s1.
Proof.
  revert s2; induction s1 as [|n1 r1 IH]; intros [|n2 r2]; simpl;
    try reflexivity.
  rewrite IH. destruct (broadcast_dims r2 r1); [|reflexivity].
  destruct (Nat.eqb_spec n1 n2) as [->|Hne].
  - now rewrite Nat.eqb_refl.
  - destruct (Nat.eqb_spec n2 n1); [congruence|].
    destruct (Nat.eqb_spec n1 1), (Nat.eqb_spec n2 1); try reflexivity.
    congruence.
Qed.

Lemma broadcast_shapes_sym (s1 s2 : list nat) :
  broadcast_shapes s1 s2 = broadcast_shapes s2 s1.
Proof.
  unfold broadcast_shapes. rewrite Nat.max_comm. apply broadcast_dims_sym.
Qed.

Lemma broadcast_dims_same (s : list nat) : broadcast_dims s s = Some s.
Proof.
  induction s as [|n r IH]; simpl; [reflexivity|].
  now rewrite IH, Nat.eqb_refl.
Qed.

Lemma pad_to_same (s : list nat) : pad_to (length s) s = s.
Proof. unfold pad_to. now rewrite Nat.sub_diag. Qed.

Lemma broadcast_shapes_same (s : list nat) : broadcast_shapes s s = Some s.
Proof.
  unfold broadcast_shapes. rewrite Nat.max_id, pad_to_same.
  apply broadcast_dims_same.
Qed.

Lemma expand_same {A} (s : list nat) (d : list A) :
  length d = numel s -> expand s s d = d.
Proof.
  revert d; induction s as [|n r IH]; intros d Hd; simpl in *.
  - reflexivity.
  - rewrite Nat.eqb_refl.
    rewrite (map_ext_in _ (fun x => x)).
    + rewrite map_id. now apply concat_chunks.
    + intros c Hc. apply IH.
      pose proof (chunks_row_length n (numel r) d Hd) as Hall.
      rewrite Forall_forall in Hall. now apply Hall.
Qed.

Lemma broadcast_to_same {A} (a : ndarray A) :
  array_wf a -> broadcast_to (shape a) a = data a.
Proof.
  intros Hwf. unfold broadcast_to. rewrite pad_to_same. now apply expand_same.
Qed.

Lemma np_all_eq_sym {A} (eqb : A -> A -> bool) (a b : ndarray A) :
  (forall x y, eqb x y = eqb y x) -> np_all_eq eqb a b = np_all_eq eqb b a.
Proof.
  intros Heqb. unfold np_all_eq. rewrite broadcast_shapes_sym.
  destruct (broadcast_shapes (shape b) (shape a)); [|reflexivity].
  f_equal. now apply forallb2_sym.
Qed.

Lemma np_all_eq_refl {A} (eqb : A -> A -> bool) (a : ndarray A) :
  array_wf a -> Forall (fun x => eqb x x = true) (data a) ->
  np_all_eq eqb a a = Ok true.
Proof.
  intros Hwf Hall. unfold np_all_eq.
  rewrite broadcast_shapes_same, broadcast_to_same by assumption.
  f_equal. now apply forallb2_refl.
Qed.

(* ------------------------------------------------------------------ *)
(** ** Sort orders *)

Section SortOrderFacts.
Context {A : Type} {cmp : A -> A -> comparison} {eqb : A -> A -> bool}.
Context `{!SortOrder cmp eqb}.

Lemma cmp_refl (x : A) : cmp x x = Eq.
Proof.
  pose proof (cmp_antisym x x) as H. destruct (cmp x x); simpl in H;
    congruence.
Qed.

Lemma cmp_gt_lt (x y : A) : cmp x y = Gt -> cmp y x = Lt.
Proof. intros H. now rewrite (cmp_antisym x y), H. Qed.

Lemma cmp_lt_gt (x y : A) : cmp x y = Lt -> cmp y x = Gt.
Proof. intros H. now rewrite (cmp_antisym x y), H. Qed.

Lemma cmp_eq_sym (x y : A) : cmp x y = Eq -> cmp y x = Eq.
Proof. intros H. now rewrite (cmp_antisym x y), H. Qed.

Lemma cmp_eq_trans (x y z : A) : cmp x y = Eq -> cmp y z = Eq -> cmp x z = Eq.
Proof.
  intros Hxy Hyz.
  assert (H1 : cmp x z <> Gt) by (apply (cmp_le_trans x y z); congruence).
  assert (H2 : cmp z x <> Gt).
  { apply (cmp_le_trans z y x); rewrite cmp_antisym.
    - rewrite Hyz; simpl; congruence.
    - rewrite Hxy; simpl; congruence. }
  rewrite (cmp_antisym x z) in H2.
  destruct (cmp x z); simpl in *; congruence.
Qed.

Lemma cmp_lt_le_trans (x y z : A) :
  cmp x y = Lt -> cmp y z <> Gt -> cmp x z = Lt.
Proof.
  intros Hxy Hyz.
  assert (H1 : cmp x z <> Gt) by (apply (cmp_le_trans x y z); congruence).
  destruct (cmp x z) eqn:E; try congruence.
  exfalso.
  assert (H2 : cmp y x <> Gt).
  { apply (cmp_le_trans y z x); [assumption|].
    rewrite (cmp_antisym x z), E; simpl; congruence. }
  rewrite (cmp_antisym x y), Hxy in H2. simpl in H2. congruence.
Qed.

Lemma cmp_le_lt_trans (x y z : A) :
  cmp x y <> Gt -> cmp y z = Lt -> cmp x z = Lt.
Proof.
  intros Hxy Hyz.
  assert (H1 : cmp x z <> Gt) by (apply (cmp_le_trans x y z); congruence).
  destruct (cmp x z) eqn:E; try congruence.
  exfalso.
  assert (H2 : cmp z y <> Gt).
  { apply (cmp_le_trans z x y); [|assumption].
    rewrite (cmp_antisym x z), E; simpl; congruence. }
  rewrite (cmp_antisym y z), Hyz in H2. simpl in H2. congruence.
Qed.

Lemma cmp_eq_compat_l (x y z : A) : cmp x y = Eq -> cmp x z = cmp y z.
Proof.
  intros Hxy. destruct (cmp y z) eqn:E.
  - now apply (cmp_eq_trans x y z).
  - apply (cmp_le_lt_trans x y z); congruence.
  - apply cmp_lt_gt. apply (cmp_lt_le_trans z y x).
    + now apply cmp_gt_lt.
    + rewrite (cmp_antisym x y), Hxy. simpl; congruence.
Qed.

(** Between two records that compare equal, everything compares equal. *)
Lemma cmp_squeeze (x y z : A) :
  cmp x y <> Gt -> cmp y z <> Gt -> cmp x z = Eq -> cmp x y = Eq.
Proof.
  intros Hxy Hyz Hxz.
  destruct (cmp x y) eqn:E; try congruence.
  pose proof (cmp_lt_le_trans x y z E Hyz). congruence.
Qed.

Lemma eqb_refl_l (x y : A) : eqb x y = true -> eqb x x = true.
Proof.
  intros H. apply (eqb_trans x y x); [assumption|].
  now rewrite eqb_sym.
Qed.

Lemma eqb_refl_r (x y : A) : eqb x y = true -> eqb y y = true.
Proof. intros H. apply (eqb_refl_l y x). now rewrite eqb_sym. Qed.

Lemma eqb_compat (x y z : A) : eqb x y = true -> eqb x z = eqb y z.
Proof.
  intros H. destruct (eqb y z) eqn:E.
  - now apply (eqb_trans x y z).
  - destruct (eqb x z) eqn:E'; [|reflexivity].
    rewrite <- E. symmetry. apply (eqb_trans y x z); [|assumption].
    now rewrite eqb_sym.
Qed.
End SortOrderFacts.

(** *** Lexicographic order on records *)

Section LexOrder.
Context {A : Type} {c : A -> A -> comparison} {e : A -> A -> bool}.
Context `{!SortOrder c e}.

Lemma lex_cmp_antisym (r1 r2 : list A) :
  lex_cmp c r2 r1 = CompOpp (lex_cmp c r1 r2).
Proof.
  revert r2; induction r1 as [|x r1 IH]; intros [|y r2]; simpl;
    try reflexivity.
  rewrite (cmp_antisym x y). destruct (c x y); simpl; auto.
Qed.

Lemma lex_cmp_le_trans (r1 r2 r3 : list A) :
  lex_cmp c r1 r2 <> Gt -> lex_cmp c r2 r3 <> Gt -> lex_cmp c r1 r3 <> Gt.
Proof.
  revert r2 r3; induction r1 as [|x r1 IH]; intros [|y r2] [|z r3]; simpl;
    try congruence.
  destruct (c x y) eqn:Exy; try congruence.
  - rewrite (cmp_eq_compat_l x y z Exy).
    destruct (c y z); try congruence. apply IH.
  - intros _. destruct (c y z) eqn:Eyz; try congruence; intros _.
    + rewrite (cmp_lt_le_trans x y z Exy) by congruence. congruence.
    + rewrite (cmp_lt_le_trans x y z Exy) by congruence. congruence.
Qed.

Lemma row_eqb_sym (r1 r2 : list A) : row_eqb e r1 r2 = row_eqb e r2 r1.
Proof.
  revert r2; induction r1 as [|x r1 IH]; intros [|y r2]; simpl;
    try reflexivity.
  now rewrite (eqb_sym x y), IH.
Qed.

Lemma row_eqb_trans (r1 r2 r3 : list A) :
  row_eqb e r1 r2 = true -> row_eqb e r2 r3 = true -> row_eqb e r1 r3 = true.
Proof.
  revert r2 r3; induction r1 as [|x r1 IH]; intros [|y r2] [|z r3]; simpl;
    try congruence.
  rewrite !andb_true_iff. intros [H1 H2] [H3 H4]. split.
  - now apply (eqb_trans x y z).
  - now apply (IH r2 r3).
Qed.

Lemma row_eqb_cmp (r1 r2 : list A) :
  row_eqb e r1 r2 = true -> lex_cmp c r1 r2 = Eq.
Proof.
  revert r2; induction r1 as [|x r1 IH]; intros [|y r2]; simpl;
    try congruence.
  rewrite andb_true_iff. intros [H1 H2].
  rewrite (eqb_cmp x y H1). now apply IH.
Qed.

Lemma lex_cmp_eqb (r1 r2 : list A) :
  lex_cmp c r1 r2 = Eq -> row_eqb e r1 r1 = true -> row_eqb e r1 r2 = true.
Proof.
  revert r2; induction r1 as [|x r1 IH]; intros [|y r2]; simpl;
    try congruence.
  rewrite !andb_true_iff. destruct (c x y) eqn:Exy; try congruence.
  intros H [H1 H2]. split.
  - now apply cmp_eqb.
  - now apply IH.
Qed.

#[export] Instance lex_SortOrder : SortOrder (lex_cmp c) (row_eqb e).
Proof.
  constructor.
  - intros x y. apply lex_cmp_antisym.
  - apply lex_cmp_le_trans.
  - apply row_eqb_sym.
  - apply row_eqb_trans.
  - apply row_eqb_cmp.
  - apply lex_cmp_eqb.
Qed.
End LexOrder.

#[export] Instance Z_SortOrder : SortOrder Z.compare Z.eqb.
Proof.
  constructor.
  - intros x y. apply Z.compare_antisym.
  - intros x y z H1 H2. change (x <= y) in H1. change (y <= z) in H2.
    change (x <= z). lia.
  - intros x y. apply Z.eqb_sym.
  - intros x y z. rewrite !Z.eqb_eq. congruence.
  - intros x y H. apply Z.compare_eq_iff. now apply Z.eqb_eq.
  - intros x y H _. apply Z.eqb_eq. now apply Z.compare_eq_iff.
Qed.

(** *** The order of floats *)

Lemma sf_sort_cmp_key (x y : spec_float) :
  sf_sort_cmp x y = lex_cmp Z.compare (sf_key x) (sf_key y).
Proof.
  destruct x as [[|]|[|]| |[|] m1 e1], y as [[|]|[|]| |[|] m2 e2];
    try reflexivity; unfold sf_sort_cmp; simpl.
  - rewrite Z.compare_opp. rewrite (Z.compare_antisym e1 e2).
    destruct (e1 ?= e2); simpl; try reflexivity.
    change (Pos.compare_cont Eq m1 m2) with (m1 ?= m2)%positive.
    destruct (m1 ?= m2)%positive; reflexivity.
  - destruct (e1 ?= e2); simpl; try reflexivity.
    change (Pos.compare_cont Eq m1 m2) with (m1 ?= m2)%positive.
    destruct (m1 ?= m2)%positive; reflexivity.
Qed.

Lemma SFeqb_sort_cmp (x y : spec_float) :
  SFeqb x y =
  negb (sf_is_nan x) && negb (sf_is_nan y)
  && match sf_sort_cmp x y with Eq => true | _ => false end.
Proof.
  unfold SFeqb, sf_sort_cmp.
  destruct x as [[|]|[|]| |[|] m1 e1], y as [[|]|[|]| |[|] m2 e2];
    try reflexivity; simpl;
    destruct (e1 ?= e2); try reflexivity;
    destruct (Pos.compare_cont Eq m1 m2); reflexivity.
Qed.

Lemma sf_sort_cmp_antisym (x y : spec_float) :
  sf_sort_cmp y x = CompOpp (sf_sort_cmp x y).
Proof. rewrite !sf_sort_cmp_key. apply cmp_antisym. Qed.

#[export] Instance sf_SortOrder : SortOrder sf_sort_cmp SFeqb.
Proof.
  constructor.
  - apply sf_sort_cmp_antisym.
  - intros x y z. rewrite !sf_sort_cmp_key. apply cmp_le_trans.
  - intros x y. rewrite !SFeqb_sort_cmp. rewrite (sf_sort_cmp_antisym x y).
    destruct (sf_is_nan x), (sf_is_nan y), (sf_sort_cmp x y); reflexivity.
  - intros x y z. rewrite !SFeqb_sort_cmp.
    destruct (sf_is_nan x), (sf_is_nan y), (sf_is_nan z); simpl;
      try congruence.
    destruct (sf_sort_cmp x y) eqn:E1; try congruence.
    destruct (sf_sort_cmp y z) eqn:E2; try congruence.
    intros _ _. rewrite !sf_sort_cmp_key in *.
    now rewrite (cmp_eq_trans _ _ _ E1 E2).
  - intros x y. rewrite SFeqb_sort_cmp.
    destruct (sf_sort_cmp x y); try reflexivity;
      rewrite andb_false_r; congruence.
  - intros x y Hc. rewrite !SFeqb_sort_cmp, Hc.
    destruct (sf_is_nan x) eqn:Ex; simpl; [congruence|].
    intros _. destruct (sf_is_nan y) eqn:Ey; [|reflexivity].
    exfalso. destruct x, y; simpl in *; try discriminate;
      unfold sf_sort_cmp in Hc; simpl in Hc; discriminate.
Qed.

#[export] Instance f32_SortOrder : SortOrder f32_sort_cmp f32_eqb.
Proof.
  unfold f32_sort_cmp, f32_eqb. constructor; intros.
  - apply cmp_antisym.
  - eapply cmp_le_trans; eauto.
  - apply eqb_sym.
  - eapply eqb_trans; eauto.
  - now apply eqb_cmp.
  - now apply cmp_eqb.
Qed.

Lemma f32_eqb_refl (x : float32) : f32_is_nan x = false -> f32_eqb x x = true.
Proof.
  unfold f32_is_nan, f32_eqb. intros H.
  rewrite SFeqb_sort_cmp, H, cmp_refl. reflexivity.
Qed.

Lemma f32_eqb_nan (x : float32) : f32_eqb x x = true -> f32_is_nan x = false.
Proof.
  unfold f32_is_nan, f32_eqb. rewrite SFeqb_sort_cmp.
  destruct (sf_is_nan (f32_value x)); [discriminate|reflexivity].
Qed.

#[export] Instance vrow_SortOrder : SortOrder vrow_cmp vrow_eqb.
Proof.
  unfold vrow_cmp, vrow_eqb. constructor.
  - intros [r1 s1] [r2 s2]; simpl.
    rewrite (cmp_antisym (cmp := lex_cmp f32_sort_cmp) r1 r2).
    destruct (lex_cmp f32_sort_cmp r1 r2); simpl; try reflexivity.
    apply Z.compare_antisym.
  - intros [r1 s1] [r2 s2] [r3 s3]; simpl.
    destruct (lex_cmp f32_sort_cmp r1 r2) eqn:E1; try congruence.
    + rewrite (cmp_eq_compat_l r1 r2 r3 E1).
      destruct (lex_cmp f32_sort_cmp r2 r3); try congruence.
      apply (cmp_le_trans (cmp := Z.compare)).
    + intros _ H.
      rewrite (cmp_lt_le_trans r1 r2 r3 E1); [congruence|].
      destruct (lex_cmp f32_sort_cmp r2 r3); congruence.
  - intros [r1 s1] [r2 s2]; simpl.
    now rewrite (eqb_sym (eqb := row_eqb f32_eqb) r1 r2), Z.eqb_sym.
  - intros [r1 s1] [r2 s2] [r3 s3]; simpl.
    rewrite !andb_true_iff, !Z.eqb_eq. intros [H1 H2] [H3 H4]. split.
    + now apply (eqb_trans r1 r2 r3).
    + congruence.
  - intros [r1 s1] [r2 s2]; simpl.
    rewrite andb_true_iff, Z.eqb_eq. intros [H1 H2].
    rewrite (eqb_cmp r1 r2 H1). now apply Z.compare_eq_iff.
  - intros [r1 s1] [r2 s2]; simpl.
    rewrite !andb_true_iff, !Z.eqb_eq.
    destruct (lex_cmp f32_sort_cmp r1 r2) eqn:E1; try congruence.
    rewrite Z.compare_eq_iff. intros H [H1 _]. split; [|assumption].
    now apply cmp_eqb.
Qed.

(* ------------------------------------------------------------------ *)
(** ** Construction (C9) *)

Lemma wrap32_range (z : Z) : is_u32 (wrap32 z).
Proof. unfold is_u32, wrap32, u32_mod. apply Z.mod_pos_bound. lia. Qed.

Lemma wrap32_small (z : Z) : is_u32 z -> wrap32 z = z.
Proof. unfold is_u32, wrap32. intros H. now apply Z.mod_small. Qed.

Lemma Mesh_init_faces_range v f n s e o :
  Forall is_u32 (data (faces (Mesh_init v f n s e o))).
Proof.
  simpl. apply Forall_forall. intros x Hx. apply in_map_iff in Hx.
  destruct Hx as [z [<- _]]. apply wrap32_range.
Qed.

(** C9, as amended.  [Mesh.__init__] stores the vertices as a float32
    array and the faces as a uint32 array, every face value reduced into
    [0, 2^32), and gives a mesh built without normals an empty 0 x 3
    array; it keeps the shapes of its arguments, so the stored arrays are
    3-wide exactly when the arguments are. *)
Theorem C9_construction_coerces_elements_and_keeps_shape
    (v : ndarray float32) (f : ndarray Z) (n : option (ndarray float32))
    (s : option Z) (e : encoding) (o : option string) :
  let m := Mesh_init v f n s e o in
  shape (vertices m) = shape v
  /\ data (vertices m) = data v
  /\ shape (faces m) = shape f
  /\ data (faces m) = map wrap32 (data f)
  /\ Forall is_u32 (data (faces m))
  /\ three_wide (vertices m) = three_wide v
  /\ three_wide (faces m) = three_wide f
  /\ normals (Mesh_init v f None s e o) = NdArray [0%nat; 3%nat] [].
Proof.
  simpl. repeat split.
  - apply map_id.
  - apply (Mesh_init_faces_range v f n s e o).
Qed.

(** C9, the claim as stated fails: a mesh built from a 1 x 2 array keeps
    that width, and the mesh that [consolidate] builds for an empty input
    holds 1-d arrays of length 0, not [0 x 3] ones. *)
Lemma C9_counterexample :
  three_wide (vertices (Mesh_init (NdArray [1%nat; 2%nat] [1065353216; 1073741824])
                                  (NdArray [1%nat; 2%nat] [0; 0])
                                  None None EncNone None)) = false
  /\ exists m,
       Mesh_consolidate (Mesh_init (NdArray [0%nat; 3%nat] [])
                                   (NdArray [0%nat; 3%nat] [])
                                   None None EncNone None) = Ok m
       /\ shape (vertices m) = [0%nat]
       /\ shape (faces m) = [0%nat]
       /\ three_wide (vertices m) = false
       /\ three_wide (faces m) = false.
Proof.
  split; [vm_compute; reflexivity|].
  eexists. split; [vm_compute; reflexivity|].
  repeat split.
Qed.

(* ------------------------------------------------------------------ *)
(** ** Equality (C8) *)

Lemma Mesh_eq_sym (m1 m2 : Mesh) : Mesh_eq m1 m2 = Mesh_eq m2 m1.
Proof.
  unfold Mesh_eq.
  rewrite (np_all_eq_sym f32_eqb (vertices m1) (vertices m2)) by apply eqb_sym.
  rewrite (np_all_eq_sym Z.eqb (faces m1) (faces m2)) by apply Z.eqb_sym.
  rewrite (np_all_eq_sym f32_eqb (normals m1) (normals m2)) by apply eqb_sym.
  destruct (size (normals m1) =? 0)%nat, (size (normals m2) =? 0)%nat;
    reflexivity.
Qed.

Lemma no_nan_eqb_refl (a : ndarray float32) :
  no_nan a -> Forall (fun x => f32_eqb x x = true) (data a).
Proof.
  unfold no_nan. intros H. eapply Forall_impl; [|exact H].
  intros x Hx. simpl in Hx. simpl. now apply f32_eqb_refl.
Qed.

Lemma Mesh_eq_refl (m : Mesh) :
  array_wf (vertices m) -> array_wf (faces m) -> array_wf (normals m) ->
  no_nan (vertices m) -> no_nan (normals m) ->
  Mesh_eq m m = Ok true.
Proof.
  intros Hv Hf Hn Nv Nn. unfold Mesh_eq.
  rewrite Bool.eqb_reflx. simpl.
  rewrite (np_all_eq_refl f32_eqb (vertices m)) by auto using no_nan_eqb_refl.
  simpl.
  rewrite (np_all_eq_refl Z.eqb (faces m)); auto.
  - simpl.
    rewrite (np_all_eq_refl f32_eqb (normals m)) by auto using no_nan_eqb_refl.
    now destruct (size (normals m) =? 0)%nat.
  - apply Forall_forall. intros x _. apply Z.eqb_refl.
Qed.

(** C8, as amended.  Mesh equality is symmetric, it does not look at
    [segid], [encoding_type] or [encoding_options], and it is reflexive on
    the meshes none of whose vertex or normal coordinates is a NaN: such a
    mesh equals itself and any mesh with the same three arrays, whatever
    the identifiers and tags. *)
Theorem C8_equality_symmetric_metadata_blind_reflexive_without_nan
    (m m1 m2 : Mesh)
    (Hv : array_wf (vertices m)) (Hf : array_wf (faces m))
    (Hn : array_wf (normals m))
    (Nv : no_nan (vertices m)) (Nn : no_nan (normals m)) :
  Mesh_eq m m = Ok true
  /\ Mesh_eq m1 m2 = Mesh_eq m2 m1
  /\ (forall s1 e1 o1 s2 e2 o2,
        Mesh_eq (mkMesh (vertices m1) (faces m1) (normals m1) s1 e1 o1)
                (mkMesh (vertices m2) (faces m2) (normals m2) s2 e2 o2)
        = Mesh_eq m1 m2)
  /\ (forall s e o,
        Mesh_eq m (mkMesh (vertices m) (faces m) (normals m) s e o) = Ok true).
Proof.
  split; [now apply Mesh_eq_refl|].
  split; [apply Mesh_eq_sym|].
  split; [reflexivity|].
  intros s e o. change (Mesh_eq m m = Ok true). now apply Mesh_eq_refl.
Qed.

(** The quiet NaN of float32. *)
Lemma f32_nan_is_nan : f32_is_nan 2143289344 = true.
Proof. reflexivity. Qed.

(** C8, the claim as stated fails: a mesh with a NaN coordinate does not
    equal itself, since NaN == NaN is false. *)
Lemma C8_counterexample :
  let m := Mesh_init (NdArray [1%nat; 3%nat] [2143289344; 0; 0])
                     (NdArray [1%nat; 3%nat] [0; 0; 0])
                     None None EncNone None in
  Mesh_eq m m = Ok false.
Proof. vm_compute. reflexivity. Qed.

Lemma C8_witness :
  let m := Mesh_init (NdArray [1%nat; 3%nat] [1065353216; 0; 0])
                     (NdArray [1%nat; 3%nat] [0; 0; 0])
                     None None EncNone None in
  Mesh_eq m m = Ok true
  /\ Mesh_eq m (mkMesh (vertices m) (faces m) (normals m)
                       (Some 7) (EncTag "draco") None) = Ok true.
Proof.
  intros m.
  assert (Nv : no_nan (vertices m)) by (repeat constructor).
  assert (Nn : no_nan (normals m)) by constructor.
  destruct (C8_equality_symmetric_metadata_blind_reflexive_without_nan
              m m m eq_refl eq_refl eq_refl Nv Nn) as [H1 [_ [_ H4]]].
  split; [exact H1|apply H4].
Defined.

(* ------------------------------------------------------------------ *)
(** ** The draco alignment test (C7) *)

Lemma existsb2_exists {A B} (f : A -> B -> bool) (l1 : list A) (l2 : list B) :
  existsb2 f l1 l2 = true <->
  exists j x y, nth_error l1 j = Some x /\ nth_error l2 j = Some y
                /\ f x y = true.
Proof.
  revert l2; induction l1 as [|a l1 IH]; intros [|b l2]; simpl.
  - split; [discriminate|]. intros (j & x & y & H & _). now destruct j.
  - split; [discriminate|]. intros (j & x & y & H & _). now destruct j.
  - split; [discriminate|]. intros (j & x & y & _ & H & _). now destruct j.
  - rewrite orb_true_iff, IH. split.
    + intros [H | (j & x & y & H1 & H2 & H3)].
      * exists 0%nat, a, b. auto.
      * exists (S j), x, y. auto.
    + intros (j & x & y & H1 & H2 & H3). destruct j as [|j]; simpl in *.
      * left. congruence.
      * right. exists j, x, y. auto.
Qed.

Lemma nth_map_bool {A} (f : A -> bool) (l : list A) (i : nat) :
  nth i (map f l) false = true <->
  exists x, nth_error l i = Some x /\ f x = true.
Proof.
  revert i; induction l as [|a l IH]; intros [|i]; simpl.
  - split; [discriminate|]. intros (x & H & _). discriminate.
  - split; [discriminate|]. intros (x & H & _). discriminate.
  - split.
    + intros H. exists a. auto.
    + intros (x & H & Hx). congruence.
  - apply IH.
Qed.

(** C7.  With [d x c = min (x mod c, c - x mod c)], the distance
    [dist_to_chunk] computes in the dtype that the coordinate and the chunk
    size give, the draco test marks vertex [i] exactly when on some axis
    [d v] is strictly below [d (v + grid)], strictly below [d (v - grid)]
    and strictly below the grid size; the sums [v + grid] and [v - grid]
    are computed in the dtype that the vertices and the grid size give;
    the default grid size is the number 21. *)
Theorem C7_draco_aligned_iff_local_minimum_on_some_axis
    (verts : list (list float32)) (dc : dtype) (chunk_size : list spec_float)
    (dg : dtype) (grid : spec_float) (i : nat) :
  let d := fun dv x c =>
    let dt := promote dv dc in
    let x_mod_c := np_mod dt (astype dt x) (astype dt c) in
    np_minimum x_mod_c (sf_sub dt (astype dt c) x_mod_c) in
  let ds := promote F32 dg in
  let plus_grid := fun x => sf_add ds (astype ds x) (astype ds grid) in
  let minus_grid := fun x => sf_sub ds (astype ds x) (astype ds grid) in
  (forall dv x c, dist_to_chunk dv x dc c = d dv x c)
  /\ length (is_draco_chunk_aligned verts dc chunk_size dg grid) = length verts
  /\ (nth i (is_draco_chunk_aligned verts dc chunk_size dg grid) false = true <->
      exists row axis v c,
        nth_error verts i = Some row
        /\ nth_error row axis = Some v
        /\ nth_error chunk_size axis = Some c
        /\ np_less (promote F32 dc) (d F32 (f32_value v) c)
                   (promote ds dc) (d ds (plus_grid (f32_value v)) c) = true
        /\ np_less (promote F32 dc) (d F32 (f32_value v) c)
                   (promote ds dc) (d ds (minus_grid (f32_value v)) c) = true
        /\ np_less (promote F32 dc) (d F32 (f32_value v) c) dg grid = true)
  /\ (forall da a db b,
        np_less da a db b
        = SFltb (astype (promote da db) a) (astype (promote da db) b))
  /\ default_draco_grid_size = S754_finite false 11010048 (-19)
  /\ SFeqb default_draco_grid_size (sf_of_Z 21) = true.
Proof.
  intros d ds plus_grid minus_grid. split; [reflexivity|].
  split; [apply length_map|].
  split; [|split; [reflexivity|split; vm_compute; reflexivity]].
  unfold is_draco_chunk_aligned. rewrite nth_map_bool. split.
  - intros (row & Hrow & H). apply existsb2_exists in H.
    destruct H as (j & v & c & Hv & Hc & H).
    unfold draco_axis_aligned in H. cbv zeta in H.
    rewrite !andb_true_iff in H. destruct H as [[H1 H2] H3].
    exists row, j, v, c. repeat split; assumption.
  - intros (row & j & v & c & Hrow & Hv & Hc & H1 & H2 & H3).
    exists row. split; [assumption|]. apply existsb2_exists.
    exists j, v, c. repeat split; try assumption.
    unfold draco_axis_aligned. cbv zeta.
    rewrite !andb_true_iff. repeat split; assumption.
Qed.

(** On a grid of chunks of 100 and with the default grid size, in
    float32: a vertex on the plane x = 100 is aligned, one 30 away from it
    is not.  With the chunk sizes given as the list [100, 100, 100], hence
    in float64, and the grid size 1e-9: the vertex (-1e-10, 50, 50) is
    aligned. *)
Lemma C7_witness :
  nth 0 (is_draco_chunk_aligned [[1120403456; 1112014848; 1106247680]]
           F32 (repeat (sf_of_Z 100) 3) F32 default_draco_grid_size) false
  = true
  /\ nth 0 (is_draco_chunk_aligned [[1124204544; 1112014848; 1106247680]]
              F32 (repeat (sf_of_Z 100) 3) F32 default_draco_grid_size) false
     = false
  /\ nth 0 (is_draco_chunk_aligned [[2933647103; 1112014848; 1112014848]]
              F64 (repeat (sf_of_Z 100) 3)
              F32 (S754_finite false 4835703278458517 (-82))) false
     = true.
Proof.
  split; [|split].
  - apply (proj1 (proj2 (proj2 (C7_draco_aligned_iff_local_minimum_on_some_axis
             [[1120403456; 1112014848; 1106247680]]
             F32 (repeat (sf_of_Z 100) 3) F32 default_draco_grid_size 0)))).
    exists [1120403456; 1112014848; 1106247680], 0%nat, 1120403456, (sf_of_Z 100).
    repeat (split; [vm_compute; reflexivity|]). vm_compute; reflexivity.
  - vm_compute; reflexivity.
  - vm_compute; reflexivity.
Defined.

(* ------------------------------------------------------------------ *)
(** ** The Precomputed codec (C2, C3) *)

Lemma Z_of_byte_range (b : byte) : 0 <= Z_of_byte b < 256.
Proof.
  unfold Z_of_byte. pose proof (Byte.to_N_bounded b). lia.
Qed.

Lemma Z_of_byte_of_Z (z : Z) : Z_of_byte (byte_of_Z z) = z mod 256.
Proof.
  unfold Z_of_byte, byte_of_Z.
  assert (Hr : 0 <= z mod 256 < 256) by (apply Z.mod_pos_bound; lia).
  destruct (Byte.of_N (Z.to_N (z mod 256))) as [b|] eqn:E.
  - apply Byte.to_of_N in E. rewrite E. lia.
  - apply Byte.of_N_None_iff in E. lia.
Qed.

Lemma le32_word_bytes (w : Z) : is_u32 w -> le32_word (le32_bytes w) = w.
Proof.
  unfold is_u32, u32_mod, le32_word, le32_bytes. intros H.
  rewrite !Z_of_byte_of_Z.
  pose proof (Z.div_mod w 256 ltac:(lia)).
  pose proof (Z.div_mod (w / 256) 256 ltac:(lia)).
  pose proof (Z.div_mod (w / 256 / 256) 256 ltac:(lia)).
  replace (w / 65536) with (w / 256 / 256)
    by (rewrite Z.div_div by lia; reflexivity).
  replace (w / 16777216) with (w / 256 / 256 / 256)
    by (rewrite !Z.div_div by lia; reflexivity).
  assert (0 <= w / 256 / 256 / 256 < 256).
  { split.
    - repeat apply Z.div_pos; lia.
    - rewrite !Z.div_div by lia. apply Z.div_lt_upper_bound; lia. }
  rewrite (Z.mod_small (w / 256 / 256 / 256)) by lia.
  lia.
Qed.

Lemma le32_word_range (bs : list byte) : is_u32 (le32_word bs).
Proof.
  unfold is_u32, u32_mod, le32_word.
  destruct bs as [|b0 [|b1 [|b2 [|b3 [|? ?]]]]]; try lia.
  pose proof (Z_of_byte_range b0). pose proof (Z_of_byte_range b1).
  pose proof (Z_of_byte_range b2). pose proof (Z_of_byte_range b3). lia.
Qed.

Lemma length_tobytes (ws : list Z) :
  length (flat_map le32_bytes ws) = (4 * length ws)%nat.
Proof.
  induction ws as [|w ws IH]; simpl; [reflexivity|]. rewrite IH. lia.
Qed.

(** Reading back the words that were written, whatever follows them. *)
Lemma words_of_bytes (ws : list Z) (rest : list byte) :
  Forall is_u32 ws ->
  map le32_word (chunks (length ws) 4 (flat_map le32_bytes ws ++ rest)) = ws.
Proof.
  induction 1 as [|w ws Hw _ IH]; [reflexivity|].
  cbn [flat_map length chunks map]. rewrite <- app_assoc.
  change (le32_bytes w ++ flat_map le32_bytes ws ++ rest)
    with (byte_of_Z w :: byte_of_Z (w / 256) :: byte_of_Z (w / 65536)
          :: byte_of_Z (w / 16777216) :: (flat_map le32_bytes ws ++ rest)).
  cbn [firstn skipn]. rewrite IH. f_equal. now apply le32_word_bytes.
Qed.

Lemma skipn_tobytes (ws : list Z) (rest : list byte) :
  skipn (4 * length ws) (flat_map le32_bytes ws ++ rest) = rest.
Proof.
  rewrite skipn_app, length_tobytes, Nat.sub_diag.
  rewrite skipn_all2 by (rewrite length_tobytes; lia). reflexivity.
Qed.

(** What [from_precomputed] does with a buffer, by its length. *)
Lemma from_precomputed_outcome (binary : list byte) :
  let len := Z.of_nat (length binary) in
  let nv := le32_word (firstn 4 binary) in
  let left := len - (4 + 12 * nv) in
  (len < 4 -> Mesh_from_precomputed binary = Raise StructError)
  /\ (4 <= len -> left < 0 \/ left mod 4 <> 0 ->
      Mesh_from_precomputed binary = Raise (MeshDecodeError (4 + 4 * nv) len))
  /\ (4 <= len -> 0 <= left -> left mod 4 = 0 -> (left / 4) mod 3 <> 0 ->
      Mesh_from_precomputed binary = Raise ValueError)
  /\ (4 <= len -> 0 <= left -> left mod 4 = 0 -> (left / 4) mod 3 = 0 ->
      exists m, Mesh_from_precomputed binary = Ok m).
Proof.
  intros len nv left.
  assert (Hnv : 0 <= nv < u32_mod) by apply le32_word_range.
  unfold u32_mod in Hnv.
  unfold Mesh_from_precomputed, struct_unpack_I.
  rewrite length_firstn. fold nv.
  split; [|split; [|split]].
  - intros Hlen. destruct (Nat.eqb_spec (Nat.min 4 (length binary)) 4);
      [lia|reflexivity].
  - intros Hlen Hbad.
    destruct (Nat.eqb_spec (Nat.min 4 (length binary)) 4); [|lia].
    cbn [bind]. unfold np_frombuffer. fold len.
    replace ((4 <? 0) || (len <? 4)) with false by (symmetry; lia).
    replace (3 * nv <? 0) with false by (symmetry; lia).
    destruct (Z.ltb_spec (len - 4) (3 * nv * 4)); [reflexivity|].
    cbn [bind].
    replace ((4 + 12 * nv <? 0) || (len <? 4 + 12 * nv)) with false
      by (symmetry; lia).
    replace (-1 <? 0) with true by reflexivity. fold left.
    destruct (Z.eqb_spec (left mod 4) 0); [|reflexivity].
    exfalso. destruct Hbad; unfold left in *; lia.
  - intros Hlen Hleft Hmod4 Hmod3.
    destruct (Nat.eqb_spec (Nat.min 4 (length binary)) 4); [|lia].
    cbn [bind]. unfold np_frombuffer. fold len.
    replace ((4 <? 0) || (len <? 4)) with false by (symmetry; lia).
    replace (3 * nv <? 0) with false by (symmetry; lia).
    replace (len - 4 <? 3 * nv * 4) with false
      by (symmetry; unfold left in *; lia).
    cbn [bind].
    replace ((4 + 12 * nv <? 0) || (len <? 4 + 12 * nv)) with false
      by (symmetry; unfold left in *; lia).
    replace (-1 <? 0) with true by reflexivity. fold left.
    rewrite Hmod4. cbn [Z.eqb bind except_ValueError].
    unfold reshape, size. cbn [shape numel fold_right].
    replace (Z.to_nat nv * (3 * 1) =? Z.to_nat (3 * nv) * 1)%nat with true
      by (symmetry; apply Nat.eqb_eq; lia).
    cbn [bind data shape numel fold_right].
    destruct (Nat.eqb_spec (Z.to_nat (left / 4) * 1 / 3 * (3 * 1))
                           (Z.to_nat (left / 4) * 1)) as [E|E];
      [|reflexivity].
    exfalso. apply Hmod3.
    assert (0 <= left / 4) by (apply Z.div_pos; lia).
    rewrite !Nat.mul_1_r in E.
    assert (E' : (Z.to_nat (left / 4) mod 3 = 0)%nat).
    { pose proof (Nat.div_mod_eq (Z.to_nat (left / 4)) 3). lia. }
    apply (f_equal Z.of_nat) in E'.
    rewrite Nat2Z.inj_mod, Z2Nat.id in E' by lia. exact E'.
  - intros Hlen Hleft Hmod4 Hmod3.
    destruct (Nat.eqb_spec (Nat.min 4 (length binary)) 4); [|lia].
    cbn [bind]. unfold np_frombuffer. fold len.
    replace ((4 <? 0) || (len <? 4)) with false by (symmetry; lia).
    replace (3 * nv <? 0) with false by (symmetry; lia).
    replace (len - 4 <? 3 * nv * 4) with false
      by (symmetry; unfold left in *; lia).
    cbn [bind].
    replace ((4 + 12 * nv <? 0) || (len <? 4 + 12 * nv)) with false
      by (symmetry; unfold left in *; lia).
    replace (-1 <? 0) with true by reflexivity. fold left.
    rewrite Hmod4. cbn [Z.eqb bind except_ValueError].
    unfold reshape, size. cbn [shape numel fold_right].
    replace (Z.to_nat nv * (3 * 1) =? Z.to_nat (3 * nv) * 1)%nat with true
      by (symmetry; apply Nat.eqb_eq; lia).
    cbn [bind data shape numel fold_right].
    destruct (Nat.eqb_spec (Z.to_nat (left / 4) * 1 / 3 * (3 * 1))
                           (Z.to_nat (left / 4) * 1)) as [E|E].
    + eexists. reflexivity.
    + exfalso. apply E.
      assert (0 <= left / 4) by (apply Z.div_pos; lia).
      rewrite !Nat.mul_1_r.
      assert (E' : (Z.to_nat (left / 4) mod 3 = 0)%nat).
      { apply Nat2Z.inj. rewrite Nat2Z.inj_mod, Z2Nat.id by lia. exact Hmod3. }
      pose proof (Nat.div_mod_eq (Z.to_nat (left / 4)) 3). lia.
Qed.

(** C2.  At the 4-byte buffer that declares one vertex the code raises a
    MeshDecodeError whose "Minimum Bytes" is 8, the value of
    [4 + 4 * num_vertices], whereas the buffer needs [4 + 12 * 1 = 16]
    bytes; and at the 8-byte buffer that declares no vertex and holds one
    face word the reshape fails with a plain ValueError, outside the
    [try]. *)
Theorem C2_decode_error_minimum_and_reshape_failure :
  Mesh_from_precomputed [x01; x00; x00; x00] = Raise (MeshDecodeError 8 4)
  /\ 4 + 12 * le32_word [x01; x00; x00; x00] = 16
  /\ Mesh_from_precomputed [x00; x00; x00; x00; x07; x00; x00; x00]
     = Raise ValueError.
Proof. repeat split; vm_compute; reflexivity. Qed.

(** C3.  For a mesh of [N x 3] float32 vertices and [M x 3] uint32 faces
    with fewer than 2^32 vertices, encoding succeeds and decoding the
    bytes gives back the same vertices array and the same faces array
    (and no normals). *)
Theorem C3_precomputed_round_trip (m : Mesh) (N M : nat)
    (Hvs : shape (vertices m) = [N; 3%nat])
    (Hfs : shape (faces m) = [M; 3%nat])
    (Hvw : array_wf (vertices m)) (Hfw : array_wf (faces m))
    (Hvr : Forall is_u32 (data (vertices m)))
    (Hfr : Forall is_u32 (data (faces m)))
    (HN : Z.of_nat N < u32_mod) :
  exists binary m',
    Mesh_to_precomputed m = Ok binary
    /\ Mesh_from_precomputed binary = Ok m'
    /\ vertices m' = vertices m
    /\ faces m' = faces m
    /\ normals m' = NdArray [0%nat; 3%nat] []
    /\ encoding_type m' = EncTag "precomputed".
Proof.
  destruct m as [[vsh vd] [fsh fd] nrm sg enc opts].
  unfold array_wf in *. cbn [vertices faces shape data] in *. subst vsh fsh.
  cbn [numel fold_right] in Hvw, Hfw. rewrite Nat.mul_1_r in Hvw, Hfw.
  unfold Mesh_to_precomputed, shape0. cbn [vertices faces shape data bind].
  eexists. eexists. split; [reflexivity|].
  assert (HNr : is_u32 (Z.of_nat N)) by (unfold is_u32; lia).
  rewrite (wrap32_small _ HNr).
  unfold Mesh_from_precomputed, struct_unpack_I, tobytes.
  cbn [data].
  change (le32_bytes (Z.of_nat N) ++ ?r)
    with (byte_of_Z (Z.of_nat N) :: byte_of_Z (Z.of_nat N / 256)
          :: byte_of_Z (Z.of_nat N / 65536)
          :: byte_of_Z (Z.of_nat N / 16777216) :: r).
  cbn [firstn length Nat.eqb bind].
  change (le32_word [byte_of_Z (Z.of_nat N); byte_of_Z (Z.of_nat N / 256);
                     byte_of_Z (Z.of_nat N / 65536);
                     byte_of_Z (Z.of_nat N / 16777216)])
    with (le32_word (le32_bytes (Z.of_nat N))).
  rewrite (le32_word_bytes _ HNr).
  unfold np_frombuffer.
  cbn [length]. rewrite length_app, !length_tobytes, Hvw, Hfw.
  remember (Z.of_nat (S (S (S (S (4 * (N * 3) + 4 * (M * 3))))))) as len eqn:Elen.
  assert (Hlen : len = 4 + 12 * Z.of_nat N + 12 * Z.of_nat M) by lia.
  clear Elen.
  replace ((4 <? 0) || (len <? 4)) with false by (symmetry; lia).
  replace (3 * Z.of_nat N <? 0) with false by (symmetry; lia).
  replace (len - 4 <? 3 * Z.of_nat N * 4) with false by (symmetry; lia).
  cbn [bind].
  replace ((4 + 12 * Z.of_nat N <? 0) || (len <? 4 + 12 * Z.of_nat N))
    with false by (symmetry; lia).
  replace (-1 <? 0) with true by reflexivity.
  replace (len - (4 + 12 * Z.of_nat N)) with (Z.of_nat (M * 3) * 4) by lia.
  rewrite Z.mod_mul by lia. rewrite Z.div_mul by lia.
  cbn [Z.eqb bind except_ValueError].
  replace (Z.to_nat 4) with 4%nat by reflexivity. cbn [skipn].
  replace (Z.to_nat (3 * Z.of_nat N)) with (length vd) by lia.
  rewrite words_of_bytes by assumption.
  replace (Z.to_nat (4 + 12 * Z.of_nat N)) with (S (S (S (S (4 * length vd)))))
    by lia.
  cbn [skipn]. rewrite skipn_tobytes.
  rewrite <- Hfw. rewrite !Nat2Z.id.
  rewrite <- (app_nil_r (flat_map le32_bytes fd)).
  rewrite words_of_bytes by assumption.
  unfold reshape, size. cbn [shape numel fold_right data].
  replace (N * (3 * 1) =? length vd * 1)%nat with true
    by (symmetry; apply Nat.eqb_eq; lia).
  cbn [bind shape numel fold_right data].
  replace (length fd * 1 / 3 * (3 * 1) =? length fd * 1)%nat with true.
  2:{ symmetry; apply Nat.eqb_eq. rewrite Hfw, !Nat.mul_1_r.
      rewrite Nat.div_mul by lia. lia. }
  cbn [bind]. split; [reflexivity|].
  unfold Mesh_init, np_array. cbn [vertices faces normals encoding_type shape data].
  rewrite map_id.
  rewrite Hfw, Nat.mul_1_r, Nat.div_mul by lia.
  repeat split.
  f_equal. rewrite <- (map_id fd) at 2. apply map_ext_in.
  intros x Hx. apply wrap32_small. rewrite Forall_forall in Hfr. now apply Hfr.
Qed.

Lemma C3_witness :
  exists binary m',
    Mesh_to_precomputed
      (Mesh_init (NdArray [1%nat; 3%nat] [1065353216; 1073741824; 1077936128])
                 (NdArray [1%nat; 3%nat] [0; 0; 0]) None None EncNone None)
    = Ok binary
    /\ Mesh_from_precomputed binary = Ok m'
    /\ data (vertices m') = [1065353216; 1073741824; 1077936128]
    /\ data (faces m') = [0; 0; 0].
Proof.
  destruct (C3_precomputed_round_trip
              (Mesh_init (NdArray [1%nat; 3%nat] [1065353216; 1073741824; 1077936128])
                 (NdArray [1%nat; 3%nat] [0; 0; 0]) None None EncNone None)
              1 1 eq_refl eq_refl eq_refl eq_refl)
    as (b & m' & H1 & H2 & H3 & H4 & _).
  - repeat constructor; unfold u32_mod; lia.
  - repeat constructor; unfold u32_mod; vm_compute; congruence.
  - vm_compute; reflexivity.
  - exists b, m'. rewrite H3, H4. repeat split; assumption.
Defined.

(* ------------------------------------------------------------------ *)
(** ** Concatenation (C4) *)

Lemma chunks_app {A} (n1 n2 w : nat) (d1 d2 : list A) :
  length d1 = (n1 * w)%nat ->
  chunks (n1 + n2) w (d1 ++ d2) = chunks n1 w d1 ++ chunks n2 w d2.
Proof.
  revert d1; induction n1 as [|n1 IH]; intros d1 Hd; simpl in *.
  - destruct d1; [reflexivity|discriminate].
  - rewrite firstn_app, skipn_app.
    replace (w - length d1)%nat with 0%nat by lia. simpl.
    rewrite app_nil_r. f_equal. apply IH. rewrite length_skipn. lia.
Qed.

Lemma chunks_map {A B} (f : A -> B) (n w : nat) (l : list A) :
  chunks n w (map f l) = map (map f) (chunks n w l).
Proof.
  revert l; induction n as [|n IH]; intros l; simpl; [reflexivity|].
  now rewrite firstn_map, skipn_map, IH.
Qed.

Lemma rows_np_array {A B} (f : A -> B) (a : ndarray A) :
  rows (np_array f a) = map (map f) (rows a).
Proof.
  unfold rows, np_array; simpl. destruct (shape a); [reflexivity|].
  apply chunks_map.
Qed.

Lemma array_wf_np_array {A B} (f : A -> B) (a : ndarray A) :
  array_wf a -> array_wf (np_array f a).
Proof. unfold array_wf, np_array; simpl. now rewrite length_map. Qed.

Lemma shape_eqb_refl (s : list nat) : shape_eqb s s = true.
Proof. induction s; simpl; [reflexivity|]. now rewrite Nat.eqb_refl. Qed.

(** Concatenating [n_i x w] arrays. *)
Lemma np_concatenate_ok {A} (w : nat) (arrays : list (ndarray A)) :
  arrays <> [] ->
  Forall (fun a => (exists n, shape a = [n; w]) /\ array_wf a) arrays ->
  exists r,
    np_concatenate arrays = Ok r
    /\ shape r = [list_sum (map (fun a => length (rows a)) arrays); w]
    /\ data r = concat (map data arrays)
    /\ rows r = concat (map rows arrays)
    /\ array_wf r.
Proof.
  intros Hne Hall.
  assert (Hshape : forall a, In a arrays -> exists n, shape a = [n; w]
                                            /\ length (data a) = (n * w)%nat
                                            /\ length (rows a) = n).
  { intros a Ha. rewrite Forall_forall in Hall.
    destruct (Hall a Ha) as [[n Hn] Hwf]. exists n.
    unfold array_wf in Hwf. rewrite Hn in Hwf. simpl in Hwf.
    rewrite Nat.mul_1_r in Hwf.
    split; [assumption|]. split; [assumption|].
    now apply (rows_length n w). }
  unfold np_concatenate.
  destruct arrays as [|a0 arrays']; [congruence|].
  destruct (Hshape a0 (or_introl eq_refl)) as (n0 & Hn0 & _).
  rewrite Hn0.
  set (arrays := a0 :: arrays') in *.
  assert (Hcheck : forallb (fun b => match shape b with
                                     | [] => false
                                     | _ :: rest' => shape_eqb [w] rest'
                                     end) arrays = true).
  { apply forallb_forall. intros b Hb.
    destruct (Hshape b Hb) as (n & Hn & _). rewrite Hn.
    apply shape_eqb_refl. }
  rewrite Hcheck. eexists. split; [reflexivity|].
  assert (Hsum : fold_right Nat.add 0%nat (map (fun b => hd 0%nat (shape b)) arrays)
                 = list_sum (map (fun a => length (rows a)) arrays)).
  { clear Hcheck Hall Hne. induction arrays as [|b bs IH]; [reflexivity|].
    simpl. destruct (Hshape b (or_introl eq_refl)) as (n & Hn & _ & Hr).
    rewrite Hn, Hr. simpl. f_equal. apply IH.
    intros a Ha. apply Hshape. now right. }
  assert (Hrows : chunks (list_sum (map (fun a => length (rows a)) arrays)) w
                         (concat (map data arrays))
                  = concat (map rows arrays)
                  /\ length (concat (map data arrays))
                     = (list_sum (map (fun a => length (rows a)) arrays) * w)%nat).
  { clear Hcheck Hall Hne Hsum. induction arrays as [|b bs IH]; [split; reflexivity|].
    simpl. destruct (Hshape b (or_introl eq_refl)) as (n & Hn & Hd & Hr).
    destruct IH as [IH1 IH2]; [intros a Ha; apply Hshape; now right|].
    rewrite Hr. split.
    - rewrite chunks_app by assumption. f_equal; [|assumption].
      unfold rows. rewrite Hn. simpl. now rewrite Nat.mul_1_r.
    - rewrite length_app, IH2, Hd. lia. }
  destruct Hrows as [Hrows Hlen].
  cbn [shape data]. rewrite Hsum.
  split; [reflexivity|]. split; [reflexivity|]. split.
  - unfold rows. cbn [shape data numel fold_right]. now rewrite Nat.mul_1_r.
  - unfold array_wf. cbn [shape data numel fold_right]. lia.
Qed.

Lemma cumsum_from_nth (acc : Z) (l : list Z) (i : nat) :
  (i < length l)%nat ->
  nth i (cumsum_from acc l) 0 = acc + fold_right Z.add 0 (firstn (S i) l).
Proof.
  revert acc i; induction l as [|x l IH]; intros acc i Hi; simpl in *; [lia|].
  destruct i as [|i]; simpl.
  - lia.
  - rewrite IH by lia. simpl. lia.
Qed.

Lemma sum_of_nat (l : list nat) :
  fold_right Z.add 0 (map Z.of_nat l) = Z.of_nat (list_sum l).
Proof. induction l as [|x l IH]; simpl; [reflexivity|]. lia. Qed.

(** [vertex_ct[i]] is the number of vertices before mesh [i], reduced
    modulo 2^32. *)
Lemma vertex_ct_nth (lens : list nat) (i : nat) :
  (i <= length lens)%nat ->
  nth i (vertex_ct lens) 0 = wrap32 (Z.of_nat (list_sum (firstn i lens))).
Proof.
  intros Hi. unfold vertex_ct. destruct i as [|i]; [reflexivity|].
  cbn [nth]. change 0 with (wrap32 0) at 1. rewrite map_nth.
  unfold np_cumsum. rewrite cumsum_from_nth by (rewrite length_map; lia).
  rewrite firstn_map, sum_of_nat. reflexivity.
Qed.

Lemma wrap32_add_r (a b : Z) : wrap32 (a + wrap32 b) = wrap32 (a + b).
Proof. unfold wrap32, u32_mod. now rewrite Z.add_mod_idemp_r by lia. Qed.

Lemma wrap32_idem (a : Z) : wrap32 (wrap32 a) = wrap32 a.
Proof. unfold wrap32, u32_mod. now rewrite Z.mod_mod by lia. Qed.

Lemma mesh_len_ok (m : Mesh) :
  mesh_ok m -> Mesh_len m = Ok (num_vertices m).
Proof.
  intros [[N HN] _ _ _ _ _ _]. unfold Mesh_len, shape0, num_vertices.
  rewrite HN. now rewrite (rows_length N 3).
Qed.

Lemma in_py_enumerate {A} (l : list A) (i : nat) (x : A) :
  In (i, x) (py_enumerate l) -> nth_error l i = Some x.
Proof.
  unfold py_enumerate.
  assert (G : forall s, In (i, x) (combine (seq s (length l)) l) ->
                        (s <= i)%nat /\ nth_error l (i - s) = Some x).
  { induction l as [|y l IH]; intros s; simpl; [tauto|].
    intros [H | H].
    - inversion H; subst. rewrite Nat.sub_diag. auto.
    - apply IH in H. destruct H as [H1 H2]. split; [lia|].
      replace (i - s)%nat with (S (i - S s)) by lia. exact H2. }
  intros H. apply G in H. destruct H as [_ H]. now rewrite Nat.sub_0_r in H.
Qed.

Lemma map_snd_py_enumerate {A} (l : list A) : map snd (py_enumerate l) = l.
Proof.
  unfold py_enumerate. generalize 0%nat.
  induction l as [|x l IH]; intros s; simpl; [reflexivity|]. now rewrite IH.
Qed.

Lemma concat_encoding_ok set_list (meshes : list Mesh) :
  Forall (fun m => hashable (encoding_type m) = true) meshes ->
  exists enc, concat_encoding set_list meshes = Ok enc.
Proof.
  intros H. unfold concat_encoding.
  rewrite (proj2 (forallb_forall _ _)) by (now apply Forall_forall).
  destruct (set_list _) as [|[s|] [|? ?]]; eexists; reflexivity.
Qed.

(** C4, as amended.  For every non-empty sequence of meshes of the data
    model (with hashable encoding types), [concatenate] returns a mesh
    whose vertex and face counts are the sums of the inputs' counts, whose
    vertices are the inputs' vertices in input order, and whose faces are
    the inputs' faces in input order, the ids of the i-th input shifted
    (in uint32 arithmetic) by the number of vertices of inputs 0..i-1.
    When the vertices number fewer than 2^32 in all, a valid id of the
    i-th input is shifted without wrap-around and lands in the range of
    the vertices of that input. *)
Theorem C4_concatenate_appends_vertices_and_shifts_faces
    (set_list : list (option string) -> list (option string))
    (meshes : list Mesh)
    (Hne : meshes <> [])
    (Hok : Forall mesh_ok meshes)
    (Henc : Forall (fun m => hashable (encoding_type m) = true) meshes) :
  exists m,
    Mesh_concatenate set_list meshes = Ok m
    /\ shape (vertices m) = [list_sum (map num_vertices meshes); 3%nat]
    /\ shape (faces m) = [list_sum (map num_faces meshes); 3%nat]
    /\ rows (vertices m) = concat (map (fun mi => rows (vertices mi)) meshes)
    /\ rows (faces m)
       = concat (map (fun im =>
                        map (map (fun f => wrap32 (f + vertices_before meshes (fst im))))
                            (rows (faces (snd im))))
                     (py_enumerate meshes))
    /\ (Z.of_nat (list_sum (map num_vertices meshes)) < u32_mod ->
        forall i mi f,
          nth_error meshes i = Some mi ->
          In f (data (faces mi)) ->
          0 <= f < Z.of_nat (num_vertices mi) ->
          wrap32 (f + vertices_before meshes i) = f + vertices_before meshes i
          /\ vertices_before meshes i <= f + vertices_before meshes i
             < vertices_before meshes i + Z.of_nat (num_vertices mi)
          /\ vertices_before meshes i + Z.of_nat (num_vertices mi)
             <= Z.of_nat (list_sum (map num_vertices meshes))).
Proof.
  unfold Mesh_concatenate.
  rewrite (mapM_ok Mesh_len num_vertices)
    by (intros x Hx; apply mesh_len_ok; rewrite Forall_forall in Hok; auto).
  cbn [bind].
  (* vertices *)
  destruct (np_concatenate_ok 3 (map vertices meshes)) as (vs & Hvs & Hvsh & _ & Hvrows & _).
  { destruct meshes; [congruence|discriminate]. }
  { rewrite Forall_map. eapply Forall_impl; [|exact Hok].
    intros m [Hv _ _ Hw _ _ _]. split; assumption. }
  rewrite Hvs. cbn [bind].
  (* faces *)
  set (shifted := map (fun im => np_array (fun f => wrap32 (f + nth (fst im) (vertex_ct (map num_vertices meshes)) 0))
                                          (faces (snd im)))
                      (py_enumerate meshes)).
  assert (Hshifted : shifted
                     = map (fun im => np_array (fun f => wrap32 (f + vertices_before meshes (fst im)))
                                               (faces (snd im)))
                           (py_enumerate meshes)).
  { apply map_ext_in. intros [i mi] Hin. cbn [fst snd].
    apply in_py_enumerate in Hin.
    assert (Hi : (i < length meshes)%nat)
      by (apply nth_error_Some; congruence).
    rewrite vertex_ct_nth by (rewrite length_map; lia).
    unfold np_array. f_equal. apply map_ext. intros f.
    rewrite wrap32_add_r. unfold vertices_before. now rewrite firstn_map. }
  destruct (np_concatenate_ok 3 shifted) as (fs & Hfs & Hfsh & _ & Hfrows & _).
  { subst shifted. destruct meshes; [congruence|discriminate]. }
  { rewrite Hshifted. rewrite Forall_map. apply Forall_forall.
    intros [i mi] Hin. apply in_py_enumerate in Hin. apply nth_error_In in Hin.
    rewrite Forall_forall in Hok. destruct (Hok mi Hin) as [_ Hf _ _ Hw _ _].
    cbn [fst snd]. split; [exact Hf|]. now apply array_wf_np_array. }
  rewrite Hfs. cbn [bind].
  (* normals *)
  destruct (np_concatenate_ok 3 (map normals meshes)) as (ns & Hns & _).
  { destruct meshes; [congruence|discriminate]. }
  { rewrite Forall_map. eapply Forall_impl; [|exact Hok].
    intros m [_ _ Hn _ _ Hw _]. split; assumption. }
  rewrite Hns. cbn [bind].
  destruct (concat_encoding_ok set_list meshes Henc) as [enc Henc'].
  rewrite Henc'. cbn [bind].
  eexists. split; [reflexivity|].
  unfold Mesh_init. cbn [vertices faces].
  split; [|split; [|split; [|split]]].
  - cbn [np_array shape]. rewrite Hvsh, map_map. reflexivity.
  - cbn [np_array shape]. rewrite Hfsh. f_equal. f_equal.
    rewrite Hshifted, map_map.
    rewrite <- (map_snd_py_enumerate meshes) at 2. rewrite map_map.
    apply map_ext. intros [i mi]. cbn [fst snd]. unfold num_faces.
    now rewrite rows_np_array, length_map.
  - rewrite rows_np_array, Hvrows, map_map.
    rewrite (map_ext _ (fun r => r)) by (intros; apply map_id).
    now rewrite map_id.
  - rewrite rows_np_array, Hfrows, Hshifted, map_map.
    rewrite concat_map, map_map. f_equal.
    apply map_ext. intros [i mi]. cbn [fst snd].
    rewrite rows_np_array, map_map. apply map_ext. intros r.
    rewrite map_map. apply map_ext. intros f. apply wrap32_idem.
  - intros Htot i mi f Hi Hf Hrange.
    assert (Hsplit : list_sum (map num_vertices meshes)
                     = (list_sum (map num_vertices (firstn i meshes))
                        + num_vertices mi
                        + list_sum (map num_vertices (skipn (S i) meshes)))%nat).
    { rewrite <- (firstn_skipn i meshes) at 1.
      rewrite map_app, list_sum_app.
      assert (Hs : skipn i meshes = mi :: skipn (S i) meshes).
      { clear -Hi. revert i Hi. induction meshes as [|m0 ms IH]; intros [|i] Hi;
          simpl in *; try discriminate.
        - congruence.
        - now apply IH. }
      rewrite Hs. simpl. lia. }
    unfold vertices_before. unfold u32_mod in *.
    split; [|split]; try lia.
    apply wrap32_small. unfold is_u32, u32_mod. lia.
Qed.

(** C4, the claim as stated fails for the sequence of no meshes:
    [np.concatenate] of an empty list raises ValueError, whatever the
    order of a set is. *)
Lemma C4_counterexample :
  (fun set_list => Mesh_concatenate set_list [])
  = (fun _ => Raise ValueError).
Proof. reflexivity. Qed.

(* ------------------------------------------------------------------ *)
(** ** np.unique: sorting and grouping *)

Section UniqueFacts.
Context {R : Type} {cmp : R -> R -> comparison} {eqb : R -> R -> bool}.
Context `{!SortOrder cmp eqb}.

Local Notation lei := (rec_le cmp).
Local Notation eqi := (rec_eqb eqb).

Lemma insert_sorted_perm (x : nat * R) (l : list (nat * R)) :
  Permutation (insert_sorted cmp x l) (x :: l).
Proof.
  induction l as [|y l IH]; simpl; [reflexivity|].
  destruct (cmp (snd x) (snd y)); try reflexivity.
  rewrite IH. apply perm_swap.
Qed.

Lemma stable_sort_perm (l : list (nat * R)) :
  Permutation (stable_sort cmp l) l.
Proof.
  induction l as [|x l IH]; simpl; [reflexivity|].
  rewrite insert_sorted_perm. now constructor.
Qed.

Lemma insert_sorted_sorted (x : nat * R) (l : list (nat * R)) :
  StronglySorted lei l -> StronglySorted lei (insert_sorted cmp x l).
Proof.
  induction 1 as [|y l Hl IH Hy]; simpl.
  - constructor; constructor.
  - destruct (cmp (snd x) (snd y)) eqn:E.
    + constructor; [now constructor|]. constructor.
      * unfold rec_le. congruence.
      * eapply Forall_impl; [|exact Hy]. unfold rec_le. intros z Hz.
        apply (cmp_le_trans _ (snd y)); congruence.
    + constructor; [now constructor|]. constructor.
      * unfold rec_le. congruence.
      * eapply Forall_impl; [|exact Hy]. unfold rec_le. intros z Hz.
        apply (cmp_le_trans _ (snd y)); congruence.
    + constructor; [assumption|].
      apply (Permutation_Forall (Permutation_sym (insert_sorted_perm x l))).
      constructor; [|assumption].
      unfold rec_le. rewrite (cmp_antisym (snd x) (snd y)), E. simpl. congruence.
Qed.

Lemma stable_sort_sorted (l : list (nat * R)) :
  StronglySorted lei (stable_sort cmp l).
Proof.
  induction l as [|x l IH]; simpl; [constructor|].
  now apply insert_sorted_sorted.
Qed.

(** Sorting a sorted list changes nothing. *)
Lemma stable_sort_id (l : list (nat * R)) :
  StronglySorted lei l -> stable_sort cmp l = l.
Proof.
  induction 1 as [|x l Hl IH Hx]; simpl; [reflexivity|].
  rewrite IH. destruct l as [|y l']; [reflexivity|]. simpl.
  inversion Hx as [|? ? Hxy _]; subst. unfold rec_le in Hxy.
  destruct (cmp (snd x) (snd y)); congruence.
Qed.

Lemma group_runs_concat (l : list (nat * R)) :
  concat (map group_members (group_runs eqb l)) = l.
Proof.
  induction l as [|x l IH]; simpl; [reflexivity|].
  destruct (group_runs eqb l) as [|[y g] gs]; simpl in *.
  - now rewrite <- IH.
  - destruct (eqb (snd y) (snd x)); simpl; now rewrite <- IH.
Qed.

Lemma group_runs_in (l : list (nat * R)) g x :
  In g (group_runs eqb l) -> In x (group_members g) -> In x l.
Proof.
  intros Hg Hx. rewrite <- (group_runs_concat l). apply in_concat.
  exists (group_members g). split; [|assumption]. now apply in_map.
Qed.

Lemma group_runs_nil (l : list (nat * R)) : group_runs eqb l = [] -> l = [].
Proof.
  intros H. rewrite <- (group_runs_concat l), H. reflexivity.
Qed.

Lemma group_runs_head (l : list (nat * R)) y g gs :
  group_runs eqb l = (y, g) :: gs ->
  l = y :: g ++ concat (map group_members gs).
Proof.
  intros H. rewrite <- (group_runs_concat l) at 1. now rewrite H.
Qed.

Lemma sorted_head_le (y : nat * R) (t : list (nat * R)) z :
  StronglySorted lei (y :: t) -> In z (y :: t) -> lei y z.
Proof.
  intros Hs [<- | Hz].
  - unfold rec_le. rewrite cmp_refl. congruence.
  - inversion Hs as [|? ? _ Hall]; subst.
    rewrite Forall_forall in Hall. now apply Hall.
Qed.

(** In a sorted list, a record that equals itself cannot equal a later
    record without equalling the one right after it. *)
Lemma sorted_eq_next (a y : nat * R) (t : list (nat * R)) z :
  StronglySorted lei (a :: y :: t) -> In z (y :: t) ->
  eqi a z = true -> eqi y a = true.
Proof.
  intros Hs Hz Haz. unfold rec_eqb in *.
  inversion Hs as [|? ? Hs' Hall]; subst.
  assert (Hay : lei a y) by (inversion Hall; assumption).
  assert (Hyz : lei y z) by (now apply (sorted_head_le y t)).
  assert (Hc : cmp (snd a) (snd y) = Eq).
  { apply (cmp_squeeze _ _ (snd z)); try assumption. now apply eqb_cmp. }
  rewrite eqb_sym. apply cmp_eqb; [assumption|].
  now apply (eqb_refl_l _ (snd z)).
Qed.

Lemma filter_all {A} (f : A -> bool) (l : list A) :
  Forall (fun x => f x = true) l -> filter f l = l.
Proof.
  induction 1 as [|x l Hx _ IH]; simpl; [reflexivity|].
  now rewrite Hx, IH.
Qed.

Lemma filter_none {A} (f : A -> bool) (l : list A) :
  (forall x, In x l -> f x = false) -> filter f l = [].
Proof.
  induction l as [|x l IH]; intros H; simpl; [reflexivity|].
  rewrite (H x) by now left. apply IH. intros; apply H; now right.
Qed.

(** The groups of a sorted list: the group of a record that equals
    itself is made of all the records equal to it; a record that does
    not equal itself (it has a NaN) is alone in its group. *)
Lemma group_runs_spec (l : list (nat * R)) :
  StronglySorted lei l ->
  forall g x, In g (group_runs eqb l) -> In x (group_members g) ->
    (eqi x x = true -> group_members g = filter (eqi x) l)
    /\ (eqi x x = false -> group_members g = [x]).
Proof.
  induction l as [|a l IH]; intros Hs g x Hg Hx; [destruct Hg|].
  assert (Hs' : StronglySorted lei l) by (inversion Hs; assumption).
  specialize (IH Hs').
  simpl in Hg.
  destruct (group_runs eqb l) as [|[y g'] gs] eqn:Eruns.
  - (* [a] alone *)
    apply group_runs_nil in Eruns. subst l.
    destruct Hg as [<- | []]. destruct Hx as [<- | []]. simpl.
    split; intros E.
    + now rewrite E.
    + reflexivity.
  - pose proof (group_runs_head l y g' gs Eruns) as Hl.
    assert (Hfirst : In (y, g') ((y, g') :: gs)) by now left.
    assert (Hyin : In y (group_members (y, g'))) by now left.
    destruct (eqb (snd y) (snd a)) eqn:Eya.
    + (* [a] joins the group of [y] *)
      assert (Hyy : eqi y y = true)
        by (unfold rec_eqb; apply (eqb_refl_l _ (snd a)); exact Eya).
      destruct (IH (y, g') y Hfirst Hyin) as [IHy _].
      specialize (IHy Hyy). unfold group_members in IHy. simpl fst in IHy.
      simpl snd in IHy.
      assert (Hally : Forall (fun z => eqi y z = true) (y :: g')).
      { rewrite IHy. apply Forall_forall. intros z Hz.
        apply filter_In in Hz. tauto. }
      destruct Hg as [<- | Hg].
      * (* the first group *)
        assert (Hyx : eqi y x = true).
        { destruct Hx as [<- | Hx]; [exact Eya|].
          rewrite Forall_forall in Hally. now apply Hally. }
        assert (Hxx : eqi x x = true)
          by (unfold rec_eqb in *; apply (eqb_refl_r (snd y)); exact Hyx).
        split; intros E; [|congruence].
        unfold group_members. simpl fst. simpl snd.
        rewrite (filter_ext (eqi x) (eqi y)).
        2:{ intros z. unfold rec_eqb. apply eqb_compat. rewrite eqb_sym. exact Hyx. }
        simpl. unfold rec_eqb at 1. rewrite Eya. f_equal. exact IHy.
      * (* a later group *)
        destruct (IH g x (or_intror Hg) Hx) as [IH1 IH2].
        split; [|exact IH2].
        intros E. rewrite (IH1 E). simpl.
        destruct (eqi x a) eqn:Exa; [|reflexivity].
        exfalso.
        assert (Hyx : eqi y x = true).
        { unfold rec_eqb in *. apply (eqb_trans _ (snd a)); [exact Eya|].
          now rewrite eqb_sym. }
        assert (Hrest : filter (eqi y) (concat (map group_members gs)) = []).
        { pose proof IHy as Hlen. rewrite Hl in Hlen.
          change (y :: g' ++ concat (map group_members gs))
            with ((y :: g') ++ concat (map group_members gs)) in Hlen.
          rewrite filter_app, (filter_all _ _ Hally) in Hlen.
          apply (f_equal (@length _)) in Hlen. rewrite length_app in Hlen.
          destruct (filter (eqi y) (concat (map group_members gs)));
            [reflexivity|simpl in Hlen; lia]. }
        assert (Hin : In x (filter (eqi y) (concat (map group_members gs)))).
        { apply filter_In. split; [|exact Hyx]. apply in_concat.
          exists (group_members g). split; [now apply in_map|exact Hx]. }
        rewrite Hrest in Hin. destruct Hin.
    + (* [a] starts a group of its own *)
      assert (Hnone : forall z, In z l -> eqi a z = true -> False).
      { intros z Hz Haz. rewrite Hl in Hs, Hz.
        pose proof (sorted_eq_next a y _ z Hs Hz Haz) as Hc.
        unfold rec_eqb in Hc. congruence. }
      destruct Hg as [<- | Hg].
      * destruct Hx as [<- | []]. unfold group_members. simpl fst. simpl snd.
        split; intros E; [|reflexivity].
        simpl. rewrite E. f_equal. symmetry. apply filter_none.
        intros z Hz. destruct (eqi a z) eqn:Eaz; [|reflexivity].
        exfalso. now apply (Hnone z).
      * destruct (IH g x Hg Hx) as [IH1 IH2].
        split; [|exact IH2].
        intros E. rewrite (IH1 E). simpl.
        destruct (eqi x a) eqn:Exa; [|reflexivity].
        exfalso. apply (Hnone x).
        -- apply (group_runs_in l g); [rewrite Eruns|]; assumption.
        -- unfold rec_eqb in *. now rewrite eqb_sym.
Qed.
End UniqueFacts.

Lemma enumerate_snd {R} (rs : list R) : map snd (enumerate rs) = rs.
Proof.
  unfold enumerate. generalize 0%nat.
  induction rs as [|r rs IH]; intros s; simpl; [reflexivity|]. now rewrite IH.
Qed.

Lemma enumerate_fst {R} (rs : list R) :
  map fst (enumerate rs) = seq 0 (length rs).
Proof.
  unfold enumerate. generalize 0%nat.
  induction rs as [|r rs IH]; intros s; simpl; [reflexivity|]. now rewrite IH.
Qed.

Lemma enumerate_in {R} (rs : list R) (i : nat) (r : R) :
  In (i, r) (enumerate rs) <-> nth_error rs i = Some r.
Proof.
  unfold enumerate.
  assert (G : forall s, In (i, r) (combine (seq s (length rs)) rs) <->
                        (s <= i)%nat /\ nth_error rs (i - s) = Some r).
  { induction rs as [|y rs IH]; intros s; simpl.
    - split; [tauto|]. intros [_ H]. now destruct (i - s)%nat.
    - rewrite IH. split.
      + intros [H | [H1 H2]].
        * inversion H; subst. rewrite Nat.sub_diag. auto.
        * split; [lia|]. replace (i - s)%nat with (S (i - S s)) by lia. exact H2.
      + intros [H1 H2]. destruct (Nat.eq_dec s i) as [->|Hne].
        * rewrite Nat.sub_diag in H2. simpl in H2. left. congruence.
        * right. split; [lia|].
          replace (i - s)%nat with (S (i - S s)) in H2 by lia. exact H2. }
  rewrite G. rewrite Nat.sub_0_r. split; [tauto|]. intros; split; [lia|auto].
Qed.

Lemma filter_length_perm {A} (f : A -> bool) (l1 l2 : list A) :
  Permutation l1 l2 -> length (filter f l1) = length (filter f l2).
Proof.
  induction 1; simpl; try congruence.
  - destruct (f x); simpl; congruence.
  - destruct (f x), (f y); reflexivity.
Qed.

Lemma filter_length_map {A B} (g : A -> B) (f : B -> bool) (l : list A) :
  length (filter (fun x => f (g x)) l) = length (filter f (map g l)).
Proof.
  induction l as [|x l IH]; simpl; [reflexivity|].
  destruct (f (g x)); simpl; congruence.
Qed.

Section UniqueOutputsBy.
Context {R : Type} {cmp : R -> R -> comparison} {eqb : R -> R -> bool}.
Context `{!SortOrder cmp eqb}.
Variable quicksort : list R -> list (nat * R).
Hypothesis quicksort_sorts : sorts_records cmp quicksort.

Local Notation lei := (rec_le cmp).
Local Notation eqi := (rec_eqb eqb).

Lemma quicksort_perm (rs : list R) :
  Permutation (quicksort rs) (enumerate rs).
Proof. apply Permutation_sym, quicksort_sorts. Qed.

Lemma quicksort_sorted (rs : list R) : StronglySorted lei (quicksort rs).
Proof. apply quicksort_sorts. Qed.

Lemma quicksort_nodup (rs : list R) : NoDup (map fst (quicksort rs)).
Proof.
  apply (Permutation_NoDup (l := map fst (enumerate rs))).
  - apply Permutation_map. apply Permutation_sym, quicksort_perm.
  - rewrite enumerate_fst. apply seq_NoDup.
Qed.

Lemma quicksort_in (rs : list R) (i : nat) (r : R) :
  In (i, r) (quicksort rs) <-> nth_error rs i = Some r.
Proof.
  rewrite <- enumerate_in. split; apply Permutation_in.
  - apply quicksort_perm.
  - apply Permutation_sym, quicksort_perm.
Qed.

(** [group_of] finds the first group that holds position [i]. *)
Lemma group_of_spec (gs : list ((nat * R) * list (nat * R))) (i : nat) :
  (exists g x, In g gs /\ In x (group_members g) /\ fst x = i) ->
  exists g x, nth_error gs (group_of i gs) = Some g
              /\ In x (group_members g) /\ fst x = i.
Proof.
  induction gs as [|g0 gs IH]; intros (g & x & Hg & Hx & Hi).
  - destruct Hg.
  - cbn [group_of].
    destruct (existsb (fun p => (fst p =? i)%nat) (group_members g0)) eqn:E.
    + apply existsb_exists in E. destruct E as (x0 & Hx0 & E).
      apply Nat.eqb_eq in E. exists g0, x0. simpl. auto.
    + destruct Hg as [<- | Hg].
      * exfalso.
        assert (E' : existsb (fun p => (fst p =? i)%nat) (group_members g0) = true).
        { apply existsb_exists. exists x. split; [assumption|].
          now apply Nat.eqb_eq. }
        congruence.
      * simpl. apply IH. exists g, x. auto.
Qed.

(** The group of the record at position [i]. *)
Lemma unique_group_at_by (rs : list R) (i : nat) (r : R) :
  nth_error rs i = Some r ->
  exists g,
    nth_error (unique_groups_by quicksort eqb rs) (nth i (unique_inverse_by quicksort eqb rs) 0%nat)
    = Some g
    /\ In (i, r) (group_members g)
    /\ (eqb r r = true ->
        group_members g = filter (eqi (i, r)) (quicksort rs))
    /\ (eqb r r = false -> group_members g = [(i, r)]).
Proof.
  intros Hi.
  assert (Hlt : (i < length rs)%nat) by (apply nth_error_Some; congruence).
  unfold unique_inverse_by.
  replace (nth i (map (fun i0 => group_of i0 (unique_groups_by quicksort eqb rs))
                      (seq 0 (length rs))) 0%nat)
    with (group_of i (unique_groups_by quicksort eqb rs)).
  2:{ rewrite (nth_indep _ 0%nat (group_of 0 (unique_groups_by quicksort eqb rs)))
        by (rewrite length_map, length_seq; lia).
      rewrite (map_nth (fun i0 => group_of i0 (unique_groups_by quicksort eqb rs))).
      now rewrite seq_nth. }
  assert (Hin : In (i, r) (quicksort rs)) by now apply quicksort_in.
  unfold unique_groups_by.
  destruct (group_of_spec (group_runs eqb (quicksort rs)) i) as (g & x & Hg & Hx & Hfst).
  { rewrite <- (group_runs_concat (eqb := eqb) (quicksort rs)) in Hin.
    apply in_concat in Hin. destruct Hin as (ms & Hms & Hin).
    apply in_map_iff in Hms. destruct Hms as (g & <- & Hg).
    exists g, (i, r). auto. }
  assert (Hgin : In g (group_runs eqb (quicksort rs)))
    by (eapply nth_error_In; eassumption).
  assert (Hxin : In x (quicksort rs)) by (eapply group_runs_in; eassumption).
  assert (Hx_eq : x = (i, r)).
  { destruct x as [j r']. simpl in Hfst. subst j.
    apply quicksort_in in Hxin. congruence. }
  subst x. exists g. split; [assumption|]. split; [assumption|].
  apply (group_runs_spec (quicksort rs) (quicksort_sorted rs) g (i, r) Hgin Hx).
Qed.

Lemma unique_counts_nth_by (rs : list R) (k : nat) g :
  nth_error (unique_groups_by quicksort eqb rs) k = Some g ->
  nth_error (unique_counts_by quicksort eqb rs) k = Some (length (group_members g)).
Proof.
  intros H. unfold unique_counts_by. rewrite nth_error_map, H. reflexivity.
Qed.

Lemma unique_values_nth_by (rs : list R) (k : nat) g :
  nth_error (unique_groups_by quicksort eqb rs) k = Some g ->
  nth_error (unique_values_by quicksort eqb rs) k = Some (snd (fst g)).
Proof.
  intros H. unfold unique_values_by. rewrite nth_error_map, H. reflexivity.
Qed.

(** [return_counts]: the count of the group of a record that equals
    itself is the number of records equal to it; a record that does not
    equal itself is counted once. *)
Lemma unique_count_at_by (rs : list R) (i : nat) (r : R) :
  nth_error rs i = Some r ->
  nth_error (unique_counts_by quicksort eqb rs) (nth i (unique_inverse_by quicksort eqb rs) 0%nat)
  = Some (if eqb r r then length (filter (eqb r) rs) else 1%nat).
Proof.
  intros Hi. destruct (unique_group_at_by rs i r Hi) as (g & Hg & _ & H1 & H2).
  rewrite (unique_counts_nth_by rs _ g Hg). f_equal.
  destruct (eqb r r) eqn:E.
  - rewrite (H1 eq_refl).
    rewrite (filter_length_perm _ _ _ (quicksort_perm rs)).
    unfold rec_eqb. cbn [snd].
    rewrite (filter_length_map snd (eqb r)). now rewrite enumerate_snd.
  - now rewrite (H2 eq_refl).
Qed.

(** [return_inverse] points at a unique record equal to the original
    one (the original one itself when it does not equal itself). *)
Lemma unique_inverse_at_by (rs : list R) (i : nat) (r : R) :
  nth_error rs i = Some r ->
  exists h,
    nth_error (unique_values_by quicksort eqb rs) (nth i (unique_inverse_by quicksort eqb rs) 0%nat)
    = Some h
    /\ (h = r \/ eqb r h = true).
Proof.
  intros Hi. destruct (unique_group_at_by rs i r Hi) as (g & Hg & Hin & H1 & H2).
  exists (snd (fst g)). split; [now apply unique_values_nth_by|].
  destruct (eqb r r) eqn:E.
  - right. assert (Hh : In (fst g) (group_members g)) by now left.
    rewrite (H1 eq_refl) in Hh. apply filter_In in Hh. apply Hh.
  - left. specialize (H2 eq_refl). unfold group_members in H2.
    injection H2 as H2 _. now rewrite H2.
Qed.

Lemma unique_inverse_lt_by (rs : list R) (i : nat) :
  (i < length rs)%nat ->
  (nth i (unique_inverse_by quicksort eqb rs) 0 < length (unique_values_by quicksort eqb rs))%nat.
Proof.
  intros Hi. destruct (nth_error rs i) as [r|] eqn:E.
  - destruct (unique_inverse_at_by rs i r E) as (h & Hh & _).
    apply nth_error_Some. congruence.
  - apply nth_error_None in E. lia.
Qed.

Lemma unique_inverse_length_by (rs : list R) :
  length (unique_inverse_by quicksort eqb rs) = length rs.
Proof. unfold unique_inverse_by. now rewrite length_map, length_seq. Qed.

Lemma unique_values_in_by (rs : list R) (h : R) :
  In h (unique_values_by quicksort eqb rs) -> In h rs.
Proof.
  unfold unique_values_by, unique_groups_by. intros H.
  apply in_map_iff in H. destruct H as (g & <- & Hg).
  assert (Hin : In (fst g) (quicksort rs)).
  { apply (group_runs_in (eqb := eqb) _ g); [assumption|now left]. }
  destruct (fst g) as [i r]. apply quicksort_in in Hin.
  simpl. eapply nth_error_In; eassumption.
Qed.

Lemma unique_values_nonempty_by (rs : list R) :
  rs <> [] -> unique_values_by quicksort eqb rs <> [].
Proof.
  intros Hne Hnil. destruct rs as [|r rs]; [congruence|].
  pose proof (unique_inverse_lt_by (r :: rs) 0 ltac:(simpl; lia)) as H.
  rewrite Hnil in H. simpl in H. lia.
Qed.
End UniqueOutputsBy.

(** The stable sort is one such sort. *)
Section UniqueOutputs.
Context {R : Type} {cmp : R -> R -> comparison} {eqb : R -> R -> bool}.
Context `{!SortOrder cmp eqb}.

Local Notation lei := (rec_le cmp).
Local Notation eqi := (rec_eqb eqb).

Lemma argsort_perm (rs : list R) :
  Permutation (argsort cmp rs) (enumerate rs).
Proof. apply stable_sort_perm. Qed.

Lemma argsort_sorted (rs : list R) : StronglySorted lei (argsort cmp rs).
Proof. apply stable_sort_sorted. Qed.

Lemma argsort_sorts : sorts_records cmp (argsort cmp).
Proof.
  intros rs. split; [apply Permutation_sym, argsort_perm|apply argsort_sorted].
Qed.

Lemma argsort_nodup (rs : list R) : NoDup (map fst (argsort cmp rs)).
Proof. exact (quicksort_nodup (argsort cmp) argsort_sorts rs). Qed.

Lemma argsort_in (rs : list R) (i : nat) (r : R) :
  In (i, r) (argsort cmp rs) <-> nth_error rs i = Some r.
Proof. exact (quicksort_in (argsort cmp) argsort_sorts rs i r). Qed.

Lemma unique_group_at (rs : list R) (i : nat) (r : R) :
  nth_error rs i = Some r ->
  exists g,
    nth_error (unique_groups cmp eqb rs) (nth i (unique_inverse cmp eqb rs) 0%nat)
    = Some g
    /\ In (i, r) (group_members g)
    /\ (eqb r r = true ->
        group_members g = filter (eqi (i, r)) (argsort cmp rs))
    /\ (eqb r r = false -> group_members g = [(i, r)]).
Proof. exact (unique_group_at_by (argsort cmp) argsort_sorts rs i r). Qed.

Lemma unique_counts_nth (rs : list R) (k : nat) g :
  nth_error (unique_groups cmp eqb rs) k = Some g ->
  nth_error (unique_counts cmp eqb rs) k = Some (length (group_members g)).
Proof. exact (unique_counts_nth_by (argsort cmp) rs k g). Qed.

Lemma unique_values_nth (rs : list R) (k : nat) g :
  nth_error (unique_groups cmp eqb rs) k = Some g ->
  nth_error (unique_values cmp eqb rs) k = Some (snd (fst g)).
Proof. exact (unique_values_nth_by (argsort cmp) rs k g). Qed.

Lemma unique_count_at (rs : list R) (i : nat) (r : R) :
  nth_error rs i = Some r ->
  nth_error (unique_counts cmp eqb rs) (nth i (unique_inverse cmp eqb rs) 0%nat)
  = Some (if eqb r r then length (filter (eqb r) rs) else 1%nat).
Proof. exact (unique_count_at_by (argsort cmp) argsort_sorts rs i r). Qed.

Lemma unique_inverse_at (rs : list R) (i : nat) (r : R) :
  nth_error rs i = Some r ->
  exists h,
    nth_error (unique_values cmp eqb rs) (nth i (unique_inverse cmp eqb rs) 0%nat)
    = Some h
    /\ (h = r \/ eqb r h = true).
Proof. exact (unique_inverse_at_by (argsort cmp) argsort_sorts rs i r). Qed.

Lemma unique_inverse_lt (rs : list R) (i : nat) :
  (i < length rs)%nat ->
  (nth i (unique_inverse cmp eqb rs) 0 < length (unique_values cmp eqb rs))%nat.
Proof. exact (unique_inverse_lt_by (argsort cmp) argsort_sorts rs i). Qed.

Lemma unique_inverse_length (rs : list R) :
  length (unique_inverse cmp eqb rs) = length rs.
Proof. exact (unique_inverse_length_by (argsort cmp) rs). Qed.

Lemma unique_values_in (rs : list R) (h : R) :
  In h (unique_values cmp eqb rs) -> In h rs.
Proof. exact (unique_values_in_by (argsort cmp) argsort_sorts rs h). Qed.

Lemma unique_values_nonempty (rs : list R) :
  rs <> [] -> unique_values cmp eqb rs <> [].
Proof. exact (unique_values_nonempty_by (argsort cmp) argsort_sorts rs). Qed.
End UniqueOutputs.

(* ------------------------------------------------------------------ *)
(** ** Merge eligibility (C6) *)

(* ------------------------------------------------------------------ *)
(** ** Rounding and the remainder of floats *)

Lemma digits2_bounds (p : positive) :
  2 ^ (Zpos (digits2_pos p) - 1) <= Zpos p < 2 ^ Zpos (digits2_pos p).
Proof.
  induction p as [p IH|p IH|]; cbn [digits2_pos].
  - rewrite Pos2Z.inj_succ, Z.pow_succ_r by lia.
    replace (Z.succ (Zpos (digits2_pos p)) - 1)
      with (Z.succ (Zpos (digits2_pos p) - 1)) by lia.
    rewrite Z.pow_succ_r by lia. lia.
  - rewrite Pos2Z.inj_succ, Z.pow_succ_r by lia.
    replace (Z.succ (Zpos (digits2_pos p)) - 1)
      with (Z.succ (Zpos (digits2_pos p) - 1)) by lia.
    rewrite Z.pow_succ_r by lia. lia.
  - cbn. lia.
Qed.

Lemma iter_pos_nat {A} (f : A -> A) (p : positive) (x : A) :
  iter_pos f p x = Nat.iter (Pos.to_nat p) f x.
Proof.
  revert x. induction p as [p IH|p IH|]; intros x; cbn [iter_pos].
  - rewrite !IH, Pos2Nat.inj_xI, Nat.iter_succ_r.
    replace (2 * Pos.to_nat p)%nat with (Pos.to_nat p + Pos.to_nat p)%nat by lia.
    now rewrite Nat.iter_add.
  - rewrite !IH, Pos2Nat.inj_xO.
    replace (2 * Pos.to_nat p)%nat with (Pos.to_nat p + Pos.to_nat p)%nat by lia.
    now rewrite Nat.iter_add.
  - reflexivity.
Qed.

Lemma shr_1_m (r : shr_record) :
  0 <= shr_m r -> shr_m (shr_1 r) = shr_m r / 2.
Proof.
  rewrite <- Z.div2_div.
  destruct r as [[|[p|p|]|p] rr s]; cbn [shr_m]; intros H;
    try reflexivity; lia.
Qed.

Lemma shr_iter_m (n : nat) (r : shr_record) :
  0 <= shr_m r ->
  shr_m (Nat.iter n shr_1 r) = shr_m r / 2 ^ Z.of_nat n.
Proof.
  intros H. induction n as [|n IH].
  - cbn. now rewrite Z.div_1_r.
  - rewrite Nat.iter_succ, shr_1_m, IH.
    + rewrite Z.div_div by lia. f_equal.
      rewrite Nat2Z.inj_succ, Z.pow_succ_r by lia. lia.
    + rewrite IH. apply Z.div_pos; lia.
Qed.

Lemma shr_record_of_loc_m (m : Z) (l : location) :
  shr_m (shr_record_of_loc m l) = m.
Proof. destruct l as [|[]]; reflexivity. Qed.

Lemma shl_align_exponent (m : positive) (e e' lo : Z) :
  lo <= e -> lo <= e' -> lo <= snd (shl_align m e e').
Proof. intros H H'. unfold shl_align. now destruct (e' - e). Qed.

Lemma iter_xO_value (m d : positive) :
  Zpos (Pos.iter xO m d) = Zpos m * 2 ^ Zpos d.
Proof.
  induction d as [|d IH] using Pos.peano_ind.
  - cbn. lia.
  - rewrite Pos.iter_succ, Pos2Z.inj_succ, Z.pow_succ_r by lia.
    rewrite Pos2Z.inj_xO, IH. lia.
Qed.

Lemma iter_xO_digits (m d : positive) :
  Zpos (digits2_pos (Pos.iter xO m d)) = Zpos (digits2_pos m) + Zpos d.
Proof.
  induction d as [|d IH] using Pos.peano_ind.
  - cbn. lia.
  - rewrite Pos.iter_succ. cbn [digits2_pos]. lia.
Qed.

Lemma shl_align_value (m : positive) (e e' : Z) :
  e' <= e ->
  Zpos (fst (shl_align m e e')) = Zpos m * 2 ^ (e - e')
  /\ snd (shl_align m e e') = e'.
Proof.
  intros H. unfold shl_align.
  destruct (e' - e) as [|q|q] eqn:E; cbn [fst snd]; try lia.
  - replace (e - e') with 0 by lia. split; lia.
  - rewrite iter_xO_value. replace (e - e') with (Zpos q) by lia. split; lia.
Qed.

Lemma shl_align_digits (m : positive) (e e' : Z) :
  e' <= e ->
  Zpos (digits2_pos (fst (shl_align m e e'))) = Zpos (digits2_pos m) + (e - e').
Proof.
  intros H. unfold shl_align.
  destruct (e' - e) as [|q|q] eqn:E; cbn [fst snd]; try lia.
  rewrite iter_xO_digits. lia.
Qed.

Lemma SFeqb_zero (x : spec_float) : SFeqb x sf_zero = sf_is_zero x.
Proof. destruct x as [s|s| |s m e]; try reflexivity; now destruct s. Qed.

(** A format of [prec] digits and exponents below [emax]; its smallest
    exponent is [emin], not below that of float64. *)
Section FloatFormat.
Variables prec emax : Z.
Hypothesis Hprec : 0 < prec.
Hypothesis Hemax : prec < emax.
Hypothesis Hemin : -1074 <= emin prec emax.

Lemma shr_fexp_pos (m e : Z) (l : location) :
  0 < m -> emin prec emax <= e ->
  0 < shr_m (fst (shr_fexp prec emax m e l))
  /\ emin prec emax <= snd (shr_fexp prec emax m e l).
Proof.
  intros Hm He. destruct m as [|p|p]; try lia.
  unfold shr_fexp, shr. cbn [Zdigits2].
  pose proof (digits2_bounds p) as [Hlo _].
  set (d := Zpos (digits2_pos p)) in *.
  assert (Hd : 1 <= d) by (unfold d; lia).
  destruct (fexp prec emax (d + e) - e) as [|q|q] eqn:En; cbn [fst snd];
    rewrite ?shr_record_of_loc_m; try lia.
  rewrite iter_pos_nat, shr_iter_m, shr_record_of_loc_m, positive_nat_Z
    by (rewrite shr_record_of_loc_m; lia).
  assert (Hq : Zpos q <= d - 1) by (unfold fexp in En; lia).
  split; [|lia].
  apply Z.div_str_pos. split; [apply Z.pow_pos_nonneg; lia|].
  transitivity (2 ^ (d - 1)); [|exact Hlo].
  apply Z.pow_le_mono_r; lia.
Qed.

Lemma binary_round_aux_nonzero (s : bool) (m e : Z) (l : location) :
  0 < m -> emin prec emax <= e ->
  sf_is_zero (binary_round_aux prec emax s m e l) = false.
Proof.
  intros Hm He. unfold binary_round_aux.
  pose proof (shr_fexp_pos m e l Hm He) as [H1 H2].
  destruct (shr_fexp prec emax m e l) as [r1 e1]. cbn [fst snd] in H1, H2.
  set (m2 := round_nearest_even (shr_m r1) (loc_of_shr_record r1)).
  assert (Hm2 : 0 < m2).
  { unfold m2, round_nearest_even.
    destruct (loc_of_shr_record r1) as [|[]]; try lia.
    destruct (Z.even (shr_m r1)); lia. }
  pose proof (shr_fexp_pos m2 e1 loc_Exact Hm2 H2) as [H3 H4].
  destruct (shr_fexp prec emax m2 e1 loc_Exact) as [r2 e2].
  cbn [fst snd] in H3, H4.
  destruct (shr_m r2); try lia.
  now destruct (e2 <=? emax - prec).
Qed.

Lemma binary_round_nonzero (s : bool) (m : positive) (e : Z) :
  emin prec emax <= e -> sf_is_zero (binary_round prec emax s m e) = false.
Proof.
  intros He. unfold binary_round.
  set (e' := fexp prec emax (Zpos (digits2_pos m) + e)).
  assert (He' : emin prec emax <= e') by (unfold e', fexp; lia).
  pose proof (shl_align_exponent m e e' _ He He') as H.
  destruct (shl_align m e e') as [mz ez]. cbn [snd] in H.
  apply binary_round_aux_nonzero; lia.
Qed.

Lemma binary_normalize_nonzero (m e : Z) (s : bool) :
  m <> 0 -> emin prec emax <= e ->
  sf_is_zero (binary_normalize prec emax m e s) = false.
Proof.
  intros Hm He. destruct m as [|p|p]; [lia| |];
    now apply binary_round_nonzero.
Qed.

Lemma binary_round_aux_canonical (s : bool) (m : positive) (e : Z) :
  fexp prec emax (Zpos (digits2_pos m) + e) = e -> e <= emax - prec ->
  binary_round_aux prec emax s (Zpos m) e loc_Exact = S754_finite s m e.
Proof.
  intros Hc He.
  assert (Hs : shr_fexp prec emax (Zpos m) e loc_Exact
               = ({| shr_m := Zpos m; shr_r := false; shr_s := false |}, e)).
  { unfold shr_fexp. cbn [Zdigits2]. rewrite Hc, Z.sub_diag. reflexivity. }
  unfold binary_round_aux. rewrite Hs.
  cbn [shr_m loc_of_shr_record round_nearest_even]. rewrite Hs.
  cbn [shr_m]. replace (e <=? emax - prec) with true; [reflexivity|].
  symmetry. apply Z.leb_le. lia.
Qed.

(** Rounding a number of at most [prec] digits changes its writing
    only. *)
Lemma binary_round_exact (s : bool) (m : positive) (e : Z) :
  Zpos m < 2 ^ prec -> emin prec emax <= e <= emax - prec ->
  exists mz ez,
    binary_round prec emax s m e = S754_finite s mz ez
    /\ ez = fexp prec emax (Zpos (digits2_pos m) + e)
    /\ emin prec emax <= ez <= e
    /\ Zpos mz = Zpos m * 2 ^ (e - ez)
    /\ valid_binary prec emax (S754_finite s mz ez) = true.
Proof.
  intros Hm He. unfold binary_round.
  pose proof (digits2_bounds m) as [Hlo _].
  set (d := Zpos (digits2_pos m)) in *.
  assert (Hd : d <= prec).
  { assert (d - 1 < prec); [|lia].
    apply (Z.pow_lt_mono_r_iff 2); lia. }
  set (e' := fexp prec emax (d + e)).
  assert (He' : emin prec emax <= e' <= e) by (unfold e', fexp; lia).
  pose proof (shl_align_value m e e' (proj2 He')) as [Hv Hx].
  pose proof (shl_align_digits m e e' (proj2 He')) as Hg.
  destruct (shl_align m e e') as [mz ez]. cbn [fst snd] in Hv, Hx, Hg.
  subst ez. exists mz, e'.
  assert (Hcan : fexp prec emax (Zpos (digits2_pos mz) + e') = e').
  { rewrite Hg. fold d. replace (d + (e - e') + e') with (d + e) by lia.
    reflexivity. }
  split; [apply binary_round_aux_canonical; [exact Hcan|lia]|].
  split; [reflexivity|]. split; [lia|]. split; [exact Hv|].
  cbn [valid_binary]. unfold bounded, canonical_mantissa.
  apply andb_true_iff. split; [now apply Z.eqb_eq|apply Z.leb_le; lia].
Qed.

Lemma valid_binary_bounds (s : bool) (m : positive) (e : Z) :
  valid_binary prec emax (S754_finite s m e) = true ->
  emin prec emax <= e <= emax - prec /\ Zpos m < 2 ^ prec
  /\ fexp prec emax (Zpos (digits2_pos m) + e) = e.
Proof.
  cbn [valid_binary]. unfold bounded, canonical_mantissa.
  rewrite andb_true_iff, Z.eqb_eq, Z.leb_le. intros [Hc He].
  pose proof (digits2_bounds m) as [_ Hhi].
  split; [unfold fexp in Hc; lia|]. split; [|exact Hc].
  eapply Z.lt_le_trans; [exact Hhi|]. apply Z.pow_le_mono_r; [lia|].
  unfold fexp in Hc. lia.
Qed.

(** Rounding a number of the format changes nothing. *)
Lemma binary_round_valid (s : bool) (m : positive) (e : Z) :
  valid_binary prec emax (S754_finite s m e) = true ->
  binary_round prec emax s m e = S754_finite s m e.
Proof.
  intros V. apply valid_binary_bounds in V. destruct V as (He & Hm & Hc).
  unfold binary_round. rewrite Hc.
  unfold shl_align. rewrite Z.sub_diag.
  apply binary_round_aux_canonical; [exact Hc|lia].
Qed.

(** The sum of two finite numbers of different magnitude is not zero. *)
Lemma SFadd_nonzero (s1 s2 : bool) (m1 m2 : positive) (e1 e2 : Z) :
  emin prec emax <= e1 -> emin prec emax <= e2 ->
  Zpos m1 * 2 ^ (e1 + 1074) <> Zpos m2 * 2 ^ (e2 + 1074) ->
  sf_is_zero (SFadd prec emax (S754_finite s1 m1 e1) (S754_finite s2 m2 e2))
  = false.
Proof.
  intros H1 H2 Hne. unfold SFadd.
  set (ez := Z.min e1 e2).
  destruct (shl_align_value m1 e1 ez ltac:(lia)) as [V1 _].
  destruct (shl_align_value m2 e2 ez ltac:(lia)) as [V2 _].
  apply binary_normalize_nonzero; [|lia].
  rewrite V1, V2. intros Hz. apply Hne.
  assert (Hez : ez <= e1 /\ ez <= e2 /\ -1074 <= ez) by (unfold ez; lia).
  clearbody ez.
  replace (e1 + 1074) with ((e1 - ez) + (ez + 1074)) by lia.
  replace (e2 + 1074) with ((e2 - ez) + (ez + 1074)) by lia.
  rewrite (Z.pow_add_r 2 (e1 - ez)), (Z.pow_add_r 2 (e2 - ez)) by lia.
  assert (Zpos m1 * 2 ^ (e1 - ez) = Zpos m2 * 2 ^ (e2 - ez)) as E;
    [|now rewrite !Z.mul_assoc, E].
  assert (0 < Zpos m1 * 2 ^ (e1 - ez))
    by (apply Z.mul_pos_pos; [lia|apply Z.pow_pos_nonneg; lia]).
  assert (0 < Zpos m2 * 2 ^ (e2 - ez))
    by (apply Z.mul_pos_pos; [lia|apply Z.pow_pos_nonneg; lia]).
  destruct s1, s2; cbn [cond_Zopp] in Hz; lia.
Qed.

(** The remainder is zero exactly for the multiples of the divisor. *)
Lemma fmod_zero_iff (sx sc : bool) (mx my : positive) (ex ey : Z) :
  valid_binary prec emax (S754_finite sx mx ex) = true ->
  valid_binary prec emax (S754_finite sc my ey) = true ->
  let e := Z.min ex ey in
  let r := (Zpos mx * 2 ^ (ex - e)) mod (Zpos my * 2 ^ (ey - e)) in
  let md := binary_normalize prec emax (cond_Zopp sx r) e sx in
  (r = 0 -> sf_is_zero md = true)
  /\ (r <> 0 ->
      sf_is_zero md = false
      /\ sf_is_zero (SFadd prec emax md (S754_finite sc my ey)) = false)
  /\ (r = 0 <-> exact_multiple (S754_finite sx mx ex) (S754_finite sc my ey)).
Proof.
  intros Vx Vc e r md.
  apply valid_binary_bounds in Vx. destruct Vx as (Hex & Hmx & _).
  apply valid_binary_bounds in Vc. destruct Vc as (Hey & Hmy & _).
  set (X := Zpos mx * 2 ^ (ex - e)) in *.
  set (Y := Zpos my * 2 ^ (ey - e)) in *.
  assert (He : e <= ex /\ e <= ey /\ emin prec emax <= e) by (unfold e; lia).
  assert (HX : 0 < X)
    by (apply Z.mul_pos_pos; [lia|apply Z.pow_pos_nonneg; lia]).
  assert (HY : 0 < Y)
    by (apply Z.mul_pos_pos; [lia|apply Z.pow_pos_nonneg; lia]).
  assert (Ha : Zpos mx * 2 ^ (ex + 1074) = X * 2 ^ (e + 1074)).
  { unfold X. rewrite <- Z.mul_assoc, <- Z.pow_add_r by lia.
    do 2 f_equal. lia. }
  assert (Hb : Zpos my * 2 ^ (ey + 1074) = Y * 2 ^ (e + 1074)).
  { unfold Y. rewrite <- Z.mul_assoc, <- Z.pow_add_r by lia.
    do 2 f_equal. lia. }
  assert (Hp : 0 < 2 ^ (e + 1074)) by (apply Z.pow_pos_nonneg; lia).
  pose proof (Z.mod_pos_bound X Y HY) as Hr. fold r in Hr.
  split; [|split].
  - intros Hz. unfold md. rewrite Hz. now destruct sx.
  - intros Hnz.
    assert (Hrp : r < 2 ^ prec).
    { destruct (Z.le_ge_cases ex ey).
      - assert (X = Zpos mx) as EX.
        { unfold X. replace (ex - e) with 0 by lia. cbn. lia. }
        pose proof (Z.mod_le X Y ltac:(lia) HY). fold r in H0. lia.
      - assert (Y = Zpos my) as EY.
        { unfold Y. replace (ey - e) with 0 by lia. cbn. lia. }
        lia. }
    destruct r as [|p|p] eqn:Er; try lia.
    assert (Hn : md = binary_round prec emax sx p e)
      by (unfold md; now destruct sx).
    rewrite Hn.
    destruct (binary_round_exact sx p e Hrp ltac:(lia))
      as (mz & ez & Eq & _ & Hez & Hmz & _).
    rewrite Eq. split; [reflexivity|].
    apply SFadd_nonzero; [lia|lia|].
    rewrite Hmz, Hb. intros Hq.
    assert (E1 : Zpos p * 2 ^ (e - ez) * 2 ^ (ez + 1074)
                 = Zpos p * 2 ^ (e + 1074)).
    { rewrite <- Z.mul_assoc, <- Z.pow_add_r by lia. do 2 f_equal. lia. }
    rewrite E1 in Hq. nia.
  - split.
    + intros Hz.
      exists (cond_Zopp sx (Zpos mx * 2 ^ (ex + 1074))),
             (cond_Zopp sc (Zpos my * 2 ^ (ey + 1074))),
             (if Bool.eqb sx sc then X / Y else - (X / Y)).
      repeat split. rewrite Ha, Hb.
      pose proof (Z.div_mod X Y ltac:(lia)) as Hd. fold r in Hd.
      rewrite Hz in Hd.
      destruct sx, sc; cbn [cond_Zopp Bool.eqb]; nia.
    + intros (a & b & k & Ea & Eb & Hk).
      unfold sf_units in Ea, Eb.
      assert (Ea' : a = cond_Zopp sx (Zpos mx * 2 ^ (ex + 1074)))
        by congruence.
      assert (Eb' : b = cond_Zopp sc (Zpos my * 2 ^ (ey + 1074)))
        by congruence.
      rewrite Ea', Eb', Ha, Hb in Hk.
      unfold r. apply Z.mod_divide; [lia|].
      exists (if Bool.eqb sx sc then k else - k).
      destruct sx, sc; cbn [cond_Zopp Bool.eqb] in *; nia.
Qed.
End FloatFormat.

Lemma dtype_format (dt : dtype) :
  0 < dt_prec dt /\ dt_prec dt < dt_emax dt
  /\ -1074 <= emin (dt_prec dt) (dt_emax dt).
Proof. destruct dt; cbv; repeat split; discriminate. Qed.

(** The remainder of [np.mod] is zero exactly for the multiples of the
    divisor. *)
Lemma np_mod_zero_iff (dt : dtype) (x c : spec_float) :
  valid_binary (dt_prec dt) (dt_emax dt) x = true ->
  finite_nonzero dt c = true ->
  SFeqb (np_mod dt x c) sf_zero = true <-> exact_multiple x c.
Proof.
  intros Vx Fc. rewrite SFeqb_zero.
  destruct (dtype_format dt) as (Hp & Hm & Hn).
  apply andb_true_iff in Fc. destruct Fc as [Vc Fc].
  destruct c as [sc|sc| |sc my ey]; try discriminate. clear Fc.
  destruct x as [sx|sx| |sx mx ex].
  - split; [|reflexivity]. intros _.
    exists 0, (cond_Zopp sc (Zpos my * 2 ^ (ey + 1074))), 0.
    repeat split; reflexivity.
  - split.
    + unfold np_mod. cbn [sf_fmod sf_is_zero].
      destruct (Bool.eqb _ _); [discriminate|].
      unfold sf_add. cbn [SFadd]. discriminate.
    + intros (a & b & k & Ha & _). discriminate.
  - split.
    + unfold np_mod. cbn [sf_fmod sf_is_zero].
      destruct (Bool.eqb _ _); [discriminate|].
      unfold sf_add. cbn [SFadd]. discriminate.
    + intros (a & b & k & Ha & _). discriminate.
  - pose proof (fmod_zero_iff (dt_prec dt) (dt_emax dt) Hp Hm Hn
                  sx sc mx my ex ey Vx Vc) as H.
    cbv zeta in H. destruct H as (H0 & H1 & H2).
    unfold np_mod. cbn [sf_fmod sf_is_zero]. unfold sf_add.
    rewrite <- H2.
    set (r := (Zpos mx * 2 ^ (ex - Z.min ex ey))
              mod (Zpos my * 2 ^ (ey - Z.min ex ey))) in *.
    destruct (Z.eq_dec r 0) as [Hz|Hnz].
    + rewrite (H0 Hz). cbn [sf_is_zero]. split; [intros _; exact Hz|reflexivity].
    + destruct (H1 Hnz) as [Hmd Hsum]. rewrite Hmd.
      destruct (Bool.eqb _ _).
      * rewrite Hmd. split; [discriminate|contradiction].
      * rewrite Hsum. split; [discriminate|contradiction].
Qed.

Lemma f32_value_valid (b : Z) : valid_binary 24 128 (f32_value b) = true.
Proof.
  unfold f32_value.
  assert (He : 0 <= f32_expo b < 256).
  { unfold f32_expo. change 255 with (Z.ones 8).
    rewrite Z.land_ones by lia. apply Z.mod_pos_bound. lia. }
  assert (Hm : 0 <= f32_frac b < 8388608).
  { unfold f32_frac. change 8388607 with (Z.ones 23).
    rewrite Z.land_ones by lia. apply Z.mod_pos_bound. lia. }
  destruct (f32_expo b =? 255) eqn:E255.
  { now destruct (f32_frac b =? 0). }
  apply Z.eqb_neq in E255.
  destruct (f32_expo b =? 0) eqn:E0.
  - destruct (f32_frac b) as [|p|p] eqn:Ef; try reflexivity.
    cbn [valid_binary]. unfold bounded, canonical_mantissa.
    apply andb_true_iff. split; [|reflexivity]. apply Z.eqb_eq.
    pose proof (digits2_bounds p) as [Hlo _].
    assert (Zpos (digits2_pos p) - 1 < 23)
      by (apply (Z.pow_lt_mono_r_iff 2); lia).
    unfold fexp, emin. lia.
  - apply Z.eqb_neq in E0.
    destruct (f32_frac b + 8388608) as [|p|p] eqn:Ef; try reflexivity.
    cbn [valid_binary]. unfold bounded, canonical_mantissa.
    apply andb_true_iff. split; [|apply Z.leb_le; lia]. apply Z.eqb_eq.
    pose proof (digits2_bounds p) as [Hlo Hhi].
    assert (Zpos (digits2_pos p) - 1 < 24)
      by (apply (Z.pow_lt_mono_r_iff 2); lia).
    assert (23 < Zpos (digits2_pos p))
      by (apply (Z.pow_lt_mono_r_iff 2); lia).
    unfold fexp, emin. lia.
Qed.

(** A number of the dtype is not changed by the conversion to it. *)
Lemma astype_valid (dt : dtype) (x : spec_float) :
  valid_binary (dt_prec dt) (dt_emax dt) x = true -> astype dt x = x.
Proof.
  intros V. destruct x as [s|s| |s m e]; try reflexivity.
  destruct (dtype_format dt) as (Hp & Hm & Hn).
  unfold astype.
  assert (E : binary_normalize (dt_prec dt) (dt_emax dt)
                (cond_Zopp s (Zpos m)) e s
              = binary_round (dt_prec dt) (dt_emax dt) s m e)
    by (now destruct s).
  rewrite E. now apply binary_round_valid.
Qed.

(** A float32 number converts to either dtype without change of value. *)
Lemma astype_f32_value (dt : dtype) (x : spec_float) :
  valid_binary 24 128 x = true ->
  valid_binary (dt_prec dt) (dt_emax dt) (astype dt x) = true
  /\ sf_units (astype dt x) = sf_units x
  /\ (sf_is_nan (astype dt x) = sf_is_nan x).
Proof.
  intros V. destruct dt.
  - rewrite (astype_valid F32 x V). auto.
  - destruct x as [s|s| |s m e]; try (repeat split; reflexivity).
    apply (valid_binary_bounds 24 128) in V.
    destruct V as (He & Hm & _). unfold emin in He.
    unfold astype.
    assert (E : binary_normalize (dt_prec F64) (dt_emax F64)
                  (cond_Zopp s (Zpos m)) e s
                = binary_round 53 1024 s m e)
      by (now destruct s).
    rewrite E.
    destruct (binary_round_exact 53 1024 ltac:(lia) s m e)
      as (mz & ez & Eq & _ & Hez & Hmz & Hv).
    { eapply Z.lt_le_trans; [exact Hm|]. apply Z.pow_le_mono_r; lia. }
    { unfold emin. lia. }
    rewrite Eq. split; [exact Hv|]. split; [|reflexivity].
    unfold emin in Hez. cbn [sf_units]. do 2 f_equal. rewrite Hmz.
    rewrite <- Z.mul_assoc, <- Z.pow_add_r by lia. do 2 f_equal. lia.
Qed.

Lemma map2_nth_error {A B C} (f : A -> B -> C) (l1 : list A) (l2 : list B)
    (i : nat) (x : A) (y : B) :
  nth_error l1 i = Some x -> nth_error l2 i = Some y ->
  nth_error (map2 f l1 l2) i = Some (f x y).
Proof.
  revert l2 i; induction l1 as [|a l1 IH]; intros [|b l2] [|i]; simpl;
    try discriminate.
  - congruence.
  - apply IH.
Qed.

Lemma where_eq2_in (counts : list nat) (j : nat) :
  In j (where_eq2 counts) <-> nth_error counts j = Some 2%nat.
Proof.
  unfold where_eq2. change (combine (seq 0 (length counts)) counts)
    with (enumerate counts).
  rewrite in_map_iff. split.
  - intros ([j' c] & Hj & Hin). simpl in Hj. subst j'.
    apply filter_In in Hin. destruct Hin as [Hin Hc]. simpl in Hc.
    apply Nat.eqb_eq in Hc. subst c. now apply enumerate_in.
  - intros H. exists (j, 2%nat). split; [reflexivity|].
    apply filter_In. split; [now apply enumerate_in|reflexivity].
Qed.

Lemma count_rows_not_reflexive (r : list float32) (rs : list (list float32)) :
  row_eqb f32_eqb r r = false -> count_rows r rs = 0%nat.
Proof.
  intros H. unfold count_rows. rewrite filter_none; [reflexivity|].
  intros x _. destruct (row_eqb f32_eqb r x) eqn:E; [|reflexivity].
  rewrite (eqb_refl_l r x E) in H. discriminate.
Qed.

Lemma promote_F32 (dc : dtype) : promote F32 dc = dc.
Proof. now destruct dc. Qed.

(** The standard test on one coordinate: the coordinate is a whole
    multiple of the chunk size, in either dtype. *)
Lemma std_axis_aligned_iff (dc : dtype) (v : float32) (c : spec_float) :
  finite_nonzero dc c = true ->
  std_axis_aligned dc v c = true <-> exact_multiple (f32_value v) c.
Proof.
  intros Fc. unfold std_axis_aligned. cbv zeta. rewrite promote_F32.
  assert (Vc : valid_binary (dt_prec dc) (dt_emax dc) c = true)
    by (apply andb_true_iff in Fc; apply Fc).
  rewrite (astype_valid dc c Vc).
  destruct (astype_f32_value dc (f32_value v) (f32_value_valid v))
    as (Vx & Ux & _).
  rewrite (np_mod_zero_iff dc _ c Vx Fc).
  unfold exact_multiple. now rewrite Ux.
Qed.

Section MergeEligibility.
Variable quicksort_rows : list (list float32) -> list (nat * list float32).
Hypothesis quicksort_rows_sorts :
  sorts_records (lex_cmp f32_sort_cmp) quicksort_rows.

(** [is_doubled]: the row occurs exactly twice. *)
Lemma dedup_is_doubled_at (verts : list (list float32)) (i : nat)
    (row : list float32) :
  nth_error verts i = Some row ->
  nth_error (dedup_is_doubled quicksort_rows verts) i
  = Some (count_rows row verts =? 2)%nat.
Proof.
  intros Hi.
  assert (Hlt : (i < length verts)%nat) by (apply nth_error_Some; congruence).
  unfold dedup_is_doubled, np_isin.
  rewrite nth_error_map.
  rewrite (nth_error_nth' _ 0%nat)
    by (rewrite unique_inverse_length_by; exact Hlt).
  cbn [option_map]. f_equal.
  pose proof (unique_count_at_by quicksort_rows quicksort_rows_sorts
                verts i row Hi) as Hc.
  set (j := nth i (unique_inverse_by quicksort_rows (row_eqb f32_eqb) verts)
                0%nat) in *.
  set (counts := unique_counts_by quicksort_rows (row_eqb f32_eqb) verts) in *.
  destruct (existsb (Nat.eqb j) (where_eq2 counts)) eqn:E.
  - apply existsb_exists in E. destruct E as (j' & Hin & Hj).
    apply Nat.eqb_eq in Hj. subst j'. apply where_eq2_in in Hin.
    rewrite Hin in Hc. injection Hc as Hc.
    destruct (row_eqb f32_eqb row row); [|discriminate].
    unfold count_rows. rewrite <- Hc. reflexivity.
  - symmetry. apply Nat.eqb_neq. intros Hcount.
    assert (Hin : In j (where_eq2 counts)).
    { apply where_eq2_in. rewrite Hc.
      destruct (row_eqb f32_eqb row row) eqn:Er.
      - unfold count_rows in Hcount. now rewrite Hcount.
      - rewrite (count_rows_not_reflexive row verts Er) in Hcount. discriminate. }
    assert (E' : existsb (Nat.eqb j) (where_eq2 counts) = true).
    { apply existsb_exists. exists j. split; [assumption|apply Nat.eqb_refl]. }
    congruence.
Qed.

Lemma dedup_do_merge_at (verts : list (list float32)) (aligned : list bool)
    (i : nat) (row : list float32) (a : bool) :
  nth_error verts i = Some row -> nth_error aligned i = Some a ->
  nth_error (dedup_do_merge quicksort_rows verts aligned) i
  = Some ((count_rows row verts =? 2)%nat && a).
Proof.
  intros Hi Ha. unfold dedup_do_merge.
  apply map2_nth_error; [|assumption]. now apply dedup_is_doubled_at.
Qed.
End MergeEligibility.

Lemma is_std_chunk_aligned_at (verts : list (list float32)) (dc : dtype)
    (chunk_size : list spec_float) (i : nat) (row : list float32) :
  nth_error verts i = Some row ->
  nth_error (is_std_chunk_aligned verts dc chunk_size) i
  = Some (existsb2 (std_axis_aligned dc) row chunk_size).
Proof.
  intros H. unfold is_std_chunk_aligned. now rewrite nth_error_map, H.
Qed.

Lemma dedup_new_vertices_at (verts : list (list float32)) (do_merge : list bool)
    (i : nat) (row : list float32) (m : bool) :
  nth_error verts i = Some row -> nth_error do_merge i = Some m ->
  nth_error (dedup_new_vertices verts do_merge) i
  = Some (if m then set_column3 (row, Z.of_nat i) else (row, Z.of_nat i)).
Proof.
  intros Hi Hm. unfold dedup_new_vertices.
  assert (Hlt : (i < length verts)%nat) by (apply nth_error_Some; congruence).
  rewrite (map2_nth_error _ _ _ i (row, Z.of_nat i) m); [reflexivity| |assumption].
  assert (G : forall (l : list (list float32)) s k r,
             nth_error l k = Some r ->
             nth_error (combine l (map Z.of_nat (seq s (length l)))) k
             = Some (r, Z.of_nat (s + k))).
  { induction l as [|x l IH]; intros s [|k] r H; simpl in *; try discriminate.
    - injection H as ->. now rewrite Nat.add_0_r.
    - rewrite (IH (S s) k r H). do 2 f_equal. lia. }
  now rewrite (G verts 0%nat i row Hi).
Qed.

(** With the standard alignment test, vertex [i] is marked in [do_merge]
    exactly when one of its coordinates has remainder zero modulo the
    chunk size and its row occurs exactly twice among the vertices; the
    synthetic 4th coordinate is -1 for a marked vertex and the index [i]
    otherwise. *)
Lemma dedup_merge_std_at
    (quicksort_rows : list (list float32) -> list (nat * list float32))
    (verts : list (list float32)) (dc : dtype)
    (chunk_size : list spec_float) (i : nat) (row : list float32) :
  sorts_records (lex_cmp f32_sort_cmp) quicksort_rows ->
  nth_error verts i = Some row -> length row = 3%nat ->
  let is_chunk_aligned := is_std_chunk_aligned verts dc chunk_size in
  let do_merge := dedup_do_merge quicksort_rows verts is_chunk_aligned in
  nth i do_merge false
  = (count_rows row verts =? 2)%nat
    && existsb2 (std_axis_aligned dc) row chunk_size
  /\ nth_error (dedup_new_vertices verts do_merge) i
     = Some (row, if nth i do_merge false then -1 else Z.of_nat i).
Proof.
  intros Hsort Hrow Hwidth is_chunk_aligned do_merge.
  pose proof (is_std_chunk_aligned_at verts dc chunk_size i row Hrow) as Ha.
  pose proof (dedup_do_merge_at quicksort_rows Hsort verts is_chunk_aligned
                i row _ Hrow Ha) as Hm.
  fold do_merge in Hm.
  assert (Hnth : nth i do_merge false
                 = (count_rows row verts =? 2)%nat
                   && existsb2 (std_axis_aligned dc) row chunk_size)
    by (now apply nth_error_nth).
  split; [exact Hnth|].
  rewrite (dedup_new_vertices_at verts do_merge i row _ Hrow Hm).
  rewrite Hnth. f_equal.
  destruct ((count_rows row verts =? 2)%nat
            && existsb2 (std_axis_aligned dc) row chunk_size); [|reflexivity].
  unfold set_column3. cbn [fst snd]. now rewrite Hwidth.
Qed.

(** C6.  With the standard alignment test and chunk sizes that are finite
    and not zero, whether NumPy computes in float32 or in float64 and
    however its sort orders rows that compare equal, vertex [i] is merged
    (marked in [do_merge], and given -1 in the synthetic 4th coordinate
    instead of its own index) exactly when one of its coordinates is a
    whole multiple of the chunk size of its axis and its row occurs exactly
    twice among the vertices; a row that occurs once, or three or more
    times, is never merged. *)
Theorem C6_merged_iff_boundary_aligned_and_exactly_doubled
    (quicksort_rows : list (list float32) -> list (nat * list float32))
    (verts : list (list float32))
    (chunk_dtype : dtype) (chunk_size : list spec_float)
    (i : nat) (row : list float32)
    (Hsort : sorts_records (lex_cmp f32_sort_cmp) quicksort_rows)
    (Hrow : nth_error verts i = Some row)
    (Hwidth : length row = 3%nat)
    (Hchunk : Forall (fun c => finite_nonzero chunk_dtype c = true) chunk_size) :
  let is_chunk_aligned := is_std_chunk_aligned verts chunk_dtype chunk_size in
  let do_merge := dedup_do_merge quicksort_rows verts is_chunk_aligned in
  let new_vertices := dedup_new_vertices verts do_merge in
  (nth i do_merge false = true <->
   (exists axis v c,
       nth_error row axis = Some v
       /\ nth_error chunk_size axis = Some c
       /\ exact_multiple (f32_value v) c)
   /\ count_rows row verts = 2%nat)
  /\ (count_rows row verts <> 2%nat -> nth i do_merge false = false)
  /\ nth_error new_vertices i
     = Some (row, if nth i do_merge false then -1 else Z.of_nat i).
Proof.
  intros is_chunk_aligned do_merge new_vertices.
  destruct (dedup_merge_std_at quicksort_rows verts chunk_dtype chunk_size
              i row Hsort Hrow Hwidth) as [Hnth Hnew].
  fold is_chunk_aligned do_merge in Hnth, Hnew.
  split; [|split; [|exact Hnew]].
  - rewrite Hnth, andb_true_iff, Nat.eqb_eq, existsb2_exists.
    assert (Hiff : forall axis v c,
               nth_error chunk_size axis = Some c ->
               std_axis_aligned chunk_dtype v c = true
               <-> exact_multiple (f32_value v) c).
    { intros axis v c Hc. apply std_axis_aligned_iff.
      rewrite Forall_forall in Hchunk. apply Hchunk.
      eapply nth_error_In; exact Hc. }
    split.
    + intros [Hcnt (axis & v & c & Hv & Hc & Hz)]. split; [|exact Hcnt].
      exists axis, v, c. repeat split; try assumption.
      now apply (Hiff axis v c Hc).
    + intros [(axis & v & c & Hv & Hc & Hz) Hcnt]. split; [exact Hcnt|].
      exists axis, v, c. repeat split; try assumption.
      now apply (Hiff axis v c Hc).
  - intros Hc. rewrite Hnth. apply Nat.eqb_neq in Hc. now rewrite Hc.
Qed.

(* ------------------------------------------------------------------ *)
(** ** np.unique: order of the unique records *)

Section UniqueOrder.
Context {R : Type} {cmp : R -> R -> comparison} {eqb : R -> R -> bool}.
Context `{!SortOrder cmp eqb}.

Local Notation lei := (rec_le cmp).
Local Notation eqi := (rec_eqb eqb).

Local Notation before := (before cmp eqb).

Lemma group_heads_sorted (l : list (nat * R)) :
  StronglySorted lei l ->
  StronglySorted before (map (fun g => snd (fst g)) (group_runs eqb l)).
Proof.
  induction l as [|a l IH]; intros Hs; [constructor|].
  assert (Hs' : StronglySorted lei l) by (inversion Hs; assumption).
  specialize (IH Hs'). simpl.
  destruct (group_runs eqb l) as [|[y g'] gs] eqn:Eruns.
  - simpl. constructor; constructor.
  - pose proof (group_runs_head l y g' gs Eruns) as Hl.
    simpl in IH. apply StronglySorted_inv in IH. destruct IH as [IHs IHy].
    destruct (eqb (snd y) (snd a)) eqn:Eya; simpl.
    + constructor; [assumption|].
      eapply Forall_impl; [|exact IHy]. intros b [Hb1 Hb2].
      assert (Hay : eqb (snd a) (snd y) = true) by (now rewrite eqb_sym).
      split.
      * rewrite (cmp_eq_compat_l (snd a) (snd y) b); [assumption|].
        now apply eqb_cmp.
      * now rewrite (eqb_compat (snd a) (snd y) b Hay).
    + constructor; [constructor; assumption|].
      apply Forall_forall. intros b Hb.
      assert (Hz : exists z, In z l /\ snd z = b).
      { change (snd y :: map (fun g => snd (fst g)) gs)
          with (map (fun g => snd (fst g)) ((y, g') :: gs)) in Hb.
        apply in_map_iff in Hb. destruct Hb as (g & <- & Hg).
        exists (fst g). split; [|reflexivity].
        apply (group_runs_in (eqb := eqb) l g); [rewrite Eruns; assumption|now left]. }
      destruct Hz as (z & Hz & <-).
      split.
      * apply StronglySorted_inv in Hs. destruct Hs as [_ Hall].
        rewrite Forall_forall in Hall. now apply Hall.
      * destruct (eqb (snd a) (snd z)) eqn:Eaz; [|reflexivity].
        exfalso. rewrite Hl in Hs, Hz.
        pose proof (sorted_eq_next a y _ z Hs Hz Eaz) as Hc.
        unfold rec_eqb in Hc. congruence.
Qed.

Lemma unique_values_sorted (rs : list R) :
  StronglySorted before (unique_values cmp eqb rs).
Proof.
  unfold unique_values, unique_groups.
  apply group_heads_sorted, stable_sort_sorted.
Qed.

Lemma unique_values_sorted_by (quicksort : list R -> list (nat * R))
    (rs : list R) :
  sorts_records cmp quicksort ->
  StronglySorted before (unique_values_by quicksort eqb rs).
Proof.
  intros Hsort. unfold unique_values_by, unique_groups_by.
  apply group_heads_sorted, Hsort.
Qed.

(** Without NaN the unique records are strictly increasing. *)
Lemma unique_values_strict (rs : list R) :
  Forall (fun r => eqb r r = true) rs ->
  StronglySorted (fun a b => cmp a b = Lt) (unique_values cmp eqb rs).
Proof.
  intros Hrefl.
  assert (Hall : Forall (fun r => eqb r r = true) (unique_values cmp eqb rs)).
  { apply Forall_forall. intros h Hh. apply unique_values_in in Hh.
    rewrite Forall_forall in Hrefl. now apply Hrefl. }
  pose proof (unique_values_sorted rs) as Hs.
  induction Hs as [|a l Hl IH Ha]; [constructor|].
  inversion Hall as [|? ? Haa Hall']; subst.
  constructor; [now apply IH|].
  eapply Forall_impl; [|exact Ha]. intros b [Hb1 Hb2].
  destruct (cmp a b) eqn:E; try congruence.
  rewrite (cmp_eqb a b E Haa) in Hb2. discriminate.
Qed.

Lemma enumerate_from_sorted (s : nat) (rs : list R) :
  StronglySorted (fun a b => cmp a b = Lt) rs ->
  StronglySorted (fun x y => cmp (snd x) (snd y) = Lt)
                 (combine (seq s (length rs)) rs).
Proof.
  intros Hs. revert s. induction Hs as [|r rs Hrs IH Hr]; intros s; simpl;
    constructor.
  - apply IH.
  - apply Forall_forall. intros [j x] Hin. apply in_combine_r in Hin.
    rewrite Forall_forall in Hr. simpl. now apply Hr.
Qed.

Lemma strict_sorted_le (l : list (nat * R)) :
  StronglySorted (fun x y => cmp (snd x) (snd y) = Lt) l ->
  StronglySorted lei l.
Proof.
  induction 1 as [|x l Hl IH Hx]; constructor; [assumption|].
  eapply Forall_impl; [|exact Hx]. unfold rec_le. intros; congruence.
Qed.

Lemma group_runs_strict (l : list (nat * R)) :
  StronglySorted (fun x y => cmp (snd x) (snd y) = Lt) l ->
  group_runs eqb l = map (fun x => (x, [])) l.
Proof.
  induction 1 as [|a l Hl IH Ha]; simpl; [reflexivity|].
  rewrite IH. destruct l as [|y l']; [reflexivity|]. simpl.
  inversion Ha as [|? ? Hay _]; subst.
  destruct (eqb (snd y) (snd a)) eqn:E; [|reflexivity].
  rewrite eqb_sym in E. apply eqb_cmp in E. congruence.
Qed.

(** On strictly increasing records [np.unique] is the identity and its
    inverse is [0, 1, ..., n-1]. *)
Lemma unique_groups_strict (rs : list R) :
  StronglySorted (fun a b => cmp a b = Lt) rs ->
  unique_groups cmp eqb rs = map (fun x => (x, [])) (enumerate rs).
Proof.
  intros Hs. unfold unique_groups, argsort.
  pose proof (enumerate_from_sorted 0 rs Hs) as He.
  fold (enumerate rs) in He.
  rewrite stable_sort_id by (now apply strict_sorted_le).
  now apply group_runs_strict.
Qed.

Lemma unique_values_strict_id (rs : list R) :
  StronglySorted (fun a b => cmp a b = Lt) rs ->
  unique_values cmp eqb rs = rs.
Proof.
  intros Hs. unfold unique_values. rewrite (unique_groups_strict rs Hs).
  rewrite map_map. simpl. apply enumerate_snd.
Qed.

Lemma group_of_singletons (rs : list R) (s i : nat) :
  (i < length rs)%nat ->
  group_of (s + i) (map (fun x => (x, [])) (combine (seq s (length rs)) rs)) = i.
Proof.
  revert s i; induction rs as [|r rs IH]; intros s i Hi; simpl in *; [lia|].
  destruct i as [|i].
  - rewrite Nat.add_0_r, Nat.eqb_refl. reflexivity.
  - replace (s =? s + S i)%nat with false by (symmetry; apply Nat.eqb_neq; lia).
    simpl. f_equal. replace (s + S i)%nat with (S s + i)%nat by lia.
    apply IH. lia.
Qed.

Lemma unique_inverse_strict_id (rs : list R) :
  StronglySorted (fun a b => cmp a b = Lt) rs ->
  unique_inverse cmp eqb rs = seq 0 (length rs).
Proof.
  intros Hs. unfold unique_inverse. rewrite (unique_groups_strict rs Hs).
  rewrite <- (map_id (seq 0 (length rs))) at 2.
  apply map_ext_in. intros i Hi. apply in_seq in Hi.
  apply (group_of_singletons rs 0 i). lia.
Qed.
End UniqueOrder.

(* ------------------------------------------------------------------ *)
(** ** Consolidation (C5) *)

Lemma group_runs_length {R} (eqb : R -> R -> bool) (l : list (nat * R)) :
  (length (group_runs eqb l) <= length l)%nat.
Proof.
  induction l as [|x l IH]; simpl; [lia|].
  destruct (group_runs eqb l) as [|[y g] gs]; simpl in *; [lia|].
  destruct (eqb (snd y) (snd x)); simpl; lia.
Qed.

Lemma unique_values_length_le {R} (cmp : R -> R -> comparison)
    (eqb : R -> R -> bool) (rs : list R) :
  (length (unique_values cmp eqb rs) <= length rs)%nat.
Proof.
  unfold unique_values, unique_groups. rewrite length_map.
  pose proof (group_runs_length eqb (argsort cmp rs)) as H.
  assert (Hlen : length (argsort cmp rs) = length rs).
  { unfold argsort, stable_sort.
    assert (G : forall l : list (nat * R),
               length (fold_right (insert_sorted cmp) [] l) = length l).
    { induction l as [|x l IH]; simpl; [reflexivity|].
      rewrite <- IH. generalize (fold_right (insert_sorted cmp) [] l).
      intros l0. induction l0 as [|y l0 IH0]; simpl; [reflexivity|].
      destruct (cmp (snd x) (snd y)); simpl; try reflexivity.
      now rewrite IH0. }
    rewrite G. unfold enumerate. rewrite length_combine, length_seq. lia. }
  lia.
Qed.

Lemma index_list_ok {A} (l : list A) (i : Z) (d : A) :
  0 <= i < Z.of_nat (length l) ->
  index_list l i = Ok (nth (Z.to_nat i) l d).
Proof.
  intros H. unfold index_list.
  replace ((i <? 0) || (Z.of_nat (length l) <=? i)) with false by (symmetry; lia).
  rewrite (nth_error_nth' l d) by lia. reflexivity.
Qed.

Lemma row_eqb_refl {A} (e : A -> A -> bool) (r : list A) :
  Forall (fun x => e x x = true) r -> row_eqb e r r = true.
Proof.
  induction 1 as [|x r Hx _ IH]; simpl; [reflexivity|]. now rewrite Hx, IH.
Qed.

Lemma rows_elements {A} (n w : nat) (a : ndarray A) (r : list A) (x : A) :
  shape a = [n; w] -> array_wf a -> In r (rows a) -> In x r -> In x (data a).
Proof.
  intros Hs Hwf Hr Hx.
  rewrite <- (of_rows_rows n w a Hs Hwf). unfold of_rows; simpl.
  apply in_concat. exists r. auto.
Qed.

Lemma Z_row_refl (r : list Z) : row_eqb Z.eqb r r = true.
Proof. apply row_eqb_refl, Forall_forall. intros; apply Z.eqb_refl. Qed.

Lemma no_nan_rows_refl (n w : nat) (a : ndarray float32) :
  shape a = [n; w] -> array_wf a -> no_nan a ->
  Forall (fun r => row_eqb f32_eqb r r = true) (rows a).
Proof.
  intros Hs Hwf Hnan. apply Forall_forall. intros r Hr.
  apply row_eqb_refl, Forall_forall. intros x Hx.
  apply f32_eqb_refl. unfold no_nan in Hnan. rewrite Forall_forall in Hnan.
  apply Hnan. eapply rows_elements; eassumption.
Qed.

Lemma numel_pair (n w : nat) : numel [n; w] = (n * w)%nat.
Proof. simpl. lia. Qed.

(** What [consolidate] returns for a non-empty mesh with valid faces. *)
Lemma consolidate_nonempty (m : Mesh) (N M : nat) :
  shape (vertices m) = [N; 3%nat] -> shape (faces m) = [M; 3%nat] ->
  array_wf (vertices m) -> array_wf (faces m) ->
  faces_valid m -> Mesh_empty m = false ->
  Mesh_consolidate m
  = Ok (Mesh_init (of_rows [3%nat] (consolidated_vertices m))
                  (of_rows [3%nat] (consolidated_faces m))
                  None (segid m) (encoding_type m) (encoding_options m)).
Proof.
  intros Hvs Hfs Hvw Hfw Hvalid Hne.
  unfold Mesh_consolidate. rewrite Hne.
  unfold axis0_rows. rewrite Hvs. cbn [bind tl].
  rewrite (mapM_ok _ (representative m)).
  - cbn [bind shape]. rewrite Hfs. cbn [bind tl].
    unfold consolidated_vertices, consolidated_faces, np_array.
    rewrite Hfs. reflexivity.
  - intros f Hf. unfold faces_valid in Hvalid. rewrite Forall_forall in Hvalid.
    specialize (Hvalid f Hf). unfold num_vertices in Hvalid.
    rewrite (index_list_ok _ f 0%nat)
      by (rewrite unique_inverse_length; exact Hvalid).
    reflexivity.
Qed.

Lemma consolidated_vertices_width (m : Mesh) (N : nat) :
  shape (vertices m) = [N; 3%nat] -> array_wf (vertices m) ->
  Forall (fun r => length r = 3%nat) (consolidated_vertices m).
Proof.
  intros Hs Hwf. apply Forall_forall. intros r Hr.
  apply unique_values_in in Hr.
  pose proof (rows_width N 3 _ Hs Hwf) as Hall.
  rewrite Forall_forall in Hall. now apply Hall.
Qed.

Lemma consolidated_faces_width (m : Mesh) (M : nat) :
  shape (faces m) = [M; 3%nat] -> array_wf (faces m) ->
  Forall (fun r => length r = 3%nat) (consolidated_faces m).
Proof.
  intros Hs Hwf. apply Forall_forall. intros r Hr.
  apply unique_values_in in Hr.
  assert (Hall : Forall (fun r => length r = 3%nat)
                        (rows (np_array (representative m) (faces m)))).
  { apply (rows_width M 3); [exact Hs|now apply array_wf_np_array]. }
  rewrite Forall_forall in Hall. now apply Hall.
Qed.

(** Every id of a consolidated face is the position of a consolidated
    vertex. *)
Lemma consolidated_faces_range (m : Mesh) (N M : nat) :
  shape (vertices m) = [N; 3%nat] -> shape (faces m) = [M; 3%nat] ->
  array_wf (faces m) -> faces_valid m ->
  forall r f, In r (consolidated_faces m) -> In f r ->
    0 <= f < Z.of_nat (length (consolidated_vertices m)).
Proof.
  intros Hvs Hfs Hfw Hvalid r f Hr Hf.
  apply unique_values_in in Hr.
  assert (Hin : In f (data (np_array (representative m) (faces m)))).
  { apply (rows_elements M 3 _ r f); try assumption.
    now apply array_wf_np_array. }
  unfold np_array in Hin. cbn [data] in Hin. apply in_map_iff in Hin.
  destruct Hin as (f0 & <- & Hf0).
  unfold faces_valid in Hvalid. rewrite Forall_forall in Hvalid.
  specialize (Hvalid f0 Hf0). unfold num_vertices in Hvalid.
  unfold representative, consolidated_vertices.
  pose proof (unique_inverse_lt (cmp := lex_cmp f32_sort_cmp)
                (eqb := row_eqb f32_eqb) (rows (vertices m)) (Z.to_nat f0)) as Hlt.
  lia.
Qed.

Lemma map_id_in {A} (f : A -> A) (l : list A) :
  (forall x, In x l -> f x = x) -> map f l = l.
Proof.
  intros H. rewrite <- (map_id l) at 2. now apply map_ext_in.
Qed.

(** C5, as amended.  For a mesh of the data model with valid face ids, at
    most 2^32 vertices and no NaN coordinate, consolidating twice gives
    the very mesh that consolidating once gives, and the two compare equal
    under mesh equality. *)
Theorem C5_consolidate_idempotent_without_nan (m : Mesh)
    (Hok : mesh_ok m) (Hvalid : faces_valid m)
    (Hsize : Z.of_nat (num_vertices m) <= u32_mod)
    (Hnan : no_nan (vertices m)) :
  exists c1 c2,
    Mesh_consolidate m = Ok c1
    /\ Mesh_consolidate c1 = Ok c2
    /\ c2 = c1
    /\ Mesh_eq c2 c1 = Ok true.
Proof.
  destruct Hok as [[N Hvs] [M Hfs] _ Hvw Hfw _ Hfr].
  destruct (Mesh_empty m) eqn:Hempty.
  - (* the empty mesh *)
    unfold Mesh_consolidate at 1. rewrite Hempty.
    eexists. eexists. split; [reflexivity|].
    split; [reflexivity|]. split; reflexivity.
  - rewrite (consolidate_nonempty m N M) by assumption.
    set (U := consolidated_vertices m).
    set (UF := consolidated_faces m).
    assert (HUw : Forall (fun r => length r = 3%nat) U)
      by (now apply (consolidated_vertices_width m N)).
    assert (HUFw : Forall (fun r => length r = 3%nat) UF)
      by (now apply (consolidated_faces_width m M)).
    assert (HUFr : forall r f, In r UF -> In f r -> 0 <= f < Z.of_nat (length U))
      by (now apply (consolidated_faces_range m N M)).
    assert (HNpos : rows (vertices m) <> [] /\ rows (faces m) <> []).
    { unfold Mesh_empty, size in Hempty. rewrite Hvs, Hfs, !numel_pair in Hempty.
      apply orb_false_iff in Hempty. destruct Hempty as [H1 H2].
      apply Nat.eqb_neq in H1, H2.
      split; intros E; apply (f_equal (@length _)) in E.
      - rewrite (rows_length N 3) in E by assumption. simpl in E. lia.
      - rewrite (rows_length M 3) in E by assumption. simpl in E. lia. }
    destruct HNpos as [HVne HFne].
    assert (HUne : U <> []) by (now apply unique_values_nonempty).
    assert (HUFne : UF <> []).
    { apply unique_values_nonempty. rewrite rows_np_array.
      intros E. apply map_eq_nil in E. contradiction. }
    assert (HUlen : Z.of_nat (length U) <= u32_mod).
    { pose proof (unique_values_length_le (lex_cmp f32_sort_cmp)
                    (row_eqb f32_eqb) (rows (vertices m))) as Hle.
      fold (consolidated_vertices m) in Hle. fold U in Hle.
      unfold num_vertices in Hsize. lia. }
    (* the consolidated mesh *)
    set (c1 := Mesh_init (of_rows [3%nat] U) (of_rows [3%nat] UF) None
                         (segid m) (encoding_type m) (encoding_options m)).
    assert (Hc1v : vertices c1 = of_rows [3%nat] U).
    { unfold c1, Mesh_init, np_array, of_rows. cbn [vertices shape data].
      now rewrite map_id. }
    assert (Hc1f : faces c1 = of_rows [3%nat] UF).
    { unfold c1, Mesh_init, np_array, of_rows. cbn [faces shape data].
      f_equal. apply map_id_in. intros f Hf. apply in_concat in Hf.
      destruct Hf as (r & Hr & Hf). apply wrap32_small.
      specialize (HUFr r f Hr Hf). unfold is_u32. lia. }
    assert (Hrv : rows (vertices c1) = U)
      by (rewrite Hc1v; now apply rows_of_rows).
    assert (Hrf : rows (faces c1) = UF)
      by (rewrite Hc1f; now apply rows_of_rows).
    assert (Hwfv : array_wf (vertices c1)).
    { rewrite Hc1v. unfold array_wf, of_rows. cbn [shape data].
      rewrite numel_pair. now apply length_concat_rows. }
    assert (Hwff : array_wf (faces c1)).
    { rewrite Hc1f. unfold array_wf, of_rows. cbn [shape data].
      rewrite numel_pair. now apply length_concat_rows. }
    assert (Hrefl : Forall (fun r => row_eqb f32_eqb r r = true) (rows (vertices m)))
      by (now apply (no_nan_rows_refl N 3)).
    assert (HUstrict : StronglySorted (fun a b => lex_cmp f32_sort_cmp a b = Lt) U)
      by (now apply unique_values_strict).
    assert (HUFstrict : StronglySorted (fun a b => lex_cmp Z.compare a b = Lt) UF).
    { apply unique_values_strict. apply Forall_forall. intros; apply Z_row_refl. }
    assert (Hc1valid : faces_valid c1).
    { unfold faces_valid, num_vertices. rewrite Hrv. apply Forall_forall.
      intros f Hf. rewrite Hc1f in Hf. unfold of_rows in Hf. cbn [data] in Hf.
      apply in_concat in Hf. destruct Hf as (r & Hr & Hf). now apply (HUFr r). }
    assert (Hc1ne : Mesh_empty c1 = false).
    { unfold Mesh_empty, size. rewrite Hc1v, Hc1f. unfold of_rows.
      cbn [shape]. rewrite !numel_pair. apply orb_false_iff.
      split; apply Nat.eqb_neq.
      - destruct U; [congruence|simpl; lia].
      - destruct UF; [congruence|simpl; lia]. }
    assert (Hcv : consolidated_vertices c1 = U).
    { unfold consolidated_vertices. rewrite Hrv.
      now apply unique_values_strict_id. }
    assert (Hcf : consolidated_faces c1 = UF).
    { unfold consolidated_faces.
      assert (Hid : np_array (representative c1) (faces c1) = faces c1).
      { unfold np_array. rewrite Hc1f. unfold of_rows. cbn [shape data].
        f_equal. apply map_id_in. intros f Hf. apply in_concat in Hf.
        destruct Hf as (r & Hr & Hf). specialize (HUFr r f Hr Hf).
        unfold representative. rewrite Hrv.
        rewrite (unique_inverse_strict_id U HUstrict).
        rewrite seq_nth by lia. simpl. lia. }
      rewrite Hid, Hrf. now apply unique_values_strict_id. }
    assert (Hc2 : Mesh_consolidate c1 = Ok c1).
    { rewrite (consolidate_nonempty c1 (length U) (length UF)); try assumption.
      - rewrite Hcv, Hcf. reflexivity.
      - now rewrite Hc1v.
      - now rewrite Hc1f. }
    exists c1, c1. split; [reflexivity|]. split; [exact Hc2|].
    split; [reflexivity|].
    apply Mesh_eq_refl; try assumption.
    + reflexivity.
    + unfold no_nan. rewrite Hc1v. unfold of_rows. cbn [data].
      apply Forall_forall. intros x Hx. apply in_concat in Hx.
      destruct Hx as (r & Hr & Hx). apply unique_values_in in Hr.
      unfold no_nan in Hnan. rewrite Forall_forall in Hnan. apply Hnan.
      eapply rows_elements; eassumption.
    + constructor.
Qed.

(** C5, the claim as stated fails: the mesh with the single vertex
    (NaN, 0, 0) and the face (0, 0, 0) consolidates to itself, and that
    result does not compare equal to itself. *)
Lemma C5_counterexample :
  let m := Mesh_init (NdArray [1%nat; 3%nat] [2143289344; 0; 0])
                     (NdArray [1%nat; 3%nat] [0; 0; 0])
                     None None EncNone None in
  exists c1 c2,
    Mesh_consolidate m = Ok c1
    /\ Mesh_consolidate c1 = Ok c2
    /\ Mesh_eq c2 c1 = Ok false.
Proof.
  intros m. exists m, m.
  split; [vm_compute; reflexivity|].
  split; vm_compute; reflexivity.
Qed.

(* ------------------------------------------------------------------ *)
(** ** Chunk-boundary deduplication (C10) *)

Lemma map2_length {A B C} (f : A -> B -> C) (l1 : list A) (l2 : list B) :
  length (map2 f l1 l2) = Nat.min (length l1) (length l2).
Proof.
  revert l2; induction l1 as [|a l1 IH]; intros [|b l2]; simpl;
    try reflexivity.
  now rewrite IH.
Qed.

Lemma dedup_aligned_length (verts : list (list float32)) (dc : dtype)
    (cs : list spec_float) (is_draco : bool) (dg : dtype) (grid : spec_float) :
  length (dedup_aligned verts dc cs is_draco dg grid) = length verts.
Proof.
  unfold dedup_aligned, is_draco_chunk_aligned, is_std_chunk_aligned.
  destruct is_draco; apply length_map.
Qed.

Lemma firstn_all_eq {A} (n : nat) (l : list A) : length l = n -> firstn n l = l.
Proof. intros <-. apply firstn_all. Qed.

Section DedupFacts.
Variable quicksort_rows : list (list float32) -> list (nat * list float32).
Variable quicksort_vrows : list vrow -> list (nat * vrow).
Hypothesis quicksort_vrows_sorts : sorts_records vrow_cmp quicksort_vrows.

Lemma dedup_is_doubled_length (verts : list (list float32)) :
  length (dedup_is_doubled quicksort_rows verts) = length verts.
Proof.
  unfold dedup_is_doubled, np_isin.
  now rewrite length_map, unique_inverse_length_by.
Qed.

Lemma dedup_do_merge_length (verts : list (list float32))
    (aligned : list bool) :
  length aligned = length verts ->
  length (dedup_do_merge quicksort_rows verts aligned) = length verts.
Proof.
  intros H. unfold dedup_do_merge.
  rewrite map2_length, dedup_is_doubled_length. lia.
Qed.

Lemma dedup_rows_length (m : Mesh) (aligned : list bool) :
  length aligned = length (rows (vertices m)) ->
  length (dedup_rows quicksort_rows m aligned) = length (rows (vertices m)).
Proof.
  intros H. unfold dedup_rows, dedup_new_vertices. cbv zeta.
  rewrite map2_length, length_combine, length_map, length_seq.
  rewrite dedup_do_merge_length by exact H. lia.
Qed.

(** Row [i] of [new_vertices]: the coordinates of vertex [i], with [i] or
    -1 as synthetic coordinate. *)
Lemma dedup_rows_at (m : Mesh) (aligned : list bool) (N : nat) (i : nat) :
  length aligned = length (rows (vertices m)) ->
  shape (vertices m) = [N; 3%nat] -> array_wf (vertices m) ->
  (i < N)%nat ->
  exists row b,
    nth_error (rows (vertices m)) i = Some row
    /\ length row = 3%nat
    /\ nth_error (dedup_do_merge quicksort_rows (rows (vertices m)) aligned) i
       = Some b
    /\ nth_error (dedup_rows quicksort_rows m aligned) i
       = Some (row, if b then -1 else Z.of_nat i).
Proof.
  intros Hal Hs Hwf Hi.
  pose proof (rows_length N 3 _ Hs) as Hlen.
  pose proof (rows_width N 3 _ Hs Hwf) as Hw.
  destruct (nth_error (rows (vertices m)) i) as [row|] eqn:Erow.
  2:{ apply nth_error_None in Erow. lia. }
  assert (Hrow3 : length row = 3%nat).
  { rewrite Forall_forall in Hw. apply Hw. eapply nth_error_In; eassumption. }
  set (dm := dedup_do_merge quicksort_rows (rows (vertices m)) aligned).
  destruct (nth_error dm i) as [b|] eqn:Eb.
  2:{ apply nth_error_None in Eb. unfold dm in Eb.
      rewrite dedup_do_merge_length in Eb by exact Hal. lia. }
  exists row, b.
  split; [reflexivity|]. split; [assumption|]. split; [reflexivity|].
  unfold dedup_rows. cbv zeta. fold dm.
  rewrite (dedup_new_vertices_at _ dm i row b Erow Eb).
  destruct b; [|reflexivity].
  unfold set_column3. cbn [fst snd]. now rewrite Hrow3.
Qed.

(** The rows that the faces select. *)
Lemma dedup_referenced_spec (m : Mesh) (aligned : list bool) (N : nat) :
  length aligned = length (rows (vertices m)) ->
  shape (vertices m) = [N; 3%nat] -> array_wf (vertices m) ->
  faces_valid m ->
  forall r, In r (dedup_referenced quicksort_rows m aligned) ->
    exists i row s, (i < N)%nat /\ In (Z.of_nat i) (data (faces m))
      /\ nth_error (rows (vertices m)) i = Some row
      /\ length row = 3%nat /\ r = (row, s)
      /\ (s = Z.of_nat i \/ s = -1).
Proof.
  intros Hal Hvs Hvw Hvalid r Hr.
  pose proof (rows_length N 3 _ Hvs) as HlenV.
  unfold dedup_referenced in Hr.
  apply in_map_iff in Hr. destruct Hr as (f & <- & Hf).
  unfold faces_valid in Hvalid. rewrite Forall_forall in Hvalid.
  pose proof (Hvalid f Hf) as Hrange. unfold num_vertices in Hrange.
  rewrite HlenV in Hrange.
  destruct (dedup_rows_at m aligned N (Z.to_nat f) Hal Hvs Hvw ltac:(lia))
    as (row & b & H1 & H2 & _ & H4).
  exists (Z.to_nat f), row, (if b then -1 else Z.of_nat (Z.to_nat f)).
  split; [lia|].
  split; [now rewrite Z2Nat.id by lia|].
  split; [assumption|]. split; [assumption|].
  split; [now apply nth_error_nth|].
  destruct b; auto.
Qed.

(** The mesh that [deduplicate_chunk_boundaries] returns for a mesh of
    the data model with valid face ids. *)
Lemma dedup_explicit (m : Mesh) (chunk_size : chunk) (cs : list spec_float)
    (is_draco : bool) (dg : dtype) (grid : spec_float) (N M : nat) :
  shape (vertices m) = [N; 3%nat] -> shape (faces m) = [M; 3%nat] ->
  array_wf (vertices m) -> array_wf (faces m) -> faces_valid m ->
  broadcast_chunk chunk_size 3 = Ok cs ->
  let aligned := dedup_aligned (rows (vertices m)) (chunk_dtype chunk_size)
                   cs is_draco dg grid in
  let referenced := dedup_referenced quicksort_rows m aligned in
  let kept := dedup_kept quicksort_rows quicksort_vrows m aligned in
  Mesh_deduplicate_chunk_boundaries quicksort_rows quicksort_vrows
    m chunk_size is_draco dg grid
  = Ok (Mesh_init
          (of_rows [3%nat] (map fst kept))
          (NdArray [M; 3%nat]
             (map Z.of_nat
                (unique_inverse_by quicksort_vrows vrow_eqb referenced)))
          None (segid m) (encoding_type m) (encoding_options m))
  /\ length referenced = (M * 3)%nat
  /\ Forall (fun r => length (fst r) = 3%nat) kept.
Proof.
  intros Hvs Hfs Hvw Hfw Hvalid Hchunk aligned referenced kept.
  pose proof (rows_length N 3 _ Hvs) as HlenV.
  assert (Hal : length aligned = length (rows (vertices m)))
    by apply dedup_aligned_length.
  assert (Hlen : length (dedup_rows quicksort_rows m aligned) = N)
    by (now rewrite dedup_rows_length).
  assert (Hfaces_len : length (data (faces m)) = (M * 3)%nat).
  { unfold array_wf in Hfw. rewrite Hfs, numel_pair in Hfw. exact Hfw. }
  assert (Hreflen : length referenced = (M * 3)%nat).
  { unfold referenced, dedup_referenced. now rewrite length_map. }
  assert (Hw3 : Forall (fun r => length (fst r) = 3%nat) kept).
  { apply Forall_forall. intros r Hr.
    apply (unique_values_in_by (eqb := vrow_eqb) quicksort_vrows
             quicksort_vrows_sorts) in Hr.
    destruct (dedup_referenced_spec m aligned N Hal Hvs Hvw Hvalid r Hr)
      as (i & row & s & _ & _ & _ & H3 & -> & _).
    exact H3. }
  split; [|split; assumption].
  unfold Mesh_deduplicate_chunk_boundaries. rewrite Hvs, Hchunk.
  cbn [bind]. replace (3 <? 3)%nat with false by reflexivity.
  cbv zeta.
  change (if is_draco
          then is_draco_chunk_aligned (rows (vertices m))
                 (chunk_dtype chunk_size) cs dg grid
          else is_std_chunk_aligned (rows (vertices m))
                 (chunk_dtype chunk_size) cs)
    with aligned.
  change (dedup_new_vertices (rows (vertices m))
            (dedup_do_merge quicksort_rows (rows (vertices m)) aligned))
    with (dedup_rows quicksort_rows m aligned).
  rewrite (mapM_ok _ (fun f => nth (Z.to_nat f)
                                 (dedup_rows quicksort_rows m aligned) ([], 0))).
  2:{ intros f Hf. unfold faces_valid in Hvalid. rewrite Forall_forall in Hvalid.
      pose proof (Hvalid f Hf) as Hrange. unfold num_vertices in Hrange.
      apply index_list_ok. rewrite Hlen. lia. }
  cbn [bind].
  change (map (fun f => nth (Z.to_nat f)
                          (dedup_rows quicksort_rows m aligned) ([], 0))
              (data (faces m)))
    with referenced.
  change (unique_values_by quicksort_vrows vrow_eqb referenced) with kept.
  unfold reshape, size. cbn [shape numel fold_right].
  rewrite unique_inverse_length_by.
  rewrite Hreflen, Nat.div_mul by lia.
  replace (M * (3 * 1) =? M * 3 * 1)%nat with true
    by (symmetry; apply Nat.eqb_eq; lia).
  cbn [bind data]. do 3 f_equal.
  apply map_ext_in. intros r Hr. rewrite Forall_forall in Hw3.
  apply firstn_all_eq. now apply Hw3.
Qed.
End DedupFacts.

(** The unique records and the inverse of three records, the last two
    the same and below the first, whatever the sort. *)
Lemma unique_by_example (quicksort_vrows : list vrow -> list (nat * vrow)) :
  sorts_records vrow_cmp quicksort_vrows ->
  let a : vrow := ([1065353216; 0; 0], 0) in
  let b : vrow := ([0; 0; 0], 1) in
  unique_values_by quicksort_vrows vrow_eqb [a; b; b] = [b; a]
  /\ unique_inverse_by quicksort_vrows vrow_eqb [a; b; b]
     = [1%nat; 0%nat; 0%nat].
Proof.
  intros Hsort a b.
  pose proof (unique_values_sorted_by (cmp := vrow_cmp) (eqb := vrow_eqb)
                quicksort_vrows [a; b; b] Hsort) as Hs.
  pose proof (unique_values_in_by (eqb := vrow_eqb) quicksort_vrows Hsort
                [a; b; b]) as Hin.
  pose proof (unique_inverse_length_by quicksort_vrows (eqb := vrow_eqb)
                [a; b; b]) as Hlen.
  destruct (unique_inverse_at_by (eqb := vrow_eqb) quicksort_vrows Hsort
              [a; b; b] 0 a eq_refl) as (h0 & E0 & H0).
  destruct (unique_inverse_at_by (eqb := vrow_eqb) quicksort_vrows Hsort
              [a; b; b] 1 b eq_refl) as (h1 & E1 & H1).
  destruct (unique_inverse_at_by (eqb := vrow_eqb) quicksort_vrows Hsort
              [a; b; b] 2 b eq_refl) as (h2 & E2 & H2).
  set (kept := unique_values_by quicksort_vrows vrow_eqb [a; b; b]) in *.
  set (inv := unique_inverse_by quicksort_vrows vrow_eqb [a; b; b]) in *.
  assert (Ha : forall h, In h kept -> (h = a \/ vrow_eqb a h = true) -> h = a).
  { intros h Hh [E|E]; [exact E|].
    destruct (Hin h Hh) as [<-|[<-|[<-|[]]]]; try reflexivity;
      vm_compute in E; discriminate. }
  assert (Hb : forall h, In h kept -> (h = b \/ vrow_eqb b h = true) -> h = b).
  { intros h Hh [E|E]; [exact E|].
    destruct (Hin h Hh) as [<-|[<-|[<-|[]]]]; try reflexivity;
      vm_compute in E; discriminate. }
  apply Ha in H0; [|eapply nth_error_In; exact E0].
  apply Hb in H1; [|eapply nth_error_In; exact E1].
  apply Hb in H2; [|eapply nth_error_In; exact E2].
  subst h0 h1 h2.
  assert (Hab : forall x y, In x kept -> In y kept ->
                  before vrow_cmp vrow_eqb x y -> x = b /\ y = a).
  { intros x y Hx Hy [Hc He].
    destruct (Hin x Hx) as [<-|[<-|[<-|[]]]];
      destruct (Hin y Hy) as [<-|[<-|[<-|[]]]];
      try (split; reflexivity);
      try (vm_compute in He; discriminate);
      exfalso; apply Hc; vm_compute; reflexivity. }
  assert (Ekept : kept = [b; a]).
  { destruct kept as [|x [|y [|z t]]].
    - destruct (nth 0 inv 0%nat); discriminate.
    - exfalso.
      assert (X0 : x = a).
      { destruct (nth 0 inv 0%nat) as [|[|?]]; cbn in E0; congruence. }
      assert (X1 : x = b).
      { destruct (nth 1 inv 0%nat) as [|[|?]]; cbn in E1; congruence. }
      rewrite X0 in X1. discriminate.
    - apply StronglySorted_inv in Hs. destruct Hs as [_ Hall].
      apply Forall_inv in Hall.
      destruct (Hab x y) as [-> ->]; try assumption; cbn; auto.
    - exfalso.
      apply StronglySorted_inv in Hs. destruct Hs as [Hs Hall].
      apply Forall_inv in Hall.
      apply StronglySorted_inv in Hs. destruct Hs as [_ Hall'].
      apply Forall_inv in Hall'.
      destruct (Hab x y) as [_ Ey]; try assumption; cbn; auto.
      destruct (Hab y z) as [Ey' _]; try assumption; cbn; auto.
      rewrite Ey in Ey'. discriminate. }
  split; [exact Ekept|].
  rewrite Ekept in E0, E1, E2.
  assert (I0 : nth 0 inv 0%nat = 1%nat).
  { destruct (nth 0 inv 0%nat) as [|[|?]]; cbn in E0;
      try reflexivity; try discriminate.
    destruct n; discriminate. }
  assert (I1 : nth 1 inv 0%nat = 0%nat).
  { destruct (nth 1 inv 0%nat) as [|[|?]]; cbn in E1;
      try reflexivity; try discriminate.
    destruct n; discriminate. }
  assert (I2 : nth 2 inv 0%nat = 0%nat).
  { destruct (nth 2 inv 0%nat) as [|[|?]]; cbn in E2;
      try reflexivity; try discriminate.
    destruct n; discriminate. }
  destruct inv as [|i0 [|i1 [|i2 [|? ?]]]]; try discriminate.
  cbn in I0, I1, I2. now subst.
Qed.

(** C10.  For a mesh of the data model with valid face ids,
    [deduplicate_chunk_boundaries] returns as vertices the coordinates of
    the unique (x, y, z, synthetic) rows among those that the faces
    select, however NumPy's sort orders rows that compare equal: every
    kept row is a selected row, every selected row equals a kept one, the
    kept rows are in sorted order and pairwise different, and a vertex
    that no face refers to contributes no row of its own.  The order is
    that of the sort, not that of the input: in the mesh with vertices
    (1,0,0), (0,0,0), (2,0,0) and the face (0, 1, 1) the result has
    vertices (0,0,0), (1,0,0). *)
Theorem C10_dedup_returns_sorted_unique_referenced_rows
    (quicksort_rows : list (list float32) -> list (nat * list float32))
    (quicksort_vrows : list vrow -> list (nat * vrow))
    (m : Mesh) (chunk_size : chunk) (cs : list spec_float) (is_draco : bool)
    (grid_dtype : dtype) (grid : spec_float)
    (Hrows : sorts_records (lex_cmp f32_sort_cmp) quicksort_rows)
    (Hvrows : sorts_records vrow_cmp quicksort_vrows)
    (Hok : mesh_ok m) (Hvalid : faces_valid m)
    (Hchunk : broadcast_chunk chunk_size 3 = Ok cs) :
  let aligned := dedup_aligned (rows (vertices m)) (chunk_dtype chunk_size)
                   cs is_draco grid_dtype grid in
  let referenced := dedup_referenced quicksort_rows m aligned in
  let kept := dedup_kept quicksort_rows quicksort_vrows m aligned in
  (exists m',
      Mesh_deduplicate_chunk_boundaries quicksort_rows quicksort_vrows
        m chunk_size is_draco grid_dtype grid = Ok m'
      /\ rows (vertices m') = map fst kept
      /\ shape (vertices m') = [length kept; 3%nat]
      /\ data (faces m')
         = map (fun k => wrap32 (Z.of_nat k))
               (unique_inverse_by quicksort_vrows vrow_eqb referenced))
  /\ (forall r, In r kept -> In r referenced)
  /\ (forall r, In r referenced ->
        exists h, In h kept /\ (h = r \/ vrow_eqb r h = true))
  /\ StronglySorted (before vrow_cmp vrow_eqb) kept
  /\ (forall i row,
        nth_error (rows (vertices m)) i = Some row ->
        ~ In (Z.of_nat i) (data (faces m)) ->
        ~ In (row, Z.of_nat i) kept)
  /\ (exists m0 m0',
        Mesh_deduplicate_chunk_boundaries quicksort_rows quicksort_vrows
          m0 (ChunkScalar F32 (sf_of_Z 100)) false F32 default_draco_grid_size
        = Ok m0'
        /\ rows (vertices m0)
           = [[1065353216; 0; 0]; [0; 0; 0]; [1073741824; 0; 0]]
        /\ rows (faces m0) = [[0; 1; 1]]
        /\ rows (vertices m0') = [[0; 0; 0]; [1065353216; 0; 0]]
        /\ rows (faces m0') = [[1; 0; 0]]).
Proof.
  intros aligned referenced kept.
  destruct Hok as [[N Hvs] [M Hfs] _ Hvw Hfw _ Hfr].
  assert (Hal : length aligned = length (rows (vertices m)))
    by apply dedup_aligned_length.
  destruct (dedup_explicit quicksort_rows quicksort_vrows Hvrows m chunk_size
              cs is_draco grid_dtype grid N M Hvs Hfs Hvw Hfw Hvalid Hchunk)
    as (Hm' & Hreflen & Hw3).
  fold aligned in Hm'. fold referenced in Hm', Hreflen. fold kept in Hm', Hw3.
  pose proof (dedup_referenced_spec quicksort_rows m aligned N Hal Hvs Hvw
                Hvalid) as Hin_ref.
  fold referenced in Hin_ref.
  assert (Hkept_in : forall r, In r kept -> In r referenced).
  { intros r Hr.
    now apply (unique_values_in_by (eqb := vrow_eqb) quicksort_vrows Hvrows)
      in Hr. }
  split; [|split; [|split; [|split; [|split]]]].
  - eexists. split; [exact Hm'|].
    unfold Mesh_init. cbn [vertices faces]. split; [|split].
    + rewrite rows_np_array.
      rewrite (map_ext _ (fun r => r)) by (intros; apply map_id).
      rewrite map_id. apply rows_of_rows.
      apply Forall_forall. intros r Hr. apply in_map_iff in Hr.
      destruct Hr as (r0 & <- & Hr0).
      rewrite Forall_forall in Hw3. now apply Hw3.
    + unfold np_array, of_rows. cbn [shape]. now rewrite length_map.
    + unfold np_array. cbn [data]. now rewrite map_map.
  - exact Hkept_in.
  - intros r Hr. apply In_nth_error in Hr. destruct Hr as (k & Hk).
    destruct (unique_inverse_at_by (eqb := vrow_eqb) quicksort_vrows Hvrows
                referenced k r Hk) as (h & Hh & Hor).
    exists h. split; [|exact Hor].
    eapply nth_error_In. exact Hh.
  - now apply unique_values_sorted_by.
  - intros i row Hrow Hunref Hin.
    destruct (Hin_ref _ (Hkept_in _ Hin))
      as (j & row' & s & Hj & Hjin & _ & _ & E & Hs).
    injection E as E1 E2. destruct Hs as [Hs | Hs]; [|lia].
    assert (i = j) by lia. subst j. contradiction.
  - set (m0 := Mesh_init (NdArray [3%nat; 3%nat]
                            [1065353216; 0; 0; 0; 0; 0; 1073741824; 0; 0])
                         (NdArray [1%nat; 3%nat] [0; 1; 1])
                         None None EncNone None).
    assert (Hvalid0 : faces_valid m0)
      by (unfold faces_valid; repeat constructor; vm_compute; congruence).
    destruct (dedup_explicit quicksort_rows quicksort_vrows Hvrows m0
                (ChunkScalar F32 (sf_of_Z 100)) (repeat (sf_of_Z 100) 3)
                false F32 default_draco_grid_size 3 1
                eq_refl eq_refl eq_refl eq_refl Hvalid0 eq_refl)
      as (E0 & _ & _).
    cbv zeta in E0.
    change (chunk_dtype (ChunkScalar F32 (sf_of_Z 100))) with F32 in E0.
    set (aligned0 := dedup_aligned (rows (vertices m0)) F32
                       (repeat (sf_of_Z 100) 3) false F32
                       default_draco_grid_size) in *.
    assert (Edm : dedup_do_merge quicksort_rows (rows (vertices m0)) aligned0
                  = [false; false; false]).
    { assert (L : length (dedup_do_merge quicksort_rows (rows (vertices m0))
                            aligned0) = 3%nat)
        by (now rewrite dedup_do_merge_length).
      pose proof (dedup_do_merge_at quicksort_rows Hrows (rows (vertices m0))
                    aligned0 0 _ true eq_refl eq_refl) as D0.
      pose proof (dedup_do_merge_at quicksort_rows Hrows (rows (vertices m0))
                    aligned0 1 _ true eq_refl eq_refl) as D1.
      pose proof (dedup_do_merge_at quicksort_rows Hrows (rows (vertices m0))
                    aligned0 2 _ true eq_refl eq_refl) as D2.
      destruct (dedup_do_merge quicksort_rows (rows (vertices m0)) aligned0)
        as [|x0 [|x1 [|x2 [|? ?]]]]; try discriminate.
      vm_compute in D0, D1, D2. congruence. }
    assert (Eref : dedup_referenced quicksort_rows m0 aligned0
                   = [([1065353216; 0; 0], 0); ([0; 0; 0], 1);
                      ([0; 0; 0], 1)]).
    { unfold dedup_referenced, dedup_rows. cbv zeta. rewrite Edm.
      vm_compute. reflexivity. }
    destruct (unique_by_example quicksort_vrows Hvrows) as [Ek Ei].
    cbv zeta in Ek, Ei.
    unfold dedup_kept in E0. rewrite Eref, Ek, Ei in E0.
    exists m0. eexists. split; [exact E0|].
    repeat split; vm_compute; reflexivity.
Qed.

(* ------------------------------------------------------------------ *)
(** ** The OBJ codec (C1) *)

Lemma lookup_re : lookup_global "re" = Raise (NameError "re").
Proof. reflexivity. Qed.

(** A face line, and a vertex or normal line, cannot be decoded: their
    handling starts by looking [re] up. *)
Lemma obj_line_face re_match parse_float32 acc raw rest :
  strip raw = String "f" rest ->
  obj_line re_match parse_float32 acc raw = Raise (NameError "re").
Proof.
  intros H. unfold obj_line. rewrite H. cbn [Ascii.eqb Bool.eqb].
  unfold match_groups. rewrite lookup_re.
  destruct (contains_char "/" (String "f" rest)); reflexivity.
Qed.

Lemma obj_line_vertex re_match parse_float32 acc raw c1 rest :
  strip raw = String "v" (String c1 rest) ->
  c1 <> "t"%char ->
  obj_line re_match parse_float32 acc raw = Raise (NameError "re").
Proof.
  intros H Hc. unfold obj_line. rewrite H. cbn [Ascii.eqb Bool.eqb].
  apply Ascii.eqb_neq in Hc. rewrite Hc.
  unfold match_groups. rewrite lookup_re.
  destruct (Ascii.eqb c1 "n"); reflexivity.
Qed.

Lemma obj_lines_raise re_match parse_float32 acc raw lines e :
  obj_line re_match parse_float32 acc raw = Raise e ->
  obj_lines re_match parse_float32 acc (raw :: lines) = Raise e.
Proof. intros H. simpl. now rewrite H. Qed.

Lemma split_lines_from_head (cur t : string) :
  exists p ls, split_lines_from cur t = (cur ++ p)%string :: ls.
Proof.
  revert cur; induction t as [|c t IH]; intros cur; simpl.
  - exists ""%string, []. f_equal.
    induction cur as [|a cur IHc]; simpl; [reflexivity|]. now rewrite <- IHc.
  - destruct (Ascii.eqb c (ascii_of_nat 10)).
    + exists ""%string, (split_lines_from "" t). f_equal.
      induction cur as [|a cur IHc]; simpl; [reflexivity|]. now rewrite <- IHc.
    + destruct (IH (cur ++ String c "")%string) as (p & ls & E).
      exists (String c p), ls. rewrite E. f_equal.
      clear. induction cur as [|a cur IHc]; simpl; [reflexivity|].
      now rewrite IHc.
Qed.

Lemma rstrip_first (c : ascii) (r : string) :
  rstrip (String c r) = ""%string
  \/ exists r', rstrip (String c r) = String c r'.
Proof.
  simpl. destruct (rstrip r).
  - destruct (is_space c); [left|right; exists ""%string]; reflexivity.
  - right. eexists. reflexivity.
Qed.

(** A text that begins with "v " or "f " cannot be decoded. *)
Lemma from_obj_first_line re_match parse_float32 (c : ascii) (t : string) :
  c = "v"%char \/ c = "f"%char ->
  Mesh_from_obj re_match parse_float32 (String c (String " " t))
  = Raise (NameError "re")
  \/ Mesh_from_obj re_match parse_float32 (String c (String " " t))
     = Raise IndexError.
Proof.
  intros Hc. unfold Mesh_from_obj, split_lines.
  assert (Hsplit : exists p ls,
             split_lines_from "" (String c (String " " t))
             = String c (String " " p) :: ls).
  { destruct Hc as [-> | ->]; cbn [split_lines_from Ascii.eqb Bool.eqb];
      destruct (split_lines_from_head (String "v" (String " " "")) t) as (p1 & l1 & E1);
      destruct (split_lines_from_head (String "f" (String " " "")) t) as (p2 & l2 & E2);
      simpl in E1, E2; eauto. }
  destruct Hsplit as (p & ls & ->).
  assert (Hstrip : strip (String c (String " " p)) = String c ""
                   \/ exists r, strip (String c (String " " p)) = String c (String " " r)).
  { unfold strip.
    assert (Hl : lstrip (String c (String " " p)) = String c (String " " p))
      by (destruct Hc as [-> | ->]; reflexivity).
    rewrite Hl.
    change (rstrip (String c (String " " p)))
      with (match rstrip (String " " p) with
            | EmptyString => if is_space c then EmptyString
                             else String c EmptyString
            | String a s => String c (String a s)
            end).
    destruct (rstrip_first " " p) as [E | (r' & E)]; rewrite E.
    - left. destruct Hc as [-> | ->]; reflexivity.
    - right. eauto. }
  destruct Hstrip as [E | (r & E)].
  - destruct Hc as [-> | ->].
    + right. cbn [obj_lines]. unfold obj_line. rewrite E. reflexivity.
    + left. cbn [obj_lines].
      rewrite (obj_line_face _ _ _ _ ""%string E). reflexivity.
  - left. cbn [obj_lines]. destruct Hc as [-> | ->].
    + rewrite (obj_line_vertex _ _ _ _ " "%char r E) by discriminate.
      reflexivity.
    + rewrite (obj_line_face _ _ _ _ _ E). reflexivity.
Qed.

Lemma join_first (sep x : string) (l : list string) (c : ascii) (t : string) :
  x = String c (String " " t) ->
  exists t', (join sep (x :: l) ++ newline)%string = String c (String " " t').
Proof.
  intros ->. destruct l as [|y l]; simpl; eauto.
Qed.

Lemma mapM_nil {A B} (f : A -> result B) (l : list A) :
  mapM f l = Ok [] -> l = [].
Proof.
  destruct l as [|x l]; [reflexivity|]. simpl.
  destruct (f x); [|discriminate]. simpl.
  destruct (mapM f l); discriminate.
Qed.

Lemma iter_rows_nil {A} (a : ndarray A) : iter_rows a = Ok [] -> rows a = [].
Proof.
  unfold iter_rows, rows, size.
  destruct (shape a) as [|n [|w [|? ?]]]; try discriminate.
  - destruct (numel [n] =? 0)%nat eqn:E; [|discriminate].
    apply Nat.eqb_eq in E. simpl in E. rewrite Nat.mul_1_r in E. now subst n.
  - intros H. now injection H.
Qed.

(** Whatever the mesh, as soon as its OBJ text has a vertex or a face
    line, decoding that text raises instead of returning a mesh. *)
Lemma from_obj_to_obj_raises re_match parse_float32 (m : Mesh) (text : string) :
  Mesh_to_obj m = Ok text ->
  rows (vertices m) <> [] \/ rows (faces m) <> [] ->
  Mesh_from_obj re_match parse_float32 text = Raise (NameError "re")
  \/ Mesh_from_obj re_match parse_float32 text = Raise IndexError.
Proof.
  unfold Mesh_to_obj. intros H Hne.
  destruct (iter_rows (vertices m)) as [vrows|] eqn:Ev; [|discriminate].
  cbn [bind] in H.
  destruct (mapM format_vertex vrows) as [vlines|] eqn:Evl; [|discriminate].
  cbn [bind] in H.
  destruct (iter_rows (np_array (fun f => wrap32 (f + 1)) (faces m)))
    as [frows|] eqn:Ef; [|discriminate].
  cbn [bind] in H.
  destruct (mapM format_face frows) as [flines|] eqn:Efl; [|discriminate].
  cbn [bind] in H. injection H as <-.
  assert (Hfirst : exists c t l, (c = "v"%char \/ c = "f"%char)
                                 /\ (vlines ++ flines)%list = String c (String " " t) :: l).
  { destruct vlines as [|vl vlines'].
    - destruct flines as [|fl flines'].
      + exfalso.
        apply mapM_nil in Evl. apply mapM_nil in Efl. subst vrows frows.
        apply iter_rows_nil in Ev. apply iter_rows_nil in Ef.
        rewrite rows_np_array in Ef. apply map_eq_nil in Ef.
        destruct Hne as [Hne | Hne]; contradiction.
      + destruct frows as [|r frows']; [discriminate|].
        cbn [mapM bind] in Efl. destruct r as [|a [|b [|c r]]]; try discriminate.
        cbn [format_face bind] in Efl.
        destruct (mapM format_face frows'); [|discriminate].
        cbn [bind] in Efl.
        set (fa := dec_string a) in Efl. set (fb := dec_string b) in Efl.
        set (fc := dec_string c) in Efl. clearbody fa fb fc.
        injection Efl as <- _.
        exists "f"%char. eexists. eexists. split; [now right|]. reflexivity.
    - destruct vrows as [|r vrows']; [discriminate|].
      cbn [mapM bind] in Evl. destruct r as [|a [|b [|c r]]]; try discriminate.
      cbn [format_vertex bind] in Evl.
      destruct (mapM format_vertex vrows'); [|discriminate].
      cbn [bind] in Evl.
      set (fa := format_5f a) in Evl. set (fb := format_5f b) in Evl.
      set (fc := format_5f c) in Evl. clearbody fa fb fc.
      injection Evl as <- _.
      exists "v"%char. eexists. eexists. split; [now left|]. reflexivity. }
  destruct Hfirst as (c & t & l & Hc & ->).
  destruct (join_first newline _ l c t eq_refl) as (t' & ->).
  now apply from_obj_first_line.
Qed.

(** C1.  The mesh with the vertex (1, 2, 3) and the face (0, 0, 0) is
    written as the two lines "v 1.00000 2.00000 3.00000" and "f 1 1 1";
    reading that text back raises NameError, whatever the regular
    expression matcher and the float parser are: mesh.py uses [re] and
    never imports it. *)
Theorem C1_obj_round_trip_raises_NameError
    (re_match : string -> string -> option (list string))
    (parse_float32 : string -> result float32) :
  let m := Mesh_init (NdArray [1%nat; 3%nat] [1065353216; 1073741824; 1077936128])
                     (NdArray [1%nat; 3%nat] [0; 0; 0])
                     None None EncNone None in
  let text := ("v 1.00000 2.00000 3.00000" ++ newline ++ "f 1 1 1" ++ newline)%string in
  Mesh_to_obj m = Ok text
  /\ Mesh_from_obj re_match parse_float32 text = Raise (NameError "re")
  /\ existsb (String.eqb "re") mesh_module_names = false.
Proof.
  intros m text. split; [vm_compute; reflexivity|].
  split; [vm_compute; reflexivity|reflexivity].
Qed.

(* ------------------------------------------------------------------ *)
(** ** The statements at concrete meshes *)

Lemma tile1_ok : mesh_ok tile1.
Proof.
  constructor; try reflexivity.
  - now exists 3%nat.
  - now exists 1%nat.
  - now exists 0%nat.
  - apply Mesh_init_faces_range.
Defined.

Lemma tile2_ok : mesh_ok tile2.
Proof.
  constructor; try reflexivity.
  - now exists 3%nat.
  - now exists 1%nat.
  - now exists 0%nat.
  - apply Mesh_init_faces_range.
Defined.

Lemma two_tiles_ok : mesh_ok two_tiles.
Proof.
  constructor; try reflexivity.
  - now exists 6%nat.
  - now exists 2%nat.
  - now exists 0%nat.
  - apply Mesh_init_faces_range.
Defined.

Lemma faces_valid_check (m : Mesh) :
  forallb (fun f => (0 <=? f) && (f <? Z.of_nat (num_vertices m)))
          (data (faces m)) = true ->
  faces_valid m.
Proof.
  intros H. unfold faces_valid. apply Forall_forall. intros f Hf.
  rewrite forallb_forall in H. specialize (H f Hf). lia.
Qed.

Lemma no_nan_check (a : ndarray float32) :
  forallb (fun x => negb (f32_is_nan x)) (data a) = true -> no_nan a.
Proof.
  intros H. unfold no_nan. apply Forall_forall. intros x Hx.
  rewrite forallb_forall in H. specialize (H x Hx).
  now destruct (f32_is_nan x).
Qed.

Lemma two_tiles_valid : faces_valid two_tiles.
Proof. apply faces_valid_check. vm_compute. reflexivity. Defined.

Lemma C4_witness :
  exists m,
    Mesh_concatenate distinct [tile1; tile2] = Ok m
    /\ shape (vertices m) = [6%nat; 3%nat]
    /\ shape (faces m) = [2%nat; 3%nat]
    /\ rows (faces m) = [[0; 1; 2]; [3; 4; 5]].
Proof.
  destruct (C4_concatenate_appends_vertices_and_shifts_faces distinct [tile1; tile2])
    as (m & H1 & H2 & H3 & _ & H5 & _).
  - discriminate.
  - apply Forall_cons; [apply tile1_ok|].
    apply Forall_cons; [apply tile2_ok|apply Forall_nil].
  - repeat constructor.
  - exists m. split; [exact H1|]. split; [exact H2|]. split; [exact H3|].
    rewrite H5. vm_compute. reflexivity.
Defined.

Lemma C5_witness :
  exists c1 c2,
    Mesh_consolidate two_tiles = Ok c1
    /\ Mesh_consolidate c1 = Ok c2
    /\ c2 = c1
    /\ Mesh_eq c2 c1 = Ok true.
Proof.
  apply (C5_consolidate_idempotent_without_nan two_tiles).
  - apply two_tiles_ok.
  - apply two_tiles_valid.
  - vm_compute. discriminate.
  - apply no_nan_check. vm_compute. reflexivity.
Defined.

(** The stable sort is one of the orders the sort may give. *)
Lemma stable_rows_sorts :
  sorts_records (lex_cmp f32_sort_cmp) (argsort (lex_cmp f32_sort_cmp)).
Proof. exact (argsort_sorts (eqb := row_eqb f32_eqb)). Qed.

Lemma stable_vrows_sorts : sorts_records vrow_cmp (argsort vrow_cmp).
Proof. exact (argsort_sorts (eqb := vrow_eqb)). Qed.

(** The chunk sizes given as the list [100, 100, 100], hence float64:
    the vertex (100, 0, 0), which occurs twice, is merged. *)
Lemma C6_witness :
  nth_error
    (dedup_new_vertices (rows (vertices two_tiles))
       (dedup_do_merge (argsort (lex_cmp f32_sort_cmp))
          (rows (vertices two_tiles))
          (is_std_chunk_aligned (rows (vertices two_tiles)) F64
             (repeat (S754_finite false 7036874417766400 (-46)) 3))))
    1
  = Some ([1120403456; 0; 0], -1).
Proof.
  destruct (C6_merged_iff_boundary_aligned_and_exactly_doubled
              (argsort (lex_cmp f32_sort_cmp))
              (rows (vertices two_tiles)) F64
              (repeat (S754_finite false 7036874417766400 (-46)) 3)
              1 [1120403456; 0; 0] stable_rows_sorts eq_refl eq_refl)
    as [_ [_ H]].
  - vm_compute. repeat constructor.
  - rewrite H. vm_compute. reflexivity.
Defined.

Lemma C10_witness :
  exists m',
    Mesh_deduplicate_chunk_boundaries
      (argsort (lex_cmp f32_sort_cmp)) (argsort vrow_cmp)
      two_tiles (ChunkScalar F32 (sf_of_Z 100))
      false F32 default_draco_grid_size = Ok m'
    /\ shape (vertices m') = [5%nat; 3%nat].
Proof.
  destruct (C10_dedup_returns_sorted_unique_referenced_rows
              (argsort (lex_cmp f32_sort_cmp)) (argsort vrow_cmp)
              two_tiles (ChunkScalar F32 (sf_of_Z 100))
              (repeat (sf_of_Z 100) 3)
              false F32 default_draco_grid_size
              stable_rows_sorts stable_vrows_sorts
              two_tiles_ok two_tiles_valid eq_refl)
    as [(m' & H1 & _ & H3 & _) _].
  exists m'. split; [exact H1|]. rewrite H3. vm_compute. reflexivity.
Defined.

(* ------------------------------------------------------------------ *)
(** * The rest of the module *)

(** ** The Precomputed codec: what decodes, and encoding it again *)

(** The mesh that [from_precomputed] returns for a buffer it accepts. *)
Lemma from_precomputed_ok (binary : list byte) :
  let len := Z.of_nat (length binary) in
  let nv := le32_word (firstn 4 binary) in
  let left := len - (4 + 12 * nv) in
  4 <= len -> 0 <= left -> left mod 4 = 0 -> (left / 4) mod 3 = 0 ->
  Mesh_from_precomputed binary
  = Ok (Mesh_init
          (NdArray [Z.to_nat nv; 3%nat]
             (map le32_word (chunks (Z.to_nat (3 * nv)) 4 (skipn 4 binary))))
          (NdArray [(Z.to_nat (left / 4) / 3)%nat; 3%nat]
             (map le32_word
                (chunks (Z.to_nat (left / 4)) 4
                   (skipn (Z.to_nat (4 + 12 * nv)) binary))))
          None None (EncTag "precomputed") None).
Proof.
  intros len nv left Hlen Hleft Hmod4 Hmod3.
  assert (Hnv : 0 <= nv < u32_mod) by apply le32_word_range.
  unfold u32_mod in Hnv.
  unfold Mesh_from_precomputed, struct_unpack_I.
  rewrite length_firstn. fold nv.
  destruct (Nat.eqb_spec (Nat.min 4 (length binary)) 4); [|lia].
  cbn [bind]. unfold np_frombuffer. fold len.
  replace ((4 <? 0) || (len <? 4)) with false by (symmetry; lia).
  replace (3 * nv <? 0) with false by (symmetry; lia).
  replace (len - 4 <? 3 * nv * 4) with false
    by (symmetry; unfold left in *; lia).
  cbn [bind].
  replace ((4 + 12 * nv <? 0) || (len <? 4 + 12 * nv)) with false
    by (symmetry; unfold left in *; lia).
  replace (-1 <? 0) with true by reflexivity. fold left.
  rewrite Hmod4. cbn [Z.eqb bind except_ValueError].
  unfold reshape, size. cbn [shape numel fold_right].
  replace (Z.to_nat nv * (3 * 1) =? Z.to_nat (3 * nv) * 1)%nat with true
    by (symmetry; apply Nat.eqb_eq; lia).
  cbn [bind data shape numel fold_right].
  destruct (Nat.eqb_spec (Z.to_nat (left / 4) * 1 / 3 * (3 * 1))
                         (Z.to_nat (left / 4) * 1)) as [E|E].
  - cbn [bind]. rewrite Nat.mul_1_r. reflexivity.
  - exfalso. apply E.
    assert (0 <= left / 4) by (apply Z.div_pos; lia).
    rewrite !Nat.mul_1_r.
    assert (E' : (Z.to_nat (left / 4) mod 3 = 0)%nat).
    { apply Nat2Z.inj. rewrite Nat2Z.inj_mod, Z2Nat.id by lia. exact Hmod3. }
    pose proof (Nat.div_mod_eq (Z.to_nat (left / 4)) 3). lia.
Qed.

Lemma byte_of_Z_of_byte (b : byte) (k : Z) :
  byte_of_Z (Z_of_byte b + 256 * k) = b.
Proof.
  unfold byte_of_Z.
  assert (E : (Z_of_byte b + 256 * k) mod 256 = Z_of_byte b).
  { pose proof (Z_of_byte_range b).
    rewrite (Z.mul_comm 256 k), Z.mod_add by lia.
    apply Z.mod_small. lia. }
  rewrite E. unfold Z_of_byte. rewrite N2Z.id, Byte.of_to_N. reflexivity.
Qed.

Lemma le32_bytes_word (b0 b1 b2 b3 : byte) :
  le32_bytes (le32_word [b0; b1; b2; b3]) = [b0; b1; b2; b3].
Proof.
  unfold le32_bytes, le32_word.
  pose proof (Z_of_byte_range b0). pose proof (Z_of_byte_range b1).
  pose proof (Z_of_byte_range b2). pose proof (Z_of_byte_range b3).
  set (w := Z_of_byte b0 + 256 * Z_of_byte b1 + 65536 * Z_of_byte b2
            + 16777216 * Z_of_byte b3).
  assert (E1 : w / 256
               = Z_of_byte b1 + 256 * (Z_of_byte b2 + 256 * Z_of_byte b3)).
  { symmetry. apply (Z.div_unique _ _ _ (Z_of_byte b0)); unfold w; lia. }
  assert (E2 : w / 65536 = Z_of_byte b2 + 256 * Z_of_byte b3).
  { symmetry.
    apply (Z.div_unique _ _ _ (Z_of_byte b0 + 256 * Z_of_byte b1));
      unfold w; lia. }
  assert (E3 : w / 16777216 = Z_of_byte b3 + 256 * 0).
  { symmetry.
    apply (Z.div_unique _ _ _
             (Z_of_byte b0 + 256 * Z_of_byte b1 + 65536 * Z_of_byte b2));
      unfold w; lia. }
  rewrite E1, E2, E3, !byte_of_Z_of_byte.
  f_equal. unfold w.
  replace (Z_of_byte b0 + 256 * Z_of_byte b1 + 65536 * Z_of_byte b2
           + 16777216 * Z_of_byte b3)
    with (Z_of_byte b0
          + 256 * (Z_of_byte b1 + 256 * Z_of_byte b2 + 65536 * Z_of_byte b3))
    by lia.
  apply byte_of_Z_of_byte.
Qed.

(** Writing the words read from a buffer gives the bytes read. *)
Lemma bytes_of_words (n : nat) (l : list byte) :
  (4 * n <= length l)%nat ->
  flat_map le32_bytes (map le32_word (chunks n 4 l)) = firstn (4 * n) l.
Proof.
  revert l. induction n as [|n IH]; intros l Hl; [reflexivity|].
  destruct l as [|b0 [|b1 [|b2 [|b3 l]]]]; cbn [length] in Hl; try lia.
  cbn [chunks firstn skipn map flat_map].
  rewrite le32_bytes_word, IH by lia.
  replace (4 * S n)%nat with (S (S (S (S (4 * n))))) by lia.
  reflexivity.
Qed.

Lemma map_wrap32_words (n : nat) (l : list byte) :
  map wrap32 (map le32_word (chunks n 4 l)) = map le32_word (chunks n 4 l).
Proof.
  rewrite map_map. apply map_ext. intros bs.
  apply wrap32_small, le32_word_range.
Qed.

(** X1.  [from_precomputed] returns a mesh exactly for the buffers that
    hold the 4-byte vertex count [Nv], [Nv] vertices of 12 bytes and a
    whole number of faces of 12 bytes; the mesh then has [Nv x 3]
    vertices, one face per 12 bytes left, uint32 face ids, no normals, no
    segment id and the encoding type 'precomputed'. *)
Theorem from_precomputed_accepts_whole_meshes (binary : list byte) :
  let len := Z.of_nat (length binary) in
  let nv := le32_word (firstn 4 binary) in
  ((exists m, Mesh_from_precomputed binary = Ok m) <->
   4 <= len /\ exists M : Z, 0 <= M /\ len = 4 + 12 * nv + 12 * M)
  /\ forall m, Mesh_from_precomputed binary = Ok m ->
       shape (vertices m) = [Z.to_nat nv; 3%nat]
       /\ shape (faces m) = [Z.to_nat ((len - 4 - 12 * nv) / 12); 3%nat]
       /\ array_wf (vertices m) /\ array_wf (faces m)
       /\ Forall is_u32 (data (faces m))
       /\ normals m = NdArray [0%nat; 3%nat] []
       /\ segid m = None
       /\ encoding_type m = EncTag "precomputed"
       /\ encoding_options m = None.
Proof.
  intros len nv.
  pose proof (from_precomputed_outcome binary) as (H1 & H2 & H3 & H4).
  pose proof (from_precomputed_ok binary) as Hok.
  fold len nv in H1, H2, H3, H4, Hok. cbv zeta in H1, H2, H3, H4, Hok.
  assert (Hnv : 0 <= nv < u32_mod) by apply le32_word_range.
  set (left := len - (4 + 12 * nv)) in *.
  assert (Hcases : len < 4 \/ (4 <= len /\ (left < 0 \/ left mod 4 <> 0))
                   \/ (4 <= len /\ 0 <= left /\ left mod 4 = 0
                       /\ (left / 4) mod 3 <> 0)
                   \/ (4 <= len /\ 0 <= left /\ left mod 4 = 0
                       /\ (left / 4) mod 3 = 0)) by lia.
  split.
  - split.
    + intros [m Hm].
      destruct Hcases as [Hc|[[Hc1 Hc2]|[(Hc1 & Hc2 & Hc3 & Hc4)|(Hc1 & Hc2 & Hc3 & Hc4)]]].
      * rewrite (H1 Hc) in Hm. discriminate.
      * rewrite (H2 Hc1 Hc2) in Hm. discriminate.
      * rewrite (H3 Hc1 Hc2 Hc3 Hc4) in Hm. discriminate.
      * split; [exact Hc1|]. exists (left / 4 / 3).
        pose proof (Z.div_mod left 4 ltac:(lia)).
        pose proof (Z.div_mod (left / 4) 3 ltac:(lia)).
        assert (0 <= left / 4) by (apply Z.div_pos; lia).
        assert (0 <= left / 4 / 3) by (apply Z.div_pos; lia).
        unfold left in *. lia.
    + intros [Hlen (M & HM & E)].
      apply H4; try assumption.
      * unfold left. lia.
      * unfold left. replace (len - (4 + 12 * nv)) with (3 * M * 4) by lia.
        apply Z.mod_mul. lia.
      * unfold left. replace (len - (4 + 12 * nv)) with (3 * M * 4) by lia.
        rewrite Z.div_mul by lia. rewrite Z.mul_comm. apply Z.mod_mul. lia.
  - intros m Hm.
    destruct Hcases as [Hc|[[Hc1 Hc2]|[(Hc1 & Hc2 & Hc3 & Hc4)|(Hc1 & Hc2 & Hc3 & Hc4)]]].
    + rewrite (H1 Hc) in Hm. discriminate.
    + rewrite (H2 Hc1 Hc2) in Hm. discriminate.
    + rewrite (H3 Hc1 Hc2 Hc3 Hc4) in Hm. discriminate.
    + assert (Hq : 0 <= left / 4) by (apply Z.div_pos; lia).
      assert (E12 : (len - 4 - 12 * nv) / 12 = left / 4 / 3).
      { replace (len - 4 - 12 * nv) with left by (unfold left; lia).
        rewrite Z.div_div by lia. reflexivity. }
      assert (E3 : (Z.to_nat (left / 4) / 3)%nat = Z.to_nat (left / 4 / 3)).
      { change 3%nat with (Z.to_nat 3). symmetry. apply Z2Nat.inj_div; lia. }
      assert (El : Z.to_nat (left / 4)
                   = (Z.to_nat (left / 4 / 3) * 3)%nat).
      { pose proof (Z.div_mod (left / 4) 3 ltac:(lia)).
        assert (0 <= left / 4 / 3) by (apply Z.div_pos; lia). lia. }
      specialize (Hok Hc1 Hc2 Hc3 Hc4). rewrite E3 in Hok.
      assert (Em : m = Mesh_init
                (NdArray [Z.to_nat nv; 3%nat]
                   (map le32_word
                      (chunks (Z.to_nat (3 * nv)) 4 (skipn 4 binary))))
                (NdArray [Z.to_nat (left / 4 / 3); 3%nat]
                   (map le32_word
                      (chunks (Z.to_nat (left / 4)) 4
                         (skipn (Z.to_nat (4 + 12 * nv)) binary))))
                None None (EncTag "precomputed") None) by congruence.
      rewrite Em. clear Em Hm Hok.
      unfold Mesh_init, np_array, array_wf.
      cbn [vertices faces normals segid encoding_type encoding_options
           shape data].
      rewrite E12, !length_map, !length_chunks.
      cbn [numel fold_right].
      repeat split; try lia.
      rewrite Forall_forall. intros x Hx.
      apply in_map_iff in Hx. destruct Hx as (y & <- & _).
      apply wrap32_range.
Qed.

Lemma firstn4_word (binary : list byte) :
  (4 <= length binary)%nat ->
  le32_bytes (le32_word (firstn 4 binary)) = firstn 4 binary.
Proof.
  intros H. destruct binary as [|b0 [|b1 [|b2 [|b3 l]]]]; cbn [length] in H;
    try lia.
  cbn [firstn]. apply le32_bytes_word.
Qed.

(** X2.  Encoding a decoded mesh gives back the buffer it was decoded
    from: [from_precomputed] loses nothing of a buffer it accepts. *)
Theorem to_precomputed_of_from_precomputed (binary : list byte) (m : Mesh) :
  Mesh_from_precomputed binary = Ok m ->
  Mesh_to_precomputed m = Ok binary.
Proof.
  intros Hm.
  pose proof (from_precomputed_outcome binary) as (H1 & H2 & H3 & _).
  pose proof (from_precomputed_ok binary) as Hok.
  cbv zeta in H1, H2, H3, Hok.
  set (len := Z.of_nat (length binary)) in *.
  set (nv := le32_word (firstn 4 binary)) in *.
  set (left := len - (4 + 12 * nv)) in *.
  assert (Hnv : 0 <= nv < u32_mod) by apply le32_word_range.
  assert (Hcases : len < 4 \/ (4 <= len /\ (left < 0 \/ left mod 4 <> 0))
                   \/ (4 <= len /\ 0 <= left /\ left mod 4 = 0
                       /\ (left / 4) mod 3 <> 0)
                   \/ (4 <= len /\ 0 <= left /\ left mod 4 = 0
                       /\ (left / 4) mod 3 = 0)) by lia.
  destruct Hcases as [Hc|[[Hc1 Hc2]|[(Hc1 & Hc2 & Hc3 & Hc4)|(Hc1 & Hc2 & Hc3 & Hc4)]]].
  - rewrite (H1 Hc) in Hm. discriminate.
  - rewrite (H2 Hc1 Hc2) in Hm. discriminate.
  - rewrite (H3 Hc1 Hc2 Hc3 Hc4) in Hm. discriminate.
  - rewrite (Hok Hc1 Hc2 Hc3 Hc4) in Hm.
    assert (Em : Mesh_init
                (NdArray [Z.to_nat nv; 3%nat]
                   (map le32_word
                      (chunks (Z.to_nat (3 * nv)) 4 (skipn 4 binary))))
                (NdArray [(Z.to_nat (left / 4) / 3)%nat; 3%nat]
                   (map le32_word
                      (chunks (Z.to_nat (left / 4)) 4
                         (skipn (Z.to_nat (4 + 12 * nv)) binary))))
                None None (EncTag "precomputed") None = m) by congruence.
    rewrite <- Em. clear Em Hm.
    unfold Mesh_to_precomputed, Mesh_init, np_array, shape0, tobytes.
    cbn [vertices faces shape data bind].
    rewrite map_wrap32_words, map_id.
    assert (Hl4 : left = 4 * (left / 4))
      by (pose proof (Z.div_mod left 4 ltac:(lia)); lia).
    assert (Hq : 0 <= left / 4) by (apply Z.div_pos; lia).
    rewrite !bytes_of_words
      by (rewrite length_skipn; unfold len, left in *; lia).
    rewrite Z2Nat.id by lia.
    rewrite (wrap32_small nv) by exact Hnv.
    unfold nv at 1. rewrite firstn4_word by (unfold len in Hc1; lia).
    f_equal.
    rewrite (firstn_all2 (n := 4 * Z.to_nat (left / 4)))
      by (rewrite length_skipn; unfold len, left in *; lia).
    rewrite <- (firstn_skipn 4 binary) at 4. f_equal.
    rewrite <- (firstn_skipn (4 * Z.to_nat (3 * nv)) (skipn 4 binary)) at 2.
    f_equal. rewrite skipn_skipn. f_equal. lia.
Qed.

(** A buffer of one vertex and one face, encoded again. *)
Lemma to_precomputed_of_from_precomputed_witness :
  exists m,
    Mesh_from_precomputed
      ([x01; x00; x00; x00] ++ repeat x00 12 ++ repeat x00 12) = Ok m
    /\ Mesh_to_precomputed m
       = Ok ([x01; x00; x00; x00] ++ repeat x00 12 ++ repeat x00 12).
Proof.
  eexists. split; [vm_compute; reflexivity|].
  apply to_precomputed_of_from_precomputed. vm_compute. reflexivity.
Defined.

(** X3.  [to_precomputed] fails only on a 0-d vertices array; otherwise
    it writes the vertex count in 4 bytes (reduced modulo 2^32) and 4
    bytes for every vertex coordinate and every face id, which is
    [4 + 12 N + 12 M] bytes for [N x 3] vertices and [M x 3] faces. *)
Theorem to_precomputed_layout (m : Mesh) :
  (Mesh_to_precomputed m = Raise IndexError <-> shape (vertices m) = [])
  /\ (forall b, Mesh_to_precomputed m = Ok b ->
        length b = (4 + 4 * length (data (vertices m))
                    + 4 * length (data (faces m)))%nat
        /\ firstn 4 b
           = le32_bytes (wrap32 (Z.of_nat (hd 0%nat (shape (vertices m))))))
  /\ (mesh_ok m ->
      exists b, Mesh_to_precomputed m = Ok b
                /\ length b = (4 + 12 * num_vertices m + 12 * num_faces m)%nat).
Proof.
  unfold Mesh_to_precomputed, shape0.
  split; [|split].
  - destruct (shape (vertices m)); cbn [bind]; split; intros H;
      try reflexivity; discriminate.
  - intros b Hb. destruct (shape (vertices m)) as [|n sh]; [discriminate|].
    cbn [bind hd] in *.
    assert (E : b = le32_bytes (wrap32 (Z.of_nat n))
                    ++ tobytes (vertices m) ++ tobytes (faces m))
      by congruence.
    rewrite E. unfold tobytes. rewrite !length_app, !length_tobytes.
    split; reflexivity.
  - intros [[N HN] [M HM] _ Hvw Hfw _ _]. rewrite HN. cbn [bind].
    eexists. split; [reflexivity|].
    unfold tobytes. rewrite !length_app, !length_tobytes.
    unfold num_vertices, num_faces.
    rewrite (rows_length N 3 _ HN), (rows_length M 3 _ HM).
    unfold array_wf in Hvw, Hfw. rewrite Hvw, Hfw, HN, HM.
    cbn [numel fold_right length le32_bytes]. lia.
Qed.

(* ------------------------------------------------------------------ *)
(** ** Triangles *)

Lemma firstn1_skipn {A} (k : nat) (l : list A) (d : A) :
  (k < length l)%nat -> firstn 1 (skipn k l) = [nth k l d].
Proof.
  revert l. induction k as [|k IH]; intros [|x l] H; cbn [length] in H;
    try lia.
  - reflexivity.
  - cbn [skipn nth]. apply IH. lia.
Qed.

Lemma mapM_raise {A B} (f : A -> result B) (l : list A) (e : exn) :
  (forall x, In x l -> f x = Raise e \/ exists y, f x = Ok y) ->
  (exists x, In x l /\ f x = Raise e) ->
  mapM f l = Raise e.
Proof.
  induction l as [|a l IH]; intros Hall (x & Hx & Hfx); [destruct Hx|].
  cbn [mapM]. destruct (Hall a (or_introl eq_refl)) as [Ha|[y Ha]];
    rewrite Ha; cbn [bind]; [reflexivity|].
  rewrite IH; [reflexivity| |].
  - intros z Hz. apply Hall. now right.
  - destruct Hx as [->|Hx]; [congruence|]. now exists x.
Qed.

(** The three corners of every face, read along the flat list of ids. *)
Lemma concat_corners {A} (h : Z -> list A) (M : nat) (d : list Z) :
  length d = (M * 3)%nat ->
  concat (map (fun i => concat (map (fun j => h (nth (i * 3 + j) d 0))
                                    (seq 0 3)))
              (seq 0 M))
  = concat (map h d).
Proof.
  revert d. induction M as [|M IH]; intros d Hd.
  - destruct d; [reflexivity|discriminate].
  - destruct d as [|a [|b [|c d]]]; cbn [length] in Hd; try lia.
    cbn [seq map concat]. rewrite <- seq_shift, map_map.
    cbn [Nat.mul Nat.add nth]. rewrite app_nil_r, <- !app_assoc.
    do 3 f_equal. rewrite <- (IH d) by lia. reflexivity.
Qed.

(** One corner: the row of the vertex, or IndexError past the last
    vertex. *)
Lemma triangle_corner (m : Mesh) (N M i j : nat) :
  shape (vertices m) = [N; 3%nat] -> shape (faces m) = [M; 3%nat] ->
  array_wf (vertices m) -> array_wf (faces m) ->
  (i < M)%nat -> (j < 3)%nat ->
  let f := nth (i * 3 + j) (data (faces m)) 0 in
  (idx <- index2 (faces m) i j ;;
   v <- take_rows (vertices m) idx ;;
   assign_row3 v)
  = if (0 <=? f) && (f <? Z.of_nat N) then Ok (vertex_row m f)
    else Raise IndexError.
Proof.
  intros Hvs Hfs Hvw Hfw Hi Hj f.
  unfold index2. rewrite Hfs.
  replace ((i <? M)%nat && (j <? 3)%nat) with true
    by (symmetry; apply andb_true_iff; split; apply Nat.ltb_lt; lia).
  cbn [numel fold_right bind]. rewrite Nat.mul_1_r.
  unfold array_wf in Hfw. rewrite Hfs in Hfw. cbn [numel fold_right] in Hfw.
  rewrite (firstn1_skipn _ _ 0) by lia. fold f.
  unfold take_rows. rewrite Hvs. cbn [data shape mapM].
  pose proof (rows_length N 3 _ Hvs) as Hlen.
  pose proof (rows_width N 3 _ Hvs Hvw) as Hw.
  destruct ((0 <=? f) && (f <? Z.of_nat N)) eqn:Ef.
  - rewrite (index_list_ok _ _ []) by lia.
    cbn [bind concat app]. rewrite app_nil_r. unfold assign_row3.
    cbn [shape data strip_ones]. fold (vertex_row m f).
    assert (Hr : length (vertex_row m f) = 3%nat).
    { rewrite Forall_forall in Hw. apply Hw. apply nth_In. lia. }
    destruct (vertex_row m f) as [|x [|y [|z [|? ?]]]]; try discriminate.
    reflexivity.
  - unfold index_list. rewrite Hlen.
    replace ((f <? 0) || (Z.of_nat N <=? f)) with true by (symmetry; lia).
    reflexivity.
Qed.

(** X4.  On a mesh of [N x 3] vertices and [M x 3] faces, [triangles]
    returns the [M x 3 x 3] array that holds, for every face id in turn,
    the coordinates of the vertex it names, when every id is below [N];
    when some id is not, it raises IndexError. *)
Theorem triangles_gathers_vertices_or_raises (m : Mesh) (Hok : mesh_ok m) :
  (faces_valid m ->
   Mesh_triangles m
   = Ok (NdArray [num_faces m; 3%nat; 3%nat]
           (concat (map (vertex_row m) (data (faces m))))))
  /\ (~ faces_valid m -> Mesh_triangles m = Raise IndexError).
Proof.
  destruct Hok as [[N Hvs] [M Hfs] _ Hvw Hfw _ Hrange].
  pose proof Hfw as HD. unfold array_wf in HD. rewrite Hfs in HD.
  cbn [numel fold_right] in HD. rewrite Nat.mul_1_r in HD.
  assert (HN : num_vertices m = N) by (apply (rows_length N 3); assumption).
  assert (HM : num_faces m = M) by (apply (rows_length M 3); assumption).
  unfold Mesh_triangles, shape0. rewrite Hfs, HM. cbn [bind].
  set (corner := fun i j =>
         idx <- index2 (faces m) i j ;;
         v <- take_rows (vertices m) idx ;; assign_row3 v).
  assert (Hcorner : forall i j, (i < M)%nat -> (j < 3)%nat ->
            corner i j
            = let f := nth (i * 3 + j) (data (faces m)) 0 in
              if (0 <=? f) && (f <? Z.of_nat N) then Ok (vertex_row m f)
              else Raise IndexError).
  { intros i j Hi Hj. now apply (triangle_corner m N M). }
  split.
  - intros Hvalid. unfold faces_valid in Hvalid. rewrite HN in Hvalid.
    rewrite Forall_forall in Hvalid.
    rewrite (mapM_ok _ (fun i => map (fun j => vertex_row m
                                         (nth (i * 3 + j) (data (faces m)) 0))
                                     (seq 0 3))).
    + cbn [bind]. rewrite map_map.
      now rewrite (concat_corners (vertex_row m) M (data (faces m))).
    + intros i Hi. apply in_seq in Hi. apply mapM_ok.
      intros j Hj. apply in_seq in Hj.
      fold (corner i j). rewrite Hcorner by lia. cbv zeta.
      assert (Hin : In (nth (i * 3 + j) (data (faces m)) 0) (data (faces m)))
        by (apply nth_In; lia).
      specialize (Hvalid _ Hin).
      replace ((0 <=? nth (i * 3 + j) (data (faces m)) 0)
               && (nth (i * 3 + j) (data (faces m)) 0 <? Z.of_nat N))
        with true by (symmetry; lia).
      reflexivity.
  - intros Hbad.
    assert (Hex : exists k, (k < M * 3)%nat
                  /\ ~ (0 <= nth k (data (faces m)) 0 < Z.of_nat N)).
    { destruct (Forall_Exists_dec
                  (fun f => 0 <= f < Z.of_nat (num_vertices m))
                  (fun f => ltac:(
                     destruct (Z_le_dec 0 f); [|right; lia];
                     destruct (Z_lt_dec f (Z.of_nat (num_vertices m)));
                       [left; lia|right; lia]))
                  (data (faces m))) as [Hall|Hexi]; [contradiction|].
      apply Exists_exists in Hexi. destruct Hexi as (f & Hf & Hnf).
      destruct (In_nth _ _ 0 Hf) as (k & Hk & Ek).
      exists k. rewrite Ek, <- HN. split; [lia|exact Hnf]. }
    destruct Hex as (k & Hk & Hnk).
    enough (E : mapM (fun i => mapM (fun j => corner i j) (seq 0 3)) (seq 0 M)
                = Raise IndexError) by (unfold corner in E; now rewrite E).
    assert (Hrow : forall i, (i < M)%nat ->
              mapM (fun j => corner i j) (seq 0 3) = Raise IndexError
              \/ exists y, mapM (fun j => corner i j) (seq 0 3) = Ok y).
    { intros i Hi.
      destruct (mapM (fun j => corner i j) (seq 0 3)) as [y|e] eqn:E;
        [right; now exists y|left].
      cbn [seq mapM] in E.
      rewrite !Hcorner in E by lia. cbv zeta in E.
      repeat match type of E with
             | context [if ?c then _ else _] => destruct c
             end; cbn [bind] in E; congruence. }
    apply mapM_raise.
    + intros i Hi. apply in_seq in Hi. apply Hrow. lia.
    + exists (k / 3)%nat.
      assert (k / 3 < M)%nat by (apply Nat.Div0.div_lt_upper_bound; lia).
      split; [apply in_seq; lia|].
      apply mapM_raise.
      * intros j Hj. apply in_seq in Hj. rewrite Hcorner by lia. cbv zeta.
        destruct (_ && _); [right; eauto|now left].
      * exists (k mod 3)%nat.
        assert (k mod 3 < 3)%nat by (apply Nat.mod_upper_bound; lia).
        split; [apply in_seq; lia|].
        rewrite Hcorner by lia. cbv zeta.
        replace (k / 3 * 3 + k mod 3)%nat with k
          by (pose proof (Nat.div_mod_eq k 3); lia).
        replace ((0 <=? nth k (data (faces m)) 0)
                 && (nth k (data (faces m)) 0 <? Z.of_nat N))
          with false by (symmetry; lia).
        reflexivity.
Qed.

Lemma triangles_witness :
  exists t,
    Mesh_triangles two_tiles = Ok t
    /\ shape t = [2%nat; 3%nat; 3%nat]
    /\ data t = data (vertices two_tiles).
Proof.
  eexists. split.
  - apply (proj1 (triangles_gathers_vertices_or_raises two_tiles two_tiles_ok)).
    apply two_tiles_valid.
  - split; vm_compute; reflexivity.
Defined.

(* ------------------------------------------------------------------ *)
(** ** Consolidation: what is kept *)

Lemma row_eqb_Z_eq (r1 r2 : list Z) : row_eqb Z.eqb r1 r2 = true -> r1 = r2.
Proof.
  revert r2. induction r1 as [|x r1 IH]; intros [|y r2] H; cbn in H;
    try discriminate; [reflexivity|].
  apply andb_true_iff in H. destruct H as [H1 H2].
  apply Z.eqb_eq in H1. subst y. f_equal. now apply IH.
Qed.

(** The unique rows of integers are the rows themselves, each once. *)
Lemma unique_values_Z_in (rs : list (list Z)) (r : list Z) :
  In r (unique_values (lex_cmp Z.compare) (row_eqb Z.eqb) rs) <-> In r rs.
Proof.
  split; [apply unique_values_in|].
  intros Hr. destruct (In_nth_error _ _ Hr) as [i Hi].
  destruct (unique_inverse_at (cmp := lex_cmp Z.compare)
              (eqb := row_eqb Z.eqb) rs i r Hi) as (h & Hh & [->|E]).
  - eapply nth_error_In; exact Hh.
  - apply row_eqb_Z_eq in E. subst h. eapply nth_error_In; exact Hh.
Qed.

(** The mesh that [consolidate] returns for a mesh of the data model that
    is not empty. *)
Lemma consolidate_rows (m : Mesh) :
  mesh_ok m -> faces_valid m -> Mesh_empty m = false ->
  Z.of_nat (num_vertices m) <= u32_mod ->
  exists c,
    Mesh_consolidate m = Ok c
    /\ vertices c = of_rows [3%nat] (consolidated_vertices m)
    /\ faces c = of_rows [3%nat] (consolidated_faces m)
    /\ rows (vertices c) = consolidated_vertices m
    /\ rows (faces c) = consolidated_faces m
    /\ shape (vertices c) = [length (consolidated_vertices m); 3%nat]
    /\ shape (faces c) = [length (consolidated_faces m); 3%nat]
    /\ normals c = NdArray [0%nat; 3%nat] []
    /\ segid c = segid m
    /\ encoding_type c = encoding_type m
    /\ encoding_options c = encoding_options m.
Proof.
  intros [[N Hvs] [M Hfs] _ Hvw Hfw _ Hfr] Hvalid Hempty Hsize.
  rewrite (consolidate_nonempty m N M) by assumption.
  set (U := consolidated_vertices m).
  set (UF := consolidated_faces m).
  assert (HUw : Forall (fun r => length r = 3%nat) U)
    by (now apply (consolidated_vertices_width m N)).
  assert (HUFw : Forall (fun r => length r = 3%nat) UF)
    by (now apply (consolidated_faces_width m M)).
  assert (HUFr : forall r f, In r UF -> In f r -> 0 <= f < Z.of_nat (length U))
    by (now apply (consolidated_faces_range m N M)).
  assert (HUlen : Z.of_nat (length U) <= u32_mod).
  { pose proof (unique_values_length_le (lex_cmp f32_sort_cmp)
                  (row_eqb f32_eqb) (rows (vertices m))) as Hle.
    fold (consolidated_vertices m) in Hle. fold U in Hle.
    unfold num_vertices in Hsize. lia. }
  eexists. split; [reflexivity|].
  assert (Hc1v : np_array (fun x : Z => x) (of_rows [3%nat] U)
                 = of_rows [3%nat] U).
  { unfold np_array, of_rows. cbn [shape data]. now rewrite map_id. }
  assert (Hc1f : np_array wrap32 (of_rows [3%nat] UF) = of_rows [3%nat] UF).
  { unfold np_array, of_rows. cbn [shape data].
    f_equal. apply map_id_in. intros f Hf. apply in_concat in Hf.
    destruct Hf as (r & Hr & Hf). apply wrap32_small.
    specialize (HUFr r f Hr Hf). unfold is_u32. lia. }
  unfold Mesh_init.
  cbn [vertices faces normals segid encoding_type encoding_options].
  rewrite Hc1v, Hc1f.
  repeat split; try reflexivity; now apply rows_of_rows.
Qed.

(** X5.  [consolidate] keeps the geometry of a mesh of the data model:
    every face id [f] is renamed to [representative m f], the position
    among the new vertices of a vertex with the coordinates of vertex [f]
    (the same row, or one that [==] it), and the new faces are exactly the
    renamed old faces. *)
Theorem consolidate_keeps_geometry (m : Mesh)
    (Hok : mesh_ok m) (Hvalid : faces_valid m)
    (Hne : Mesh_empty m = false)
    (Hsize : Z.of_nat (num_vertices m) <= u32_mod) :
  exists c,
    Mesh_consolidate m = Ok c
    /\ (forall f, 0 <= f < Z.of_nat (num_vertices m) ->
          0 <= representative m f < Z.of_nat (num_vertices c)
          /\ (vertex_row c (representative m f) = vertex_row m f
              \/ row_eqb f32_eqb (vertex_row m f)
                   (vertex_row c (representative m f)) = true))
    /\ (forall r', In r' (rows (faces c)) <->
          exists r, In r (rows (faces m)) /\ r' = map (representative m) r).
Proof.
  destruct (consolidate_rows m Hok Hvalid Hne Hsize)
    as (c & Hc & _ & _ & Hrv & Hrf & _).
  exists c. split; [exact Hc|]. split.
  - intros f Hf. unfold num_vertices in *. rewrite Hrv.
    unfold vertex_row, representative, consolidated_vertices. rewrite Hrv.
    unfold consolidated_vertices.
    set (rs := rows (vertices m)) in *.
    assert (Hi : (Z.to_nat f < length rs)%nat) by lia.
    destruct (nth_error rs (Z.to_nat f)) as [r|] eqn:Er;
      [|apply nth_error_None in Er; lia].
    destruct (unique_inverse_at (cmp := lex_cmp f32_sort_cmp)
                (eqb := row_eqb f32_eqb) rs _ r Er) as (h & Hh & Hsame).
    pose proof (unique_inverse_lt (cmp := lex_cmp f32_sort_cmp)
                  (eqb := row_eqb f32_eqb) rs _ Hi) as Hlt.
    rewrite Nat2Z.id.
    rewrite (nth_error_nth _ _ [] Hh), (nth_error_nth _ _ [] Er).
    split; [lia|]. destruct Hsame as [->|E]; [now left|now right].
  - intros r'. rewrite Hrf. unfold consolidated_faces.
    rewrite unique_values_Z_in, rows_np_array, in_map_iff.
    split; intros (r & H1 & H2); exists r; auto.
Qed.

Lemma consolidate_keeps_geometry_witness :
  exists c,
    Mesh_consolidate two_tiles = Ok c
    /\ rows (faces c) = [[0; 2; 1]; [2; 4; 3]]
    /\ vertex_row c 2 = vertex_row two_tiles 1
    /\ vertex_row c 2 = vertex_row two_tiles 3.
Proof.
  destruct (consolidate_keeps_geometry two_tiles two_tiles_ok two_tiles_valid)
    as (c & Hc & _).
  - reflexivity.
  - vm_compute. discriminate.
  - exists c. split; [exact Hc|].
    assert (E : Some c = Some (Mesh_init
                  (NdArray [5%nat; 3%nat]
                     [0; 0; 0; 1112014848; 1112014848; 0;
                      1120403456; 0; 0; 1125515264; 1112014848; 0;
                      1128792064; 0; 0])
                  (NdArray [2%nat; 3%nat] [0; 2; 1; 2; 4; 3])
                  None None EncNone None)).
    { assert (E : Ok c = Mesh_consolidate two_tiles) by (now rewrite Hc).
      vm_compute in E. injection E as ->. reflexivity. }
    injection E as ->. repeat split; vm_compute; reflexivity.
Defined.

(** X6.  The mesh that [consolidate] returns for a mesh of the data model
    that is not empty is again of the data model, with valid face ids; its
    vertices are vertices of the input, in sorted order and no two of them
    [==]; its faces are in strictly increasing order, so no two are the
    same; and it has no more vertices and no more faces than the input. *)
Theorem consolidate_removes_duplicates (m : Mesh)
    (Hok : mesh_ok m) (Hvalid : faces_valid m)
    (Hne : Mesh_empty m = false)
    (Hsize : Z.of_nat (num_vertices m) <= u32_mod) :
  exists c,
    Mesh_consolidate m = Ok c
    /\ mesh_ok c /\ faces_valid c
    /\ StronglySorted (before (lex_cmp f32_sort_cmp) (row_eqb f32_eqb))
         (rows (vertices c))
    /\ (forall r, In r (rows (vertices c)) -> In r (rows (vertices m)))
    /\ StronglySorted (fun a b => lex_cmp Z.compare a b = Lt) (rows (faces c))
    /\ (num_vertices c <= num_vertices m)%nat
    /\ (num_faces c <= num_faces m)%nat.
Proof.
  destruct (consolidate_rows m Hok Hvalid Hne Hsize)
    as (c & Hc & Hv & Hf & Hrv & Hrf & Hsv & Hsf & Hn & _).
  destruct Hok as [[N Hvs] [M Hfs] _ Hvw Hfw _ Hfr].
  assert (HUw : Forall (fun r => length r = 3%nat) (consolidated_vertices m))
    by (now apply (consolidated_vertices_width m N)).
  assert (HUFw : Forall (fun r => length r = 3%nat) (consolidated_faces m))
    by (now apply (consolidated_faces_width m M)).
  exists c. split; [exact Hc|].
  assert (Hwfv : array_wf (vertices c)).
  { rewrite Hv. unfold array_wf, of_rows. cbn [shape data].
    rewrite numel_pair. now apply length_concat_rows. }
  assert (Hwff : array_wf (faces c)).
  { rewrite Hf. unfold array_wf, of_rows. cbn [shape data].
    rewrite numel_pair. now apply length_concat_rows. }
  assert (Hdf : data (faces c) = concat (consolidated_faces m))
    by (now rewrite Hf).
  assert (Hcvalid : faces_valid c).
  { unfold faces_valid, num_vertices. rewrite Hrv, Hdf.
    apply Forall_forall. intros f Hin. apply in_concat in Hin.
    destruct Hin as (r & Hr & Hin).
    now apply (consolidated_faces_range m N M Hvs Hfs Hfw Hvalid r f). }
  split; [|split; [exact Hcvalid|]].
  - constructor; try assumption.
    + eexists; exact Hsv.
    + eexists; exact Hsf.
    + rewrite Hn. now exists 0%nat.
    + rewrite Hn. reflexivity.
    + unfold faces_valid in Hcvalid. eapply Forall_impl; [|exact Hcvalid].
      intros f Hin. cbv beta in Hin. unfold is_u32.
      unfold num_vertices in *. rewrite Hrv in Hin.
      pose proof (unique_values_length_le (lex_cmp f32_sort_cmp)
                    (row_eqb f32_eqb) (rows (vertices m))) as Hle.
      fold (consolidated_vertices m) in Hle. lia.
  - rewrite Hrv, Hrf. unfold num_vertices, num_faces. rewrite Hrv, Hrf.
    split; [apply unique_values_sorted|].
    split; [intros r; apply unique_values_in|].
    split; [apply unique_values_strict; apply Forall_forall;
            intros; apply Z_row_refl|].
    split; [apply unique_values_length_le|].
    unfold consolidated_faces.
    pose proof (unique_values_length_le (lex_cmp Z.compare) (row_eqb Z.eqb)
                  (rows (np_array (representative m) (faces m)))) as Hle.
    rewrite rows_np_array, length_map in Hle.
    rewrite rows_np_array. exact Hle.
Qed.

Lemma consolidate_removes_duplicates_witness :
  exists c,
    Mesh_consolidate two_tiles = Ok c /\ (num_vertices c <= 6)%nat.
Proof.
  destruct (consolidate_removes_duplicates two_tiles two_tiles_ok
              two_tiles_valid) as (c & Hc & _ & _ & _ & _ & _ & Hn & _).
  - reflexivity.
  - vm_compute. discriminate.
  - exists c. split; [exact Hc|exact Hn].
Defined.

(** X7.  Whatever the mesh, a mesh that [consolidate] returns has no
    normals.  For an empty mesh it is the mesh of two 1-d arrays of length
    0 and carries no segment id and no encoding; for any other mesh the
    segment id, the encoding type and the encoding options are those of
    the input. *)
Theorem consolidate_drops_normals_and_keeps_metadata (m c : Mesh)
    (Hc : Mesh_consolidate m = Ok c) :
  normals c = NdArray [0%nat; 3%nat] []
  /\ (Mesh_empty m = true ->
      vertices c = NdArray [0%nat] [] /\ faces c = NdArray [0%nat] []
      /\ segid c = None /\ encoding_type c = EncNone
      /\ encoding_options c = None)
  /\ (Mesh_empty m = false ->
      segid c = segid m /\ encoding_type c = encoding_type m
      /\ encoding_options c = encoding_options m).
Proof.
  unfold Mesh_consolidate in Hc.
  destruct (Mesh_empty m) eqn:He.
  - assert (E : c = Mesh_init empty_list_array empty_list_array None None
                              EncNone None) by congruence.
    rewrite E. repeat split; intros; try reflexivity; discriminate.
  - destruct (axis0_rows (vertices m)) as [vrows|e]; [|discriminate].
    cbn [bind] in Hc.
    destruct (mapM _ (data (faces m))) as [mapped|e]; [|discriminate].
    cbn [bind] in Hc.
    destruct (axis0_rows _) as [frows|e]; [|discriminate].
    cbn [bind] in Hc.
    match type of Hc with Ok ?t = Ok c => assert (E : c = t) by congruence end.
    rewrite E. repeat split; intros; try reflexivity; discriminate.
Qed.

Lemma consolidate_drops_normals_witness :
  exists c,
    Mesh_consolidate
      (Mesh_init (NdArray [1%nat; 3%nat] [0; 0; 0])
         (NdArray [1%nat; 3%nat] [0; 0; 0])
         (Some (NdArray [1%nat; 3%nat] [0; 0; 1065353216])) (Some 7)
         (EncTag "draco") None) = Ok c
    /\ normals c = NdArray [0%nat; 3%nat] []
    /\ segid c = Some 7.
Proof.
  eexists. split; [vm_compute; reflexivity|].
  match goal with
  | |- normals ?c = _ /\ _ =>
      destruct (consolidate_drops_normals_and_keeps_metadata
                  (Mesh_init (NdArray [1%nat; 3%nat] [0; 0; 0])
                     (NdArray [1%nat; 3%nat] [0; 0; 0])
                     (Some (NdArray [1%nat; 3%nat] [0; 0; 1065353216]))
                     (Some 7) (EncTag "draco") None) c)
        as (H1 & _ & H3)
  end.
  - vm_compute. reflexivity.
  - split; [exact H1|]. apply H3. reflexivity.
Defined.

(* ------------------------------------------------------------------ *)
(** ** Concatenation: nesting and metadata *)

Lemma ndarray_eq {A} (a : ndarray A) (sh : list nat) (d : list A) :
  shape a = sh -> data a = d -> a = NdArray sh d.
Proof. destruct a; cbn; intros -> ->; reflexivity. Qed.

(** The mesh that [concatenate] returns for meshes of the data model. *)
Lemma concatenate_explicit set_list (meshes : list Mesh) (enc : encoding) :
  meshes <> [] -> Forall mesh_ok meshes ->
  concat_encoding set_list meshes = Ok enc ->
  Mesh_concatenate set_list meshes
  = Ok {| vertices :=
            NdArray [list_sum (map num_vertices meshes); 3%nat]
              (concat (map (fun m => data (vertices m)) meshes));
          faces :=
            NdArray [list_sum (map num_faces meshes); 3%nat]
              (concat (map (fun im =>
                              map (fun f => wrap32 (f + vertices_before meshes (fst im)))
                                  (data (faces (snd im))))
                           (py_enumerate meshes)));
          normals :=
            NdArray [list_sum (map (fun m => length (rows (normals m))) meshes);
                     3%nat]
              (concat (map (fun m => data (normals m)) meshes));
          segid := None;
          encoding_type := enc;
          encoding_options := None |}.
Proof.
  intros Hne Hok Henc.
  unfold Mesh_concatenate.
  rewrite (mapM_ok Mesh_len num_vertices)
    by (intros x Hx; apply mesh_len_ok; rewrite Forall_forall in Hok; auto).
  cbn [bind].
  destruct (np_concatenate_ok 3 (map vertices meshes))
    as (vs & Hvs & Hvsh & Hvd & _ & _).
  { destruct meshes; [congruence|discriminate]. }
  { rewrite Forall_map. eapply Forall_impl; [|exact Hok].
    intros m [Hv _ _ Hw _ _ _]. split; assumption. }
  rewrite Hvs. cbn [bind].
  set (shifted := map (fun im => np_array (fun f => wrap32 (f + nth (fst im) (vertex_ct (map num_vertices meshes)) 0))
                                          (faces (snd im)))
                      (py_enumerate meshes)).
  assert (Hshifted : shifted
                     = map (fun im => np_array (fun f => wrap32 (f + vertices_before meshes (fst im)))
                                               (faces (snd im)))
                           (py_enumerate meshes)).
  { apply map_ext_in. intros [i mi] Hin. cbn [fst snd].
    apply in_py_enumerate in Hin.
    assert (Hi : (i < length meshes)%nat)
      by (apply nth_error_Some; congruence).
    rewrite vertex_ct_nth by (rewrite length_map; lia).
    unfold np_array. f_equal. apply map_ext. intros f.
    rewrite wrap32_add_r. unfold vertices_before. now rewrite firstn_map. }
  destruct (np_concatenate_ok 3 shifted) as (fs & Hfs & Hfsh & Hfd & _ & _).
  { subst shifted. destruct meshes; [congruence|discriminate]. }
  { rewrite Hshifted. rewrite Forall_map. apply Forall_forall.
    intros [i mi] Hin. apply in_py_enumerate in Hin. apply nth_error_In in Hin.
    rewrite Forall_forall in Hok. destruct (Hok mi Hin) as [_ Hf _ _ Hw _ _].
    cbn [fst snd]. split; [exact Hf|]. now apply array_wf_np_array. }
  rewrite Hfs. cbn [bind].
  destruct (np_concatenate_ok 3 (map normals meshes))
    as (ns & Hns & Hnsh & Hnd & _ & _).
  { destruct meshes; [congruence|discriminate]. }
  { rewrite Forall_map. eapply Forall_impl; [|exact Hok].
    intros m [_ _ Hn _ _ Hw _]. split; assumption. }
  rewrite Hns. cbn [bind]. rewrite Henc. cbn [bind].
  unfold Mesh_init. do 2 f_equal.
  - apply ndarray_eq; cbn [np_array shape data].
    + rewrite Hvsh, map_map. reflexivity.
    + rewrite map_id, Hvd, map_map. reflexivity.
  - apply ndarray_eq; cbn [np_array shape data].
    + rewrite Hfsh. do 2 f_equal.
      rewrite Hshifted, map_map.
      rewrite <- (map_snd_py_enumerate meshes) at 2. rewrite map_map.
      apply map_ext. intros [i mi]. cbn [fst snd]. unfold num_faces.
      now rewrite rows_np_array, length_map.
    + rewrite Hfd, Hshifted, map_map, concat_map, map_map. f_equal.
      apply map_ext. intros [i mi]. cbn [fst snd np_array data].
      rewrite map_map. apply map_ext. intros f. apply wrap32_idem.
  - apply ndarray_eq; cbn [np_array shape data].
    + rewrite Hnsh, map_map. reflexivity.
    + rewrite map_id, Hnd, map_map. reflexivity.
Qed.

Lemma length_concat_data {A} (f : Mesh -> ndarray A) (meshes : list Mesh) :
  Forall (fun m => array_wf (f m) /\ exists n, shape (f m) = [n; 3%nat]) meshes ->
  length (concat (map (fun m => data (f m)) meshes))
  = (list_sum (map (fun m => length (rows (f m))) meshes) * 3)%nat.
Proof.
  induction 1 as [|m ms [Hw [n Hn]] _ IH]; [reflexivity|].
  cbn [map concat list_sum fold_right]. rewrite length_app, IH.
  fold (list_sum (map (fun m0 => length (rows (f m0))) ms)).
  rewrite (rows_length n 3 _ Hn). unfold array_wf in Hw.
  rewrite Hw, Hn, numel_pair. lia.
Qed.

(** [concatenate] returns a mesh of the data model. *)
Lemma concatenate_mesh_ok set_list (meshes : list Mesh) (c : Mesh) :
  Forall mesh_ok meshes -> Mesh_concatenate set_list meshes = Ok c ->
  mesh_ok c
  /\ num_vertices c = list_sum (map num_vertices meshes)
  /\ concat_encoding set_list meshes = Ok (encoding_type c)
  /\ meshes <> [].
Proof.
  intros Hok Hc.
  assert (Hne : meshes <> []) by (intros ->; discriminate).
  destruct (concat_encoding set_list meshes) as [enc|e] eqn:Henc.
  2:{ exfalso. revert Hc. unfold Mesh_concatenate.
      rewrite (mapM_ok Mesh_len num_vertices)
        by (intros x Hx; apply mesh_len_ok; rewrite Forall_forall in Hok; auto).
      cbn [bind].
      destruct (np_concatenate _); [|discriminate]. cbn [bind].
      destruct (np_concatenate _); [|discriminate]. cbn [bind].
      destruct (np_concatenate _); [|discriminate]. cbn [bind].
      rewrite Henc. discriminate. }
  rewrite (concatenate_explicit set_list meshes enc Hne Hok Henc) in Hc.
  injection Hc as <-.
  assert (Hlv : length (concat (map (fun m => data (vertices m)) meshes))
                = (list_sum (map num_vertices meshes) * 3)%nat).
  { apply (length_concat_data vertices). eapply Forall_impl; [|exact Hok].
    intros m [Hv _ _ Hw _ _ _]. split; [exact Hw|]. destruct Hv as [n Hn].
    now exists n. }
  assert (Hln : length (concat (map (fun m => data (normals m)) meshes))
                = (list_sum (map (fun m => length (rows (normals m))) meshes)
                   * 3)%nat).
  { apply (length_concat_data normals). eapply Forall_impl; [|exact Hok].
    intros m [_ _ Hn _ _ Hw _]. split; [exact Hw|]. destruct Hn as [n Hn].
    now exists n. }
  assert (Hlf : length (concat (map (fun im =>
                         map (fun f => wrap32 (f + vertices_before meshes (fst im)))
                             (data (faces (snd im))))
                       (py_enumerate meshes)))
                = (list_sum (map num_faces meshes) * 3)%nat).
  { rewrite <- (length_concat_data faces).
    - rewrite !length_concat. f_equal.
      rewrite <- (map_snd_py_enumerate meshes) at 2. rewrite !map_map.
      apply map_ext. intros [i mi]. cbn [fst snd]. apply length_map.
    - eapply Forall_impl; [|exact Hok].
      intros m [_ Hf _ _ Hw _ _]. split; [exact Hw|]. destruct Hf as [n Hn].
      now exists n. }
  split; [|split; [|split; [reflexivity|exact Hne]]].
  - constructor; cbn [vertices faces normals shape data].
    + eexists; reflexivity.
    + eexists; reflexivity.
    + eexists; reflexivity.
    + unfold array_wf. cbn [shape data]. rewrite numel_pair. exact Hlv.
    + unfold array_wf. cbn [shape data]. rewrite numel_pair. exact Hlf.
    + unfold array_wf. cbn [shape data]. rewrite numel_pair. exact Hln.
    + apply Forall_forall. intros f Hf. apply in_concat in Hf.
      destruct Hf as (l & Hl & Hf). apply in_map_iff in Hl.
      destruct Hl as (im & <- & _). apply in_map_iff in Hf.
      destruct Hf as (f0 & <- & _). apply wrap32_range.
  - unfold num_vertices at 1. cbn [vertices].
    apply (rows_length _ 3). reflexivity.
Qed.

Lemma combine_seq_app {A} (s : nat) (l1 l2 : list A) :
  combine (seq s (length (l1 ++ l2))) (l1 ++ l2)
  = combine (seq s (length l1)) l1
    ++ map (fun im => ((length l1 + fst im)%nat, snd im))
           (combine (seq s (length l2)) l2).
Proof.
  revert s. induction l1 as [|x l1 IH]; intros s.
  - cbn [app length]. rewrite <- (map_id (combine _ _)) at 1.
    apply map_ext. intros [i y]. reflexivity.
  - cbn [app length seq combine]. f_equal. rewrite IH. f_equal.
    clear IH. generalize s. induction l2 as [|y l2 IH2]; intros s0;
      [reflexivity|].
    cbn [length seq combine map fst snd]. f_equal; [f_equal; lia|apply IH2].
Qed.

Lemma py_enumerate_app {A} (l1 l2 : list A) :
  py_enumerate (l1 ++ l2)
  = py_enumerate l1
    ++ map (fun im => ((length l1 + fst im)%nat, snd im)) (py_enumerate l2).
Proof. apply combine_seq_app. Qed.

Lemma vertices_before_app_l (ms1 ms2 : list Mesh) (i : nat) :
  (i <= length ms1)%nat ->
  vertices_before (ms1 ++ ms2) i = vertices_before ms1 i.
Proof.
  intros Hi. unfold vertices_before. rewrite firstn_app.
  replace (i - length ms1)%nat with 0%nat by lia.
  cbn [firstn]. now rewrite app_nil_r.
Qed.

Lemma vertices_before_app_r (ms1 ms2 : list Mesh) (j : nat) :
  vertices_before (ms1 ++ ms2) (length ms1 + j)
  = Z.of_nat (list_sum (map num_vertices ms1)) + vertices_before ms2 j.
Proof.
  unfold vertices_before. rewrite firstn_app.
  replace (length ms1 + j - length ms1)%nat with j by lia.
  rewrite firstn_all2 by lia.
  rewrite map_app, list_sum_app. lia.
Qed.

Lemma concat_encoding_hashable set_list (meshes : list Mesh) (enc : encoding) :
  concat_encoding set_list meshes = Ok enc ->
  Forall (fun m => hashable (encoding_type m) = true) meshes.
Proof.
  unfold concat_encoding. intros H.
  destruct (forallb _ meshes) eqn:E; [|discriminate].
  apply Forall_forall. now apply forallb_forall.
Qed.

(** X8.  Concatenating two concatenations gives the vertices, faces and
    normals of the concatenation of all the meshes at once (the encoding
    types of the two intermediate meshes must be hashable, that is, each
    group of meshes agrees on its encoding type). *)
Theorem concatenate_of_concatenations
    (set_list : list (option string) -> list (option string))
    (ms1 ms2 : list Mesh) (c1 c2 : Mesh)
    (Hok1 : Forall mesh_ok ms1) (Hok2 : Forall mesh_ok ms2)
    (H1 : Mesh_concatenate set_list ms1 = Ok c1) (H2 : Mesh_concatenate set_list ms2 = Ok c2)
    (Hh1 : hashable (encoding_type c1) = true)
    (Hh2 : hashable (encoding_type c2) = true) :
  exists c c',
    Mesh_concatenate set_list [c1; c2] = Ok c
    /\ Mesh_concatenate set_list (ms1 ++ ms2) = Ok c'
    /\ vertices c = vertices c'
    /\ faces c = faces c'
    /\ normals c = normals c'.
Proof.
  destruct (concatenate_mesh_ok set_list ms1 c1 Hok1 H1) as (Hc1 & HN1 & He1 & Hne1).
  destruct (concatenate_mesh_ok set_list ms2 c2 Hok2 H2) as (Hc2 & HN2 & He2 & Hne2).
  pose proof H1 as E1. pose proof H2 as E2.
  rewrite (concatenate_explicit set_list ms1 _ Hne1 Hok1 He1) in E1.
  rewrite (concatenate_explicit set_list ms2 _ Hne2 Hok2 He2) in E2.
  injection E1 as E1. injection E2 as E2.
  destruct (concat_encoding_ok set_list [c1; c2]) as [enc Henc].
  { repeat constructor; assumption. }
  destruct (concat_encoding_ok set_list (ms1 ++ ms2)) as [enc' Henc'].
  { apply Forall_app. split; eapply concat_encoding_hashable; eassumption. }
  assert (Hok12 : Forall mesh_ok [c1; c2])
    by (apply Forall_cons; [exact Hc1|apply Forall_cons; [exact Hc2|apply Forall_nil]]).
  assert (Hok' : Forall mesh_ok (ms1 ++ ms2)) by (apply Forall_app; now split).
  assert (Hne' : ms1 ++ ms2 <> []) by (destruct ms1; [congruence|discriminate]).
  rewrite (concatenate_explicit set_list [c1; c2] enc ltac:(discriminate) Hok12 Henc).
  rewrite (concatenate_explicit set_list (ms1 ++ ms2) enc' Hne' Hok' Henc').
  eexists. eexists. split; [reflexivity|]. split; [reflexivity|].
  cbn [vertices faces normals].
  assert (HM1 : num_faces c1 = list_sum (map num_faces ms1)).
  { unfold num_faces at 1. rewrite <- E1. cbn [faces].
    apply (rows_length _ 3). reflexivity. }
  assert (HM2 : num_faces c2 = list_sum (map num_faces ms2)).
  { unfold num_faces at 1. rewrite <- E2. cbn [faces].
    apply (rows_length _ 3). reflexivity. }
  assert (HK1 : length (rows (normals c1))
                = list_sum (map (fun m => length (rows (normals m))) ms1)).
  { rewrite <- E1. cbn [normals]. apply (rows_length _ 3). reflexivity. }
  assert (HK2 : length (rows (normals c2))
                = list_sum (map (fun m => length (rows (normals m))) ms2)).
  { rewrite <- E2. cbn [normals]. apply (rows_length _ 3). reflexivity. }
  split; [|split].
  - f_equal.
    + cbn [map list_sum fold_right]. rewrite HN1, HN2, map_app, list_sum_app.
      f_equal. lia.
    + cbn [map concat]. rewrite app_nil_r, map_app, concat_app.
      rewrite <- E1, <- E2. reflexivity.
  - f_equal.
    + cbn [map list_sum fold_right]. rewrite HM1, HM2, map_app, list_sum_app.
      f_equal. lia.
    + unfold py_enumerate at 1. cbn [length seq combine map concat fst snd].
      rewrite app_nil_r, py_enumerate_app, map_app, concat_app.
      f_equal.
      * rewrite <- E1. cbn [faces data].
        rewrite concat_map, map_map. f_equal.
        apply map_ext_in. intros [i mi] Hin. cbn [fst snd].
        apply in_py_enumerate in Hin.
        assert (Hi : (i < length ms1)%nat) by (apply nth_error_Some; congruence).
        rewrite map_map. apply map_ext. intros f.
        rewrite vertices_before_app_l by lia.
        change (vertices_before [c1; c2] 0) with 0.
        rewrite Z.add_0_r. apply wrap32_idem.
      * rewrite <- E2 at 1. cbn [faces data].
        rewrite concat_map, !map_map. f_equal.
        apply map_ext. intros [j mj]. cbn [fst snd].
        rewrite map_map. apply map_ext. intros f.
        rewrite vertices_before_app_r.
        assert (Hvb : vertices_before [c1; c2] 1
                      = Z.of_nat (list_sum (map num_vertices ms1))).
        { unfold vertices_before. cbn [firstn map list_sum fold_right].
          rewrite HN1. lia. }
        rewrite Hvb. rewrite (Z.add_comm (wrap32 _)), wrap32_add_r.
        f_equal. lia.
  - f_equal.
    + cbn [map list_sum fold_right]. rewrite HK1, HK2, map_app, list_sum_app.
      f_equal. lia.
    + cbn [map concat]. rewrite app_nil_r, map_app, concat_app.
      rewrite <- E1, <- E2. reflexivity.
Qed.

Lemma concatenate_of_concatenations_witness :
  exists c1 c2 c c',
    Mesh_concatenate distinct [tile1] = Ok c1
    /\ Mesh_concatenate distinct [tile2] = Ok c2
    /\ Mesh_concatenate distinct [c1; c2] = Ok c
    /\ Mesh_concatenate distinct [tile1; tile2] = Ok c'
    /\ faces c = faces c'.
Proof.
  assert (E1 : exists c1, Mesh_concatenate distinct [tile1] = Ok c1
                          /\ hashable (encoding_type c1) = true)
    by (eexists; split; vm_compute; reflexivity).
  assert (E2 : exists c2, Mesh_concatenate distinct [tile2] = Ok c2
                          /\ hashable (encoding_type c2) = true)
    by (eexists; split; vm_compute; reflexivity).
  destruct E1 as (c1 & E1 & Hh1). destruct E2 as (c2 & E2 & Hh2).
  destruct (concatenate_of_concatenations distinct [tile1] [tile2] c1 c2)
    as (c & c' & H1 & H2 & _ & H4 & _); try assumption.
  - apply Forall_cons; [apply tile1_ok|apply Forall_nil].
  - apply Forall_cons; [apply tile2_ok|apply Forall_nil].
  - exists c1, c2, c, c'. repeat split; assumption.
Defined.

Lemma opt_string_eqb_eq (a b : option string) :
  opt_string_eqb a b = true <-> a = b.
Proof.
  destruct a as [x|], b as [y|]; cbn; split; intros H; try discriminate;
    try reflexivity.
  - apply String.eqb_eq in H. now subst.
  - injection H as ->. apply String.eqb_refl.
Qed.

Lemma distinct_in (l : list (option string)) (x : option string) :
  In x (distinct l) <-> In x l.
Proof.
  induction l as [|a l IH]; [reflexivity|].
  cbn [distinct In]. rewrite filter_In, IH.
  split.
  - intros [H|[H _]]; auto.
  - intros [H|H]; [now left|].
    destruct (opt_string_eqb a x) eqn:E.
    + apply opt_string_eqb_eq in E. now left.
    + right. split; [exact H|reflexivity].
Qed.

Lemma distinct_NoDup (l : list (option string)) : NoDup (distinct l).
Proof.
  induction l as [|a l IH]; [constructor|].
  cbn [distinct]. constructor.
  - rewrite filter_In. intros [_ H].
    assert (E : opt_string_eqb a a = true) by (now apply opt_string_eqb_eq).
    rewrite E in H. discriminate.
  - now apply NoDup_filter.
Qed.

(** The order of first occurrences is one a set can have. *)
Lemma distinct_set_iteration : set_iteration distinct.
Proof. intros xs. split; [apply distinct_NoDup|apply distinct_in]. Qed.

(** A list without repetition all of whose values are [k]. *)
Lemma NoDup_all_equal {A} (l : list A) (k : A) :
  NoDup l -> l <> [] -> (forall x, In x l -> x = k) -> l = [k].
Proof.
  intros Hnd Hne Hall. destruct l as [|a [|b l]]; [congruence| |].
  - f_equal. apply Hall. now left.
  - exfalso. inversion Hnd as [|? ? Hnotin _]; subst. apply Hnotin.
    rewrite (Hall a) by (now left). rewrite (Hall b) by (right; now left).
    now left.
Qed.

Lemma enc_key_injective (e1 e2 : encoding) :
  hashable e1 = true -> hashable e2 = true ->
  enc_key e1 = enc_key e2 -> e1 = e2.
Proof.
  destruct e1, e2; cbn; intros H1 H2 H; try discriminate; congruence.
Qed.

(** The encoding type [concatenate] computes. *)
Lemma concat_encoding_spec set_list (meshes : list Mesh) (enc : encoding) :
  set_iteration set_list ->
  meshes <> [] -> concat_encoding set_list meshes = Ok enc ->
  (forall e, (forall m, In m meshes -> encoding_type m = e) -> enc = e)
  /\ ((exists a b, In a meshes /\ In b meshes
                   /\ encoding_type a <> encoding_type b) ->
      exists l, enc = EncList l /\ NoDup l
                /\ forall k, In k l <->
                      exists m, In m meshes /\ enc_key (encoding_type m) = k).
Proof.
  intros Hset Hne Henc.
  pose proof (concat_encoding_hashable set_list meshes enc Henc) as Hh.
  rewrite Forall_forall in Hh.
  unfold concat_encoding in Henc.
  destruct (forallb _ meshes); [|discriminate].
  destruct (Hset (map (fun m => enc_key (encoding_type m)) meshes))
    as [Hnd Hin].
  split.
  - intros e He.
    assert (Hhe : hashable e = true).
    { destruct meshes as [|m ms]; [congruence|].
      rewrite <- (He m (or_introl eq_refl)). apply Hh. now left. }
    rewrite (NoDup_all_equal _ (enc_key e) Hnd) in Henc.
    + destruct e; cbn in *; congruence.
    + destruct meshes as [|m ms]; [congruence|].
      intros E. specialize (Hin (enc_key (encoding_type m))).
      rewrite E in Hin. apply Hin. now left.
    + intros x Hx. apply Hin in Hx. apply in_map_iff in Hx.
      destruct Hx as (m & <- & Hm). now rewrite (He m Hm).
  - intros (a & b & Ha & Hb & Hab).
    assert (Hka : In (enc_key (encoding_type a))
                     (set_list (map (fun m => enc_key (encoding_type m)) meshes))).
    { apply Hin, in_map_iff. now exists a. }
    assert (Hkb : In (enc_key (encoding_type b))
                     (set_list (map (fun m => enc_key (encoding_type m)) meshes))).
    { apply Hin, in_map_iff. now exists b. }
    assert (Hk : enc_key (encoding_type a) <> enc_key (encoding_type b)).
    { intros E. apply Hab. apply enc_key_injective; auto. }
    assert (Hspec : forall k,
              In k (set_list (map (fun m => enc_key (encoding_type m)) meshes))
              <-> exists m, In m meshes /\ enc_key (encoding_type m) = k).
    { intros k. rewrite Hin, in_map_iff. split.
      - intros (m & E & Hm). now exists m.
      - intros (m & Hm & E). now exists m. }
    destruct (set_list _) as [|[s|] [|y l]] eqn:El; cbn in Hka, Hkb.
    + destruct Hka.
    + destruct Hka as [Ea|[]], Hkb as [Eb|[]]. congruence.
    + injection Henc as <-. eexists. split; [reflexivity|]. now split.
    + destruct Hka as [Ea|[]], Hkb as [Eb|[]]. congruence.
    + injection Henc as <-. eexists. split; [reflexivity|]. now split.
Qed.

(** What [concatenate] has computed when it returns. *)
Lemma concatenate_returns set_list (meshes : list Mesh) (c : Mesh) :
  Mesh_concatenate set_list meshes = Ok c ->
  meshes <> [] /\ concat_encoding set_list meshes = Ok (encoding_type c)
  /\ segid c = None /\ encoding_options c = None.
Proof.
  intros Hc.
  assert (Hne : meshes <> []) by (intros ->; discriminate).
  unfold Mesh_concatenate in Hc.
  destruct (mapM Mesh_len meshes); [|discriminate]. cbn [bind] in Hc.
  destruct (np_concatenate _); [|discriminate]. cbn [bind] in Hc.
  destruct (np_concatenate _); [|discriminate]. cbn [bind] in Hc.
  destruct (np_concatenate _); [|discriminate]. cbn [bind] in Hc.
  destruct (concat_encoding set_list meshes) as [enc|]; [|discriminate].
  cbn [bind] in Hc.
  match type of Hc with Ok ?t = Ok c => assert (E : c = t) by congruence end.
  rewrite E. repeat split. exact Hne.
Qed.

(** X9.  A mesh returned by [concatenate] has no segment id and no
    encoding options.  Its encoding type is the one the inputs share when
    they all have the same.  When two inputs differ it is a list that holds
    the encoding type of every input once, in the order in which Python
    iterates over the set of them, which is not determined; a list is not
    hashable. *)
Theorem concatenate_metadata
    (set_list : list (option string) -> list (option string))
    (meshes : list Mesh) (c : Mesh)
    (Hset : set_iteration set_list)
    (Hc : Mesh_concatenate set_list meshes = Ok c) :
  segid c = None /\ encoding_options c = None
  /\ (forall e, (forall m, In m meshes -> encoding_type m = e) ->
        encoding_type c = e)
  /\ ((exists a b, In a meshes /\ In b meshes
                   /\ encoding_type a <> encoding_type b) ->
      exists l,
        encoding_type c = EncList l
        /\ NoDup l
        /\ (forall k, In k l <->
              exists m, In m meshes /\ enc_key (encoding_type m) = k)
        /\ hashable (encoding_type c) = false).
Proof.
  destruct (concatenate_returns set_list meshes c Hc) as (Hne & Henc & Hs & Ho).
  split; [exact Hs|]. split; [exact Ho|].
  destruct (concat_encoding_spec set_list meshes _ Hset Hne Henc) as [H1 H2].
  split; [exact H1|].
  intros Hmixed. destruct (H2 Hmixed) as (l & El & Hnd & Hin).
  exists l. rewrite El. repeat split; try assumption; apply Hin.
Qed.

Lemma concatenate_metadata_witness :
  exists c l,
    Mesh_concatenate distinct
      [Mesh_init (NdArray [1%nat; 3%nat] [0; 0; 0])
         (NdArray [1%nat; 3%nat] [0; 0; 0]) None (Some 7)
         (EncTag "draco") None;
       Mesh_init (NdArray [1%nat; 3%nat] [0; 0; 0])
         (NdArray [1%nat; 3%nat] [0; 0; 0]) None (Some 8)
         EncNone None] = Ok c
    /\ segid c = None /\ encoding_type c = EncList l
    /\ (In (Some "draco"%string) l /\ In None l).
Proof.
  assert (E : exists c,
            Mesh_concatenate distinct
              [Mesh_init (NdArray [1%nat; 3%nat] [0; 0; 0])
                 (NdArray [1%nat; 3%nat] [0; 0; 0]) None (Some 7)
                 (EncTag "draco") None;
               Mesh_init (NdArray [1%nat; 3%nat] [0; 0; 0])
                 (NdArray [1%nat; 3%nat] [0; 0; 0]) None (Some 8)
                 EncNone None] = Ok c)
    by (eexists; vm_compute; reflexivity).
  destruct E as [c E].
  destruct (concatenate_metadata distinct _ c distinct_set_iteration E)
    as (H1 & _ & _ & H4).
  destruct H4 as (l & El & _ & Hin & _).
  - eexists. eexists. split; [now left|]. split; [right; now left|].
    discriminate.
  - exists c, l. split; [exact E|]. split; [exact H1|]. split; [exact El|].
    split; apply Hin.
    + eexists. split; [now left|reflexivity].
    + eexists. split; [right; now left|reflexivity].
Defined.

(** X10.  The result of concatenating meshes of the data model that do
    not all have the same encoding type cannot be concatenated again, with
    whatever meshes of the data model: its encoding type is a list, and
    building the set of the encoding types raises TypeError. *)
Theorem concatenate_again_raises_TypeError
    (set_list : list (option string) -> list (option string))
    (meshes rest : list Mesh) (c : Mesh)
    (Hset : set_iteration set_list)
    (Hok : Forall mesh_ok meshes) (Hrest : Forall mesh_ok rest)
    (Hc : Mesh_concatenate set_list meshes = Ok c)
    (Hmixed : exists a b, In a meshes /\ In b meshes
                          /\ encoding_type a <> encoding_type b) :
  Mesh_concatenate set_list (c :: rest) = Raise TypeError.
Proof.
  destruct (concatenate_mesh_ok set_list meshes c Hok Hc) as (Hcok & _ & Henc & Hne).
  destruct (concat_encoding_spec set_list meshes _ Hset Hne Henc) as [_ Hlist].
  destruct (Hlist Hmixed) as (l & El & _). clear Hlist.
  assert (Hall : Forall mesh_ok (c :: rest)) by (now apply Forall_cons).
  unfold Mesh_concatenate.
  rewrite (mapM_ok Mesh_len num_vertices)
    by (intros x Hx; apply mesh_len_ok; rewrite Forall_forall in Hall; auto).
  cbn [bind].
  destruct (np_concatenate_ok 3 (map vertices (c :: rest)))
    as (vs & Hvs & _); [discriminate| |].
  { rewrite Forall_map. eapply Forall_impl; [|exact Hall].
    intros m [Hv _ _ Hw _ _ _]. split; assumption. }
  rewrite Hvs. cbn [bind].
  match goal with
  | |- (fs <- np_concatenate ?l ;; _) = _ =>
      destruct (np_concatenate_ok 3 l) as (fs & Hfs & _)
  end; [discriminate| |].
  { rewrite Forall_map. apply Forall_forall.
    intros [i mi] Hin. apply in_py_enumerate in Hin. apply nth_error_In in Hin.
    rewrite Forall_forall in Hall. destruct (Hall mi Hin) as [_ Hf _ _ Hw _ _].
    cbn [fst snd]. split; [exact Hf|]. now apply array_wf_np_array. }
  rewrite Hfs. cbn [bind].
  destruct (np_concatenate_ok 3 (map normals (c :: rest)))
    as (ns & Hns & _); [discriminate| |].
  { rewrite Forall_map. eapply Forall_impl; [|exact Hall].
    intros m [_ _ Hn _ _ Hw _]. split; assumption. }
  rewrite Hns. cbn [bind].
  unfold concat_encoding. cbn [forallb]. rewrite El. reflexivity.
Qed.

Lemma concatenate_again_raises_TypeError_witness :
  exists c,
    Mesh_concatenate distinct
      [tile1; Mesh_init (vertices tile2) (faces tile2) None None
                (EncTag "draco") None] = Ok c
    /\ Mesh_concatenate distinct [c; tile1] = Raise TypeError.
Proof.
  assert (E : exists c,
            Mesh_concatenate distinct
              [tile1; Mesh_init (vertices tile2) (faces tile2) None None
                        (EncTag "draco") None] = Ok c)
    by (eexists; vm_compute; reflexivity).
  destruct E as [c E]. exists c. split; [exact E|].
  apply (concatenate_again_raises_TypeError distinct
           [tile1; Mesh_init (vertices tile2) (faces tile2) None None
                     (EncTag "draco") None] [tile1] c).
  - exact distinct_set_iteration.
  - apply Forall_cons; [apply tile1_ok|].
    apply Forall_cons; [|apply Forall_nil].
    constructor; try reflexivity.
    + now exists 3%nat.
    + now exists 1%nat.
    + now exists 0%nat.
    + apply Mesh_init_faces_range.
  - apply Forall_cons; [apply tile1_ok|apply Forall_nil].
  - exact E.
  - exists tile1, (Mesh_init (vertices tile2) (faces tile2) None None
                     (EncTag "draco") None).
    split; [now left|]. split; [right; now left|]. discriminate.
Defined.

(* ------------------------------------------------------------------ *)
(** ** Deduplication of chunk boundaries: what the faces see *)

Lemma unique_values_length_le_by {R} (cmp : R -> R -> comparison)
    (eqb : R -> R -> bool) (quicksort : list R -> list (nat * R))
    (rs : list R) :
  sorts_records cmp quicksort ->
  (length (unique_values_by quicksort eqb rs) <= length rs)%nat.
Proof.
  intros Hsort. unfold unique_values_by, unique_groups_by. rewrite length_map.
  pose proof (group_runs_length eqb (quicksort rs)) as H.
  pose proof (Permutation_length (proj1 (Hsort rs))) as Hlen.
  unfold enumerate in Hlen. rewrite length_combine, length_seq in Hlen. lia.
Qed.

Lemma NoDup_app_disjoint {A} (l1 l2 : list A) (x : A) :
  NoDup (l1 ++ l2) -> In x l1 -> In x l2 -> False.
Proof.
  induction l1 as [|a l1 IH]; intros Hnd H1 H2; [destruct H1|].
  cbn [app] in Hnd. apply NoDup_cons_iff in Hnd. destruct Hnd as [Ha Hnd].
  destruct H1 as [->|H1].
  - apply Ha. apply in_or_app. now right.
  - now apply IH.
Qed.

Lemma NoDup_concat_index {A} (ls : list (list A)) (a b : nat)
    (la lb : list A) (x : A) :
  NoDup (concat ls) ->
  nth_error ls a = Some la -> nth_error ls b = Some lb ->
  In x la -> In x lb -> a = b.
Proof.
  revert a b. induction ls as [|l ls IH]; intros a b Hnd Ha Hb Hxa Hxb.
  - destruct a; discriminate.
  - cbn [concat] in Hnd.
    destruct a as [|a], b as [|b]; cbn [nth_error] in Ha, Hb.
    + reflexivity.
    + exfalso. injection Ha as ->.
      apply (NoDup_app_disjoint _ _ x Hnd Hxa).
      apply in_concat. exists lb. split; [|exact Hxb].
      eapply nth_error_In; exact Hb.
    + exfalso. injection Hb as ->.
      apply (NoDup_app_disjoint _ _ x Hnd Hxb).
      apply in_concat. exists la. split; [|exact Hxa].
      eapply nth_error_In; exact Ha.
    + f_equal. apply (IH a b); try assumption.
      now apply NoDup_app_remove_l in Hnd.
Qed.

Section UniqueInverse.
Context {R : Type} {cmp : R -> R -> comparison} {eqb : R -> R -> bool}.
Context `{!SortOrder cmp eqb}.
Variable quicksort : list R -> list (nat * R).
Hypothesis quicksort_sorts : sorts_records cmp quicksort.

(** Two records that equal themselves go to the same unique record
    exactly when they are equal, whatever the sort. *)
Lemma unique_inverse_eq_iff (rs : list R) (p q : nat) (rp rq : R) :
  nth_error rs p = Some rp -> nth_error rs q = Some rq ->
  eqb rp rp = true ->
  nth p (unique_inverse_by quicksort eqb rs) 0%nat
  = nth q (unique_inverse_by quicksort eqb rs) 0%nat
  <-> eqb rp rq = true.
Proof.
  intros Hp Hq Hrefl.
  destruct (unique_group_at_by quicksort quicksort_sorts rs p rp Hp)
    as (gp & Hgp & Hinp & Hmp & _).
  destruct (unique_group_at_by quicksort quicksort_sorts rs q rq Hq)
    as (gq & Hgq & Hinq & _ & _).
  specialize (Hmp Hrefl).
  split.
  - intros E. rewrite E, Hgq in Hgp. injection Hgp as <-.
    rewrite Hmp in Hinq. apply filter_In in Hinq. exact (proj2 Hinq).
  - intros E.
    assert (Hq' : In (q, rq) (group_members gp)).
    { rewrite Hmp. apply filter_In. split; [|exact E].
      now apply (quicksort_in quicksort quicksort_sorts). }
    apply (NoDup_concat_index
             (map group_members (unique_groups_by quicksort eqb rs)) _ _
             (group_members gp) (group_members gq) (q, rq)).
    + unfold unique_groups_by. rewrite group_runs_concat.
      apply (NoDup_map_inv fst).
      apply (quicksort_nodup quicksort quicksort_sorts).
    + rewrite nth_error_map, Hgp. reflexivity.
    + rewrite nth_error_map, Hgq. reflexivity.
    + exact Hq'.
    + exact Hinq.
Qed.
End UniqueInverse.

Section DedupFaces.
Variable quicksort_rows : list (list float32) -> list (nat * list float32).
Variable quicksort_vrows : list vrow -> list (nat * vrow).
Hypothesis quicksort_vrows_sorts : sorts_records vrow_cmp quicksort_vrows.

(** The 4-wide row of vertex [f]: its coordinates, and -1 when it is
    marked for merging, its own index otherwise. *)
Lemma dedup_rows_merged (m : Mesh) (aligned : list bool) (N : nat) (f : Z) :
  length aligned = length (rows (vertices m)) ->
  shape (vertices m) = [N; 3%nat] -> array_wf (vertices m) ->
  0 <= f < Z.of_nat N ->
  nth (Z.to_nat f) (dedup_rows quicksort_rows m aligned) ([], 0)
  = (vertex_row m f,
     if dedup_merged quicksort_rows m aligned f then -1 else f)
  /\ length (vertex_row m f) = 3%nat.
Proof.
  intros Hal Hs Hwf Hf.
  destruct (dedup_rows_at quicksort_rows m aligned N (Z.to_nat f) Hal Hs Hwf
              ltac:(lia)) as (row & b & Erow & Hrow3 & Eb & Er).
  assert (Evr : vertex_row m f = row)
    by (unfold vertex_row; now apply nth_error_nth).
  assert (Emerged : dedup_merged quicksort_rows m aligned f = b)
    by (unfold dedup_merged; now apply nth_error_nth).
  rewrite Evr, Emerged. split; [|exact Hrow3].
  rewrite (nth_error_nth _ _ _ Er). rewrite Z2Nat.id by lia. reflexivity.
Qed.

(** The new id at a position of the faces, and the 4-wide row the old id
    selected there. *)
Lemma dedup_faces_at (m : Mesh) (chunk_size : chunk) (cs : list spec_float)
    (is_draco : bool) (dg : dtype) (grid : spec_float) :
  mesh_ok m -> faces_valid m -> broadcast_chunk chunk_size 3 = Ok cs ->
  Z.of_nat (length (data (faces m))) <= u32_mod ->
  let aligned := dedup_aligned (rows (vertices m)) (chunk_dtype chunk_size)
                   cs is_draco dg grid in
  let referenced := dedup_referenced quicksort_rows m aligned in
  let kept := dedup_kept quicksort_rows quicksort_vrows m aligned in
  let inverse := unique_inverse_by quicksort_vrows vrow_eqb referenced in
  exists m',
    Mesh_deduplicate_chunk_boundaries quicksort_rows quicksort_vrows
      m chunk_size is_draco dg grid = Ok m'
    /\ shape (faces m') = shape (faces m)
    /\ normals m' = NdArray [0%nat; 3%nat] []
    /\ segid m' = segid m
    /\ encoding_type m' = encoding_type m
    /\ encoding_options m' = encoding_options m
    /\ rows (vertices m') = map fst kept
    /\ forall p, (p < length (data (faces m)))%nat ->
         nth p (data (faces m')) 0 = Z.of_nat (nth p inverse 0%nat)
         /\ (nth p inverse 0 < length kept)%nat
         /\ nth_error referenced p
            = Some (vertex_row m (nth p (data (faces m)) 0),
                    if dedup_merged quicksort_rows m aligned
                         (nth p (data (faces m)) 0)
                    then -1 else nth p (data (faces m)) 0)
         /\ 0 <= nth p (data (faces m)) 0.
Proof.
  intros [[N Hvs] [M Hfs] _ Hvw Hfw _ Hfr] Hvalid Hchunk Hsize
         aligned referenced kept inverse.
  assert (Hal : length aligned = length (rows (vertices m)))
    by apply dedup_aligned_length.
  destruct (dedup_explicit quicksort_rows quicksort_vrows quicksort_vrows_sorts
              m chunk_size cs is_draco dg grid N M
              Hvs Hfs Hvw Hfw Hvalid Hchunk) as (Hm' & Hreflen & Hw3).
  fold aligned in Hm'. fold referenced in Hm'.
  fold kept in Hm'. fold inverse in Hm'.
  assert (Hrl : length referenced = (M * 3)%nat) by exact Hreflen.
  clear Hreflen.
  pose proof (rows_length N 3 _ Hvs) as HlenV.
  assert (Hfaces_len : length (data (faces m)) = (M * 3)%nat).
  { unfold array_wf in Hfw. rewrite Hfs, numel_pair in Hfw. exact Hfw. }
  eexists. split; [exact Hm'|].
  split; [now rewrite Hfs|].
  do 4 (split; [reflexivity|]).
  split.
  { unfold Mesh_init. cbn [vertices]. rewrite rows_np_array.
    rewrite (map_ext _ (fun r => r)) by (intros; apply map_id).
    rewrite map_id. apply rows_of_rows.
    apply Forall_forall. intros r Hr. apply in_map_iff in Hr.
    destruct Hr as (r0 & <- & Hr0). rewrite Forall_forall in Hw3.
    now apply Hw3. }
  intros p Hp.
  set (f := nth p (data (faces m)) 0).
  assert (Hpr : (p < length referenced)%nat) by lia.
  pose proof (unique_inverse_lt_by (eqb := vrow_eqb) quicksort_vrows
                quicksort_vrows_sorts referenced p Hpr) as Hlt.
  change (unique_values_by quicksort_vrows vrow_eqb referenced) with kept in Hlt.
  fold inverse in Hlt.
  pose proof (unique_values_length_le_by vrow_cmp vrow_eqb quicksort_vrows
                referenced quicksort_vrows_sorts) as Hle.
  change (unique_values_by quicksort_vrows vrow_eqb referenced) with kept in Hle.
  assert (Hf : In f (data (faces m))) by (apply nth_In; lia).
  unfold faces_valid in Hvalid. rewrite Forall_forall in Hvalid.
  pose proof (Hvalid f Hf) as Hrange. unfold num_vertices in Hrange.
  rewrite HlenV in Hrange.
  destruct (dedup_rows_merged m aligned N f Hal Hvs Hvw Hrange) as [Er _].
  split; [|split; [exact Hlt|split; [|lia]]].
  - unfold Mesh_init, np_array. cbn [faces data]. rewrite map_map.
    change 0 with ((fun k => wrap32 (Z.of_nat k)) 0%nat) at 1.
    rewrite map_nth. apply wrap32_small. unfold is_u32. lia.
  - unfold referenced, dedup_referenced.
    rewrite nth_error_map.
    rewrite (nth_error_nth' _ 0) by lia. fold f. cbn [option_map].
    now rewrite Er.
Qed.
End DedupFaces.

(** X11.  [deduplicate_chunk_boundaries] keeps every face on its
    vertices, however NumPy's sort orders rows that compare equal: on a
    mesh of the data model with valid face ids (and at most 2^32 face ids
    in all) it returns a mesh with as many faces, in which the id at every
    position of the faces names a vertex with the coordinates of the
    vertex that the old id at that position named (the same row, or one
    that [==] it).  Normals are dropped; segment id and encoding are
    kept. *)
Theorem dedup_keeps_faces_on_their_vertices
    (quicksort_rows : list (list float32) -> list (nat * list float32))
    (quicksort_vrows : list vrow -> list (nat * vrow))
    (m : Mesh) (chunk_size : chunk) (cs : list spec_float) (is_draco : bool)
    (grid_dtype : dtype) (grid : spec_float)
    (Hvrows : sorts_records vrow_cmp quicksort_vrows)
    (Hok : mesh_ok m) (Hvalid : faces_valid m)
    (Hchunk : broadcast_chunk chunk_size 3 = Ok cs)
    (Hsize : Z.of_nat (length (data (faces m))) <= u32_mod) :
  exists m',
    Mesh_deduplicate_chunk_boundaries quicksort_rows quicksort_vrows
      m chunk_size is_draco grid_dtype grid = Ok m'
    /\ shape (faces m') = shape (faces m)
    /\ normals m' = NdArray [0%nat; 3%nat] []
    /\ segid m' = segid m
    /\ encoding_type m' = encoding_type m
    /\ encoding_options m' = encoding_options m
    /\ forall p, (p < length (data (faces m)))%nat ->
         let f := nth p (data (faces m)) 0 in
         let f' := nth p (data (faces m')) 0 in
         0 <= f' < Z.of_nat (num_vertices m')
         /\ (vertex_row m' f' = vertex_row m f
             \/ row_eqb f32_eqb (vertex_row m f) (vertex_row m' f') = true).
Proof.
  destruct (dedup_faces_at quicksort_rows quicksort_vrows Hvrows m chunk_size
              cs is_draco grid_dtype grid Hok Hvalid Hchunk Hsize)
    as (m' & Hm' & Hsh & Hn & Hsg & He & Ho & Hrows & Hat).
  exists m'. split; [exact Hm'|].
  do 5 (split; [assumption|]).
  intros p Hp. cbv zeta.
  destruct (Hat p Hp) as (Ef' & Hlt & Hr & _).
  rewrite Ef'. unfold num_vertices. rewrite Hrows, length_map.
  split; [lia|].
  destruct (unique_inverse_at_by (eqb := vrow_eqb) quicksort_vrows Hvrows
              _ p _ Hr) as (h & Hh & Hsame).
  assert (Hfst : vertex_row m'
                   (Z.of_nat
                      (nth p (unique_inverse_by quicksort_vrows vrow_eqb
                                (dedup_referenced quicksort_rows m
                                   (dedup_aligned (rows (vertices m))
                                      (chunk_dtype chunk_size) cs is_draco
                                      grid_dtype grid))) 0%nat))
                 = fst h).
  { unfold vertex_row. rewrite Hrows, Nat2Z.id.
    apply nth_error_nth. unfold dedup_kept.
    rewrite nth_error_map, Hh. reflexivity. }
  rewrite Hfst. destruct Hsame as [->|E]; [now left|right].
  unfold vrow_eqb in E. cbn [fst snd] in E.
  apply andb_true_iff in E. exact (proj1 E).
Qed.

Lemma dedup_keeps_faces_witness :
  exists m',
    Mesh_deduplicate_chunk_boundaries
      (argsort (lex_cmp f32_sort_cmp)) (argsort vrow_cmp)
      two_tiles (ChunkScalar F32 (sf_of_Z 100))
      false F32 default_draco_grid_size = Ok m'
    /\ shape (faces m') = [2%nat; 3%nat]
    /\ vertex_row m' (nth 3 (data (faces m')) 0) = vertex_row two_tiles 3.
Proof.
  destruct (dedup_keeps_faces_on_their_vertices
              (argsort (lex_cmp f32_sort_cmp)) (argsort vrow_cmp) two_tiles
              (ChunkScalar F32 (sf_of_Z 100)) (repeat (sf_of_Z 100) 3) false
              F32 default_draco_grid_size stable_vrows_sorts
              two_tiles_ok two_tiles_valid eq_refl)
    as (m' & Hm' & Hs & _).
  - vm_compute. discriminate.
  - exists m'. split; [exact Hm'|]. split; [exact Hs|].
    assert (E : Ok m' = Mesh_deduplicate_chunk_boundaries
                          (argsort (lex_cmp f32_sort_cmp)) (argsort vrow_cmp)
                          two_tiles (ChunkScalar F32 (sf_of_Z 100)) false
                          F32 default_draco_grid_size) by (now rewrite Hm').
    vm_compute in E. injection E as ->. vm_compute. reflexivity.
Defined.

(** X12.  Which corners [deduplicate_chunk_boundaries] joins, whatever
    the alignment test, the dtypes and the order of NumPy's sort.  On a
    mesh of the data model without NaN coordinates, two positions of the
    faces get the same new id exactly when the vertices they named have
    equal coordinates and are either one and the same vertex or both
    marked for merging ([do_merge]). *)
Theorem dedup_joins_marked_duplicates_only
    (quicksort_rows : list (list float32) -> list (nat * list float32))
    (quicksort_vrows : list vrow -> list (nat * vrow))
    (m : Mesh) (chunk_size : chunk) (cs : list spec_float) (is_draco : bool)
    (grid_dtype : dtype) (grid : spec_float)
    (Hvrows : sorts_records vrow_cmp quicksort_vrows)
    (Hok : mesh_ok m) (Hvalid : faces_valid m)
    (Hchunk : broadcast_chunk chunk_size 3 = Ok cs)
    (Hsize : Z.of_nat (length (data (faces m))) <= u32_mod)
    (Hnan : no_nan (vertices m)) :
  let aligned := dedup_aligned (rows (vertices m)) (chunk_dtype chunk_size)
                   cs is_draco grid_dtype grid in
  exists m',
    Mesh_deduplicate_chunk_boundaries quicksort_rows quicksort_vrows
      m chunk_size is_draco grid_dtype grid = Ok m'
    /\ forall p q,
         (p < length (data (faces m)))%nat ->
         (q < length (data (faces m)))%nat ->
         let fp := nth p (data (faces m)) 0 in
         let fq := nth q (data (faces m)) 0 in
         nth p (data (faces m')) 0 = nth q (data (faces m')) 0
         <-> row_eqb f32_eqb (vertex_row m fp) (vertex_row m fq) = true
             /\ (fp = fq
                 \/ (dedup_merged quicksort_rows m aligned fp = true
                     /\ dedup_merged quicksort_rows m aligned fq = true)).
Proof.
  intros aligned.
  destruct (dedup_faces_at quicksort_rows quicksort_vrows Hvrows m chunk_size
              cs is_draco grid_dtype grid Hok Hvalid Hchunk Hsize)
    as (m' & Hm' & _ & _ & _ & _ & _ & _ & Hat).
  fold aligned in Hat.
  exists m'. split; [exact Hm'|].
  intros p q Hp Hq fp fq.
  destruct (Hat p Hp) as (Ep & _ & Hrp & Hp0).
  destruct (Hat q Hq) as (Eq & _ & Hrq & Hq0).
  fold fp in Hrp, Hp0. fold fq in Hrq, Hq0.
  rewrite Ep, Eq.
  destruct Hok as [[N Hvs] [M Hfs] _ Hvw Hfw _ Hfr].
  assert (Hself : row_eqb f32_eqb (vertex_row m fp) (vertex_row m fp) = true).
  { pose proof (no_nan_rows_refl N 3 _ Hvs Hvw Hnan) as Hall.
    rewrite Forall_forall in Hall. apply Hall.
    unfold vertex_row. apply nth_In.
    unfold faces_valid in Hvalid. rewrite Forall_forall in Hvalid.
    assert (Hin : In fp (data (faces m))) by (apply nth_In; lia).
    specialize (Hvalid fp Hin). unfold num_vertices in Hvalid. lia. }
  rewrite Nat2Z.inj_iff.
  rewrite (unique_inverse_eq_iff (cmp := vrow_cmp) (eqb := vrow_eqb)
             quicksort_vrows Hvrows _ p q _ _ Hrp Hrq).
  2:{ unfold vrow_eqb. cbn [fst snd]. rewrite Hself, Z.eqb_refl. reflexivity. }
  unfold vrow_eqb. cbn [fst snd]. rewrite andb_true_iff, Z.eqb_eq.
  destruct (dedup_merged quicksort_rows m aligned fp) eqn:Mp,
           (dedup_merged quicksort_rows m aligned fq) eqn:Mq.
  - intuition.
  - split; intros [H1 H2]; [lia|].
    destruct H2 as [H2|[_ H2]]; [|discriminate].
    rewrite H2, Mq in Mp. discriminate.
  - split; intros [H1 H2]; [lia|].
    destruct H2 as [H2|[H2 _]]; [|discriminate].
    rewrite H2, Mq in Mp. discriminate.
  - split; intros [H1 H2]; (split; [exact H1|]).
    + now left.
    + destruct H2 as [H2|[H2 _]]; [exact H2|discriminate].
Qed.

Lemma dedup_joins_marked_duplicates_witness :
  exists m',
    Mesh_deduplicate_chunk_boundaries
      (argsort (lex_cmp f32_sort_cmp)) (argsort vrow_cmp)
      two_tiles (ChunkAxes F64 (repeat (sf_of_Z 100) 3))
      true F32 default_draco_grid_size = Ok m'
    /\ nth 1 (data (faces m')) 0 = nth 3 (data (faces m')) 0.
Proof.
  destruct (dedup_joins_marked_duplicates_only
              (argsort (lex_cmp f32_sort_cmp)) (argsort vrow_cmp) two_tiles
              (ChunkAxes F64 (repeat (sf_of_Z 100) 3))
              (repeat (sf_of_Z 100) 3) true
              F32 default_draco_grid_size stable_vrows_sorts
              two_tiles_ok two_tiles_valid eq_refl)
    as (m' & Hm' & Hiff).
  - vm_compute. discriminate.
  - apply no_nan_check. vm_compute. reflexivity.
  - exists m'. split; [exact Hm'|].
    apply (Hiff 1%nat 3%nat).
    + vm_compute. lia.
    + vm_compute. lia.
    + split; [vm_compute; reflexivity|].
      right. split; vm_compute; reflexivity.
Defined.

(* ------------------------------------------------------------------ *)
(** ** The alignment tests at the edges *)

Lemma np_mod_nan (dt : dtype) (x c : spec_float) :
  match x with S754_nan | S754_infinity _ => True | _ => False end
  \/ sf_no_remainder c = true ->
  np_mod dt (astype dt x) (astype dt c) = S754_nan.
Proof.
  intros [Hx|Hc].
  - assert (Ex : astype dt x = x) by (destruct x; reflexivity || contradiction).
    rewrite Ex. generalize (astype dt c) as c'. intros c'.
    assert (E : sf_fmod dt x c' = S754_nan).
    { destruct x as [s|s| |s m e]; try contradiction;
        destruct c' as [sc|sc| |sc mc ec]; reflexivity. }
    unfold np_mod. rewrite E. cbn [sf_is_zero].
    destruct (sf_is_zero c'); [reflexivity|].
    destruct (Bool.eqb _ _); [reflexivity|].
    unfold sf_add. destruct c'; reflexivity.
  - assert (Ec : astype dt c = c) by (destruct c; reflexivity || discriminate).
    rewrite Ec. generalize (astype dt x) as x'. intros x'.
    assert (E : sf_fmod dt x' c = S754_nan).
    { destruct c as [sc|sc| |sc mc ec]; try discriminate;
        destruct x' as [s|s| |s m e]; reflexivity. }
    unfold np_mod. rewrite E.
    destruct c as [sc|sc| |sc mc ec]; try discriminate; reflexivity.
Qed.

Lemma dist_to_chunk_nan (dv : dtype) (x : spec_float) (dc : dtype)
    (c : spec_float) :
  np_mod (promote dv dc) (astype (promote dv dc) x) (astype (promote dv dc) c)
  = S754_nan ->
  dist_to_chunk dv x dc c = S754_nan.
Proof.
  intros E. unfold dist_to_chunk. cbv zeta. rewrite E. reflexivity.
Qed.

Lemma np_less_nan (da db : dtype) (b : spec_float) :
  np_less da S754_nan db b = false.
Proof. unfold np_less. cbv zeta. cbn [astype]. now destruct (astype _ b). Qed.

Lemma map2_andb_false {l1 l2 : list bool} (i : nat) :
  nth_error l2 i = Some false -> nth i (map2 andb l1 l2) false = false.
Proof.
  revert l2 i. induction l1 as [|a l1 IH]; intros [|b l2] [|i] H;
    cbn [map2 nth]; try reflexivity; cbn [nth_error] in H.
  - injection H as ->. apply andb_false_r.
  - now apply IH.
Qed.

(** X13.  A coordinate that is a NaN or an infinity is on no chunk
    boundary, and with a chunk size of zero or NaN no coordinate is: both
    the standard and the draco test answer False on such an axis, whatever
    the dtypes of the chunk size and of the grid size.  A vertex whose
    coordinates are all such is therefore never marked as aligned, and
    never merged, however the rows are sorted. *)
Theorem nonfinite_coordinates_are_never_aligned
    (quicksort_rows : list (list float32) -> list (nat * list float32))
    (verts : list (list float32))
    (chunk_dtype : dtype) (chunk_size : list spec_float)
    (grid_dtype : dtype) (grid : spec_float) (i : nat) (row : list float32)
    (Hrow : nth_error verts i = Some row)
    (Hbad : forall axis v c,
        nth_error row axis = Some v -> nth_error chunk_size axis = Some c ->
        f32_is_finite v = false \/ sf_no_remainder c = true) :
  nth i (is_std_chunk_aligned verts chunk_dtype chunk_size) false = false
  /\ nth i (is_draco_chunk_aligned verts chunk_dtype chunk_size
              grid_dtype grid) false = false
  /\ nth i (dedup_do_merge quicksort_rows verts
              (is_std_chunk_aligned verts chunk_dtype chunk_size))
         false = false
  /\ nth i (dedup_do_merge quicksort_rows verts
              (is_draco_chunk_aligned verts chunk_dtype chunk_size
                 grid_dtype grid)) false = false.
Proof.
  set (dt := promote F32 chunk_dtype).
  assert (Hnan : forall axis v c,
            nth_error row axis = Some v -> nth_error chunk_size axis = Some c ->
            np_mod dt (astype dt (f32_value v)) (astype dt c) = S754_nan).
  { intros axis v c Hv Hc. apply np_mod_nan.
    destruct (Hbad axis v c Hv Hc) as [H|H]; [left|now right].
    unfold f32_is_finite in H. now destruct (f32_value v). }
  assert (Hstd : existsb2 (std_axis_aligned chunk_dtype) row chunk_size
                 = false).
  { destruct (existsb2 (std_axis_aligned chunk_dtype) row chunk_size) eqn:E;
      [|reflexivity].
    apply existsb2_exists in E. destruct E as (j & v & c & Hv & Hc & E).
    unfold std_axis_aligned in E. cbv zeta in E. fold dt in E.
    rewrite (Hnan j v c Hv Hc) in E. discriminate. }
  assert (Hdraco : existsb2 (draco_axis_aligned chunk_dtype grid_dtype grid)
                     row chunk_size = false).
  { destruct (existsb2 (draco_axis_aligned chunk_dtype grid_dtype grid)
                row chunk_size) eqn:E; [|reflexivity].
    apply existsb2_exists in E. destruct E as (j & v & c & Hv & Hc & E).
    unfold draco_axis_aligned in E. cbv zeta in E.
    rewrite (dist_to_chunk_nan F32 _ chunk_dtype _ (Hnan j v c Hv Hc)) in E.
    rewrite np_less_nan in E. discriminate. }
  assert (Hs : nth_error (is_std_chunk_aligned verts chunk_dtype chunk_size) i
               = Some false).
  { unfold is_std_chunk_aligned. now rewrite nth_error_map, Hrow, <- Hstd. }
  assert (Hd : nth_error (is_draco_chunk_aligned verts chunk_dtype chunk_size
                            grid_dtype grid) i = Some false).
  { unfold is_draco_chunk_aligned. now rewrite nth_error_map, Hrow, <- Hdraco. }
  split; [now apply nth_error_nth|]. split; [now apply nth_error_nth|].
  split; unfold dedup_do_merge; now apply map2_andb_false.
Qed.

(** A vertex at (NaN, inf, -inf) among chunks of 100, given as a list. *)
Lemma nonfinite_coordinates_witness :
  nth 0 (is_std_chunk_aligned [[2143289344; 2139095040; 4286578688]]
           F64 (repeat (sf_of_Z 100) 3)) false = false.
Proof.
  apply (nonfinite_coordinates_are_never_aligned
           (argsort (lex_cmp f32_sort_cmp))
           [[2143289344; 2139095040; 4286578688]] F64 (repeat (sf_of_Z 100) 3)
           F32 default_draco_grid_size 0
           [2143289344; 2139095040; 4286578688] eq_refl).
  intros [|[|[|axis]]] v c Hv Hc; cbn in Hv;
    try (destruct axis; discriminate);
    injection Hv as <-; left; vm_compute; reflexivity.
Defined.

Lemma np_less_zero_sign (da : dtype) (s : bool) (db : dtype) (b : spec_float) :
  np_less da (S754_zero s) db b = np_less da sf_zero db b.
Proof. unfold np_less. cbv zeta. cbn [astype]. now destruct (astype _ b). Qed.

(** X14.  How the two tests meet.  For a chunk size that is a positive
    number of its dtype, a coordinate that the standard test accepts is at
    distance zero from the chunk grid, and the draco test accepts it
    exactly when the grid size and the distances of the two shifted
    coordinates are above zero; the shifted coordinates are computed in
    the dtype that float32 gives with the grid size, their distances in
    the dtype that this one gives with the chunk size. *)
Theorem std_aligned_is_at_distance_zero
    (chunk_dtype grid_dtype : dtype) (v : float32) (c grid : spec_float)
    (Hc : finite_nonzero chunk_dtype c = true) (Hpos : sf_signbit c = false)
    (Hstd : std_axis_aligned chunk_dtype v c = true) :
  let x := f32_value v in
  let d := promote F32 chunk_dtype in
  let ds := promote F32 grid_dtype in
  let minus_grid := sf_sub ds (astype ds x) (astype ds grid) in
  let plus_grid := sf_add ds (astype ds x) (astype ds grid) in
  sf_is_zero (dist_to_chunk F32 x chunk_dtype c) = true
  /\ draco_axis_aligned chunk_dtype grid_dtype grid v c
     = np_less d sf_zero (promote ds chunk_dtype)
         (dist_to_chunk ds minus_grid chunk_dtype c)
       && np_less d sf_zero (promote ds chunk_dtype)
            (dist_to_chunk ds plus_grid chunk_dtype c)
       && np_less d sf_zero grid_dtype grid.
Proof.
  cbv zeta.
  unfold std_axis_aligned in Hstd. cbv zeta in Hstd.
  rewrite SFeqb_zero in Hstd.
  assert (Vc : valid_binary (dt_prec chunk_dtype) (dt_emax chunk_dtype) c
               = true) by (apply andb_true_iff in Hc; apply Hc).
  assert (E : exists s,
             dist_to_chunk F32 (f32_value v) chunk_dtype c = S754_zero s).
  { unfold dist_to_chunk. cbv zeta.
    rewrite promote_F32 in *. rewrite (astype_valid chunk_dtype c Vc) in *.
    destruct (np_mod chunk_dtype (astype chunk_dtype (f32_value v)) c)
      as [s| | |]; try discriminate.
    exists s. apply andb_true_iff in Hc. destruct Hc as [_ Hc].
    destruct c as [sc|sc| |sc mc ec]; try discriminate.
    cbn in Hpos. subst sc. reflexivity. }
  destruct E as [s E]. unfold draco_axis_aligned. cbv zeta.
  rewrite E, !np_less_zero_sign. split; reflexivity.
Qed.

(** The coordinate 0 among chunks of 100 given as a list, with the grid
    size 1e-6: the draco test accepts it. *)
Lemma std_aligned_is_at_distance_zero_witness :
  dist_to_chunk F32 (f32_value 0) F64 (S754_finite false 7036874417766400 (-46))
  = S754_zero false
  /\ draco_axis_aligned F64 F32 (S754_finite false 4722366482869645 (-72))
       0 (S754_finite false 7036874417766400 (-46)) = true.
Proof.
  destruct (std_aligned_is_at_distance_zero F64 F32 0
              (S754_finite false 7036874417766400 (-46))
              (S754_finite false 4722366482869645 (-72))
              eq_refl eq_refl) as [H1 H2].
  - vm_compute. reflexivity.
  - split; [vm_compute; reflexivity|]. rewrite H2. vm_compute. reflexivity.
Defined.

(* ------------------------------------------------------------------ *)
(** ** Item access: the notice is printed once *)

Lemma dict_get_set_same {V} (d : dict V) (k : string) (v : V) :
  dict_get (dict_set d k v) k = Some v.
Proof.
  induction d as [|[k' v'] d IH]; cbn [dict_set dict_get].
  - now rewrite String.eqb_refl.
  - destruct (String.eqb k' k) eqn:E; cbn [dict_get]; rewrite E;
      [reflexivity|exact IH].
Qed.

Lemma dict_get_set_other {V} (d : dict V) (k k' : string) (v : V) :
  k <> k' -> dict_get (dict_set d k v) k' = dict_get d k'.
Proof.
  intros Hne. induction d as [|[k0 v0] d IH]; cbn [dict_set dict_get].
  - destruct (String.eqb_spec k k'); [contradiction|reflexivity].
  - destruct (String.eqb_spec k0 k) as [->|Hk]; cbn [dict_get].
    + destruct (String.eqb_spec k k'); [contradiction|reflexivity].
    + destruct (String.eqb k0 k'); [reflexivity|exact IH].
Qed.

Lemma filter_filter {A} (f g : A -> bool) (l : list A) :
  filter f (filter g l) = filter (fun x => g x && f x) l.
Proof.
  induction l as [|x l IH]; [reflexivity|]. cbn [filter].
  destruct (g x); cbn [filter andb]; [destruct (f x)|]; now rewrite IH.
Qed.

Lemma item_key_known (self : Mesh) (k : string) :
  item_key self k = true ->
  (String.eqb k "vertices" || String.eqb k "num_vertices"
   || String.eqb k "faces")%bool = true.
Proof.
  unfold item_key.
  destruct (String.eqb k "vertices"), (String.eqb k "num_vertices"),
    (String.eqb k "faces"); cbn; intros H; try reflexivity; discriminate.
Qed.

(** One access: nothing changes unless the key is accepted and not yet
    noticed; then its notice is printed and its count becomes 1. *)
Lemma getitem_step (yellow : string -> string) (self : Mesh) (k : string)
    (w : world) (seen : list string) :
  notice_state w seen ->
  let w' := snd (Mesh_getitem yellow self k w) in
  if item_key self k && negb (existsb (String.eqb k) seen)
  then stdout w' = stdout w ++ [yellow (notice_text k)]
       /\ notice_state w' (k :: seen)
  else w' = w.
Proof.
  intros Hst. cbv zeta.
  destruct (item_key self k) eqn:Hk; cbn [andb].
  - pose proof (item_key_known self k Hk) as Hknown.
    assert (Hval : exists v,
              (if String.eqb k "vertices"
               then Returns (ItemVertices (vertices self))
               else if String.eqb k "num_vertices"
                    then match Mesh_len self with
                         | Ok n => Returns (ItemCount n)
                         | Raise e => Raises (Builtin e)
                         end
                    else if String.eqb k "faces"
                         then Returns (ItemFaces (faces self))
                         else Raises (KeyError (k ++ " not found."))) = Returns v).
    { unfold item_key in Hk. unfold Mesh_len, shape0.
      destruct (String.eqb_spec k "vertices") as [->|H1]; [eauto|].
      destruct (String.eqb_spec k "num_vertices") as [->|H2].
      - cbn in Hk.
        destruct (shape (vertices self)); [discriminate|eauto].
      - cbn [orb andb] in Hk. rewrite Hk. eauto. }
    destruct Hval as [v Hval].
    unfold Mesh_getitem. cbv zeta. rewrite Hval.
    unfold deprecation_notice. rewrite (Hst k), Hknown.
    destruct (existsb (String.eqb k) seen) eqn:Hseen; cbn [negb].
    + reflexivity.
    + cbn [Z.ltb Z.compare snd stdout NOTICE]. split; [reflexivity|].
      intros k'. cbn [NOTICE existsb].
      destruct (String.eqb_spec k' k) as [->|Hne].
      * rewrite dict_get_set_same, Hknown. reflexivity.
      * rewrite dict_get_set_other by congruence. rewrite (Hst k').
        cbn [orb]. reflexivity.
  - unfold Mesh_getitem. cbv zeta.
    unfold item_key in Hk. unfold Mesh_len, shape0.
    destruct (String.eqb_spec k "vertices") as [->|H1]; [discriminate|].
    destruct (String.eqb_spec k "num_vertices") as [->|H2].
    + cbn in Hk.
      destruct (shape (vertices self)); [reflexivity|discriminate].
    + cbn [orb andb] in Hk. rewrite Hk. reflexivity.
Qed.

Lemma getitem_run_stdout (yellow : string -> string) (self : Mesh)
    (keys : list string) (w : world) (seen : list string) :
  notice_state w seen ->
  stdout (getitem_run yellow self keys w)
  = stdout w
    ++ map (fun k => yellow (notice_text k))
         (filter (fun k => negb (existsb (String.eqb k) seen))
            (first_occurrences (filter (item_key self) keys)))
  /\ forall k, In k (map fst (NOTICE (getitem_run yellow self keys w))) ->
       exists n, dict_get (NOTICE (getitem_run yellow self keys w)) k = Some n
                 /\ 0 <= n <= 1.
Proof.
  revert w seen. induction keys as [|k keys IH]; intros w seen Hst.
  - cbn. split; [now rewrite app_nil_r|].
    intros k Hk. rewrite (Hst k).
    destruct (_ || _)%bool eqn:E.
    + eexists. split; [reflexivity|]. destruct (existsb _ seen); lia.
    + exfalso. apply in_map_iff in Hk. destruct Hk as ([k0 v0] & <- & Hin).
      assert (Hget : dict_get (NOTICE w) k0 <> None).
      { clear -Hin. induction (NOTICE w) as [|[k1 v1] d IHd]; [destruct Hin|].
        cbn [dict_get]. destruct (String.eqb_spec k1 k0); [discriminate|].
        destruct Hin as [Hin|Hin]; [congruence|now apply IHd]. }
      cbn [fst] in E. rewrite (Hst k0), E in Hget. congruence.
  - unfold getitem_run. cbn [fold_left].
    fold (getitem_run yellow self keys (snd (Mesh_getitem yellow self k w))).
    pose proof (getitem_step yellow self k w seen Hst) as Hstep.
    cbv zeta in Hstep. cbn [filter].
    destruct (item_key self k) eqn:Hk; cbn [andb] in Hstep.
    + cbn [first_occurrences filter].
      destruct (existsb (String.eqb k) seen) eqn:Hseen; cbn [negb] in *.
      * rewrite Hstep. destruct (IH w seen Hst) as [IH1 IH2].
        split; [|exact IH2]. rewrite IH1. do 2 f_equal.
        rewrite filter_filter. apply filter_ext_in. intros x Hx.
        destruct (String.eqb_spec k x) as [->|Hne]; cbn [negb andb];
          [now rewrite Hseen|reflexivity].
      * destruct Hstep as [Hout Hst'].
        destruct (IH _ (k :: seen) Hst') as [IH1 IH2].
        split; [|exact IH2]. rewrite IH1, Hout, <- app_assoc.
        cbn [app map]. do 3 f_equal.
        rewrite filter_filter. apply filter_ext. intros x. cbn [existsb].
        rewrite (String.eqb_sym x k).
        destruct (String.eqb k x); reflexivity.
    + rewrite Hstep. apply IH. exact Hst.
Qed.

(** X15.  Over a run of item accesses on a mesh that starts when the
    module has just been imported, the deprecation notice of a key is
    printed once, at the first access that succeeds for that key
    ('vertices', 'faces', and 'num_vertices' unless the vertices are
    0-d), and never for another key; no entry of [NOTICE] goes above 1. *)
Theorem deprecation_notice_printed_once (yellow : string -> string)
    (self : Mesh) (keys : list string) :
  let w := getitem_run yellow self keys world_at_import in
  stdout w
  = map (fun k => yellow (notice_text k))
        (first_occurrences (filter (item_key self) keys))
  /\ forall k, In k (map fst (NOTICE w)) ->
       exists n, dict_get (NOTICE w) k = Some n /\ 0 <= n <= 1.
Proof.
  cbv zeta.
  assert (Hst : notice_state world_at_import []).
  { intros k. cbn [world_at_import NOTICE NOTICE_at_import dict_get existsb].
    rewrite !(String.eqb_sym _ k).
    destruct (String.eqb k "vertices"), (String.eqb k "num_vertices"),
      (String.eqb k "faces"); reflexivity. }
  destruct (getitem_run_stdout yellow self keys world_at_import [] Hst)
    as [H1 H2].
  split; [|exact H2].
  rewrite H1. cbn [world_at_import stdout app existsb negb].
  f_equal. clear. induction (first_occurrences _) as [|x l IH];
    [reflexivity|]. cbn [filter]. now rewrite IH.
Qed.

(* ------------------------------------------------------------------ *)
(** ** The OBJ codec: what can be read *)

Lemma obj_line_outcome re_match parse_float32 (acc : obj_lists) (raw : string) :
  if obj_line_skipped raw
  then obj_line re_match parse_float32 acc raw = Ok acc
  else obj_line re_match parse_float32 acc raw = Raise (NameError "re")
       \/ obj_line re_match parse_float32 acc raw = Raise IndexError.
Proof.
  unfold obj_line_skipped.
  destruct (strip raw) as [|c rest] eqn:E.
  - unfold obj_line. now rewrite E.
  - destruct (Ascii.eqb c "#") eqn:E1.
    + unfold obj_line. now rewrite E, E1.
    + destruct (Ascii.eqb_spec c "f") as [->|E2].
      * left. now apply (obj_line_face _ _ _ _ rest).
      * destruct (Ascii.eqb_spec c "v") as [->|E3].
        -- destruct rest as [|c1 rest].
           ++ right. unfold obj_line. now rewrite E.
           ++ destruct (Ascii.eqb_spec c1 "t") as [->|E4].
              ** unfold obj_line. now rewrite E.
              ** left. now apply (obj_line_vertex _ _ _ _ c1 rest).
        -- unfold obj_line. rewrite E, E1.
           apply Ascii.eqb_neq in E2, E3. now rewrite E2, E3.
Qed.

Lemma obj_lines_outcome re_match parse_float32 (acc : obj_lists)
    (lines : list string) :
  if forallb obj_line_skipped lines
  then obj_lines re_match parse_float32 acc lines = Ok acc
  else obj_lines re_match parse_float32 acc lines = Raise (NameError "re")
       \/ obj_lines re_match parse_float32 acc lines = Raise IndexError.
Proof.
  induction lines as [|l lines IH]; [reflexivity|].
  cbn [forallb obj_lines].
  pose proof (obj_line_outcome re_match parse_float32 acc l) as Hl.
  destruct (obj_line_skipped l); cbn [andb].
  - rewrite Hl. cbn [bind]. exact IH.
  - destruct Hl as [-> | ->]; [left|right]; reflexivity.
Qed.

(** X16.  What [from_obj] can read of an ASCII text, whatever the regular
    expression matcher and the float parser are.  A text all of whose
    lines are passed over (blank lines, comments, [vt] lines, lines that
    begin with neither [f] nor [v]) gives the mesh of three 1-d arrays of
    length 0; any other text raises NameError for the name [re], or
    IndexError at a line that is the single letter [v].  So [from_obj]
    never returns a mesh that has a vertex, a face or a normal. *)
Theorem from_obj_reads_no_geometry
    (re_match : string -> string -> option (list string))
    (parse_float32 : string -> result float32) (text : string)
    (Hascii : is_ascii_text text = true) :
  (forallb obj_line_skipped (split_lines text) = true ->
   Mesh_from_obj re_match parse_float32 text
   = Ok (mkMesh (NdArray [0%nat] []) (NdArray [0%nat] []) (NdArray [0%nat] [])
                None EncNone None))
  /\ (forallb obj_line_skipped (split_lines text) = false ->
      Mesh_from_obj re_match parse_float32 text = Raise (NameError "re")
      \/ Mesh_from_obj re_match parse_float32 text = Raise IndexError)
  /\ (forall m, Mesh_from_obj re_match parse_float32 text = Ok m ->
        data (vertices m) = [] /\ data (faces m) = []
        /\ data (normals m) = []).
Proof.
  pose proof (obj_lines_outcome re_match parse_float32 (mkObjLists [] [] [])
                (split_lines text)) as H.
  unfold Mesh_from_obj.
  destruct (forallb obj_line_skipped (split_lines text)).
  - rewrite H. cbn [bind]. split; [reflexivity|].
    split; [discriminate|]. intros m Hm. injection Hm as <-.
    repeat split.
  - split; [discriminate|].
    split; [intros _; destruct H as [-> | ->]; [left|right]; reflexivity|].
    intros m Hm. destruct H as [H|H]; rewrite H in Hm; discriminate.
Qed.

Lemma from_obj_reads_no_geometry_witness :
  Mesh_from_obj (fun _ _ => None) (fun _ => Raise ValueError)
    "# two comments
# and a vertex
v 1 2 3
"%string
  = Raise (NameError "re").
Proof.
  destruct (proj1 (proj2 (from_obj_reads_no_geometry
                            (fun _ _ => None) (fun _ => Raise ValueError)
                            "# two comments
# and a vertex
v 1 2 3
"%string eq_refl)) eq_refl) as [H|H].
  - exact H.
  - vm_compute in H. discriminate.
Defined.

(* ------------------------------------------------------------------ *)
(** ** The OBJ codec: the lines that are written *)

Local Open Scope string_scope.

Lemma contains_char_app (c : ascii) (a b : string) :
  contains_char c (a ++ b) = contains_char c a || contains_char c b.
Proof.
  induction a as [|x a IH]; [reflexivity|]. cbn [append contains_char].
  now rewrite IH, orb_assoc.
Qed.

Lemma uint_no_newline (d : Decimal.uint) :
  contains_char (ascii_of_nat 10) (DecimalString.NilEmpty.string_of_uint d)
  = false.
Proof. induction d; cbn; assumption || reflexivity. Qed.

Lemma dec_string_no_newline (n : Z) :
  contains_char (ascii_of_nat 10) (dec_string n) = false.
Proof.
  unfold dec_string, DecimalString.NilZero.string_of_uint.
  destruct (N.to_uint (Z.to_N n)) eqn:E; try reflexivity;
    rewrite <- E; apply uint_no_newline.
Qed.

Lemma drop_first_no_newline (s : string) :
  contains_char (ascii_of_nat 10) s = false ->
  contains_char (ascii_of_nat 10) (drop_first s) = false.
Proof.
  destruct s as [|c s]; [reflexivity|]. cbn [contains_char drop_first].
  intros H. apply orb_false_iff in H. apply H.
Qed.

Lemma format_5f_no_newline (b : float32) :
  contains_char (ascii_of_nat 10) (format_5f b) = false.
Proof.
  unfold format_5f. destruct (f32_value b) as [s|s| |s m e].
  - destruct s; reflexivity.
  - destruct s; reflexivity.
  - reflexivity.
  - rewrite !contains_char_app, dec_string_no_newline.
    rewrite drop_first_no_newline by apply dec_string_no_newline.
    destruct s; reflexivity.
Qed.

Lemma obj_vertex_line_no_newline (row : list float32) :
  contains_char (ascii_of_nat 10) (obj_vertex_line row) = false.
Proof.
  unfold obj_vertex_line.
  rewrite !contains_char_app, !format_5f_no_newline. reflexivity.
Qed.

Lemma obj_face_line_no_newline (row : list uint32) :
  contains_char (ascii_of_nat 10) (obj_face_line row) = false.
Proof.
  unfold obj_face_line.
  rewrite !contains_char_app, !dec_string_no_newline. reflexivity.
Qed.

Lemma append_assoc (a b c : string) : (a ++ b) ++ c = a ++ (b ++ c).
Proof. induction a as [|x a IH]; [reflexivity|]. cbn. now rewrite IH. Qed.

Lemma append_nil_r (a : string) : a ++ "" = a.
Proof. induction a as [|x a IH]; [reflexivity|]. cbn. now rewrite IH. Qed.

(** [split] cuts at the first newline. *)
Lemma split_lines_from_app (cur s rest : string) :
  contains_char (ascii_of_nat 10) s = false ->
  split_lines_from cur (s ++ String (ascii_of_nat 10) rest)
  = (cur ++ s) :: split_lines_from "" rest.
Proof.
  revert cur. induction s as [|c s IH]; intros cur H.
  - cbn [append split_lines_from]. rewrite Ascii.eqb_refl.
    now rewrite append_nil_r.
  - cbn [contains_char] in H. apply orb_false_iff in H. destruct H as [Hc Hs].
    cbn [append split_lines_from].
    rewrite Ascii.eqb_sym, Hc, IH by exact Hs.
    rewrite append_assoc. reflexivity.
Qed.

Lemma split_lines_join (ls : list string) :
  ls <> [] ->
  Forall (fun l => contains_char (ascii_of_nat 10) l = false) ls ->
  split_lines (join newline ls ++ newline) = (ls ++ [""])%list.
Proof.
  intros Hne Hall. unfold split_lines.
  induction Hall as [|x ls Hx Hall IH]; [congruence|].
  destruct ls as [|y ls].
  - cbn [join app]. unfold newline.
    rewrite split_lines_from_app by exact Hx. reflexivity.
  - change (join newline (x :: y :: ls))
      with (x ++ newline ++ join newline (y :: ls)).
    rewrite !append_assoc. unfold newline at 1.
    change (String (ascii_of_nat 10) "" ++ ?r) with (String (ascii_of_nat 10) r).
    rewrite split_lines_from_app by exact Hx.
    cbn [app]. f_equal. apply IH. discriminate.
Qed.

Lemma mapM_format_vertex (rs : list (list float32)) :
  Forall (fun r => length r = 3%nat) rs ->
  mapM format_vertex rs = Ok (map obj_vertex_line rs).
Proof.
  intros H. apply mapM_ok. intros r Hr. rewrite Forall_forall in H.
  specialize (H r Hr). destruct r as [|x [|y [|z [|? ?]]]]; try discriminate.
  reflexivity.
Qed.

Lemma mapM_format_face (rs : list (list uint32)) :
  Forall (fun r => length r = 3%nat) rs ->
  mapM format_face (map (map (fun f => wrap32 (f + 1))) rs)
  = Ok (map obj_face_line rs).
Proof.
  intros H.
  induction H as [|r rs Hr _ IH]; [reflexivity|].
  cbn [map mapM]. rewrite IH.
  destruct r as [|x [|y [|z [|? ?]]]]; try discriminate. reflexivity.
Qed.

(** X17.  On a mesh of the data model [to_obj] writes one line per
    vertex, "v x y z" with five decimals, then one line per face, "f a b
    c" with the ids counted from 1 (in uint32 arithmetic), every line
    ended by a newline: splitting the text at the newlines gives back
    these lines and an empty last piece.  A mesh without vertices and
    faces is written as a single newline. *)
Theorem to_obj_writes_one_line_per_row (m : Mesh) (Hok : mesh_ok m) :
  let lines := (map obj_vertex_line (rows (vertices m))
                ++ map obj_face_line (rows (faces m)))%list in
  Mesh_to_obj m = Ok (join newline lines ++ newline)
  /\ length lines = (num_vertices m + num_faces m)%nat
  /\ (lines <> [] ->
      split_lines (join newline lines ++ newline) = (lines ++ [""])%list)
  /\ (lines = [] -> join newline lines ++ newline = newline).
Proof.
  destruct Hok as [[N Hvs] [M Hfs] _ Hvw Hfw _ _].
  cbv zeta. split; [|split; [|split]].
  - unfold Mesh_to_obj, iter_rows. rewrite Hvs. cbn [bind].
    rewrite mapM_format_vertex by (now apply (rows_width N 3)).
    cbn [bind].
    change (shape (np_array (fun f => wrap32 (f + 1)) (faces m)))
      with (shape (faces m)).
    rewrite Hfs, rows_np_array. cbn [bind].
    rewrite mapM_format_face by (now apply (rows_width M 3)).
    reflexivity.
  - rewrite length_app, !length_map. reflexivity.
  - intros Hne. apply split_lines_join; [exact Hne|].
    apply Forall_app. split; apply Forall_forall; intros l Hl;
      apply in_map_iff in Hl; destruct Hl as (r & <- & _).
    + apply obj_vertex_line_no_newline.
    + apply obj_face_line_no_newline.
  - intros ->. reflexivity.
Qed.

Local Close Scope string_scope.

Lemma to_obj_writes_one_line_per_row_witness :
  exists text,
    Mesh_to_obj two_tiles = Ok text
    /\ length (split_lines text)
       = S (num_vertices two_tiles + num_faces two_tiles).
Proof.
  destruct (to_obj_writes_one_line_per_row two_tiles two_tiles_ok)
    as (Ht & Hl & Hs & _).
  eexists. split; [exact Ht|].
  rewrite Hs by (vm_compute; discriminate).
  rewrite length_app, Hl. cbn [length]. lia.
Defined.

(* ------------------------------------------------------------------ *)
(** ** The PLY writer *)

Lemma tobytes_counted (rs : list (list Z)) :
  flat_map le32_bytes (concat (map (fun block => repeat 3 1 ++ block) rs))
  = flat_map ply_face_record rs.
Proof.
  induction rs as [|r rs IH]; [reflexivity|].
  cbn [map concat]. rewrite flat_map_app, IH. reflexivity.
Qed.

Lemma length_ply_records (rs : list (list Z)) :
  Forall (fun r => length r = 3%nat) rs ->
  length (flat_map ply_face_record rs) = (16 * length rs)%nat.
Proof.
  induction 1 as [|r rs Hr _ IH]; [reflexivity|].
  cbn [flat_map length]. rewrite length_app, IH.
  unfold ply_face_record. rewrite length_app.
  change (flat_map le32_bytes r) with (tobytes (NdArray [] r)).
  fold (tobytes (NdArray [] r)).
  unfold tobytes at 1. cbn [data]. rewrite length_tobytes, Hr.
  cbn [length le32_bytes]. lia.
Qed.

(** X18.  For a mesh of the data model with N vertices and M faces
    [to_ply] returns the header, which names N and M in decimal, followed
    by the 12 N bytes of the vertex array and by one 16-byte record per
    face: the count 3 and the three vertex ids, each a little-endian 32-bit
    word.  A mesh whose face array is 1-d, such as the one [consolidate]
    makes of an empty mesh, cannot be written: [to_ply] raises AxisError. *)
Theorem to_ply_layout (m : Mesh) :
  (mesh_ok m ->
   Mesh_to_ply m
   = Returns (list_byte_of_string (ply_header (num_vertices m) (num_faces m))
              ++ tobytes (vertices m)
              ++ flat_map ply_face_record (rows (faces m)))
   /\ length (tobytes (vertices m)) = (12 * num_vertices m)%nat
   /\ length (flat_map ply_face_record (rows (faces m)))
      = (16 * num_faces m)%nat)
  /\ (forall c, Mesh_empty m = true -> Mesh_consolidate m = Ok c ->
      Mesh_to_ply c = Raises AxisError).
Proof.
  split.
  - intros [[N Hvs] [M Hfs] _ Hvw Hfw _ _].
    assert (HN : num_vertices m = N) by (apply (rows_length N 3), Hvs).
    assert (HM : num_faces m = M) by (apply (rows_length M 3), Hfs).
    split; [|split].
    + unfold Mesh_to_ply, shape0, np_insert_axis1. rewrite Hvs, Hfs.
      cbn [of_result outcome_bind]. rewrite HN, HM.
      unfold tobytes at 2. cbn [data numel fold_right].
      change (3 * 1)%nat with 3%nat.
      rewrite tobytes_counted. unfold rows. rewrite Hfs.
      change (numel [3%nat]) with 3%nat. now rewrite <- app_assoc.
    + unfold tobytes. rewrite length_tobytes, Hvw, Hvs, HN.
      cbn [numel fold_right]. lia.
    + rewrite length_ply_records by (now apply (rows_width M 3)).
      reflexivity.
  - intros c He Hc. unfold Mesh_consolidate in Hc. rewrite He in Hc.
    assert (E : c = Mesh_init empty_list_array empty_list_array None None
                              EncNone None) by congruence.
    rewrite E. reflexivity.
Qed.

(* ------------------------------------------------------------------ *)
(** ** Equality of meshes of different sizes *)

Lemma np_all_eq_same_shape {A} (eqb : A -> A -> bool) (a b : ndarray A) :
  shape a = shape b -> array_wf a -> array_wf b ->
  np_all_eq eqb a b = Ok (forallb2 eqb (data a) (data b)).
Proof.
  intros Hs Ha Hb. unfold np_all_eq. rewrite <- Hs, broadcast_shapes_same.
  rewrite (broadcast_to_same a Ha). rewrite Hs, (broadcast_to_same b Hb).
  reflexivity.
Qed.

Lemma np_all_eq_mismatch {A} (eqb : A -> A -> bool) (a b : ndarray A)
    (n n' w : nat) :
  shape a = [n; w] -> shape b = [n'; w] ->
  n <> n' -> n <> 1%nat -> n' <> 1%nat ->
  np_all_eq eqb a b = Raise ValueError.
Proof.
  intros Ha Hb Hn H1 H1'. unfold np_all_eq, broadcast_shapes.
  rewrite Ha, Hb. cbn [length Nat.max pad_to Nat.sub pad_ones broadcast_dims].
  rewrite Nat.eqb_refl.
  apply Nat.eqb_neq in Hn, H1, H1'. now rewrite Hn, H1, H1'.
Qed.

Lemma forallb2_app {A} (f : A -> A -> bool) (l1 l2 d : list A) :
  (length l1 <= length d)%nat ->
  forallb2 f (l1 ++ l2) d
  = forallb2 f l1 (firstn (length l1) d)
    && forallb2 f l2 (skipn (length l1) d).
Proof.
  revert d. induction l1 as [|x l1 IH]; intros d Hd.
  - cbn. now destruct l2.
  - destruct d as [|y d]; [cbn in Hd; lia|].
    cbn [app forallb2 length firstn skipn]. rewrite IH by (cbn in Hd; lia).
    now rewrite andb_assoc.
Qed.

Lemma forallb2_repeated {A} (f : A -> A -> bool) (r : list A) (n : nat)
    (d : list A) :
  length d = (n * length r)%nat ->
  forallb2 f (concat (repeat r n)) d
  = forallb (forallb2 f r) (chunks n (length r) d).
Proof.
  revert d. induction n as [|n IH]; intros d Hd.
  - reflexivity.
  - cbn [repeat concat chunks forallb].
    rewrite forallb2_app by lia. f_equal. apply IH.
    rewrite length_skipn. lia.
Qed.

Lemma expand_one_row {A} (n w : nat) (d : list A) :
  n <> 1%nat -> length d = w ->
  expand [n; w] [1%nat; w] d = concat (repeat d n).
Proof.
  intros Hn Hd.
  transitivity (concat (repeat (expand [w] [w] d) n)).
  - assert (E1 : (1 =? n)%nat = false) by (apply Nat.eqb_neq; lia).
    cbn [expand]. rewrite E1. reflexivity.
  - rewrite (expand_same [w]) by (cbn [numel fold_right]; lia). reflexivity.
Qed.

(** One row against an array of [n] rows. *)
Lemma np_all_eq_one_row {A} (eqb : A -> A -> bool) (a b : ndarray A)
    (n w : nat) :
  shape a = [1%nat; w] -> shape b = [n; w] -> array_wf a -> array_wf b ->
  np_all_eq eqb a b = Ok (forallb (forallb2 eqb (data a)) (rows b)).
Proof.
  intros Ha Hb Hwa Hwb.
  assert (La : length (data a) = w).
  { unfold array_wf in Hwa. rewrite Ha in Hwa. cbn in Hwa. lia. }
  assert (Lb : length (data b) = (n * w)%nat).
  { unfold array_wf in Hwb. rewrite Hb in Hwb. cbn in Hwb. lia. }
  assert (Er : rows b = chunks n w (data b)).
  { unfold rows. rewrite Hb. cbn [numel fold_right]. now rewrite Nat.mul_1_r. }
  destruct (Nat.eq_dec n 1) as [->|Hn].
  - rewrite np_all_eq_same_shape by (assumption || congruence).
    rewrite Er. cbn [chunks forallb]. rewrite andb_true_r.
    rewrite firstn_all2 by lia. reflexivity.
  - unfold np_all_eq, broadcast_shapes. rewrite Ha, Hb.
    cbn [length Nat.max pad_to Nat.sub pad_ones broadcast_dims].
    rewrite Nat.eqb_refl.
    assert (E1 : (1 =? n)%nat = false) by (apply Nat.eqb_neq; lia).
    rewrite E1. cbn [Nat.eqb].
    unfold broadcast_to. rewrite Ha, Hb.
    cbn [length pad_to Nat.sub pad_ones shape].
    rewrite (expand_same [n; w]) by (cbn [numel fold_right]; lia).
    rewrite (expand_one_row n w) by (assumption || lia).
    subst w. rewrite forallb2_repeated by lia.
    rewrite Er. reflexivity.
Qed.

(** X19.  Mesh equality does not compare sizes.  For two meshes of the
    data model without normals: with the same numbers of vertices and
    faces, the answer is whether all coordinates are [==] and all face
    entries are the same; a mesh of one vertex and one face is compared
    with every vertex and every face of the other mesh, so that it equals
    a mesh that repeats its vertex and its face any number of times, and the
    mesh without vertices and faces. *)
Theorem equality_compares_elementwise_and_broadcasts (a b : Mesh)
    (Ha : mesh_ok a) (Hb : mesh_ok b)
    (Hna : size (normals a) = 0%nat) (Hnb : size (normals b) = 0%nat) :
  (num_vertices a = num_vertices b -> num_faces a = num_faces b ->
   Mesh_eq a b
   = Ok (forallb2 f32_eqb (data (vertices a)) (data (vertices b))
         && forallb2 Z.eqb (data (faces a)) (data (faces b))))
  /\ (num_vertices a = 1%nat -> num_faces a = 1%nat ->
      Mesh_eq a b
      = Ok (forallb (forallb2 f32_eqb (data (vertices a))) (rows (vertices b))
            && forallb (forallb2 Z.eqb (data (faces a))) (rows (faces b))))
  /\ (num_vertices a = 1%nat -> num_faces a = 1%nat ->
      num_vertices b = 0%nat -> num_faces b = 0%nat ->
      Mesh_eq a b = Ok true).
Proof.
  destruct Ha as [[N Hvs] [M Hfs] _ Hvw Hfw _ _].
  destruct Hb as [[N' Hvs'] [M' Hfs'] _ Hvw' Hfw' _ _].
  pose proof (rows_length N 3 _ Hvs) as HN.
  pose proof (rows_length M 3 _ Hfs) as HM.
  pose proof (rows_length N' 3 _ Hvs') as HN'.
  pose proof (rows_length M' 3 _ Hfs') as HM'.
  fold (num_vertices a) in HN. fold (num_faces a) in HM.
  fold (num_vertices b) in HN'. fold (num_faces b) in HM'.
  assert (Hone : num_vertices a = 1%nat -> num_faces a = 1%nat ->
      Mesh_eq a b
      = Ok (forallb (forallb2 f32_eqb (data (vertices a))) (rows (vertices b))
            && forallb (forallb2 Z.eqb (data (faces a))) (rows (faces b)))).
  { intros E1 E2. unfold Mesh_eq. rewrite Hna, Hnb. cbn [Nat.eqb Bool.eqb negb].
    rewrite (np_all_eq_one_row f32_eqb _ _ N' 3) by congruence.
    rewrite (np_all_eq_one_row Z.eqb _ _ M' 3) by congruence.
    cbn [bind].
    now destruct (forallb (forallb2 f32_eqb (data (vertices a)))
                    (rows (vertices b))). }
  split; [|split].
  - intros E1 E2. unfold Mesh_eq. rewrite Hna, Hnb.
    cbn [Nat.eqb Bool.eqb negb].
    rewrite (np_all_eq_same_shape f32_eqb) by (assumption || congruence).
    rewrite (np_all_eq_same_shape Z.eqb) by (assumption || congruence).
    cbn [bind].
    now destruct (forallb2 f32_eqb (data (vertices a)) (data (vertices b))).
  - exact Hone.
  - intros E1 E2 E3 E4. rewrite Hone by assumption.
    unfold num_vertices in E3. unfold num_faces in E4.
    apply length_zero_iff_nil in E3, E4. rewrite E3, E4. reflexivity.
Qed.

Lemma equality_broadcasts_witness :
  Mesh_eq (Mesh_init (NdArray [1%nat; 3%nat] [0; 0; 0])
             (NdArray [1%nat; 3%nat] [0; 0; 0]) None None EncNone None)
          (Mesh_init (NdArray [0%nat; 3%nat] [])
             (NdArray [0%nat; 3%nat] []) None None EncNone None)
  = Ok true.
Proof.
  refine (proj2 (proj2 (equality_compares_elementwise_and_broadcasts
                          _ _ _ _ _ _)) _ _ _ _);
    try reflexivity.
  - constructor; cbn; eauto; repeat constructor; cbv; intuition congruence.
  - constructor; cbn; eauto; repeat constructor.
Defined.

(** X20.  Where the sizes of two meshes of the data model do not fit,
    equality gives no answer: when the numbers of vertices differ and
    neither is 1 the comparison raises ValueError; when the vertex arrays
    are the same size and all coordinates are [==] but the numbers of
    faces differ and neither is 1 it raises ValueError as well; when some
    coordinate differs the answer is False and the faces are not looked
    at. *)
Theorem equality_of_unfitting_sizes (a b : Mesh)
    (Ha : mesh_ok a) (Hb : mesh_ok b)
    (Hna : size (normals a) = 0%nat) (Hnb : size (normals b) = 0%nat) :
  (num_vertices a <> num_vertices b ->
   num_vertices a <> 1%nat -> num_vertices b <> 1%nat ->
   Mesh_eq a b = Raise ValueError)
  /\ (num_vertices a = num_vertices b ->
      forallb2 f32_eqb (data (vertices a)) (data (vertices b)) = true ->
      num_faces a <> num_faces b ->
      num_faces a <> 1%nat -> num_faces b <> 1%nat ->
      Mesh_eq a b = Raise ValueError)
  /\ (num_vertices a = num_vertices b ->
      forallb2 f32_eqb (data (vertices a)) (data (vertices b)) = false ->
      Mesh_eq a b = Ok false).
Proof.
  destruct Ha as [[N Hvs] [M Hfs] _ Hvw Hfw _ _].
  destruct Hb as [[N' Hvs'] [M' Hfs'] _ Hvw' Hfw' _ _].
  pose proof (rows_length N 3 _ Hvs) as HN.
  pose proof (rows_length M 3 _ Hfs) as HM.
  pose proof (rows_length N' 3 _ Hvs') as HN'.
  pose proof (rows_length M' 3 _ Hfs') as HM'.
  fold (num_vertices a) in HN. fold (num_faces a) in HM.
  fold (num_vertices b) in HN'. fold (num_faces b) in HM'.
  split; [|split].
  - intros E1 E2 E3. unfold Mesh_eq. rewrite Hna, Hnb.
    cbn [Nat.eqb Bool.eqb negb].
    rewrite (np_all_eq_mismatch f32_eqb _ _ N N' 3) by congruence.
    reflexivity.
  - intros E1 Hv E2 E3 E4. unfold Mesh_eq. rewrite Hna, Hnb.
    cbn [Nat.eqb Bool.eqb negb].
    rewrite (np_all_eq_same_shape f32_eqb) by (assumption || congruence).
    rewrite Hv. cbn [bind].
    rewrite (np_all_eq_mismatch Z.eqb _ _ M M' 3) by congruence.
    reflexivity.
  - intros E1 Hv. unfold Mesh_eq. rewrite Hna, Hnb.
    cbn [Nat.eqb Bool.eqb negb].
    rewrite (np_all_eq_same_shape f32_eqb) by (assumption || congruence).
    rewrite Hv. reflexivity.
Qed.

Lemma equality_of_unfitting_sizes_witness :
  Mesh_eq tile1 two_tiles = Raise ValueError.
Proof.
  refine (proj1 (equality_of_unfitting_sizes tile1 two_tiles tile1_ok
                   two_tiles_ok _ _) _ _ _);
    try reflexivity; vm_compute; discriminate.
Defined.

(* ------------------------------------------------------------------ *)
(** ** The Draco adapter *)

Section FromDracoFacts.
Context {pyfloat : Type}.
Variable astype_float32 : pyfloat -> float32.
Variable decode_buffer_to_mesh :
  list byte -> outcome (DracoPy.mesh_object pyfloat).

Local Open Scope string_scope.

Lemma reshape_triples {A} (l : list A) :
  (length l mod 3 = 0)%nat ->
  reshape [(length l / 3)%nat; 3%nat] (array_of_list l)
  = Ok (NdArray [(length l / 3)%nat; 3%nat] l).
Proof.
  intros Hm. unfold reshape, size, array_of_list. cbn [shape data numel fold_right].
  assert (E : (length l / 3 * (3 * 1) =? length l * 1)%nat = true).
  { apply Nat.eqb_eq. pose proof (Nat.div_mod_eq (length l) 3). lia. }
  now rewrite E.
Qed.

(** X21.  [from_draco] returns a mesh exactly when the decoder returns
    and the numbers of decoded coordinates and of decoded vertex ids are
    both multiples of 3.  The mesh is then in the data model: the
    coordinates and the ids in the decoder's order, three to a row, the
    ids reduced to uint32, no normals, no segment id, encoding "draco" and
    the decoder's options; the ids are not checked against the number of
    vertices.  Otherwise MeshDecodeError is raised: for a ValueError of the
    decoder; for coordinates that are not triples, whatever the faces; for
    ids that are not triples.  Any other exception of the decoder is passed
    on. *)
Theorem from_draco_outcomes (binary : list byte) :
  (forall o, decode_buffer_to_mesh binary = Returns o ->
     (length (DracoPy.points o) mod 3 = 0)%nat ->
     (length (DracoPy.faces o) mod 3 = 0)%nat ->
     exists m,
       Mesh_from_draco pyfloat astype_float32 decode_buffer_to_mesh binary
       = Returns m
       /\ mesh_ok m
       /\ vertices m = NdArray [(length (DracoPy.points o) / 3)%nat; 3%nat]
                         (map astype_float32 (DracoPy.points o))
       /\ faces m = NdArray [(length (DracoPy.faces o) / 3)%nat; 3%nat]
                      (map wrap32 (DracoPy.faces o))
       /\ size (normals m) = 0%nat
       /\ segid m = None
       /\ encoding_type m = EncTag "draco"
       /\ encoding_options m = DracoPy.encoding_options o)
  /\ (forall o, decode_buffer_to_mesh binary = Returns o ->
        (length (DracoPy.points o) mod 3 <> 0)%nat ->
        Mesh_from_draco pyfloat astype_float32 decode_buffer_to_mesh binary
        = Raises (MeshDecodeErrorText
                    ("Mesh vertices not 3D. Cannot decode. Num. vertices: "
                     ++ dec_string (Z.of_nat (length (DracoPy.points o))))))
  /\ (forall o, decode_buffer_to_mesh binary = Returns o ->
        (length (DracoPy.points o) mod 3 = 0)%nat ->
        (length (DracoPy.faces o) mod 3 <> 0)%nat ->
        Mesh_from_draco pyfloat astype_float32 decode_buffer_to_mesh binary
        = Raises (MeshDecodeErrorText
                    ("Faces are not sets of triples. Cannot decode. Num. faces: "
                     ++ dec_string (Z.of_nat (length (DracoPy.faces o))))))
  /\ (decode_buffer_to_mesh binary = Raises (Builtin ValueError) ->
      Mesh_from_draco pyfloat astype_float32 decode_buffer_to_mesh binary
      = Raises (MeshDecodeErrorText "Not a valid draco mesh."))
  /\ (forall e, decode_buffer_to_mesh binary = Raises e ->
        e <> Builtin ValueError ->
        Mesh_from_draco pyfloat astype_float32 decode_buffer_to_mesh binary
        = Raises e).
Proof.
  unfold Mesh_from_draco.
  split; [|split; [|split; [|split]]].
  - intros o -> Hp Hf.
    cbn [np_array array_of_list shape data shape0 of_result outcome_bind].
    apply Nat.eqb_eq in Hp as Hp'. apply Nat.eqb_eq in Hf as Hf'.
    rewrite Hp', Hf'. cbn [negb].
    pose proof (reshape_triples (map astype_float32 (DracoPy.points o))) as Rv.
    pose proof (reshape_triples (map wrap32 (DracoPy.faces o))) as Rf.
    rewrite !length_map in Rv, Rf. unfold array_of_list in Rv, Rf.
    rewrite !length_map in Rv, Rf.
    unfold np_array, array_of_list. cbn [shape data].
    rewrite (Rv Hp), (Rf Hf). cbn [of_result outcome_bind].
    eexists. split; [reflexivity|].
    unfold Mesh_init, np_array.
    cbn [vertices faces normals segid encoding_type encoding_options shape data].
    rewrite map_id, map_map.
    rewrite (map_ext (fun x => wrap32 (wrap32 x)) wrap32)
      by (intros; apply wrap32_idem).
    split; [|repeat split].
    constructor;
      cbn [vertices faces normals shape data]; unfold array_wf;
      cbn [shape data numel fold_right length]; eauto.
    + rewrite length_map. pose proof (Nat.div_mod_eq (length (DracoPy.points o)) 3).
      lia.
    + rewrite length_map. pose proof (Nat.div_mod_eq (length (DracoPy.faces o)) 3).
      lia.
    + apply Forall_forall. intros x Hx. apply in_map_iff in Hx.
      destruct Hx as (y & <- & _). apply wrap32_range.
  - intros o -> Hp.
    cbn [np_array array_of_list shape data shape0 of_result outcome_bind].
    rewrite ?length_map. apply Nat.eqb_neq in Hp. now rewrite Hp.
  - intros o -> Hp Hf.
    cbn [np_array array_of_list shape data shape0 of_result outcome_bind].
    rewrite ?length_map. apply Nat.eqb_eq in Hp. apply Nat.eqb_neq in Hf.
    now rewrite Hp, Hf.
  - intros ->. reflexivity.
  - intros e -> He. destruct e as [[]| | |]; try reflexivity. congruence.
Qed.

Local Close Scope string_scope.

End FromDracoFacts.
